(** * BrandGuard: brand-compliance decision core

    A shallow embedding of the colour codec, contrast engine, brand-kit
    validator, violation classifier, fix-suggestion engine and the
    fix-all / undo-all snapshot handling of the BrandGuard add-on
    (ui/utils/colors.ts, brandConfig.ts, hooks/useBrandKit.ts and
    ui/components/App.tsx), together with the properties of these
    functions.

    Modelling conventions.
    - A JavaScript string is a [string] of 8-bit characters; case mapping
      and whitespace are the ASCII ones (the code only ever inspects hex
      digits, ['#'], separators and font names).
    - [string | null] is [option string]; JavaScript truthiness of such a
      value is [truthy].
    - A JavaScript number that the code only uses as a small integer
      (colour channels, indices, lengths) is a [Z] or a [nat].  The health
      score is computed in IEEE 754 doubles ([Double]), as the code
      computes it.  Luminances, contrast ratios and colour distances are
      reals ([R]) read exactly: the code only compares them with each
      other and with fixed thresholds.  Comparisons on reals are the
      boolean tests [Rleb] and [Rltb]. *)

From Stdlib Require Import Bool List ZArith Lia Ascii String DecimalString.
From Stdlib Require Import Reals Lra.
From Stdlib Require SpecFloat.
Import ListNotations.

Open Scope string_scope.
Open Scope Z_scope.

(* ================================================================== *)
(** ** JavaScript strings *)
(* ================================================================== *)

Module JS.

(** White space removed by [String.prototype.trim] (ASCII part):
    TAB, LF, VT, FF, CR and SPACE. *)
Definition isWhiteSpace (c : ascii) : bool :=
  let n := nat_of_ascii c in
  ((9 <=? n)%nat && (n <=? 13)%nat) || (n =? 32)%nat.

Fixpoint trimStart (s : string) : string :=
  match s with
  | EmptyString => EmptyString
  | String c s' => if isWhiteSpace c then trimStart s' else s
  end.

Fixpoint trimEnd (s : string) : string :=
  match s with
  | EmptyString => EmptyString
  | String c s' =>
      match trimEnd s' with
      | EmptyString =>
          if isWhiteSpace c then EmptyString else String c EmptyString
      | t => String c t
      end
  end.

Definition trim (s : string) : string := trimEnd (trimStart s).

Definition upperChar (c : ascii) : ascii :=
  let n := nat_of_ascii c in
  if ((97 <=? n)%nat && (n <=? 122)%nat)%bool
  then ascii_of_nat (n - 32) else c.

Definition lowerChar (c : ascii) : ascii :=
  let n := nat_of_ascii c in
  if ((65 <=? n)%nat && (n <=? 90)%nat)%bool
  then ascii_of_nat (n + 32) else c.

Fixpoint mapChars (f : ascii -> ascii) (s : string) : string :=
  match s with
  | EmptyString => EmptyString
  | String c s' => String (f c) (mapChars f s')
  end.

Definition toUpperCase : string -> string := mapChars upperChar.
Definition toLowerCase : string -> string := mapChars lowerChar.

Definition startsWith (s p : string) : bool := String.prefix p s.

(** [s.slice(a, b)] for [0 <= a <= b]. *)
Definition slice (a b : nat) (s : string) : string :=
  String.substring a (b - a) s.

(** [s.substring(1)]. *)
Definition substring1 (s : string) : string :=
  match s with
  | EmptyString => EmptyString
  | String _ s' => s'
  end.

(** [s.replace(/^#/, '')]. *)
Definition stripLeadingHash (s : string) : string :=
  match s with
  | String "#"%char s' => s'
  | _ => s
  end.

(** [s.replace('#', '')]: the first occurrence only. *)
Fixpoint removeFirstHash (s : string) : string :=
  match s with
  | EmptyString => EmptyString
  | String c s' =>
      if Ascii.eqb c "#"%char then s' else String c (removeFirstHash s')
  end.

Definition isHexDigit (c : ascii) : bool :=
  let n := nat_of_ascii c in
  ((48 <=? n)%nat && (n <=? 57)%nat)
  || ((65 <=? n)%nat && (n <=? 70)%nat)
  || ((97 <=? n)%nat && (n <=? 102)%nat).

Fixpoint allChars (p : ascii -> bool) (s : string) : bool :=
  match s with
  | EmptyString => true
  | String c s' => p c && allChars p s'
  end.

(** [/^[0-9A-Fa-f]+$/.test(s)]. *)
Definition isHexString (s : string) : bool :=
  match s with
  | EmptyString => false
  | _ => allChars isHexDigit s
  end.

(** Truthiness of a [string | null | undefined] value. *)
Definition truthy (o : option string) : bool :=
  match o with
  | Some (String _ _) => true
  | _ => false
  end.

End JS.

(* ================================================================== *)
(** ** ui/utils/colors.ts : normalisation *)
(* ================================================================== *)

Definition toHex6 (hex : option string) : option string :=
  match hex with
  | None => None
  | Some EmptyString => None
  | Some h =>
      let clean := JS.stripLeadingHash (JS.trim h) in
      if negb (JS.isHexString clean) then None
      else if (String.length clean =? 6)%nat then
        Some ("#" ++ JS.toUpperCase clean)
      else if (String.length clean =? 8)%nat then
        let firstSix := JS.slice 0 6 clean in
        let middleSix := JS.slice 2 8 clean in
        if String.eqb (JS.toUpperCase firstSix) "000000"
        then Some ("#" ++ JS.toUpperCase middleSix)
        else Some ("#" ++ JS.toUpperCase firstSix)
      else None
  end.

(* ================================================================== *)
(** ** JavaScript numbers used as integers *)
(* ================================================================== *)

Module JSNum.

Definition hexDigitValue (c : ascii) : option Z :=
  let n := Z.of_nat (nat_of_ascii c) in
  if (48 <=? n) && (n <=? 57) then Some (n - 48)
  else if (65 <=? n) && (n <=? 70) then Some (n - 55)
  else if (97 <=? n) && (n <=? 102) then Some (n - 87)
  else None.

(** Value of the longest prefix of hex digits; [None] when the prefix is
    empty. [acc] carries the digits read so far. *)
Fixpoint hexPrefix (acc : option Z) (s : string) : option Z :=
  match s with
  | EmptyString => acc
  | String c s' =>
      match hexDigitValue c with
      | Some d =>
          hexPrefix (Some (16 * match acc with Some a => a | None => 0 end + d)) s'
      | None => acc
      end
  end.

(** The double nearest to a non-negative integer (ties to even);
    [None] is +Infinity. *)
Definition toDouble (n : Z) : option Z :=
  if n <? 2 ^ 53 then Some n
  else
    let e := Z.log2 n - 52 in
    let q := Z.shiftr n e in
    let r := n - Z.shiftl q e in
    let half := 2 ^ (e - 1) in
    let q' := if (half <? r) || ((r =? half) && Z.odd q) then q + 1 else q in
    let v := Z.shiftl q' e in
    if 2 ^ 1024 <=? v then None else Some v.

(** A number as the integer code paths see it. *)
Inductive num : Type :=
| NaN : num
| Inf : bool -> num          (* [Inf true] is -Infinity *)
| Int : Z -> num.

(** [parseInt(s, 16)]: leading white space, an optional sign, an
    optional [0x]/[0X], then the longest run of hex digits. *)
Definition parseInt16 (s : string) : num :=
  let s1 := JS.trimStart s in
  let '(neg, s2) :=
    match s1 with
    | String "-"%char t => (true, t)
    | String "+"%char t => (false, t)
    | _ => (false, s1)
    end in
  let s3 :=
    match s2 with
    | String "0"%char (String "x"%char t) => t
    | String "0"%char (String "X"%char t) => t
    | _ => s2
    end in
  match hexPrefix None s3 with
  | None => NaN
  | Some v =>
      match toDouble v with
      | None => Inf neg
      | Some d => Int (if neg then - d else d)
      end
  end.

(** [ToInt32]: NaN and the infinities become 0, integers wrap. *)
Definition toInt32 (x : num) : Z :=
  match x with
  | Int n =>
      let m := n mod 2 ^ 32 in
      if 2 ^ 31 <=? m then m - 2 ^ 32 else m
  | _ => 0
  end.

(** [x >> k] and [x & y] on int32 operands. *)
Definition sar (x : Z) (k : Z) : Z := Z.shiftr x k.
Definition band (x y : Z) : Z := Z.land x y.

End JSNum.

(* ================================================================== *)
(** ** Real-valued numbers: boolean comparisons *)
(* ================================================================== *)

Definition Rleb (x y : R) : bool := if Rle_dec x y then true else false.
Definition Rltb (x y : R) : bool := if Rlt_dec x y then true else false.

(* ================================================================== *)
(** ** JavaScript numbers as IEEE 754 doubles *)
(* ================================================================== *)

(** The arithmetic of the health score: [/] and [*] of JavaScript round
    the exact result to the nearest double (binary64: 53 significant
    bits, ties to the even significand).  The model covers positive
    values in the normal range, between [2^-1022] and [2^1024], which is
    where the quotient of two array lengths and its percentage lie. *)
Module Double.

(** A finite double that is not negative, as the fraction [(num, den)] it
    stands for; [den] is a power of two. *)
Definition t : Type := (Z * Z)%type.

(** The integer nearest to [n / d], the even one of the two when [n / d]
    lies halfway. *)
Definition roundHalfEven (n d : Z) : Z :=
  let q := n / d in
  let r := n mod d in
  if 2 * r <? d then q
  else if d <? 2 * r then q + 1
  else if Z.even q then q else q + 1.

(** The [e] with [2^e <= n / d < 2^(e+1)], for [n / d] at least
    [2^-1100]: one less than the number of binary digits of the integer
    part of [n / d * 2^1100], less 1100. *)
Definition binade (n d : Z) : Z := Z.log2 (n * 2 ^ 1100 / d) - 1100.

(** The double nearest to [n / d]: with [e] the exponent of the unit in
    the last place, the multiple of [2^e] nearest to [n / d]. *)
Definition nearest (n d : Z) : t :=
  if n =? 0 then (0, 1)
  else
    let e := binade n d - 52 in
    if 0 <=? e then (roundHalfEven n (d * 2 ^ e) * 2 ^ e, 1)
    else (roundHalfEven (n * 2 ^ (- e)) d, 2 ^ (- e)).

(** [a / b] for two integers that doubles hold exactly. *)
Definition div (a b : Z) : t := nearest a b.

(** [x * k] for such an integer [k]. *)
Definition mul (x : t) (k : Z) : t := nearest (fst x * k) (snd x).

(** [Math.round(x)]: [floor (x + 1/2)], which is exact. *)
Definition Math_round (x : t) : Z := (2 * fst x + snd x) / (2 * snd x).

End Double.

(* ================================================================== *)
(** ** ui/utils/colors.ts : contrast and distance *)
(* ================================================================== *)

Record rgb : Type := mkRgb { r : Z; g : Z; b : Z }.

Definition hexToRgb (hex : string) : rgb :=
  let bigint := JSNum.toInt32 (JSNum.parseInt16 (JS.removeFirstHash hex)) in
  {| r := JSNum.band (JSNum.sar bigint 16) 255;
     g := JSNum.band (JSNum.sar bigint 8) 255;
     b := JSNum.band bigint 255 |}.

Definition toLinear (value : Z) : R :=
  let sRGB := (IZR value / 255)%R in
  if Rleb sRGB 0.03928 then (sRGB / 12.92)%R
  else Rpower ((sRGB + 0.055) / 1.055) 2.4.

Definition getLuminance (c : rgb) : R :=
  (0.2126 * toLinear (r c) + 0.7152 * toLinear (g c) + 0.0722 * toLinear (b c))%R.

Definition getRelativeLuminance (hex : string) : R := getLuminance (hexToRgb hex).

Record ContrastOptions : Type := mkOptions {
  largeText : bool;
  nonText : bool;
  reportAAA : bool
}.

Record ContrastResult : Type := mkResult {
  ratio : R;
  passesAA : bool;
  passesAAA : option bool;
  requiredAA : R;
  requiredAAA : option R
}.

Definition calculateContrastRatio (hex1 hex2 : string) (options : ContrastOptions)
  : ContrastResult :=
  let rgb1 := hexToRgb hex1 in
  let rgb2 := hexToRgb hex2 in
  let luminance1 := getLuminance rgb1 in
  let luminance2 := getLuminance rgb2 in
  let contrastRatio :=
    ((Rmax luminance1 luminance2 + 0.05) / (Rmin luminance1 luminance2 + 0.05))%R in
  let isLarge := largeText options in
  let isNonText := nonText options in
  let requiredAA : R := if isLarge || isNonText then 3.0%R else 4.5%R in
  let passesAA := Rleb requiredAA contrastRatio in
  if reportAAA options then
    let requiredAAA : R := if isLarge then 4.5%R else 7.0%R in
    let passesAAA := Rleb requiredAAA contrastRatio in
    {| ratio := contrastRatio; passesAA := passesAA; passesAAA := Some passesAAA;
       requiredAA := requiredAA; requiredAAA := Some requiredAAA |}
  else
    {| ratio := contrastRatio; passesAA := passesAA; passesAAA := None;
       requiredAA := requiredAA; requiredAAA := None |}.

(** [dr * dr + dg * dg + db * db] in [colorDistance]. *)
Definition colorDistance2 (hex1 hex2 : string) : Z :=
  let a := hexToRgb hex1 in
  let b' := hexToRgb hex2 in
  let dr := r a - r b' in
  let dg := g a - g b' in
  let db := b a - b b' in
  dr * dr + dg * dg + db * db.

(** Euclidean distance between two hex colours in RGB space. *)
Definition colorDistance (hex1 hex2 : string) : R :=
  sqrt (IZR (colorDistance2 hex1 hex2)).

(* ================================================================== *)
(** ** Brand kit and scanned elements *)
(* ================================================================== *)

(** hooks/useBrandKit.ts, [BrandKit] (the fields the decision core reads;
    [minContrast] is [accessibility.minContrast]). *)
Record BrandKit : Type := mkKit {
  name : string;
  allowedColors : list string;
  allowedFonts : list string;
  minContrast : R
}.

(** models/DocumentSandboxApi.ts, [ScannedElement]. *)
Record ScannedElement : Type := mkElement {
  id : string;
  type : string;
  fillColor : option string;
  containerFillColor : option string;
  fontName : option string;
  textContent : option string
}.

(** [arr[0]] of a string array; [None] is [undefined]. *)
Definition first (l : list string) : option string := hd_error l.

(* ================================================================== *)
(** ** brandConfig.ts *)
(* ================================================================== *)

Definition normalizeFontName (name : option string) : option string :=
  match name with
  | Some s => if JS.truthy name then Some (JS.toLowerCase (JS.trim s)) else None
  | None => None
  end.

(** The loop of [isFontAllowed] over [fontsToCheck]. *)
Fixpoint fontMatches (normalized : string) (fontsToCheck : list string) : bool :=
  match fontsToCheck with
  | [] => false
  | allowedFont :: rest =>
      match normalizeFontName (Some allowedFont) with
      | Some (String _ _ as allowedNormalized) =>
          if String.eqb normalized allowedNormalized then true
          else if JS.startsWith normalized (allowedNormalized ++ " ")
                  || JS.startsWith normalized (allowedNormalized ++ "-")
                  || JS.startsWith normalized (allowedNormalized ++ "_")
          then true
          else fontMatches normalized rest
      | _ => fontMatches normalized rest
      end
  end.

Definition isFontAllowed (fontName : option string) (fontsToCheck : list string) : bool :=
  if negb (JS.truthy fontName) then true
  else
    match normalizeFontName fontName with
    | Some (String _ _ as normalized) => fontMatches normalized fontsToCheck
    | _ => true
    end.

Module Nearest.
Import JSNum.

(** Arithmetic of the numbers met in [findNearestBrandColor]; integers
    here are channel differences and their squares, which are exact. *)
Definition neg (x : num) : num :=
  match x with
  | NaN => NaN
  | Inf s => Inf (negb s)
  | Int n => Int (- n)
  end.

Definition add (x y : num) : num :=
  match x, y with
  | NaN, _ | _, NaN => NaN
  | Inf s, Inf t => if Bool.eqb s t then Inf s else NaN
  | Inf s, Int _ => Inf s
  | Int _, Inf t => Inf t
  | Int n, Int m => Int (n + m)
  end.

Definition sub (x y : num) : num := add x (neg y).

Definition mul (x y : num) : num :=
  match x, y with
  | NaN, _ | _, NaN => NaN
  | Inf s, Inf t => Inf (xorb s t)
  | Inf s, Int m =>
      if m =? 0 then NaN else Inf (xorb s (m <? 0))
  | Int n, Inf t =>
      if n =? 0 then NaN else Inf (xorb (n <? 0) t)
  | Int n, Int m => Int (n * m)
  end.

Definition lt (x y : num) : bool :=
  match x, y with
  | NaN, _ | _, NaN => false
  | Inf s, Inf t => s && negb t
  | Inf s, Int _ => s
  | Int _, Inf t => negb t
  | Int n, Int m => n <? m
  end.

(** [s.split("").map(c => c + c).join("")]. *)
Fixpoint doubleChars (s : string) : string :=
  match s with
  | EmptyString => EmptyString
  | String c s' => String c (String c (doubleChars s'))
  end.

Definition normalize (hex : option string) : option string :=
  match hex with
  | Some (String _ _ as h) =>
      let s := JS.stripLeadingHash (JS.trim h) in
      let s := if (String.length s =? 3)%nat then doubleChars s else s in
      if (String.length s =? 6)%nat || (String.length s =? 8)%nat
      then Some (JS.toUpperCase (JS.slice 0 6 s))
      else None
  | _ => None
  end.

Definition hexToRgb (hex6 : option string) : option (num * num * num) :=
  match normalize hex6 with
  | Some (String _ _ as n) =>
      Some (parseInt16 (JS.slice 0 2 n),
            parseInt16 (JS.slice 2 4 n),
            parseInt16 (JS.slice 4 6 n))
  | _ => None
  end.

(** The scan of [kit.allowedColors]: [best] is [None] for [null]. *)
Fixpoint scan (target : num * num * num) (candidates : list string)
         (best : option string) (bestDist : num) : option string :=
  match candidates with
  | [] => best
  | candidate :: rest =>
      match hexToRgb (Some candidate) with
      | None => scan target rest best bestDist
      | Some (cr, cg, cb) =>
          let '(tr, tg, tb) := target in
          let dr := sub cr tr in
          let dg := sub cg tg in
          let db := sub cb tb in
          let dist2 := add (add (mul dr dr) (mul dg dg)) (mul db db) in
          if lt dist2 bestDist
          then scan target rest (Some candidate) dist2
          else scan target rest best bestDist
      end
  end.

End Nearest.

(** [kit] is what [getBrandKit()] returns: the kit of the component. *)
Definition findNearestBrandColor (kit : BrandKit) (inputHex : option string)
  : option string :=
  if negb (JS.truthy inputHex) || (List.length (allowedColors kit) =? 0)%nat then None
  else
    match Nearest.hexToRgb inputHex with
    | None => None
    | Some target => Nearest.scan target (allowedColors kit) None (JSNum.Inf false)
    end.

(* ================================================================== *)
(** ** ui/components/App.tsx : the audit *)
(* ================================================================== *)

(** [!!x] for an optional boolean field. *)
Definition notNot (o : option bool) : bool :=
  match o with Some v => v | None => false end.

(** [a || b] on [string | null | undefined] values. *)
Definition orElse (a b : option string) : option string :=
  if JS.truthy a then a else b.

(** [Array.prototype.reduce] without an initial value.  It is [None] on
    an empty array, where the code never calls it: both calls sit under a
    [length > 0] test, which the [match] on the result renders. *)
Definition reduce {A : Type} (f : A -> A -> A) (l : list A) : option A :=
  match l with
  | [] => None
  | x :: rest => Some (fold_left f rest x)
  end.

Section Audit.

Variable brandKit : BrandKit.

Definition isTextElement (el : ScannedElement) : bool := String.eqb (type el) "Text".

(** [minContrast >= 7.0]. *)
Definition isAAA : bool := Rleb 7.0 (minContrast brandKit).

(** [brandKit.allowedColors.some(h => h.toUpperCase() === currentHex.toUpperCase())]. *)
Definition isBrandCompliant (currentHex : string) : bool :=
  existsb (fun brandHex =>
             String.eqb (JS.toUpperCase brandHex) (JS.toUpperCase currentHex))
          (allowedColors brandKit).

(** The contrast of the element's own fill, with [largeText] and
    [reportAAA] set as every call site sets them. *)
Definition currentContrast (el : ScannedElement) (currentHex bgHex : string)
  : ContrastResult :=
  calculateContrastRatio currentHex bgHex
    {| largeText := isTextElement el; nonText := false; reportAAA := isAAA |}.

Definition isContrastCompliant (el : ScannedElement) (currentHex bgHex : string) : bool :=
  let contrastResult := currentContrast el currentHex bgHex in
  if isAAA then notNot (passesAAA contrastResult) else passesAA contrastResult.

(** The contrast of a brand colour against the background. *)
Definition brandRatio (el : ScannedElement) (normalizedBrand bgHex : string) : R :=
  ratio (calculateContrastRatio normalizedBrand bgHex
           {| largeText := isTextElement el; nonText := false; reportAAA := false |}).

(** [isTextElement ? (isAAA ? 4.5 : 3.0) : minContrast]. *)
Definition requiredContrast (el : ScannedElement) : R :=
  if isTextElement el then (if isAAA then 4.5%R else 3.0%R)
  else minContrast brandKit.

Definition hasBetterBrandColor (el : ScannedElement) (currentHex bgHex : string) : bool :=
  let currentRatio := ratio (currentContrast el currentHex bgHex) in
  existsb (fun brandHex =>
             match toHex6 (Some brandHex) with
             | None => false
             | Some normalizedBrand =>
                 if String.eqb (JS.toUpperCase normalizedBrand) (JS.toUpperCase currentHex)
                 then false
                 else
                   let otherRatio := brandRatio el normalizedBrand bgHex in
                   Rleb (requiredContrast el) otherRatio
                   || Rltb (currentRatio + 0.5)%R otherRatio
             end)
          (allowedColors brandKit).

(** The value of [hasSomeViolation] after checks 1 and 2. *)
Definition colorChecks (el : ScannedElement) : bool :=
  let hasSomeViolation := false in
  if JS.truthy (fillColor el) then
    match toHex6 (fillColor el) with
    | Some hexColor =>
        let currentHex := JS.slice 0 7 hexColor in
        let compliant := isBrandCompliant currentHex in
        let hasSomeViolation := if negb compliant then true else hasSomeViolation in
        if JS.truthy (containerFillColor el) then
          match toHex6 (containerFillColor el) with
          | Some bgHex =>
              if negb (isContrastCompliant el currentHex bgHex) then
                if compliant then
                  if hasBetterBrandColor el currentHex bgHex then true
                  else hasSomeViolation
                else true
              else hasSomeViolation
          | None => hasSomeViolation
          end
        else hasSomeViolation
    | None => hasSomeViolation
    end
  else hasSomeViolation.

(** The predicate of [results.filter(...)] in [handleAudit]. *)
Definition hasSomeViolation (el : ScannedElement) : bool :=
  let v := colorChecks el in
  if JS.truthy (fontName el) && negb (isFontAllowed (fontName el) (allowedFonts brandKit))
  then true else v.

Definition badElements (results : list ScannedElement) : list ScannedElement :=
  filter hasSomeViolation results.

(** *** Unfixable contrast warnings *)

Record UnfixableContrastWarning : Type := mkWarning {
  element : ScannedElement;
  currentRatio : R;
  bestPossibleRatio : R;
  bestBrandColor : option string;
  requiredRatio : R;
  wcagLevel : string;
  isCurrentBest : bool
}.

(** One turn of the loop that looks for the best brand colour. *)
Definition bestStep (el : ScannedElement) (bgHex : string)
           (acc : R * option string) (brandHex : string) : R * option string :=
  match toHex6 (Some brandHex) with
  | None => acc
  | Some normalizedBrand =>
      let ratio := brandRatio el normalizedBrand bgHex in
      if Rltb (fst acc) ratio then (ratio, Some brandHex) else acc
  end.

Definition bestBrand (el : ScannedElement) (bgHex : string) : R * option string :=
  fold_left (bestStep el bgHex) (allowedColors brandKit)
            (0%R, first (allowedColors brandKit)).

(** The body of the [for (const el of results)] loop: the warning pushed
    for [el], if any. *)
Definition unfixableWarning (el : ScannedElement) : option UnfixableContrastWarning :=
  if negb (JS.truthy (fillColor el)) || negb (JS.truthy (containerFillColor el)) then None
  else
    match toHex6 (fillColor el), toHex6 (containerFillColor el) with
    | Some hexColor, Some bgHex =>
        let currentHex := JS.slice 0 7 hexColor in
        let wcagLevel := if isAAA then "AAA" else "AA" in
        let requiredRatio := requiredContrast el in
        let compliant := isBrandCompliant currentHex in
        let currentContrastResult := currentContrast el currentHex bgHex in
        if compliant && negb (isContrastCompliant el currentHex bgHex) then
          let '(bestRatio, bestColor) := bestBrand el bgHex in
          if Rltb bestRatio requiredRatio then
            let isCurrentBest :=
              match toHex6 bestColor with
              | Some bestColorNormalized =>
                  String.eqb (JS.toUpperCase bestColorNormalized)
                             (JS.toUpperCase currentHex)
              | None => false
              end in
            Some {| element := el;
                    currentRatio := ratio currentContrastResult;
                    bestPossibleRatio := bestRatio;
                    bestBrandColor := bestColor;
                    requiredRatio := requiredRatio;
                    wcagLevel := wcagLevel;
                    isCurrentBest := isCurrentBest |}
          else None
        else None
    | _, _ => None
    end.

Fixpoint unfixableContrastWarnings (results : list ScannedElement)
  : list UnfixableContrastWarning :=
  match results with
  | [] => []
  | el :: rest =>
      match unfixableWarning el with
      | Some w => w :: unfixableContrastWarnings rest
      | None => unfixableContrastWarnings rest
      end
  end.

(** *** Health score *)

(** [Math.round] of a real number: the nearest integer, ties towards
    +Infinity. *)
Definition Math_round (x : R) : Z := Zfloor (x + / 2).

(** [Math.round(((totalScannable - badElements.length) / totalScannable) * 100)],
    the division and the product in doubles; the two lengths are integers
    below [2^32], which doubles hold exactly. *)
Definition healthScore (results : list ScannedElement) : Z :=
  let totalScannable := Z.of_nat (List.length results) in
  let badLength := Z.of_nat (List.length (badElements results)) in
  if 0 <? totalScannable then
    Double.Math_round
      (Double.mul (Double.div (totalScannable - badLength) totalScannable) 100)
  else 100.

(** *** determineSuggestedColor *)

Definition safeList (el : ScannedElement) (currentHex bgHex : string) : list string :=
  filter (fun color =>
            match toHex6 (Some color) with
            | None => false
            | Some normalizedColor =>
                if String.eqb (JS.toUpperCase normalizedColor) (JS.toUpperCase currentHex)
                then false
                else Rleb (requiredContrast el) (brandRatio el normalizedColor bgHex)
            end)
         (allowedColors brandKit).

Definition differsFromCurrent (currentHex color : string) : bool :=
  match toHex6 (Some color) with
  | Some normalizedColor =>
      negb (String.eqb (JS.toUpperCase normalizedColor) (JS.toUpperCase currentHex))
  | None => false
  end.

Definition fallbackList (currentHex : string) : list string :=
  filter (differsFromCurrent currentHex) (allowedColors brandKit).

Definition closer (currentHex best color : string) : string :=
  let bestDist := colorDistance best currentHex in
  let currDist := colorDistance color currentHex in
  if Rltb currDist bestDist then color else best.

Definition higherContrast (el : ScannedElement) (bgHex best color : string) : string :=
  match toHex6 (Some best), toHex6 (Some color) with
  | Some bestNormalized, Some colorNormalized =>
      let bestRatio := brandRatio el bestNormalized bgHex in
      let currRatio := brandRatio el colorNormalized bgHex in
      if Rltb bestRatio currRatio then color else best
  | _, _ => best
  end.

Definition determineSuggestedColor (el : ScannedElement) : option string :=
  match toHex6 (fillColor el) with
  | None => first (allowedColors brandKit)
  | Some currentHex =>
      let compliant :=
        if JS.truthy (containerFillColor el) then
          match toHex6 (containerFillColor el) with
          | Some bgHex => isContrastCompliant el currentHex bgHex
          | None => true
          end
        else true in
      let nearest :=
        orElse (findNearestBrandColor brandKit (Some currentHex))
               (first (allowedColors brandKit)) in
      if negb compliant && JS.truthy (containerFillColor el) then
        match toHex6 (containerFillColor el) with
        | Some bgHex =>
            match reduce (closer currentHex) (safeList el currentHex bgHex) with
            | Some best => Some best
            | None =>
                match reduce (higherContrast el bgHex) (fallbackList currentHex) with
                | Some best => Some best
                | None =>
                    let differentColor :=
                      find (differsFromCurrent currentHex) (allowedColors brandKit) in
                    orElse differentColor (first (allowedColors brandKit))
                end
            end
        | None => nearest
        end
      else nearest
  end.

End Audit.

(* ================================================================== *)
(** ** JavaScript [Map] with string keys *)
(* ================================================================== *)

(** A [Map] keeps its entries in insertion order; setting a key that is
    present replaces its value in place. *)
Module OMap.

Definition t (V : Type) : Type := list (string * V).

Fixpoint get {V : Type} (key : string) (m : t V) : option V :=
  match m with
  | [] => None
  | (k, v) :: rest => if String.eqb k key then Some v else get key rest
  end.

Fixpoint set {V : Type} (key : string) (v : V) (m : t V) : t V :=
  match m with
  | [] => [(key, v)]
  | (k, v') :: rest =>
      if String.eqb k key then (k, v) :: rest else (k, v') :: set key v rest
  end.

Definition keys {V : Type} (m : t V) : list string := map fst m.

End OMap.

(* ================================================================== *)
(** ** hooks/useBrandKit.ts : brand-kit validation *)
(* ================================================================== *)

(** JavaScript values as the validator meets them: what [JSON.parse]
    produces, and [undefined] for an absent property.  An object is the
    list of its properties, each key once. *)
#[warnings="-register-all"]
Inductive value : Type :=
| VUndefined : value
| VNull : value
| VBool : bool -> value
| VNum : R -> value
| VStr : string -> value
| VArr : list value -> value
| VObj : list (string * value) -> value.

(** A computation either returns or throws. *)
Inductive outcome (A : Type) : Type :=
| Returns : A -> outcome A
| Throws : string -> outcome A.

Arguments Returns {A} _.
Arguments Throws {A} _.

Definition bind {A B : Type} (m : outcome A) (k : A -> outcome B) : outcome B :=
  match m with
  | Returns a => k a
  | Throws e => Throws e
  end.

Notation "x <- m ;; k" := (bind m (fun x => k))
  (at level 61, m at next level, right associativity).

Module Val.

(** [!v] is [negb (truthy v)]. *)
Definition truthy (v : value) : bool :=
  match v with
  | VUndefined | VNull => false
  | VBool v' => v'
  | VNum x => if Req_dec_T x 0 then false else true
  | VStr EmptyString => false
  | VStr _ => true
  | VArr _ | VObj _ => true
  end.

Definition typeof (v : value) : string :=
  match v with
  | VUndefined => "undefined"
  | VNull => "object"
  | VBool _ => "boolean"
  | VNum _ => "number"
  | VStr _ => "string"
  | VArr _ | VObj _ => "object"
  end.

Fixpoint lookup (key : string) (props : list (string * value)) : value :=
  match props with
  | [] => VUndefined
  | (k, v) :: rest => if String.eqb k key then v else lookup key rest
  end.

(** [v.key] for the keys the validator reads ([name], [allowedColors],
    [allowedFonts], [accessibility], [minContrast]), none of which is a
    built-in property of arrays, strings, numbers or booleans: reading
    from [undefined] or [null] throws. *)
Definition get (v : value) (key : string) : outcome value :=
  match v with
  | VUndefined | VNull => Throws "TypeError: cannot read properties"
  | VObj props => Returns (lookup key props)
  | _ => Returns VUndefined
  end.

(** [v.trim()]: only a string has the method. *)
Definition trim (v : value) : outcome string :=
  match v with
  | VStr s => Returns (JS.trim s)
  | VUndefined | VNull => Throws "TypeError: cannot read properties"
  | _ => Throws "TypeError: trim is not a function"
  end.

End Val.

Record ValidationError : Type := mkError {
  field : string;
  message : string
}.

Record ValidationResult : Type := mkValidation {
  valid : bool;
  errors : list ValidationError
}.

(** The double-quote character of the messages. *)
Definition dq : string := String "034"%char EmptyString.

(** [`${index}`]. *)
Definition showIndex (index : nat) : string :=
  NilZero.string_of_uint (Nat.to_uint index).

Definition AVAILABLE_FONTS : list string :=
  [ "Arial"; "Georgia"; "Courier"; "Courier New"; "Source Sans 3"; "Lato";
    "Times New Roman"; "Verdana"; "Tahoma"; "Helvetica"; "Comic Sans MS";
    "Impact"; "Trebuchet MS"; "Lucida Sans Unicode"; "Palatino"; "Garamond";
    "Bookman"; "Avant Garde"; "Century Gothic"; "Futura" ].

Definition KNOWN_AVAILABLE_FONTS : list string :=
  map (fun f => JS.trim (JS.toLowerCase f)) AVAILABLE_FONTS.

Definition normalizeFontNameForValidation (fontName : string) : string :=
  JS.trim (JS.toLowerCase fontName).

(** [isValidHexColor] on a string argument. *)
Definition isValidHexColor (color : string) : bool :=
  let trimmed := JS.trim color in
  if negb (JS.startsWith trimmed "#") then false
  else
    let hexPart := JS.substring1 trimmed in
    if negb (String.length hexPart =? 3)%nat && negb (String.length hexPart =? 6)%nat
    then false
    else if negb (JS.isHexString hexPart) then false
    else true.

Definition normalizeHexColor (color : string) : option string :=
  if negb (isValidHexColor color) then None
  else
    let trimmed := JS.toUpperCase (JS.trim color) in
    let hexPart := JS.substring1 trimmed in
    if (String.length hexPart =? 3)%nat
    then Some ("#" ++ Nearest.doubleChars hexPart)
    else Some trimmed.

Definition colorField (index : nat) : string := "allowedColors[" ++ showIndex index ++ "]".
Definition fontField (index : nat) : string := "allowedFonts[" ++ showIndex index ++ "]".

Definition hexExamples : string :=
  "(e.g., " ++ dq ++ "#FF0000" ++ dq ++ " or " ++ dq ++ "#F00" ++ dq ++ ")".

(** The callback of [kit.allowedColors.forEach]: the errors and the map
    of normalised colours after the element at [index]. *)
Definition validateColor (color : value) (index : nat)
           (st : list ValidationError * list (string * nat))
  : outcome (list ValidationError * list (string * nat)) :=
  let '(errors, normalizedColors) := st in
  let push m := Returns ((errors ++ [{| field := colorField index; message := m |}])%list,
                         normalizedColors) in
  match color with
  | VNull | VUndefined => push "Color cannot be null or undefined"
  | _ =>
      if negb (String.eqb (Val.typeof color) "string") then
        push ("Color must be a string, got " ++ Val.typeof color)
      else
        trimmedColor <- Val.trim color ;;
        let shown := match color with VStr s => s | _ => EmptyString end in
        if (String.length trimmedColor =? 0)%nat then
          push "Color cannot be an empty string"
        else if negb (isValidHexColor trimmedColor) then
          if negb (JS.startsWith trimmedColor "#") then
            push ("Color " ++ dq ++ shown ++ dq ++ " is invalid: must start with "
                  ++ dq ++ "#" ++ dq ++ " " ++ hexExamples)
          else if (String.length trimmedColor <? 4)%nat
                  || (7 <? String.length trimmedColor)%nat then
            push ("Color " ++ dq ++ shown ++ dq
                  ++ " is invalid: must be 3 or 6 hex digits after "
                  ++ dq ++ "#" ++ dq ++ " " ++ hexExamples)
          else
            let hexPart := JS.substring1 trimmedColor in
            if negb (JS.isHexString hexPart) then
              push ("Color " ++ dq ++ shown ++ dq
                    ++ " is invalid: contains invalid hex characters. Only 0-9 and A-F are allowed")
            else
              push ("Color " ++ dq ++ shown ++ dq ++ " is not a valid hex color "
                    ++ hexExamples)
        else
          match normalizeHexColor trimmedColor with
          | Some (String _ _ as normalized) =>
              match OMap.get normalized normalizedColors with
              | Some firstIndex =>
                  push ("Color " ++ dq ++ shown ++ dq
                        ++ " is a duplicate of color at position " ++ showIndex firstIndex
                        ++ " (both normalize to " ++ dq ++ normalized ++ dq ++ ")")
              | None => Returns (errors, OMap.set normalized index normalizedColors)
              end
          | _ => Returns (errors, normalizedColors)
          end
  end.

Definition notAvailableMessage (shown : string) : string :=
  "Font " ++ dq ++ shown ++ dq
  ++ " is not available in Adobe Express. Available fonts include: Arial, Georgia, Courier, Courier New, Source Sans 3, Lato, Times New Roman, Verdana, Tahoma, Helvetica, Comic Sans MS, Impact, Trebuchet MS, Lucida Sans Unicode, Palatino, Garamond, Bookman, Avant Garde, Century Gothic, Futura".

(** The callback of [kit.allowedFonts.forEach]. *)
Definition validateFont (font : value) (index : nat)
           (st : list ValidationError * list string)
  : outcome (list ValidationError * list string) :=
  let '(errors, seenFonts) := st in
  let push m seen := Returns ((errors ++ [{| field := fontField index; message := m |}])%list,
                              seen) in
  match font with
  | VNull | VUndefined => push "Font cannot be null or undefined" seenFonts
  | _ =>
      if negb (String.eqb (Val.typeof font) "string") then
        push ("Font must be a string, got " ++ Val.typeof font) seenFonts
      else
        trimmedFont <- Val.trim font ;;
        let shown := match font with VStr s => s | _ => EmptyString end in
        if (String.length trimmedFont =? 0)%nat then
          push "Font cannot be an empty string" seenFonts
        else
          let normalizedFont := normalizeFontNameForValidation trimmedFont in
          if existsb (String.eqb normalizedFont) seenFonts then
            push ("Font " ++ dq ++ shown ++ dq
                  ++ " is a duplicate (case-insensitive match with another font in the list)")
                 seenFonts
          else
            let seenFonts := (seenFonts ++ [normalizedFont])%list in
            if negb (existsb (String.eqb normalizedFont) KNOWN_AVAILABLE_FONTS) then
              push (notAvailableMessage shown) seenFonts
            else Returns (errors, seenFonts)
  end.

(** [array.forEach((x, index) => ...)] with the state the callback
    updates threaded through. *)
Fixpoint forEach {St : Type} (f : value -> nat -> St -> outcome St)
         (l : list value) (index : nat) (st : St) : outcome St :=
  match l with
  | [] => Returns st
  | x :: rest => st' <- f x index st ;; forEach f rest (S index) st'
  end.

Definition rootError : ValidationError :=
  {| field := "root"; message := "Brand kit must be a valid JSON object" |}.

Definition validateBrandKit (kit : value) : outcome ValidationResult :=
  let errors : list ValidationError := [] in
  if negb (Val.truthy kit) || negb (String.eqb (Val.typeof kit) "object") then
    Returns {| valid := false; errors := [rootError] |}
  else
    (* name *)
    kitName <- Val.get kit "name" ;;
    nameMissing <-
      (if negb (Val.truthy kitName) then Returns true
       else if negb (String.eqb (Val.typeof kitName) "string") then Returns true
       else trimmed <- Val.trim kitName ;; Returns (String.length trimmed =? 0)%nat) ;;
    let errors :=
      if nameMissing
      then (errors ++ [{| field := "name"; message := "Brand kit must have a non-empty name" |}])%list
      else errors in
    (* allowedColors *)
    colors <- Val.get kit "allowedColors" ;;
    errors <-
      match colors with
      | VArr [] =>
          Returns ((errors ++ [{| field := "allowedColors";
                                 message := "allowedColors must contain at least one color" |}])%list)
      | VArr items =>
          st <- forEach validateColor items 0%nat (errors, []) ;; Returns (fst st)
      | _ =>
          Returns ((errors ++ [{| field := "allowedColors";
                                 message := "allowedColors must be an array" |}])%list)
      end ;;
    (* allowedFonts *)
    fonts <- Val.get kit "allowedFonts" ;;
    errors <-
      match fonts with
      | VArr [] =>
          Returns ((errors ++ [{| field := "allowedFonts";
                                 message := "allowedFonts must contain at least one font" |}])%list)
      | VArr items =>
          st <- forEach validateFont items 0%nat (errors, []) ;; Returns (fst st)
      | _ =>
          Returns ((errors ++ [{| field := "allowedFonts";
                                 message := "allowedFonts must be an array" |}])%list)
      end ;;
    (* accessibility *)
    accessibility <- Val.get kit "accessibility" ;;
    errors <-
      (if negb (Val.truthy accessibility)
          || negb (String.eqb (Val.typeof accessibility) "object")
       then Returns ((errors ++ [{| field := "accessibility";
                                   message := "accessibility must be an object" |}])%list)
       else
         minC <- Val.get accessibility "minContrast" ;;
         match minC with
         | VNum x =>
             if Rltb x 0 || Rltb 21 x
             then Returns ((errors ++ [{| field := "accessibility.minContrast";
                                         message := "minContrast must be between 0 and 21" |}])%list)
             else Returns errors
         | _ =>
             Returns ((errors ++ [{| field := "accessibility.minContrast";
                                    message := "minContrast must be a number" |}])%list)
         end) ;;
    Returns {| valid := (List.length errors =? 0)%nat; errors := errors |}.
(* ================================================================== *)
(** ** ui/components/App.tsx : fix, fix all, undo all *)
(* ================================================================== *)

(** The snapshot kept for undo: element id to its colour and font. *)
Definition Snapshot : Type := OMap.t (option string * option string).

(** The part of the component state that the handlers below read or
    write. *)
Record AppState : Type := mkState {
  violations : list ScannedElement;
  fixAllSnapshot : option Snapshot
}.

Section Handlers.

(** The document sandbox (the Document Provider): an opaque document
    and the calls the handlers make on it.  Each mutating call yields the
    document it leaves and the boolean it resolves to. *)
Variable Doc : Type.
Variable scanDocument : Doc -> list ScannedElement.
Variable fixColor : string -> string -> Doc -> Doc * bool.
Variable fixFont : string -> string -> Doc -> Doc * bool.
Variable restoreColor : string -> string -> Doc -> Doc * bool.
Variable restoreFont : string -> string -> Doc -> Doc * bool.

Variable brandKit : BrandKit.

Definition World : Type := (AppState * Doc)%type.

(** [handleAudit]: rescan and recompute the violations. *)
Definition handleAudit (w : World) : World :=
  let '(st, doc) := w in
  let results := scanDocument doc in
  ({| violations := badElements brandKit results;
      fixAllSnapshot := fixAllSnapshot st |}, doc).

Definition handleFix (el : ScannedElement) (w : World) : World :=
  let '(st, doc) := w in
  if negb (JS.truthy (Some (id el))) then w
  else
    let suggestedColor := determineSuggestedColor brandKit el in
    let needsFontFix :=
      JS.truthy (fontName el) && negb (isFontAllowed (fontName el) (allowedFonts brandKit)) in
    let suggestedFont := if needsFontFix then first (allowedFonts brandKit) else None in
    let doc :=
      match suggestedColor with
      | Some (String _ _ as c) => fst (fixColor (id el) c doc)
      | _ => doc
      end in
    match suggestedFont with
    | Some (String _ _ as f) =>
        if needsFontFix then
          let '(doc, ok) := fixFont (id el) f doc in
          if negb ok then (st, doc)        (* thrown, caught and logged *)
          else handleAudit (st, doc)
        else handleAudit (st, doc)
    | _ => handleAudit (st, doc)
    end.

(** [currentStateMap]: the fresh scan results by id. *)
Definition currentStateMap (currentResults : list ScannedElement) : OMap.t ScannedElement :=
  fold_left (fun m el => OMap.set (id el) el m) currentResults [].

(** The snapshot captured by [handleFixAll] for the violations at hand. *)
Definition captureSnapshot (violationEls currentResults : list ScannedElement) : Snapshot :=
  let stateMap := currentStateMap currentResults in
  fold_left
    (fun snapshot violationEl =>
       match OMap.get (id violationEl) stateMap with
       | Some currentEl =>
           OMap.set (id violationEl) (fillColor currentEl, fontName currentEl) snapshot
       | None =>
           OMap.set (id violationEl) (fillColor violationEl, fontName violationEl) snapshot
       end)
    violationEls [].

Definition handleFixAll (w : World) : World :=
  let '(st, doc) := w in
  let currentResults := scanDocument doc in
  if (0 <? List.length (violations st))%nat then
    let snapshot := captureSnapshot (violations st) currentResults in
    let st' := {| violations := violations st; fixAllSnapshot := Some snapshot |} in
    fold_left (fun w' el => handleFix el w') (violations st) (st', doc)
  else w.

(** One turn of the restore loop of [handleUndoAll]. *)
Definition restoreEntry (doc : Doc) (entry : string * (option string * option string)) : Doc :=
  let '(nodeId, (color, font)) := entry in
  let doc :=
    match color with
    | Some (String _ _ as c) => fst (restoreColor nodeId c doc)
    | _ => doc
    end in
  match font with
  | Some (String _ _ as f) => fst (restoreFont nodeId f doc)
  | _ => doc
  end.

Definition handleUndoAll (w : World) : World :=
  let '(st, doc) := w in
  match fixAllSnapshot st with
  | None => w                               (* warning: no snapshot *)
  | Some snapshot =>
      let doc := fold_left restoreEntry snapshot doc in
      handleAudit ({| violations := violations st; fixAllSnapshot := None |}, doc)
  end.

End Handlers.
(* ================================================================== *)
(** ** Sessions of fix-all, undo-all, audits and edits *)
(* ================================================================== *)

Section Sessions.

Variable Doc : Type.
Variable scanDocument : Doc -> list ScannedElement.
Variable fixColor : string -> string -> Doc -> Doc * bool.
Variable fixFont : string -> string -> Doc -> Doc * bool.
Variable restoreColor : string -> string -> Doc -> Doc * bool.
Variable restoreFont : string -> string -> Doc -> Doc * bool.
Variable brandKit : BrandKit.

(** What can happen to the component between two moments: the user
    presses Fix All or Undo All, an audit runs, or the document is edited
    outside the add-on. *)
Inductive Step : Type :=
| FixAll : Step
| UndoAll : Step
| Audit : Step
| Edit : (Doc -> Doc) -> Step.

Definition runStep (w : World Doc) (s : Step) : World Doc :=
  match s with
  | FixAll => handleFixAll Doc scanDocument fixColor fixFont brandKit w
  | UndoAll => handleUndoAll Doc scanDocument restoreColor restoreFont brandKit w
  | Audit => handleAudit Doc scanDocument brandKit w
  | Edit g => (fst w, g (snd w))
  end.

Definition run (steps : list Step) (w : World Doc) : World Doc :=
  fold_left runStep steps w.

(** No step of the list, run from [w], is an Undo All or a Fix All
    pressed while the list of violations is not empty: the only batches
    are those the guard [violations.length > 0] of [handleFixAll] skips. *)
Fixpoint onlySkippedBatches (steps : list Step) (w : World Doc) : Prop :=
  match steps with
  | [] => True
  | s :: rest =>
      match s with
      | FixAll => violations (fst w) = []
      | UndoAll => False
      | _ => True
      end
      /\ onlySkippedBatches rest (runStep w s)
  end.

End Sessions.

Arguments FixAll {Doc}.
Arguments UndoAll {Doc}.
Arguments Audit {Doc}.
Arguments Edit {Doc} _.

(** An ideal document for the examples: node ids with their fill and
    font; every call succeeds. *)
Record Store : Type := mkStore {
  nodeIds : list string;
  colorOf : string -> option string;
  fontOf : string -> option string
}.

Definition storeScan (d : Store) : list ScannedElement :=
  map (fun i => {| id := i; type := "Text"; fillColor := colorOf d i;
                   containerFillColor := None; fontName := fontOf d i;
                   textContent := None |})
      (nodeIds d).

Definition storeSetColor (i c : string) (d : Store) : Store * bool :=
  ({| nodeIds := nodeIds d;
      colorOf := fun j => if String.eqb j i then Some c else colorOf d j;
      fontOf := fontOf d |}, true).

Definition storeSetFont (i f : string) (d : Store) : Store * bool :=
  ({| nodeIds := nodeIds d;
      colorOf := colorOf d;
      fontOf := fun j => if String.eqb j i then Some f else fontOf d j |}, true).

(** A document of two text nodes, the first off-brand in colour and
    font, and the component before its first audit. *)
Definition demoStore : Store :=
  {| nodeIds := ["n1"; "n2"];
     colorOf := fun i => if String.eqb i "n1" then Some "#FF0000" else Some "#000000";
     fontOf := fun i => if String.eqb i "n1" then Some "Papyrus" else Some "Arial" |}.

Definition demoWorld : World Store :=
  ({| violations := []; fixAllSnapshot := None |}, demoStore).
(* ================================================================== *)
(** ** ui/components/App.tsx : the violation cards *)
(* ================================================================== *)

Module ViolationCards.

Section Card.

Variable brandKit : BrandKit.

(** [const hex = toHex6(el.fillColor)]. *)
Definition hex (el : ScannedElement) : option string := toHex6 (fillColor el).

(** [hex && brandKit.allowedColors.some(...)], as a boolean. *)
Definition isBrandCompliant (el : ScannedElement) : bool :=
  match hex el with
  | Some (String _ _ as hex) =>
      existsb (fun brandHex =>
                 String.eqb (JS.toUpperCase brandHex) (JS.toUpperCase hex))
              (allowedColors brandKit)
  | _ => false
  end.

Definition hasColorViolation (el : ScannedElement) : bool :=
  negb (isBrandCompliant el).

(** [contrastResult], where the block "Check Contrast Compliance" gets
    to compute it. *)
Definition contrastResult (el : ScannedElement) : option ContrastResult :=
  if JS.truthy (containerFillColor el) && JS.truthy (hex el) then
    match hex el, toHex6 (containerFillColor el) with
    | Some hex, Some (String _ _ as bgHex) =>
        Some (calculateContrastRatio hex bgHex
                {| largeText := isTextElement el; nonText := false;
                   reportAAA := isAAA brandKit |})
    | _, _ => None
    end
  else None.

(** [contrastRatio]: 0 unless the block sets it. *)
Definition contrastRatio (el : ScannedElement) : R :=
  match contrastResult el with
  | Some contrastResult => ratio contrastResult
  | None => 0%R
  end.

Definition hasContrastViolation (el : ScannedElement) : bool :=
  match contrastResult el with
  | Some contrastResult =>
      let isCompliant :=
        if isAAA brandKit then notNot (passesAAA contrastResult)
        else passesAA contrastResult in
      negb isCompliant
  | None => false
  end.

Definition hasFontViolation (el : ScannedElement) : bool :=
  JS.truthy (fontName el)
  && negb (isFontAllowed (fontName el) (allowedFonts brandKit)).

Definition reasons (el : ScannedElement) : list string :=
  ((if hasColorViolation el then ["Brand Violation"] else [])
   ++ (if hasContrastViolation el then ["Low Contrast"] else [])
   ++ (if hasFontViolation el then ["Font Violation"] else []))%list.

(** Contrast before font before colour. *)
Definition primaryViolationType (el : ScannedElement) : string :=
  if hasContrastViolation el then "contrast"
  else if hasFontViolation el then "font"
  else "color".

Definition violationReason (el : ScannedElement) : string :=
  match reasons el with
  | [] => "(Violation)"
  | l => "(" ++ String.concat " & " l ++ ")"
  end.

Definition suggestedColor (el : ScannedElement) : option string :=
  determineSuggestedColor brandKit el.

Definition suggestedFont (el : ScannedElement) : option string :=
  if hasFontViolation el then first (allowedFonts brandKit) else None.

(** [el.fillColor || 'transparent']. *)
Definition currentColor (el : ScannedElement) : string :=
  match fillColor el with
  | Some (String _ _ as c) => c
  | _ => "transparent"
  end.

End Card.

(** *** ui/components/ViolationCard.tsx *)

(** [contrastRatio || (hex1 && hex2 ? calculateContrastRatio(hex1, hex2).ratio : 0)]. *)
Definition actualContrast (contrastRatio : R) (currentColor : string)
           (suggestedColor : option string) : R :=
  let hex1 := toHex6 (Some currentColor) in
  let hex2 := toHex6 suggestedColor in
  if Req_dec_T contrastRatio 0 then
    match hex1, hex2 with
    | Some (String _ _ as hex1), Some (String _ _ as hex2) =>
        ratio (calculateContrastRatio hex1 hex2
                 {| largeText := false; nonText := false; reportAAA := false |})
    | _, _ => 0%R
    end
  else contrastRatio.

(** [badgeConfig.label] of [getContrastBadge], [None] where it returns
    [null]. *)
Definition getContrastBadge (actualContrast : R) : option string :=
  if Req_dec_T actualContrast 0 then None
  else
    let isPass := Rleb 4.5 actualContrast in
    let isBorderline := negb isPass && Rleb 3 actualContrast in
    Some (if isPass then "Pass" else if isBorderline then "Borderline" else "Fail").

(** The badge on the card of a violation: none on a font card, none
    unless [actualContrast > 0]. *)
Definition badge (brandKit : BrandKit) (el : ScannedElement) : option string :=
  let actual := actualContrast (contrastRatio brandKit el) (currentColor el)
                               (suggestedColor brandKit el) in
  if String.eqb (primaryViolationType brandKit el) "font"
     && JS.truthy (fontName el) && JS.truthy (suggestedFont brandKit el)
  then None
  else if Rltb 0 actual then getContrastBadge actual else None.

End ViolationCards.
(* ================================================================== *)
(** ** Notions used to state the properties, and sample data *)
(* ================================================================== *)

(** What [toHex6] answers for a string whose trimmed, hash-less form is
    [digits]. *)
Definition hex6Of (digits : string) : option string :=
  if (String.length digits =? 6)%nat then Some ("#" ++ JS.toUpperCase digits)
  else if (String.length digits =? 8)%nat then
    if String.eqb (JS.toUpperCase (JS.slice 0 6 digits)) "000000"
    then Some ("#" ++ JS.toUpperCase (JS.slice 2 8 digits))
    else Some ("#" ++ JS.toUpperCase (JS.slice 0 6 digits))
  else None.

(** A brand kit and ten scanned elements, three of which use a font that
    is not allowed. *)
Definition sampleKit : BrandKit :=
  {| name := "Enterprise Pro";
     allowedColors := ["#000000"; "#FFFFFF"];
     allowedFonts := ["Arial"; "Georgia"];
     minContrast := 4.5%R |}.

Definition textWithFont (i font : string) : ScannedElement :=
  {| id := i; type := "Text"; fillColor := None; containerFillColor := None;
     fontName := Some font; textContent := None |}.

Definition tenElements : list ScannedElement :=
  [ textWithFont "n0" "Arial"; textWithFont "n1" "Papyrus";
    textWithFont "n2" "Georgia"; textWithFont "n3" "Arial Bold";
    textWithFont "n4" "Papyrus"; textWithFont "n5" "arial";
    textWithFont "n6" "Georgia-Italic"; textWithFont "n7" "Wingdings";
    textWithFont "n8" "Arial"; textWithFont "n9" "Georgia" ].

(** The score of [p] elements that pass out of [t] scanned ones, as
    [healthScore] computes it. *)
Definition percentage (p t : Z) : Z :=
  Double.Math_round (Double.mul (Double.div p t) 100).

(** Forty scanned elements, seventeen of which use a font that is not
    allowed. *)
Definition fortyElements : list ScannedElement :=
  (repeat (textWithFont "n0" "Arial") 23
   ++ repeat (textWithFont "n1" "Papyrus") 17)%list.

(** The same computation with the operations of the IEEE 754
    specification of the Standard Library ([SpecFloat], binary64):
    [(p / t) * 100] as a fraction in lowest terms. *)
Definition specDouble (n : Z) : SpecFloat.spec_float :=
  match n with
  | Z0 => SpecFloat.S754_zero false
  | Zpos _ => SpecFloat.binary_normalize 53 1024 n 0 false
  | Zneg _ => SpecFloat.S754_nan
  end.

Definition lowestTerms (x : Z * Z) : Z * Z :=
  let g := Z.gcd (fst x) (snd x) in (fst x / g, snd x / g).

Definition specValue (x : SpecFloat.spec_float) : option (Z * Z) :=
  match x with
  | SpecFloat.S754_zero _ => Some (0, 1)
  | SpecFloat.S754_finite false m e =>
      Some (lowestTerms (if 0 <=? e then (Zpos m * 2 ^ e, 1) else (Zpos m, 2 ^ (- e))))
  | _ => None
  end.

Definition specPercentage (p t : Z) : option (Z * Z) :=
  specValue (SpecFloat.SFmul 53 1024
               (SpecFloat.SFdiv 53 1024 (specDouble p) (specDouble t))
               (specDouble 100)).

Definition agreesWithSpecFloat (p t : Z) : bool :=
  match specPercentage p t with
  | Some (a, b) =>
      let x := lowestTerms (Double.mul (Double.div p t) 100) in
      (fst x =? a) && (snd x =? b)
  | None => false
  end.

(** Every pair [0 <= p <= t] with [1 <= t <= n]. *)
Definition agreesUpTo (n : nat) : bool :=
  forallb (fun t => forallb (fun p => agreesWithSpecFloat (Z.of_nat p) (Z.of_nat t))
                            (seq 0 (S t)))
          (seq 1 n).

Definition whiteOnWhiteText : ScannedElement :=
  {| id := "t1"; type := "Text"; fillColor := Some "#FFFFFF";
     containerFillColor := Some "#ffffff"; fontName := Some "Arial";
     textContent := Some "hello" |}.

(** The contrast ratio an allowed colour (as written in the kit) reaches
    against a background, through its normalised form. *)
Definition allowedRatio (el : ScannedElement) (bgHex color : string) : R :=
  match toHex6 (Some color) with
  | Some normalizedColor => brandRatio el normalizedColor bgHex
  | None => 0%R
  end.

(** The ratio the contrast check of an element demands: the AAA
    thresholds when the kit asks for 7.0 or more, the AA ones otherwise,
    each with its large-text value for text elements. *)
Definition checkedRatio (kit : BrandKit) (el : ScannedElement) : R :=
  if isAAA kit then (if isTextElement el then 4.5 else 7.0)%R
  else (if isTextElement el then 3.0 else 4.5)%R.

(** The kit of the worked example: black and white, [minContrast] 4.5. *)
Definition blackWhiteKit (kitName : string) (fonts : list string) : BrandKit :=
  {| name := kitName; allowedColors := ["#000000"; "#FFFFFF"];
     allowedFonts := fonts; minContrast := 4.5%R |}.

Definition greyOnWhiteShape : ScannedElement :=
  {| id := "s1"; type := "Rectangle"; fillColor := Some "#EEEEEE";
     containerFillColor := Some "#FFFFFF"; fontName := None; textContent := None |}.

(** A kit none of whose colours is readable on white. *)
Definition paleKit : BrandKit :=
  {| name := "Pale"; allowedColors := ["#FFFFFF"; "#EEEEEE"];
     allowedFonts := ["Arial"]; minContrast := 4.5%R |}.

(** A kit with a single colour. *)
Definition whiteOnlyKit : BrandKit :=
  {| name := "Mono"; allowedColors := ["#ffffff"];
     allowedFonts := ["Arial"]; minContrast := 4.5%R |}.

(** A kit of red and white, and a kit of red alone, that ask for contrast
    6. *)
Definition redWhiteKit : BrandKit :=
  {| name := "Red and white"; allowedColors := ["#FF0000"; "#FFFFFF"];
     allowedFonts := ["Arial"]; minContrast := 6%R |}.

Definition redOnlyKit : BrandKit :=
  {| name := "Red"; allowedColors := ["#FF0000"];
     allowedFonts := ["Arial"]; minContrast := 6%R |}.

(** A kit whose black is written in the three-digit shorthand, which the
    validator accepts and the upload stores as written. *)
Definition shortBlackKit : BrandKit :=
  {| name := "Short black"; allowedColors := ["#FFFFFF"; "#000"];
     allowedFonts := ["Arial"]; minContrast := 4.5%R |}.

(** A red rectangle on black. *)
Definition redOnBlackShape : ScannedElement :=
  {| id := "s1"; type := "Rectangle"; fillColor := Some "#FF0000";
     containerFillColor := Some "#000000"; fontName := None;
     textContent := None |}.

(** A canonical colour: [#] followed by six upper-case hex digits. *)
Definition canonical (h : string) : Prop :=
  exists d : string,
    h = String "#" d
    /\ String.length d = 6%nat
    /\ JS.allChars JS.isHexDigit d = true
    /\ JS.toUpperCase d = d.

Definition whiteOnWhitePapyrus : ScannedElement :=
  {| id := "t2"; type := "Text"; fillColor := Some "#FFFFFF";
     containerFillColor := Some "#FFFFFF"; fontName := Some "Papyrus";
     textContent := Some "hello" |}.

Definition lowerCaseWhiteOnWhite : ScannedElement :=
  {| id := "t3"; type := "Text"; fillColor := Some "#ffffff";
     containerFillColor := Some "#FFFFFF"; fontName := Some "Arial";
     textContent := None |}.

Definition hasField (f : string) (e : ValidationError) : Prop := field e = f.

Definition colorError (e : ValidationError) : Prop :=
  JS.startsWith (field e) "allowedColors" = true.
Definition fontError (e : ValidationError) : Prop :=
  JS.startsWith (field e) "allowedFonts" = true.

(** The errors the [allowedColors] stage appends, as a function of the
    property's value. *)
Definition colorErrorsOf (colors : value) : list ValidationError :=
  match colors with
  | VArr [] =>
      [{| field := "allowedColors";
          message := "allowedColors must contain at least one color" |}]
  | VArr items =>
      match forEach validateColor items 0%nat ([], []) with
      | Returns st => fst st
      | Throws _ => []
      end
  | _ => [{| field := "allowedColors"; message := "allowedColors must be an array" |}]
  end.

Definition accessibilityError (e : ValidationError) : Prop :=
  JS.startsWith (field e) "accessibility" = true.

Definition isColorField (e : ValidationError) : bool :=
  JS.startsWith (field e) "allowedColors".

Definition invalidHexError : ValidationError :=
  {| field := "allowedColors[0]";
     message := "Color " ++ dq ++ "#ZZZZZZ" ++ dq
                ++ " is invalid: contains invalid hex characters. Only 0-9 and A-F are allowed" |}.

Definition emptyObjectErrors : list ValidationError :=
  [ {| field := "name"; message := "Brand kit must have a non-empty name" |};
    {| field := "allowedColors"; message := "allowedColors must be an array" |};
    {| field := "allowedFonts"; message := "allowedFonts must be an array" |};
    {| field := "accessibility"; message := "accessibility must be an object" |} ].

Definition zzKit : value :=
  VObj [ ("name", VStr "Acme");
         ("allowedColors", VArr [VStr "#ZZZZZZ"]);
         ("allowedFonts", VArr [VStr "Arial"]);
         ("accessibility", VObj [("minContrast", VNum 4.5%R)]) ].

(** What the snapshot records for a violation: the colour and font the
    fresh scan shows for its id, or its own when the scan has no such id. *)
Definition recordedState (results : list ScannedElement) (v : ScannedElement)
  : option string * option string :=
  match OMap.get (id v) (currentStateMap results) with
  | Some currentEl => (fillColor currentEl, fontName currentEl)
  | None => (fillColor v, fontName v)
  end.
(* ================================================================== *)
(** ** sandbox/code.ts : the document sandbox *)
(* ================================================================== *)

From Stdlib Require HexadecimalString.

Module Sandbox.

(** A colour of the document SDK: each channel is a number, or is
    missing ([undefined]). *)
Record Color : Type := mkColor {
  red : option R;
  green : option R;
  blue : option R;
  alpha : option R
}.

(** [n.toString(16)] for an integer [n]. *)
Definition toString16 (n : Z) : string :=
  if n <? 0
  then "-" ++ HexadecimalString.NilZero.string_of_uint (N.to_hex_uint (Z.to_N (- n)))
  else HexadecimalString.NilZero.string_of_uint (N.to_hex_uint (Z.to_N n)).

(** [s.padStart(2, "0")]. *)
Definition padStart2 (s : string) : string :=
  match s with
  | EmptyString => "00"
  | String _ EmptyString => String "0" s
  | _ => s
  end.

(** [n.toString(16).padStart(2, "0").toUpperCase()]. *)
Definition byteHex (n : Z) : string :=
  JS.toUpperCase (padStart2 (toString16 n)).

(** [Math.round(x * 255).toString(16).padStart(2, "0").toUpperCase()]. *)
Definition channelHex (x : R) : string := byteHex (Math_round (x * 255)).

(** [colorToHex], the same function in [extractFillColor] and in
    [extractContainerFillColor]: [color.red || 0] is 0 for a missing
    channel, and [typeof color.alpha === 'number' ? color.alpha : 1] is 1
    for a missing [alpha]. *)
Definition colorToHex (color : option Color) : option string :=
  match color with
  | None => None
  | Some color =>
      let r := channelHex (match red color with Some v => v | None => 0%R end) in
      let g := channelHex (match green color with Some v => v | None => 0%R end) in
      let b := channelHex (match blue color with Some v => v | None => 0%R end) in
      let a := channelHex (match alpha color with Some v => v | None => 1%R end) in
      Some ("#" ++ r ++ g ++ b ++ a)
  end.

(** [parseInt(s, 16) / 255]; a missing channel stands for [NaN]. *)
Definition channelOf (s : string) : option R :=
  match JSNum.parseInt16 s with
  | JSNum.Int n => Some (IZR n / 255)%R
  | _ => None
  end.

(** The block "Parse hex to RGB color object" of [fixColor],
    [restoreColor] and [updateNodeFillById]: the colour object built from
    the hex string, [None] where the block returns [false]. *)
Definition parseHexColor (hexColor : option string) : option Color :=
  let s := JS.stripLeadingHash
             (JS.trim (match hexColor with
                       | Some (String _ _ as h) => h
                       | _ => EmptyString
                       end)) in
  if negb (JS.isHexString s) then None
  else if negb ((String.length s =? 6)%nat || (String.length s =? 8)%nat) then None
  else
    let r := channelOf (JS.slice 0 2 s) in
    let g := channelOf (JS.slice 2 4 s) in
    let b := channelOf (JS.slice 4 6 s) in
    let a := if (String.length s =? 8)%nat then channelOf (JS.slice 6 8 s) else Some 1%R in
    Some {| red := r; green := g; blue := b; alpha := a |}.

(** [fontPostScriptMap[normalizedFamily]] of [fixFont] and [restoreFont].
    The two inherited properties with a lower-case name ([constructor],
    [__proto__]) are not iterable, which sends the function to its
    [catch] and to the same [false] as a missing entry. *)
Definition fontPostScriptMap (normalizedFamily : string) : option (list string) :=
  if String.eqb normalizedFamily "arial"
  then Some ["ArialMT"; "Arial"; "Arial-Regular"]
  else if String.eqb normalizedFamily "courier"
  then Some ["Courier"; "CourierNewPSMT"; "Courier-Regular"; "CourierNew"]
  else if String.eqb normalizedFamily "georgia"
  then Some ["Georgia"; "Georgia-Regular"; "GeorgiaPSMT"]
  else None.

(** An entry of the [violations] array of [scanDocument]. *)
Record FontViolation : Type := mkFontViolation {
  violationId : string;
  violationType : string;
  violationMessage : string
}.

Section Document.

(** What the SDK keeps with a node besides its id, its type and its
    children. *)
Variable Content : Type.

#[warnings="-register-all"]
Inductive Node : Type :=
| mkNode : string -> string -> list Node -> list Node -> Content -> Node.

Definition nodeId (node : Node) : string :=
  match node with mkNode i _ _ _ _ => i end.
Definition nodeType (node : Node) : string :=
  match node with mkNode _ t _ _ _ => t end.

(** [(node.allChildren && node.allChildren.length) ? node.allChildren
     : (node.children && node.children.length ? node.children : [])]:
    a missing array and an empty one are both the empty list. *)
Definition childrenOf (node : Node) : list Node :=
  match node with
  | mkNode _ _ allChildren children _ =>
      match allChildren with
      | [] => children
      | _ :: _ => allChildren
      end
  end.

Fixpoint findById (node : Node) (targetId : string) {struct node} : option Node :=
  match node with
  | mkNode i _ allChildren children _ =>
      if String.eqb i targetId then Some node
      else
        (fix search (l : list Node) : option Node :=
           match l with
           | [] => None
           | child :: rest =>
               match findById child targetId with
               | Some found => Some found
               | None => search rest
               end
           end)
          (match allChildren with
           | [] => children
           | _ :: _ => allChildren
           end)
  end.

(** [for (const artboard of currentPage.artboards)] with its [break]. *)
Fixpoint findInArtboards (artboards : list Node) (targetId : string) : option Node :=
  match artboards with
  | [] => None
  | artboard :: rest =>
      match findById artboard targetId with
      | Some targetNode => Some targetNode
      | None => findInArtboards rest targetId
      end
  end.

(** The readers of SDK objects ([extractFillColor] and the like catch
    what the SDK throws and answer [null]), and the fonts of the brand kit
    the sandbox runtime holds. *)
Variable extractFillColor : Node -> option string.
Variable extractContainerFillColor : Node -> option string.
Variable extractFontName : Node -> option string.
Variable extractTextContent : Node -> option string.
Variable kitFonts : list string.

Definition checkFontViolation (fontName : option string) : option (string * string) :=
  match fontName with
  | Some (String _ _ as shown) =>
      if negb (isFontAllowed fontName kitFonts)
      then Some ("Font Brand Violation", "Font '" ++ shown ++ "' is not allowed.")
      else None
  | _ => None
  end.

(** The element [traverse] pushes on [results] for a node. *)
Definition elementOf (node : Node) : ScannedElement :=
  {| id := nodeId node; type := nodeType node;
     fillColor := extractFillColor node;
     containerFillColor := extractContainerFillColor node;
     fontName := extractFontName node;
     textContent := extractTextContent node |}.

(** [traverse]: what it pushes on [results] and on [violations], in
    order. *)
Fixpoint traverse (node : Node) {struct node}
  : list ScannedElement * list FontViolation :=
  match node with
  | mkNode i _ allChildren children _ =>
      let fontName := extractFontName node in
      let violation :=
        match checkFontViolation fontName with
        | Some (vt, vm) =>
            [{| violationId := i; violationType := vt; violationMessage := vm |}]
        | None => []
        end in
      let result := elementOf node in
      let below :=
        (fix each (l : list Node) : list ScannedElement * list FontViolation :=
           match l with
           | [] => ([], [])
           | child :: rest =>
               let '(r1, v1) := traverse child in
               let '(r2, v2) := each rest in
               ((r1 ++ r2)%list, (v1 ++ v2)%list)
           end)
          (match allChildren with
           | [] => children
           | _ :: _ => allChildren
           end) in
      (result :: fst below, (violation ++ snd below)%list)
  end.

(** The document and the SDK calls that change it: each answers the new
    document and whether it came back without throwing. *)
Variable Doc : Type.
Variable artboards : Doc -> list Node.
Variable Font : Type.
Variable applyColor : Node -> Color -> Doc -> Doc * bool.
Variable fromPostscriptName : string -> option Font.
Variable applyFont : Node -> Font -> Doc -> Doc * bool.

Fixpoint scanArtboards (l : list Node) : list ScannedElement * list FontViolation :=
  match l with
  | [] => ([], [])
  | artboard :: rest =>
      let '(r1, v1) := traverse artboard in
      let '(r2, v2) := scanArtboards rest in
      ((r1 ++ r2)%list, (v1 ++ v2)%list)
  end.

Definition scanDocument (doc : Doc) : list ScannedElement * list FontViolation :=
  scanArtboards (artboards doc).

Definition fixColor (nodeId correctHex : string) (doc : Doc) : Doc * bool :=
  match findInArtboards (artboards doc) nodeId with
  | None => (doc, false)
  | Some targetNode =>
      match parseHexColor (Some correctHex) with
      | None => (doc, false)
      | Some color => applyColor targetNode color doc
      end
  end.

Definition restoreColor (nodeId hexColor : string) (doc : Doc) : Doc * bool :=
  match findInArtboards (artboards doc) nodeId with
  | None => (doc, false)
  | Some targetNode =>
      match parseHexColor (Some hexColor) with
      | None => (doc, false)
      | Some color => applyColor targetNode color doc
      end
  end.

(** The first PostScript name the SDK knows a font for. *)
Fixpoint firstAvailable (postscriptNames : list string) : option Font :=
  match postscriptNames with
  | [] => None
  | postscriptName :: rest =>
      match fromPostscriptName postscriptName with
      | Some availableFont => Some availableFont
      | None => firstAvailable rest
      end
  end.

Definition fixFont (nodeId fontFamily : string) (doc : Doc) : Doc * bool :=
  match findInArtboards (artboards doc) nodeId with
  | None => (doc, false)
  | Some targetNode =>
      if negb (String.eqb (nodeType targetNode) "Text") then (doc, false)
      else
        match normalizeFontName (Some fontFamily) with
        | Some (String _ _ as normalizedFamily) =>
            match fontPostScriptMap normalizedFamily with
            | None | Some [] => (doc, false)
            | Some postscriptNames =>
                match firstAvailable postscriptNames with
                | None => (doc, false)
                | Some availableFont => applyFont targetNode availableFont doc
                end
            end
        | _ => (doc, false)
        end
  end.

Definition restoreFont (nodeId fontName : string) (doc : Doc) : Doc * bool :=
  match findInArtboards (artboards doc) nodeId with
  | None => (doc, false)
  | Some targetNode =>
      if negb (String.eqb (nodeType targetNode) "Text") then (doc, false)
      else
        match normalizeFontName (Some fontName) with
        | Some (String _ _ as normalizedFamily) =>
            match fontPostScriptMap normalizedFamily with
            | None | Some [] => (doc, false)
            | Some postscriptNames =>
                match firstAvailable postscriptNames with
                | None => (doc, false)
                | Some availableFont => applyFont targetNode availableFont doc
                end
            end
        | _ => (doc, false)
        end
  end.

End Document.

End Sandbox.
(* ================================================================== *)
(** ** hooks/useBrandKit.ts : the brand-kit manager *)
(* ================================================================== *)

(** The manager keeps its kits in [localStorage].  The model reads the
    storage through the four kinds of keys the manager uses, with what
    [JSON.parse] makes of the text under each key: the values are JSON
    values, for which [JSON.parse(JSON.stringify(v))] is [v].  Only the
    text under the legacy key, which the manager never writes, may fail to
    parse.  A write of [addBrandKit] may throw (a full or a disabled
    storage), see [Writes]; [setActiveKit] and [deleteBrandKit] are
    modelled on a storage that takes their writes.  Listeners are not
    modelled. *)
Module BrandKitManager.

Record BrandKitRegistryEntry : Type := mkEntry {
  entryId : string;
  entryName : value;
  createdAt : N;
  isDefault : bool
}.

Record Storage : Type := mkStorage {
  (** [REGISTRY_KEY] *)
  registry : option (list BrandKitRegistryEntry);
  (** [ACTIVE_KIT_ID_KEY] *)
  activeKitId : option string;
  (** [STORAGE_KEY]: [Some None] is a text that is not JSON *)
  legacyKit : option (option value);
  (** [KIT_PREFIX + id], by id *)
  kits : OMap.t value
}.

Record Manager : Type := mkManager {
  storage : Storage;
  (** [this.brandKit]; [VNull] is [null] *)
  brandKit : value
}.

Definition removeKit (kitId : string) (m : OMap.t value) : OMap.t value :=
  filter (fun kv => negb (String.eqb (fst kv) kitId)) m.

Definition defaultEntry : BrandKitRegistryEntry :=
  {| entryId := "default"; entryName := VStr "Enterprise Pro (Default)";
     createdAt := 0%N; isDefault := true |}.

(** The kit of last resort, the same in [loadBrandKit], [useBrandKit] and
    [getBrandKit]. *)
Definition enterprisePro : value :=
  VObj [ ("name", VStr "Enterprise Pro");
         ("allowedColors",
          VArr [VStr "#232D4B"; VStr "#E57200"; VStr "#FFFFFF";
                VStr "#DADADA"; VStr "#EF3F6B"; VStr "#62BB46"]);
         ("allowedFonts", VArr [VStr "Arial"; VStr "Georgia"]);
         ("accessibility", VObj [("minContrast", VNum 4.5%R)]) ].

Definition getRegistry (m : Manager) : list BrandKitRegistryEntry :=
  match registry (storage m) with
  | Some stored => stored
  | None => [defaultEntry]
  end.

Definition saveRegistry (r : list BrandKitRegistryEntry) (m : Manager) : Manager :=
  {| storage := {| registry := Some r;
                   activeKitId := activeKitId (storage m);
                   legacyKit := legacyKit (storage m);
                   kits := kits (storage m) |};
     brandKit := brandKit m |}.

Definition getActiveKitId (m : Manager) : string :=
  match activeKitId (storage m) with
  | Some (String _ _ as activeId) => activeId
  | _ =>
      match legacyKit (storage m) with
      | Some _ => "legacy"
      | None => "default"
      end
  end.

Definition setItemActive (kitId : string) (m : Manager) : Manager :=
  {| storage := {| registry := registry (storage m);
                   activeKitId := Some kitId;
                   legacyKit := legacyKit (storage m);
                   kits := kits (storage m) |};
     brandKit := brandKit m |}.

Definition setCache (kit : value) (m : Manager) : Manager :=
  {| storage := storage m; brandKit := kit |}.

Definition removeLegacy (m : Manager) : Manager :=
  {| storage := {| registry := registry (storage m);
                   activeKitId := activeKitId (storage m);
                   legacyKit := None;
                   kits := kits (storage m) |};
     brandKit := brandKit m |}.

(** [validateBrandKit(parsed).valid] under the [try] of the loaders. *)
Definition passes (parsed : value) : bool :=
  match validateBrandKit parsed with
  | Returns validation => valid validation
  | Throws _ => false
  end.

Definition loadKitById (kitId : string) (m : Manager) : option value :=
  match OMap.get kitId (kits (storage m)) with
  | Some parsed => if passes parsed then Some parsed else None
  | None => None
  end.

Definition loadStoredBrandKit (m : Manager) : option value * Manager :=
  match legacyKit (storage m) with
  | Some (Some parsed) =>
      if passes parsed then (Some parsed, m) else (None, removeLegacy m)
  | Some None => (None, removeLegacy m)
  | None => (None, m)
  end.

(** [loadBrandKit]; [fetched] is what [fetch('./brand-kit.json')] and
    [response.json()] give when the load gets that far, [None] when they
    fail. *)
Definition loadBrandKit (fetched : option value) (m : Manager) : value * Manager :=
  if Val.truthy (brandKit m) then (brandKit m, m)
  else
    let activeKitId := getActiveKitId m in
    let fromFile (m : Manager) :=
      match fetched with
      | Some kit => (kit, setCache kit m)
      | None => (enterprisePro, setCache enterprisePro m)
      end in
    if negb (String.eqb activeKitId "default") && negb (String.eqb activeKitId "legacy")
    then
      match loadKitById activeKitId m with
      | Some kit => (kit, setCache kit m)
      | None => fromFile m
      end
    else if String.eqb activeKitId "legacy" then
      match loadStoredBrandKit m with
      | (Some storedKit, m') => (storedKit, setCache storedKit m')
      | (None, m') => fromFile m'
      end
    else fromFile m.

Definition setActiveKit (kitId : string) (fetched : option value) (m : Manager)
  : value * Manager :=
  loadBrandKit fetched (setCache VNull (setItemActive kitId m)).

(** [`kit_${Date.now()}`]. *)
Definition kitIdAt (now : N) : string :=
  "kit_" ++ NilZero.string_of_uint (N.to_uint now).

(** What becomes of the three [localStorage.setItem] of [addBrandKit]:
    [true] when the value is stored, [false] when the call throws. *)
Record Writes : Type := mkWrites {
  (** [REGISTRY_KEY], in [saveRegistry] *)
  registryStored : bool;
  (** [KIT_PREFIX + kitId] *)
  kitStored : bool;
  (** [ACTIVE_KIT_ID_KEY] *)
  activeStored : bool
}.

Definition allStored : Writes :=
  {| registryStored := true; kitStored := true; activeStored := true |}.

Definition setKit (kitId : string) (kit : value) (m : Manager) : Manager :=
  {| storage := {| registry := registry (storage m);
                   activeKitId := activeKitId (storage m);
                   legacyKit := legacyKit (storage m);
                   kits := OMap.set kitId kit (kits (storage m)) |};
     brandKit := brandKit m |}.

(** [addBrandKit]: what it returns or throws, and the manager it leaves.
    [now] and [now'] are the two readings of [Date.now()].  Reading
    [kit.name] can throw before anything is written; [saveRegistry]
    catches a failed write and goes on; a failed write of the kit is
    thrown again after the registry was saved; a failed write of the
    active id is thrown with the registry and the kit already stored and
    the cache not yet set. *)
Definition addBrandKit (kit : value) (setAsActive : bool) (now now' : N)
           (writes : Writes) (m : Manager)
  : outcome string * Manager :=
  let kitId := kitIdAt now in
  let registry := getRegistry m in
  match Val.get kit "name" with
  | Throws e => (Throws e, m)
  | Returns kitName =>
      let registry :=
        (registry ++ [{| entryId := kitId; entryName := kitName;
                         createdAt := now'; isDefault := false |}])%list in
      let m := if registryStored writes then saveRegistry registry m else m in
      if negb (kitStored writes) then (Throws "QuotaExceededError", m)
      else
        let m := setKit kitId kit m in
        if setAsActive
        then
          if negb (activeStored writes) then (Throws "QuotaExceededError", m)
          else (Returns kitId, setCache kit (setItemActive kitId m))
        else (Returns kitId, m)
  end.

(** [deleteBrandKit], up to its return: when the deleted kit was the
    active one, [setActiveKit('default')] has by then written the active
    id and emptied the cache, and the load of the default kit is still
    under way. *)
Definition deleteBrandKit (kitId : string) (m : Manager) : Manager :=
  if String.eqb kitId "default" then m
  else
    let registry :=
      filter (fun entry => negb (String.eqb (entryId entry) kitId)) (getRegistry m) in
    let m := saveRegistry registry m in
    let m := {| storage := {| registry := BrandKitManager.registry (storage m);
                              activeKitId := activeKitId (storage m);
                              legacyKit := legacyKit (storage m);
                              kits := removeKit kitId (kits (storage m)) |};
                brandKit := brandKit m |} in
    if String.eqb (getActiveKitId m) kitId
    then setCache VNull (setItemActive "default" m)
    else m.

(** [c.trim().toUpperCase()] and [String(f).trim()] on the entries of a
    validated kit, which are strings; [String] and [Number] of other
    values are outside the model. *)
Definition asString (v : value) : outcome string :=
  match v with
  | VStr s => Returns s
  | _ => Throws "not a string"
  end.

Fixpoint mapStrings (f : string -> string) (l : list value) : outcome (list value) :=
  match l with
  | [] => Returns []
  | v :: rest =>
      s <- asString v ;;
      rest' <- mapStrings f rest ;;
      Returns (VStr (f s) :: rest')
  end.

Definition asArray (v : value) : outcome (list value) :=
  match v with
  | VArr items => Returns items
  | _ => Throws "not an array"
  end.

(** [if (kit.key) normalizedKit.key = kit.key]. *)
Definition preserved (kit : value) (key : string) : outcome (list (string * value)) :=
  v <- Val.get kit key ;;
  Returns (if Val.truthy v then [(key, v)] else []).

(** The [normalizedKit] of [uploadBrandKit]. *)
Definition normalizedKit (kit : value) : outcome value :=
  kitName <- Val.get kit "name" ;;
  kitName <- asString kitName ;;
  colors <- Val.get kit "allowedColors" ;;
  colors <- asArray colors ;;
  colors <- mapStrings (fun c => JS.toUpperCase (JS.trim c)) colors ;;
  fonts <- Val.get kit "allowedFonts" ;;
  fonts <- asArray fonts ;;
  fonts <- mapStrings JS.trim fonts ;;
  accessibility <- Val.get kit "accessibility" ;;
  minC <- Val.get accessibility "minContrast" ;;
  minC <- match minC with
          | VNum x => Returns (VNum x)
          | _ => Throws "not a number"
          end ;;
  typography <- preserved kit "typography" ;;
  typographyRules <- preserved kit "typographyRules" ;;
  colorGroups <- preserved kit "colors" ;;
  customRules <- preserved kit "customRules" ;;
  Returns (VObj ([ ("name", VStr (JS.trim kitName));
                   ("allowedColors", VArr colors);
                   ("allowedFonts", VArr fonts);
                   ("accessibility", VObj [("minContrast", minC)]) ]
                 ++ typography ++ typographyRules ++ colorGroups ++ customRules)%list).

Definition storageError : ValidationResult :=
  {| valid := false;
     errors := [{| field := "storage";
                   message := "Failed to save brand kit to storage" |}] |}.

(** [uploadBrandKit]: whatever [addBrandKit] throws is caught and
    answered with [storageError]; what [addBrandKit] wrote before it threw
    stays written. *)
Definition uploadBrandKit (kit : value) (now now' : N) (writes : Writes) (m : Manager)
  : outcome (ValidationResult * Manager) :=
  validation <- validateBrandKit kit ;;
  if valid validation then
    normalized <- normalizedKit kit ;;
    match addBrandKit normalized true now now' writes m with
    | (Returns _, m') => Returns (validation, m')
    | (Throws _, m') => Returns (storageError, m')
    end
  else Returns (validation, m).

Definition clearUploadedBrandKit (fetched : option value) (m : Manager) : Manager :=
  snd (setActiveKit "default" fetched (removeLegacy m)).

Definition hasUploadedBrandKit (m : Manager) : bool :=
  negb (String.eqb (getActiveKitId m) "default").

(** The exported [getBrandKit]. *)
Definition getBrandKit (m : Manager) : value :=
  if Val.truthy (brandKit m) then brandKit m else enterprisePro.

End BrandKitManager.

(* ================================================================== *)
(** ** ui/utils/brandKitUpload.ts *)
(* ================================================================== *)

Module JSString.

(** [s.endsWith(suffix)]. *)
Definition endsWith (s suffix : string) : bool :=
  (String.length suffix <=? String.length s)%nat
  && String.eqb (String.substring (String.length s - String.length suffix)
                                  (String.length suffix) s) suffix.

End JSString.

Section Upload.

(** [JSON.parse], and what the [FileReader] delivers. *)
Variable JSON_parse : string -> outcome value.

Inductive ReadResult : Type :=
| ReadError : ReadResult
| Loaded : option string -> ReadResult.

Definition fileError (m : string) : ValidationResult :=
  {| valid := false; errors := [{| field := "file"; message := m |}] |}.

(** [handleBrandKitUpload]: the result the promise resolves with, and the
    manager afterwards.  The promise never rejects: what is thrown in
    [onload] is caught there. *)
Definition handleBrandKitUpload (fileType fileName : string) (read : ReadResult)
           (now now' : N) (writes : BrandKitManager.Writes)
           (m : BrandKitManager.Manager)
  : ValidationResult * BrandKitManager.Manager :=
  if negb (String.eqb fileType "application/json")
     && negb (JSString.endsWith fileName ".json")
  then (fileError "File must be a JSON file (.json)", m)
  else
    match read with
    | ReadError => (fileError "Failed to read file", m)
    | Loaded (Some (String _ _ as text)) =>
        match JSON_parse text with
        | Throws e => (fileError ("Invalid JSON: " ++ e), m)
        | Returns kit =>
            match BrandKitManager.uploadBrandKit kit now now' writes m with
            | Returns result => result
            | Throws e => (fileError ("Invalid JSON: " ++ e), m)
            end
        end
    | Loaded _ => (fileError "File is empty", m)
    end.

End Upload.
(* ================================================================== *)
(** ** Notions used to state the properties of the validator *)
(* ================================================================== *)

(** The forms under which the validator compares two colours and two
    fonts of a kit. *)
Definition colorKey (s : string) : string :=
  match normalizeHexColor (JS.trim s) with
  | Some normalized => normalized
  | None => EmptyString
  end.

Definition fontKey (s : string) : string :=
  normalizeFontNameForValidation (JS.trim s).

(** A list of colours the validator has nothing to say about: strings,
    at least one, each a valid hex colour once trimmed, no two alike once
    normalised. *)
Definition goodColors (items : list value) : Prop :=
  exists strs : list string,
    items = map VStr strs
    /\ strs <> []
    /\ Forall (fun s => isValidHexColor (JS.trim s) = true) strs
    /\ NoDup (map colorKey strs).

(** A list of fonts the validator has nothing to say about: strings, at
    least one, each among the available fonts once trimmed and compared
    without case, no two alike. *)
Definition goodFonts (items : list value) : Prop :=
  exists strs : list string,
    items = map VStr strs
    /\ strs <> []
    /\ Forall (fun s => In (fontKey s) KNOWN_AVAILABLE_FONTS) strs
    /\ NoDup (map fontKey strs).

Definition wellFormedKit (kit : value) : Prop :=
  exists (props : list (string * value)) (kitName : string)
         (colors fonts : list value) (accProps : list (string * value)) (x : R),
    kit = VObj props
    /\ Val.lookup "name" props = VStr kitName
    /\ JS.trim kitName <> ""
    /\ Val.lookup "allowedColors" props = VArr colors
    /\ goodColors colors
    /\ Val.lookup "allowedFonts" props = VArr fonts
    /\ goodFonts fonts
    /\ Val.lookup "accessibility" props = VObj accProps
    /\ Val.lookup "minContrast" accProps = VNum x
    /\ (0 <= x <= 21)%R.

(** The errors each of the other three stages appends, as a function of
    the property's value. *)
Definition nameErrorsOf (kitName : value) : list ValidationError :=
  match kitName with
  | VStr s =>
      if (String.length (JS.trim s) =? 0)%nat
      then [{| field := "name"; message := "Brand kit must have a non-empty name" |}]
      else []
  | _ => [{| field := "name"; message := "Brand kit must have a non-empty name" |}]
  end.

Definition fontErrorsOf (fonts : value) : list ValidationError :=
  match fonts with
  | VArr [] =>
      [{| field := "allowedFonts";
          message := "allowedFonts must contain at least one font" |}]
  | VArr items =>
      match forEach validateFont items 0%nat ([], []) with
      | Returns st => fst st
      | Throws _ => []
      end
  | _ => [{| field := "allowedFonts"; message := "allowedFonts must be an array" |}]
  end.

Definition accessibilityErrorsOf (accessibility : value) : list ValidationError :=
  match accessibility with
  | VObj accProps =>
      match Val.lookup "minContrast" accProps with
      | VNum x =>
          if Rltb x 0 || Rltb 21 x
          then [{| field := "accessibility.minContrast";
                   message := "minContrast must be between 0 and 21" |}]
          else []
      | _ => [{| field := "accessibility.minContrast";
                 message := "minContrast must be a number" |}]
      end
  | VArr _ => [{| field := "accessibility.minContrast";
                  message := "minContrast must be a number" |}]
  | _ => [{| field := "accessibility"; message := "accessibility must be an object" |}]
  end.

(** A kit as the brand-kit creator writes it. *)
Definition acmeKit : value :=
  VObj [ ("name", VStr " Acme ");
         ("allowedColors", VArr [VStr "#fff"; VStr " #232d4b"]);
         ("allowedFonts", VArr [VStr "Georgia "; VStr "arial"]);
         ("accessibility", VObj [("minContrast", VNum 4.5%R)]) ].
(* ================================================================== *)
(** ** Further notions used to state the properties *)
(* ================================================================== *)

(** The upper-case hex digit of value [d]. *)
Definition hexUpperChar (d : Z) : ascii :=
  match d with
  | 0 => "0" | 1 => "1" | 2 => "2" | 3 => "3" | 4 => "4" | 5 => "5"
  | 6 => "6" | 7 => "7" | 8 => "8" | 9 => "9" | 10 => "A" | 11 => "B"
  | 12 => "C" | 13 => "D" | 14 => "E" | _ => "F"
  end%char.

(** The canonical colour [#RRGGBB] of three channel values. *)
Definition hexOfRgb (c : rgb) : string :=
  "#" ++ Sandbox.byteHex (r c) ++ Sandbox.byteHex (g c) ++ Sandbox.byteHex (b c).

(** The test [isFontAllowed] makes of a normalised font name against one
    normalised allowed font: equal, or followed by a separator. *)
Definition familyMatches (normalized allowedNormalized : string) : bool :=
  String.eqb normalized allowedNormalized
  || JS.startsWith normalized (allowedNormalized ++ " ")
  || JS.startsWith normalized (allowedNormalized ++ "-")
  || JS.startsWith normalized (allowedNormalized ++ "_").

(** The element as the next scan reads it once [fixColor] has applied
    [color], with an SDK that gives back the colour it was given: the
    scan writes the fill with [colorToHex] from the SDK colour the fix
    built.  The fill stays as it was when the fix cannot parse [color]. *)
Definition afterFixColor (el : ScannedElement) (color : string) : ScannedElement :=
  {| id := id el; type := type el;
     fillColor := match Sandbox.parseHexColor (Some color) with
                  | Some sdkColor => Sandbox.colorToHex (Some sdkColor)
                  | None => fillColor el
                  end;
     containerFillColor := containerFillColor el;
     fontName := fontName el; textContent := textContent el |}.

(** A kit of white and blue. *)
Definition blueKit : BrandKit :=
  {| name := "Blue"; allowedColors := ["#FFFFFF"; "#0000FF"];
     allowedFonts := ["Arial"]; minContrast := 4.5%R |}.

(** A kit whose only colour is written in the three-digit shorthand. *)
Definition shorthandKit : BrandKit :=
  {| name := "Short"; allowedColors := ["#FFF"];
     allowedFonts := ["Arial"]; minContrast := 4.5%R |}.

(** Two hundred scanned elements, one of which uses a font that is not
    allowed. *)
Definition twoHundredElements : list ScannedElement :=
  textWithFont "n0" "Papyrus" :: repeat (textWithFont "n1" "Arial") 199.

(** A manager holding one uploaded kit, which is the active one. *)
Definition sampleManager : BrandKitManager.Manager :=
  {| BrandKitManager.storage :=
       {| BrandKitManager.registry :=
            Some [ BrandKitManager.defaultEntry;
                   {| BrandKitManager.entryId := "kit_1";
                      BrandKitManager.entryName := VStr "Acme";
                      BrandKitManager.createdAt := 1%N;
                      BrandKitManager.isDefault := false |} ];
          BrandKitManager.activeKitId := Some "kit_1";
          BrandKitManager.legacyKit := None;
          BrandKitManager.kits := [("kit_1", acmeKit)] |};
     BrandKitManager.brandKit := acmeKit |}.

(** The entries [traverse] pushes on [violations] for one scanned
    element. *)
Definition violationsOf (kitFonts : list string) (e : ScannedElement)
  : list Sandbox.FontViolation :=
  match Sandbox.checkFontViolation kitFonts (fontName e) with
  | Some (vt, vm) =>
      [{| Sandbox.violationId := id e; Sandbox.violationType := vt;
          Sandbox.violationMessage := vm |}]
  | None => []
  end.

(** A document of one artboard, a group that holds one text node. *)
Definition sampleDocument : list (Sandbox.Node unit) :=
  [Sandbox.mkNode unit "page" "Group" []
     [Sandbox.mkNode unit "title" "Text" [] [] tt] tt].

(** A kit that asks for contrast 7. *)
Definition strictKit : BrandKit :=
  {| name := "Strict"; allowedColors := ["#FF0000"; "#000000"];
     allowedFonts := ["Arial"]; minContrast := 7%R |}.

(** A kit whose only font has no PostScript mapping in the sandbox. *)
Definition robotoKit : BrandKit :=
  {| name := "Roboto only"; allowedColors := ["#000000"];
     allowedFonts := ["Roboto"]; minContrast := 4.5%R |}.

(** A provider that applies a font as the document sandbox does: only
    for a family with a PostScript mapping. *)
Definition storeFixFont (i f : string) (d : Store) : Store * bool :=
  match normalizeFontName (Some f) with
  | Some (String _ _ as normalizedFamily) =>
      match Sandbox.fontPostScriptMap normalizedFamily with
      | Some (_ :: _) => storeSetFont i f d
      | _ => (d, false)
      end
  | _ => (d, false)
  end.

(** A kit whose font the sandbox cannot apply, and a document of one text
    node that is off-brand in colour and font. *)
Definition navyRobotoKit : BrandKit :=
  {| name := "Navy"; allowedColors := ["#232D4B"];
     allowedFonts := ["Roboto"]; minContrast := 4.5%R |}.

Definition redPapyrusStore : Store :=
  {| nodeIds := ["n1"];
     colorOf := fun _ => Some "#FF0000";
     fontOf := fun _ => Some "Papyrus" |}.

(** The session on that document: an audit and a first Fix All, then a
    second Fix All, then Undo All. *)
Definition staleRun (steps : list (Step Store)) : World Store :=
  run Store storeScan storeSetColor storeFixFont storeSetColor storeFixFont
      navyRobotoKit steps
      ({| violations := []; fixAllSnapshot := None |}, redPapyrusStore).

Definition afterFirstBatch : World Store := staleRun [Audit; FixAll].
Definition afterSecondBatch : World Store := staleRun [Audit; FixAll; FixAll].
Definition afterUndo : World Store := staleRun [Audit; FixAll; FixAll; UndoAll].
(* ================================================================== *)
(** * Properties *)
(* ================================================================== *)

(** ** Colour normalisation *)

Lemma stripLeadingHash_hex (d : string) :
  JS.isHexString d = true -> JS.stripLeadingHash d = d.
Proof.
  destruct d as [|c d']; [reflexivity|].
  cbn [JS.isHexString JS.allChars].
  intros H. apply andb_prop in H as [Hc _].
  destruct c as [[] [] [] [] [] [] [] []]; try reflexivity; discriminate Hc.
Qed.

Lemma stripLeadingHash_cases (t : string) :
  t = JS.stripLeadingHash t \/ t = "#" ++ JS.stripLeadingHash t.
Proof.
  destruct t as [|c t']; [left; reflexivity|].
  destruct c as [[] [] [] [] [] [] [] []]; (left; reflexivity) || (right; reflexivity).
Qed.

Lemma toHex6_unfold (s : string) :
  toHex6 (Some s) =
  if JS.isHexString (JS.stripLeadingHash (JS.trim s))
  then hex6Of (JS.stripLeadingHash (JS.trim s)) else None.
Proof.
  unfold toHex6, hex6Of.
  destruct s as [|c s']; [reflexivity|].
  destruct (JS.isHexString _); reflexivity.
Qed.

(** C6, counterexample: the three-digit shorthand [#RGB] is not accepted. *)
Lemma toHex6_rejects_shorthand : toHex6 (Some "#FFF") = None.
Proof. reflexivity. Qed.

(** C6, amended: [toHex6] accepts exactly the strings that, once the
    surrounding white space and one optional leading [#] are removed,
    consist of 6 or of 8 hex digits, and rejects everything else ([null],
    other lengths such as the shorthand [#RGB], any other character).
    Six digits are upper-cased; of eight digits the trailing six are kept
    when the leading six are all zero, the leading six otherwise. *)
Theorem toHex6_accepts_exactly :
  toHex6 None = None /\
  forall (s result : string),
    toHex6 (Some s) = Some result <->
    exists digits : string,
      (JS.trim s = digits \/ JS.trim s = "#" ++ digits) /\
      JS.isHexString digits = true /\
      ((String.length digits = 6%nat /\ result = "#" ++ JS.toUpperCase digits) \/
       (String.length digits = 8%nat /\
        JS.toUpperCase (JS.slice 0 6 digits) = "000000" /\
        result = "#" ++ JS.toUpperCase (JS.slice 2 8 digits)) \/
       (String.length digits = 8%nat /\
        JS.toUpperCase (JS.slice 0 6 digits) <> "000000" /\
        result = "#" ++ JS.toUpperCase (JS.slice 0 6 digits))).
Proof.
  split; [reflexivity|].
  intros s result. rewrite toHex6_unfold. split.
  - intros H. exists (JS.stripLeadingHash (JS.trim s)).
    destruct (JS.isHexString _) eqn:Hhex; [|discriminate].
    split; [apply stripLeadingHash_cases|]. split; [reflexivity|].
    unfold hex6Of in H.
    destruct (Nat.eqb_spec (String.length (JS.stripLeadingHash (JS.trim s))) 6) as [E6|N6].
    + left. split; [exact E6|]. now inversion H.
    + destruct (Nat.eqb_spec (String.length (JS.stripLeadingHash (JS.trim s))) 8) as [E8|N8];
        [|discriminate].
      right.
      destruct (String.eqb_spec
                  (JS.toUpperCase (JS.slice 0 6 (JS.stripLeadingHash (JS.trim s))))
                  "000000") as [Z0|NZ].
      * left. repeat split; trivial. now inversion H.
      * right. repeat split; trivial. now inversion H.
  - intros (digits & Hshape & Hhex & Hcases).
    assert (Hclean : JS.stripLeadingHash (JS.trim s) = digits).
    { destruct Hshape as [-> | ->]; [now apply stripLeadingHash_hex | reflexivity]. }
    rewrite Hclean, Hhex. unfold hex6Of.
    destruct Hcases as [[L ->] | [(L & Z0 & ->) | (L & NZ & ->)]]; rewrite L; cbn.
    + reflexivity.
    + rewrite Z0. reflexivity.
    + destruct (String.eqb_spec (JS.toUpperCase (JS.slice 0 6 digits)) "000000");
        [contradiction | reflexivity].
Qed.

(** ** Real comparisons *)

Lemma Rleb_true_iff (x y : R) : Rleb x y = true <-> (x <= y)%R.
Proof. unfold Rleb. destruct (Rle_dec x y); split; intros; congruence. Qed.

Lemma Rleb_false_iff (x y : R) : Rleb x y = false <-> (y < x)%R.
Proof.
  unfold Rleb. destruct (Rle_dec x y); split; intros; try congruence; lra.
Qed.

Lemma Rltb_true_iff (x y : R) : Rltb x y = true <-> (x < y)%R.
Proof. unfold Rltb. destruct (Rlt_dec x y); split; intros; congruence. Qed.

Lemma Rltb_false_iff (x y : R) : Rltb x y = false <-> (y <= x)%R.
Proof.
  unfold Rltb. destruct (Rlt_dec x y); split; intros; try congruence; lra.
Qed.

(** ** Contrast thresholds *)

(** C7, counterexample: for a non-text element that is not large text,
    the AAA threshold reported is 7.0, not 4.5. *)
Lemma requiredAAA_nonText_is_7 :
  requiredAAA (calculateContrastRatio "#000000" "#FFFFFF"
                 {| largeText := false; nonText := true; reportAAA := true |})
  = Some 7.0%R
  /\ requiredAAA (calculateContrastRatio "#000000" "#FFFFFF"
                    {| largeText := false; nonText := true; reportAAA := true |})
     <> Some 4.5%R.
Proof.
  split; [reflexivity|].
  intros H. injection H as H. lra.
Qed.

(** C7, amended: [requiredAA] is 3.0 for large text or non-text and 4.5
    otherwise, and [passesAA] holds exactly when the ratio reaches it; when
    AAA is requested, [requiredAAA] is 4.5 for large text and 7.0 otherwise
    (the non-text flag plays no part), and [passesAAA] holds exactly when
    the ratio reaches it; when AAA is not requested neither field is
    present. *)
Theorem contrast_thresholds (hex1 hex2 : string) (options : ContrastOptions) :
  let res := calculateContrastRatio hex1 hex2 options in
  requiredAA res = (if largeText options || nonText options then 3.0 else 4.5)%R
  /\ (passesAA res = true <-> (requiredAA res <= ratio res)%R)
  /\ (if reportAAA options then
        requiredAAA res = Some (if largeText options then 4.5 else 7.0)%R
        /\ exists p : bool,
             passesAAA res = Some p
             /\ (p = true <-> ((if largeText options then 4.5 else 7.0) <= ratio res)%R)
      else requiredAAA res = None /\ passesAAA res = None).
Proof.
  unfold calculateContrastRatio.
  destruct options as [lt nt aaa]; cbn [largeText nonText reportAAA].
  destruct aaa; cbn [requiredAA passesAA passesAAA requiredAAA ratio].
  - split; [reflexivity|]. split; [apply Rleb_true_iff|].
    split; [reflexivity|]. eexists. split; [reflexivity|]. apply Rleb_true_iff.
  - split; [reflexivity|]. split; [apply Rleb_true_iff|]. split; reflexivity.
Qed.

(** ** Health score *)

Lemma badElements_length (kit : BrandKit) (results : list ScannedElement) :
  (List.length (badElements kit results) <= List.length results)%nat.
Proof. apply filter_length_le. Qed.

(** [Math.round] of a fraction scaled to a percentage, over the reals,
    in integer arithmetic. *)
Lemma Math_round_percent (n t : Z) :
  0 < t ->
  Math_round (IZR n / IZR t * 100)%R = (200 * n + t) / (2 * t).
Proof.
  intros Ht. unfold Math_round.
  apply Zfloor_eq.
  set (q := (200 * n + t) / (2 * t)).
  assert (Hq : 2 * t * q <= 200 * n + t < 2 * t * q + 2 * t).
  { pose proof (Z.div_mod (200 * n + t) (2 * t) ltac:(lia)) as Hdm.
    pose proof (Z.mod_pos_bound (200 * n + t) (2 * t) ltac:(lia)) as Hb.
    fold q in Hdm. lia. }
  assert (HtR : (0 < IZR t)%R) by (apply IZR_lt; exact Ht).
  destruct Hq as [Hlo Hhi].
  apply IZR_le in Hlo. apply IZR_lt in Hhi.
  rewrite !plus_IZR, !mult_IZR in *.
  assert (Hx : (IZR n / IZR t * 100 + / 2 = (200 * IZR n + IZR t) / (2 * IZR t))%R).
  { field. lra. }
  rewrite Hx. split.
  - apply Rmult_le_reg_r with (2 * IZR t)%R; [lra|].
    unfold Rdiv. rewrite Rmult_assoc, Rinv_l by lra. lra.
  - apply Rmult_lt_reg_r with (2 * IZR t)%R; [lra|].
    unfold Rdiv. rewrite Rmult_assoc, Rinv_l by lra. lra.
Qed.

(** *** Rounding to the nearest double *)

Lemma roundHalfEven_spec (n d : Z) :
  0 < d ->
  - d <= 2 * (Double.roundHalfEven n d * d - n) <= d.
Proof.
  intros Hd. unfold Double.roundHalfEven.
  pose proof (Z.div_mod n d ltac:(lia)) as E.
  pose proof (Z.mod_pos_bound n d Hd) as B.
  set (q := n / d) in *. set (r := n mod d) in *.
  destruct (Z.ltb_spec (2 * r) d); [lia|].
  destruct (Z.ltb_spec d (2 * r)); [lia|].
  destruct (Z.even q); lia.
Qed.

Lemma roundHalfEven_scale (c n d : Z) :
  0 < c -> 0 < d ->
  Double.roundHalfEven (c * n) (c * d) = Double.roundHalfEven n d.
Proof.
  intros Hc Hd. unfold Double.roundHalfEven.
  rewrite Z.div_mul_cancel_l by lia.
  rewrite Z.mul_mod_distr_l by lia.
  replace (2 * (c * (n mod d)) <? c * d) with (2 * (n mod d) <? d).
  2:{ destruct (Z.ltb_spec (2 * (n mod d)) d), (Z.ltb_spec (2 * (c * (n mod d))) (c * d));
        try reflexivity; nia. }
  replace (c * d <? 2 * (c * (n mod d))) with (d <? 2 * (n mod d)).
  2:{ destruct (Z.ltb_spec d (2 * (n mod d))), (Z.ltb_spec (c * d) (2 * (c * (n mod d))));
        try reflexivity; nia. }
  reflexivity.
Qed.

Lemma nearest_scale (c n d : Z) :
  0 < c -> 0 < d ->
  Double.nearest (c * n) (c * d) = Double.nearest n d.
Proof.
  intros Hc Hd. unfold Double.nearest, Double.binade.
  replace (c * n =? 0) with (n =? 0)
    by (destruct (Z.eqb_spec n 0), (Z.eqb_spec (c * n) 0); try reflexivity; nia).
  destruct (n =? 0); [reflexivity|].
  rewrite <- Z.mul_assoc, Z.div_mul_cancel_l by lia.
  set (e := Z.log2 (n * 2 ^ 1100 / d) - 1100 - 52).
  destruct (Z.leb_spec 0 e).
  - assert (0 < d * 2 ^ e) by (apply Z.mul_pos_pos; [lia | apply Z.pow_pos_nonneg; lia]).
    rewrite <- Z.mul_assoc, roundHalfEven_scale by assumption. reflexivity.
  - rewrite <- Z.mul_assoc, roundHalfEven_scale by lia. reflexivity.
Qed.

(** The double nearest to a fraction below [2^52]: a multiple [m] of
    [2^-s] within half a unit of the fraction, which lies in the binade
    of [2^(52-s)]. *)
Lemma nearest_spec (n d : Z) :
  0 < n -> 0 < d -> d <= n * 2 ^ 1100 -> n < d * 2 ^ 52 ->
  exists m s,
    0 < s
    /\ Double.nearest n d = (m, 2 ^ s)
    /\ 2 ^ 52 * d <= n * 2 ^ s < 2 ^ 53 * d
    /\ - d <= 2 * (m * d - n * 2 ^ s) <= d.
Proof.
  intros Hn Hd Hlo Hhi.
  unfold Double.nearest, Double.binade.
  destruct (Z.eqb_spec n 0) as [|_]; [lia|].
  set (q := n * 2 ^ 1100 / d).
  assert (Hq1 : 1 <= q).
  { unfold q. apply Z.div_le_lower_bound; lia. }
  assert (Hqd : q * d <= n * 2 ^ 1100 < (q + 1) * d).
  { pose proof (Z.div_mod (n * 2 ^ 1100) d ltac:(lia)) as E.
    pose proof (Z.mod_pos_bound (n * 2 ^ 1100) d Hd) as B.
    fold q in E. lia. }
  pose proof (Z.log2_spec q ltac:(lia)) as [HL1 HL2].
  pose proof (Z.log2_nonneg q) as HL0.
  set (L := Z.log2 q) in *.
  assert (HL : L < 1152).
  { apply Z.log2_lt_pow2; [lia|].
    apply Z.lt_le_trans with (2 ^ 52 * 2 ^ 1100); [|rewrite <- Z.pow_add_r by lia; reflexivity].
    assert (q * d < 2 ^ 52 * 2 ^ 1100 * d); [|nia].
    apply Z.le_lt_trans with (n * 2 ^ 1100); [lia|].
    assert (0 < 2 ^ 1100) by (apply Z.pow_pos_nonneg; lia). nia. }
  replace (L - 1100 - 52) with (- (1152 - L)) by lia.
  set (s := 1152 - L).
  assert (Hs : 0 < s) by (unfold s; lia).
  destruct (Z.leb_spec 0 (- s)); [lia|].
  rewrite Z.opp_involutive.
  exists (Double.roundHalfEven (n * 2 ^ s) d), s.
  split; [exact Hs|]. split; [reflexivity|].
  split; [|apply roundHalfEven_spec; exact Hd].
  assert (HP : 0 < 2 ^ L) by (apply Z.pow_pos_nonneg; lia).
  assert (E : n * 2 ^ 1100 * 2 ^ 52 = n * 2 ^ s * 2 ^ L).
  { rewrite <- !Z.mul_assoc, <- !Z.pow_add_r by lia. do 2 f_equal. unfold s. lia. }
  assert (HL2' : 2 ^ (L + 1) = 2 * 2 ^ L) by (rewrite Z.pow_add_r by lia; lia).
  split.
  - apply Z.mul_le_mono_pos_r with (2 ^ L); [exact HP|].
    rewrite <- E. nia.
  - apply Z.mul_lt_mono_pos_r with (2 ^ L); [exact HP|].
    rewrite <- E. nia.
Qed.

(** The relative error of the nearest double is at most [2^-53]. *)
Lemma nearest_error (n d : Z) :
  0 < n -> 0 < d -> d <= n * 2 ^ 1100 -> n < d * 2 ^ 52 ->
  exists a b,
    Double.nearest n d = (a, b) /\ 0 < a /\ 0 < b
    /\ 2 ^ 52 * d <= n * b < 2 ^ 53 * d
    /\ (IZR n / IZR d * (1 - / 9007199254740992)
        <= IZR a / IZR b
        <= IZR n / IZR d * (1 + / 9007199254740992))%R.
Proof.
  intros Hn Hd Hlo Hhi.
  destruct (nearest_spec n d Hn Hd Hlo Hhi) as (m & s & Hs & E & Hb & Hm).
  assert (HB : 0 < 2 ^ s) by (apply Z.pow_pos_nonneg; lia).
  set (b := 2 ^ s) in *.
  change (2 ^ 52) with 4503599627370496 in Hb.
  change (2 ^ 53) with 9007199254740992 in Hb.
  assert (Ha : 0 < m) by nia.
  exists m, b. repeat split; trivial; try lia.
  - assert (HbR : (0 < IZR b)%R) by now apply IZR_lt.
    assert (HdR : (0 < IZR d)%R) by now apply IZR_lt.
    assert (H1 : (4503599627370496 * IZR d <= IZR n * IZR b)%R).
    { rewrite <- !mult_IZR. apply IZR_le. lia. }
    assert (H2 : (- IZR d <= 2 * (IZR m * IZR d - IZR n * IZR b))%R).
    { rewrite <- mult_IZR, <- mult_IZR, <- minus_IZR, <- mult_IZR, <- opp_IZR.
      apply IZR_le. lia. }
    apply Rmult_le_reg_r with (IZR b * IZR d * 9007199254740992)%R;
      [apply Rmult_lt_0_compat; [apply Rmult_lt_0_compat|]; lra|].
    replace (IZR n / IZR d * (1 - / 9007199254740992)
             * (IZR b * IZR d * 9007199254740992))%R
      with (IZR n * IZR b * 9007199254740992 - IZR n * IZR b)%R by (field; lra).
    replace (IZR m / IZR b * (IZR b * IZR d * 9007199254740992))%R
      with (IZR m * IZR d * 9007199254740992)%R by (field; lra).
    lra.
  - assert (HbR : (0 < IZR b)%R) by now apply IZR_lt.
    assert (HdR : (0 < IZR d)%R) by now apply IZR_lt.
    assert (H1 : (4503599627370496 * IZR d <= IZR n * IZR b)%R).
    { rewrite <- !mult_IZR. apply IZR_le. lia. }
    assert (H2 : (2 * (IZR m * IZR d - IZR n * IZR b) <= IZR d)%R).
    { rewrite <- mult_IZR, <- mult_IZR, <- minus_IZR, <- mult_IZR.
      apply IZR_le. lia. }
    apply Rmult_le_reg_r with (IZR b * IZR d * 9007199254740992)%R;
      [apply Rmult_lt_0_compat; [apply Rmult_lt_0_compat|]; lra|].
    replace (IZR n / IZR d * (1 + / 9007199254740992)
             * (IZR b * IZR d * 9007199254740992))%R
      with (IZR n * IZR b * 9007199254740992 + IZR n * IZR b)%R by (field; lra).
    replace (IZR m / IZR b * (IZR b * IZR d * 9007199254740992))%R
      with (IZR m * IZR d * 9007199254740992)%R by (field; lra).
    lra.
Qed.

Lemma Math_round_floor (a b : Z) :
  0 < b -> Double.Math_round (a, b) = Zfloor (IZR a / IZR b + / 2).
Proof.
  intros Hb. unfold Double.Math_round. cbn [fst snd]. symmetry. apply Zfloor_eq.
  set (q := (2 * a + b) / (2 * b)).
  pose proof (Z.div_mod (2 * a + b) (2 * b) ltac:(lia)) as E.
  pose proof (Z.mod_pos_bound (2 * a + b) (2 * b) ltac:(lia)) as B.
  fold q in E.
  assert (Hq : 2 * b * q <= 2 * a + b < 2 * b * q + 2 * b) by lia.
  destruct Hq as [Hlo Hhi]. apply IZR_le in Hlo. apply IZR_lt in Hhi.
  rewrite !plus_IZR, !mult_IZR in *.
  assert (HbR : (0 < IZR b)%R) by now apply IZR_lt.
  replace (IZR a / IZR b + / 2)%R with ((2 * IZR a + IZR b) / (2 * IZR b))%R
    by (field; lra).
  split.
  - apply Rmult_le_reg_r with (2 * IZR b)%R; [lra|].
    unfold Rdiv. rewrite Rmult_assoc, Rinv_l by lra. lra.
  - apply Rmult_lt_reg_r with (2 * IZR b)%R; [lra|].
    unfold Rdiv. rewrite Rmult_assoc, Rinv_l by lra. lra.
Qed.

(** The value the code computes is within [2^-44] of the exact
    percentage. *)
Lemma percentage_value (p t : Z) :
  0 < t < 2 ^ 32 -> 0 < p <= t ->
  exists a b,
    Double.mul (Double.div p t) 100 = (a, b) /\ 0 < b
    /\ (IZR p / IZR t * 100 - / 17592186044416
        <= IZR a / IZR b
        <= IZR p / IZR t * 100 + / 17592186044416)%R.
Proof.
  intros Ht Hp.
  assert (HW : 2 ^ 33 <= 2 ^ 1100) by (apply Z.pow_le_mono_r; lia).
  change (2 ^ 32) with 4294967296 in Ht.
  change (2 ^ 33) with 8589934592 in HW.
  set (W := 2 ^ 1100) in *.
  destruct (nearest_error p t) as (a1 & b1 & E1 & Ha1 & Hb1 & Hbin1 & Herr1);
    try lia; try (fold W; nia).
  change (2 ^ 52) with 4503599627370496 in Hbin1.
  change (2 ^ 53) with 9007199254740992 in Hbin1.
  assert (HtR : (0 < IZR t)%R) by (apply IZR_lt; lia).
  assert (Hx : (0 < IZR p / IZR t <= 1)%R).
  { assert (0 < IZR p)%R by (apply IZR_lt; lia).
    assert (IZR p <= IZR t)%R by (apply IZR_le; lia).
    split; [now apply Rdiv_lt_0_compat|].
    apply Rmult_le_reg_r with (IZR t); [lra|].
    unfold Rdiv. rewrite Rmult_assoc, Rinv_l by lra. lra. }
  set (x := (IZR p / IZR t)%R) in *.
  set (y1 := (IZR a1 / IZR b1)%R) in *.
  assert (Hb1R : (0 < IZR b1)%R) by now apply IZR_lt.
  (* bounds on the first double, in integers *)
  assert (Hy1lo : b1 <= a1 * 8589934592).
  { assert (H : (IZR b1 <= IZR a1 * 8589934592)%R).
    { assert (Hxl : (/ 4294967296 <= x)%R).
      { unfold x. apply Rmult_le_reg_r with (IZR t * 4294967296)%R; [lra|].
        replace (IZR p / IZR t * (IZR t * 4294967296))%R
          with (IZR p * 4294967296)%R by (field; lra).
        replace (/ 4294967296 * (IZR t * 4294967296))%R with (IZR t) by (field; lra).
        assert (1 <= IZR p)%R by (apply IZR_le; lia).
        assert (IZR t <= 4294967296)%R by (apply IZR_le; lia). lra. }
      assert (Hy : (/ 8589934592 <= y1)%R).
      { apply Rle_trans with (x * (1 - / 9007199254740992))%R; [|apply Herr1].
        apply Rle_trans with (x * / 2)%R; [lra|].
        apply Rmult_le_compat_l; lra. }
      unfold y1 in Hy.
      apply Rmult_le_reg_r with (/ IZR b1 * / 8589934592)%R;
        [apply Rmult_lt_0_compat; [now apply Rinv_0_lt_compat | lra]|].
      replace (IZR b1 * (/ IZR b1 * / 8589934592))%R with (/ 8589934592)%R
        by (field; lra).
      replace (IZR a1 * 8589934592 * (/ IZR b1 * / 8589934592))%R
        with (IZR a1 / IZR b1)%R by (field; lra).
      exact Hy. }
    rewrite <- mult_IZR in H. now apply le_IZR. }
  assert (Hy1hi : a1 <= 2 * b1).
  { assert (H : (IZR a1 <= 2 * IZR b1)%R).
    { assert (Hy : (y1 <= 2)%R).
      { apply Rle_trans with (x * (1 + / 9007199254740992))%R; [apply Herr1|].
        apply Rle_trans with (1 * (1 + / 9007199254740992))%R; [|lra].
        apply Rmult_le_compat_r; lra. }
      unfold y1 in Hy.
      apply Rmult_le_reg_r with (/ IZR b1)%R; [now apply Rinv_0_lt_compat|].
      replace (2 * IZR b1 * / IZR b1)%R with 2%R by (field; lra).
      exact Hy. }
    rewrite <- mult_IZR in H. now apply le_IZR. }
  destruct (nearest_error (a1 * 100) b1) as (a2 & b2 & E2 & Ha2 & Hb2 & _ & Herr2);
    try lia; try (fold W; nia).
  exists a2, b2. split; [|split; [exact Hb2|]].
  { unfold Double.mul, Double.div. rewrite E1. exact E2. }
  rewrite mult_IZR in Herr2.
  replace (IZR a1 * 100 / IZR b1)%R with (y1 * 100)%R in Herr2
    by (unfold y1; field; lra).
  set (y2 := (IZR a2 / IZR b2)%R) in *.
  assert (Hy1 : (0 < y1 <= 2)%R).
  { split.
    - unfold y1. apply Rdiv_lt_0_compat; [apply IZR_lt; lia | lra].
    - apply Rle_trans with (x * (1 + / 9007199254740992))%R; [apply Herr1|].
      apply Rle_trans with (1 * (1 + / 9007199254740992))%R; [|lra].
      apply Rmult_le_compat_r; lra. }
  destruct Herr1 as [L1 U1]. destruct Herr2 as [L2 U2].
  assert (Hu : (/ 9007199254740992 = / 512 * / 17592186044416)%R) by (field; lra).
  assert (Hk : (0 < / 17592186044416)%R) by (apply Rinv_0_lt_compat; lra).
  set (k := (/ 17592186044416)%R) in *.
  rewrite Hu in *.
  assert (Hxk : (0 <= x * k <= k)%R) by (split; nra).
  assert (Hyk : (0 <= y1 * k <= 2 * k)%R) by (split; nra).
  split; nra.
Qed.

Lemma percentage_zero (t : Z) : percentage 0 t = 0.
Proof. reflexivity. Qed.

(** The score against the exactly rounded percentage
    [floor (100 p / t + 1/2) = (200 p + t) / (2 t)]: the same, unless the
    exact percentage lies halfway between two integers. *)
Lemma percentage_exact (p t : Z) :
  0 < t < 2 ^ 32 -> 0 <= p <= t ->
  ((200 * p + t) mod (2 * t) <> 0 -> percentage p t = (200 * p + t) / (2 * t))
  /\ ((200 * p + t) mod (2 * t) = 0 ->
      percentage p t = (200 * p + t) / (2 * t)
      \/ percentage p t = (200 * p + t) / (2 * t) - 1).
Proof.
  intros Ht Hp.
  pose proof (Z.div_mod (200 * p + t) (2 * t) ltac:(lia)) as E.
  pose proof (Z.mod_pos_bound (200 * p + t) (2 * t) ltac:(lia)) as B.
  set (q := (200 * p + t) / (2 * t)) in *.
  set (r := (200 * p + t) mod (2 * t)) in *.
  destruct (Z.eq_dec p 0) as [-> | Hp0].
  { rewrite percentage_zero.
    assert (q = 0) by (unfold q; apply Z.div_small; lia).
    split; intros; [lia|]. left. lia. }
  destruct (percentage_value p t Ht ltac:(lia)) as (a & b & Ev & Hb & Hlo & Hhi).
  unfold percentage. rewrite Ev, (Math_round_floor a b Hb).
  change (2 ^ 32) with 4294967296 in Ht.
  assert (HtR : (0 < IZR t <= 4294967295)%R)
    by (split; [apply IZR_lt | apply IZR_le]; lia).
  assert (HX : (IZR p / IZR t * 100 + / 2 = IZR q + IZR r / (2 * IZR t))%R).
  { assert (HE : (200 * IZR p + IZR t = 2 * IZR t * IZR q + IZR r)%R).
    { rewrite <- !mult_IZR, <- !plus_IZR. f_equal. exact E. }
    apply Rmult_eq_reg_r with (2 * IZR t)%R; [|lra].
    replace ((IZR p / IZR t * 100 + / 2) * (2 * IZR t))%R
      with (200 * IZR p + IZR t)%R by (field; lra).
    replace ((IZR q + IZR r / (2 * IZR t)) * (2 * IZR t))%R
      with (2 * IZR t * IZR q + IZR r)%R by (field; lra).
    exact HE. }
  set (y := (IZR a / IZR b)%R) in *.
  set (X := (IZR p / IZR t * 100)%R) in *.
  assert (Hk : (0 < / 17592186044416 < / 8589934592)%R).
  { split; [apply Rinv_0_lt_compat; lra|].
    apply Rinv_lt_contravar; lra. }
  assert (Hstep : (/ 8589934592 < / (2 * IZR t))%R).
  { apply Rinv_lt_contravar; [apply Rmult_lt_0_compat|]; lra. }
  split.
  - intros Hr. apply Zfloor_eq.
    assert (Hr1 : (1 <= IZR r <= 2 * IZR t - 1)%R).
    { split; [apply IZR_le; lia|].
      rewrite <- mult_IZR, <- minus_IZR. apply IZR_le. lia. }
    assert (Hfrac : (/ (2 * IZR t) <= IZR r / (2 * IZR t) <= 1 - / (2 * IZR t))%R).
    { assert (Hi : (0 < / (2 * IZR t))%R) by (apply Rinv_0_lt_compat; lra).
      unfold Rdiv. split.
      - rewrite <- (Rmult_1_l (/ (2 * IZR t))) at 1.
        apply Rmult_le_compat_r; lra.
      - replace (1 - / (2 * IZR t))%R with ((2 * IZR t - 1) * / (2 * IZR t))%R
          by (field; lra).
        apply Rmult_le_compat_r; lra. }
    lra.
  - intros Hr. rewrite Hr in HX. unfold Rdiv in HX. rewrite Rmult_0_l in HX.
    destruct (Rle_dec (IZR q) (y + / 2)) as [H | H].
    + left. apply Zfloor_eq. lra.
    + right. apply Zfloor_eq. rewrite minus_IZR. lra.
Qed.

Lemma percentage_scale (c p t : Z) : 0 < c -> 0 < t -> percentage (c * p) (c * t) = percentage p t.
Proof.
  intros Hc Ht. unfold percentage, Double.div. now rewrite nearest_scale.
Qed.

Lemma percentage_199_200 : percentage 199 200 = 100.
Proof. vm_compute. reflexivity. Qed.

Lemma percentage_1_200 : percentage 1 200 = 1.
Proof. vm_compute. reflexivity. Qed.

(** Range and extremes of the score. *)
Lemma percentage_range (p t : Z) :
  0 < t < 2 ^ 32 -> 0 <= p <= t ->
  0 <= percentage p t <= 100
  /\ (percentage p t = 100 <-> 199 * t <= 200 * p)
  /\ (percentage p t = 0 <-> 200 * p < t).
Proof.
  intros Ht Hp.
  destruct (percentage_exact p t Ht Hp) as [Hn Htie].
  pose proof (Z.div_mod (200 * p + t) (2 * t) ltac:(lia)) as E.
  pose proof (Z.mod_pos_bound (200 * p + t) (2 * t) ltac:(lia)) as B.
  set (q := (200 * p + t) / (2 * t)) in *.
  set (r := (200 * p + t) mod (2 * t)) in *.
  assert (Hq : 0 <= q <= 100) by nia.
  destruct (Z.eq_dec r 0) as [Hr | Hr].
  - (* halfway *)
    rewrite Hr in E.
    assert (Hq1 : 1 <= q) by nia.
    assert (H100 : 199 * t <= 200 * p -> percentage p t = 100).
    { intros H. assert (q = 100) by nia.
      assert (Et : t = 200 * (t - p)) by nia.
      assert (Ep : p = 199 * (t - p)) by nia.
      rewrite Et at 1. rewrite Ep at 1.
      replace (199 * (t - p)) with ((t - p) * 199) by lia.
      replace (200 * (t - p)) with ((t - p) * 200) by lia.
      rewrite percentage_scale by lia. exact percentage_199_200. }
    assert (H1 : q = 1 -> percentage p t = 1).
    { intros H. assert (Et : t = 200 * p) by nia.
      rewrite Et. replace p with (p * 1) at 1 by lia.
      replace (200 * p) with (p * 200) by lia.
      rewrite percentage_scale by lia. exact percentage_1_200. }
    destruct (Htie Hr) as [S | S].
    + rewrite S. split; [lia|]. split; split; intros; nia.
    + destruct (Z.eq_dec q 1) as [Hq1' | Hq1'].
      * rewrite (H1 Hq1'). split; [lia|]. split; split; intros; nia.
      * destruct (Z_le_gt_dec (199 * t) (200 * p)) as [Hbig | Hsmall].
        -- rewrite (H100 Hbig). split; [lia|]. split; split; intros; nia.
        -- rewrite S. split; [lia|]. split; split; intros; nia.
  - rewrite (Hn Hr). split; [lia|]. split; split; intros; nia.
Qed.

(** The doubles of the model are those of the IEEE 754 specification of
    the Standard Library: for every [0 <= p <= t] with [t] up to 32, and
    for 23 out of 40, [(p / t) * 100] is the same double in both. *)
Lemma Double_agrees_with_SpecFloat :
  agreesUpTo 32 = true /\ agreesWithSpecFloat 23 40 = true.
Proof. split; vm_compute; reflexivity. Qed.

Lemma healthScore_percentage (kit : BrandKit) (results : list ScannedElement) :
  healthScore kit results
  = if 0 <? Z.of_nat (List.length results)
    then percentage (Z.of_nat (List.length results)
                     - Z.of_nat (List.length (badElements kit results)))
                    (Z.of_nat (List.length results))
    else 100.
Proof. reflexivity. Qed.

Lemma exact_percentage (total violatingCount : nat) :
  (violatingCount <= total)%nat ->
  ((INR total - INR violatingCount) / INR total * 100)%R
  = (IZR (Z.of_nat total - Z.of_nat violatingCount) / IZR (Z.of_nat total) * 100)%R.
Proof.
  intros Hle. rewrite minus_IZR, <- !INR_IZR_INZ. reflexivity.
Qed.

(** C8, counterexample: forty scanned elements with seventeen violations.
    The exact value of (40 - 17) / 40 * 100 is 57.5 and rounds to 58; the
    quotient 0.575 is not a double, the nearest double is below it and so
    is its product with 100, and the score is 57. *)
Lemma healthScore_rounds_below_half :
  List.length fortyElements = 40%nat
  /\ List.length (badElements sampleKit fortyElements) = 17%nat
  /\ Math_round ((INR 40 - INR 17) / INR 40 * 100)%R = 58
  /\ healthScore sampleKit fortyElements = 57.
Proof.
  split; [reflexivity|]. split; [reflexivity|]. split.
  - rewrite (exact_percentage 40 17) by lia.
    rewrite Math_round_percent by lia. reflexivity.
  - vm_compute. reflexivity.
Qed.

(** C8, amended: the health score is 100 when nothing was scanned.
    Otherwise, with [total] scanned elements (fewer than [2^32], the limit
    of an array), [violatingCount] of them flagged and
    [exact = (total - violatingCount) / total * 100] computed exactly, the
    score is [round exact], the integer nearest to [exact], whenever
    [exact] does not lie halfway between two integers; when it does, the
    score is one of the two, [round exact] or [round exact - 1], as the
    rounding of the quotient and of the product to doubles decides.  Ten
    scanned elements with three violations score 70. *)
Theorem healthScore_formula (kit : BrandKit) (results : list ScannedElement) :
  let total := List.length results in
  let violatingCount := List.length (badElements kit results) in
  let exact := ((INR total - INR violatingCount) / INR total * 100)%R in
  (total = 0%nat -> healthScore kit results = 100)
  /\ (0 < Z.of_nat total < 2 ^ 32 ->
      ((forall k : Z, exact <> (IZR k + / 2)%R) ->
       healthScore kit results = Math_round exact)
      /\ (healthScore kit results = Math_round exact
          \/ healthScore kit results = Math_round exact - 1))
  /\ (total = 10%nat -> violatingCount = 3%nat -> healthScore kit results = 70).
Proof.
  intros total violatingCount exact.
  assert (Hle : (violatingCount <= total)%nat) by apply badElements_length.
  assert (General :
    0 < Z.of_nat total < 2 ^ 32 ->
    ((forall k : Z, exact <> (IZR k + / 2)%R) ->
     healthScore kit results = Math_round exact)
    /\ (healthScore kit results = Math_round exact
        \/ healthScore kit results = Math_round exact - 1)).
  { intros Ht. rewrite healthScore_percentage. fold total. fold violatingCount.
    destruct (Z.ltb_spec 0 (Z.of_nat total)) as [_ | ?]; [|lia].
    unfold exact. rewrite (exact_percentage total violatingCount Hle).
    set (p := Z.of_nat total - Z.of_nat violatingCount).
    set (t := Z.of_nat total) in *.
    assert (Hp : 0 <= p <= t) by (unfold p, t; lia).
    rewrite Math_round_percent by lia.
    destruct (percentage_exact p t Ht Hp) as [Hn Htie].
    pose proof (Z.div_mod (200 * p + t) (2 * t) ltac:(lia)) as E.
    destruct (Z.eq_dec ((200 * p + t) mod (2 * t)) 0) as [Hr | Hr].
    - split; [|exact (Htie Hr)].
      intros Hnot. exfalso.
      apply (Hnot ((200 * p + t) / (2 * t) - 1)).
      rewrite Hr, Z.add_0_r in E.
      assert (HtR : (0 < IZR t)%R) by (apply IZR_lt; lia).
      assert (ER : (200 * IZR p + IZR t
                    = 2 * IZR t * IZR ((200 * p + t) / (2 * t)))%R).
      { rewrite <- !mult_IZR, <- plus_IZR. f_equal. exact E. }
      rewrite minus_IZR.
      apply Rmult_eq_reg_r with (2 * IZR t)%R; [|lra].
      replace (IZR p / IZR t * 100 * (2 * IZR t))%R with (200 * IZR p)%R
        by (field; lra).
      lra.
    - split; [intros _ | left]; exact (Hn Hr). }
  split; [|split; [exact General|]].
  - intros H0. rewrite healthScore_percentage. fold total. now rewrite H0.
  - intros Ht Hv.
    destruct General as [Hexact _]; [rewrite Ht; split; [lia | reflexivity]|].
    rewrite Hexact.
    + unfold exact. rewrite (exact_percentage total violatingCount Hle), Ht, Hv.
      rewrite Math_round_percent by lia. reflexivity.
    + intros k Hk. unfold exact in Hk.
      rewrite (exact_percentage total violatingCount Hle), Ht, Hv in Hk.
      replace (IZR (Z.of_nat 10 - Z.of_nat 3) / IZR (Z.of_nat 10) * 100)%R
        with 70%R in Hk by (cbn; lra).
      assert (H : (140 = 2 * IZR k + 1)%R) by lra.
      rewrite <- mult_IZR, <- plus_IZR in H. apply eq_IZR in H. lia.
Qed.

Lemma healthScore_formula_witness : healthScore sampleKit tenElements = 70.
Proof.
  apply (proj2 (proj2 (healthScore_formula sampleKit tenElements))); reflexivity.
Defined.

(** ** Font membership *)

Lemma prefix_app (p s : string) : String.prefix p (p ++ s) = true.
Proof.
  induction p as [|c p IH]; cbn.
  - destruct s; reflexivity.
  - destruct (Ascii.ascii_dec c c) as [_|N]; [exact IH | contradiction].
Qed.

Lemma normalizeFontName_nonblank (a : string) :
  JS.toLowerCase (JS.trim a) <> "" ->
  normalizeFontName (Some a) = Some (JS.toLowerCase (JS.trim a)).
Proof.
  destruct a as [|c a']; [intros H; now elim H | reflexivity].
Qed.

(** A font name is accepted as soon as one non-blank allowed font equals
    it or is followed in it by a separator. *)
Lemma fontMatches_intro (normalized allowed : string) (fonts : list string) :
  In allowed fonts ->
  JS.toLowerCase (JS.trim allowed) <> "" ->
  (normalized = JS.toLowerCase (JS.trim allowed)
   \/ exists (sep : ascii) (suffix : string),
        (sep = " " \/ sep = "-" \/ sep = "_")%char
        /\ normalized = JS.toLowerCase (JS.trim allowed) ++ String sep suffix) ->
  fontMatches normalized fonts = true.
Proof.
  intros Hin Hnb Hshape.
  induction fonts as [|a rest IH]; [contradiction|].
  cbn [fontMatches].
  destruct Hin as [-> | Hin].
  - rewrite normalizeFontName_nonblank by exact Hnb.
    destruct (JS.toLowerCase (JS.trim allowed)) as [|c an] eqn:Ean; [now elim Hnb|].
    destruct Hshape as [-> | (sep & suffix & Hsep & ->)].
    + now rewrite String.eqb_refl.
    + destruct (String.eqb _ _); [reflexivity|].
      assert (Hp : JS.startsWith (String c an ++ String sep suffix)
                     (String c an ++ String sep "") = true).
      { unfold JS.startsWith.
        replace (String c an ++ String sep suffix)
          with ((String c an ++ String sep "") ++ suffix).
        - apply prefix_app.
        - clear. induction an as [|d an IH]; cbn; [reflexivity|].
          cbn in IH. injection IH as IH. now rewrite IH. }
      destruct Hsep as [-> | [-> | ->]]; rewrite Hp; rewrite ?orb_true_r; reflexivity.
  - specialize (IH Hin).
    destruct (normalizeFontName (Some a)) as [[|c an]|]; try exact IH.
    destruct (String.eqb _ _); [reflexivity|].
    destruct (_ || _ || _); [reflexivity | exact IH].
Qed.

Lemma trimEnd_Arial_space (x : string) :
  JS.trimEnd ("Arial " ++ x) = "Arial"
  \/ exists t, JS.trimEnd ("Arial " ++ x) = "Arial " ++ t.
Proof.
  cbn. destruct (JS.trimEnd x) as [|c t].
  - left. reflexivity.
  - right. exists (String c t). reflexivity.
Qed.

(** C10: [isFontAllowed] answers [true] for a font name that is null,
    undefined or empty, and for every font name that, trimmed and compared
    without case, equals an allowed font or starts with an allowed font
    followed by [' '], ['-'] or ['_'] and any suffix at all (the suffix
    need not be a style word: every ['Arial <anything>'] matches
    ['Arial']).  The allowed font of a prefix match is a non-blank entry
    of the list: blank entries, which the validator rejects, are skipped by
    the loop. *)
Theorem isFontAllowed_prefix_match :
  (forall anything : string,
      isFontAllowed (Some ("Arial " ++ anything)) ["Arial"] = true)
  /\ forall (fontName : option string) (fonts : list string),
       (JS.truthy fontName = false
        \/ exists f allowed : string,
             fontName = Some f
             /\ In allowed fonts
             /\ (JS.toLowerCase (JS.trim f) = JS.toLowerCase (JS.trim allowed)
                 \/ (JS.toLowerCase (JS.trim allowed) <> ""
                     /\ exists (sep : ascii) (suffix : string),
                          (sep = " " \/ sep = "-" \/ sep = "_")%char
                          /\ JS.toLowerCase (JS.trim f)
                             = JS.toLowerCase (JS.trim allowed) ++ String sep suffix))) ->
       isFontAllowed fontName fonts = true.
Proof.
  match goal with |- _ /\ ?G => assert (General : G) end.
  { intros fontName fonts [Hfalsy | (f & allowed & -> & Hin & Hshape)].
    - unfold isFontAllowed. now rewrite Hfalsy.
    - unfold isFontAllowed.
      destruct f as [|c f']; [reflexivity|].
      cbn [JS.truthy negb normalizeFontName].
      destruct (JS.toLowerCase (JS.trim (String c f'))) as [|c' n] eqn:En; [reflexivity|].
      apply fontMatches_intro with (allowed := allowed); [exact Hin | |].
      + destruct Hshape as [<- | [Hnb _]]; [discriminate | exact Hnb].
      + destruct Hshape as [E | [_ H]]; [now left | now right]. }
  split; [|exact General].
  intros anything. apply General. right.
  exists ("Arial " ++ anything), "Arial".
  split; [reflexivity|]. split; [now left|].
  change (JS.trim ("Arial " ++ anything)) with (JS.trimEnd ("Arial " ++ anything)).
  destruct (trimEnd_Arial_space anything) as [-> | [t ->]].
  - left. reflexivity.
  - right. split; [discriminate|].
    exists " "%char, (JS.toLowerCase t). split; [now left | reflexivity].
Qed.

Lemma isFontAllowed_prefix_match_witness :
  isFontAllowed (Some " Georgia_Pro Display") ["Arial"; " georgia "] = true.
Proof.
  apply (proj2 isFontAllowed_prefix_match).
  right. exists " Georgia_Pro Display", " georgia ".
  split; [reflexivity|]. split; [right; left; reflexivity|].
  right. split; [discriminate|].
  exists "_"%char, "pro display".
  split; [right; right; reflexivity | reflexivity].
Defined.

(** ** The suggested colour is a brand colour *)

(** A fold that keeps one of its two arguments at each step returns an
    element of the list it folds. *)
Lemma fold_left_selects {A : Type} (f : A -> A -> A) :
  (forall x y, f x y = x \/ f x y = y) ->
  forall (l : list A) (x : A), In (fold_left f l x) (x :: l).
Proof.
  intros Hsel l. induction l as [|y l IH]; intros x; cbn [fold_left].
  - now left.
  - destruct (IH (f x y)) as [H | H].
    + destruct (Hsel x y) as [E | E].
      * left. rewrite <- H. symmetry. exact E.
      * right. left. rewrite <- H. symmetry. exact E.
    + right. right. exact H.
Qed.

Lemma reduce_selects {A : Type} (f : A -> A -> A) (l : list A) (best : A) :
  (forall x y, f x y = x \/ f x y = y) ->
  reduce f l = Some best -> In best l.
Proof.
  intros Hsel. destruct l as [|x rest]; cbn [reduce]; [discriminate|].
  intros H. injection H as <-. now apply fold_left_selects.
Qed.

Lemma reduce_none {A : Type} (f : A -> A -> A) (l : list A) :
  reduce f l = None <-> l = [].
Proof. destruct l; cbn; split; intros; congruence. Qed.

Lemma closer_selects (currentHex x y : string) :
  closer currentHex x y = x \/ closer currentHex x y = y.
Proof. unfold closer. destruct (Rltb _ _); auto. Qed.

Lemma higherContrast_selects (el : ScannedElement) (bgHex x y : string) :
  higherContrast el bgHex x y = x \/ higherContrast el bgHex x y = y.
Proof.
  unfold higherContrast.
  destruct (toHex6 (Some x)); [|now left].
  destruct (toHex6 (Some y)); [|now left].
  destruct (Rltb _ _); auto.
Qed.

Lemma scan_selects (target : JSNum.num * JSNum.num * JSNum.num)
      (candidates : list string) :
  forall (best : option string) (bestDist : JSNum.num) (c : string),
    Nearest.scan target candidates best bestDist = Some c ->
    best = Some c \/ In c candidates.
Proof.
  induction candidates as [|x rest IH]; intros best bestDist c; cbn [Nearest.scan].
  - intros ->. now left.
  - destruct (Nearest.hexToRgb (Some x)) as [[[cr cg] cb]|].
    + destruct target as [[tr tg] tb].
      destruct (Nearest.lt _ _); intros H; apply IH in H as [H | H].
      * injection H as <-. right. now left.
      * right. now right.
      * now left.
      * right. now right.
    + intros H. apply IH in H as [H | H]; [now left | right; now right].
Qed.

Lemma findNearestBrandColor_in (kit : BrandKit) (inputHex : option string) (c : string) :
  findNearestBrandColor kit inputHex = Some c -> In c (allowedColors kit).
Proof.
  unfold findNearestBrandColor.
  destruct (_ || _); [discriminate|].
  destruct (Nearest.hexToRgb inputHex); [|discriminate].
  intros H. apply scan_selects in H as [H | H]; [discriminate | exact H].
Qed.

Lemma first_in (l : list string) :
  l <> [] -> exists c, first l = Some c /\ In c l.
Proof.
  destruct l as [|x l]; [congruence|]. intros _. exists x. split; [reflexivity | now left].
Qed.

Lemma orElse_in (a : option string) (l : list string) :
  l <> [] ->
  (forall c, a = Some c -> In c l) ->
  exists c, orElse a (first l) = Some c /\ In c l.
Proof.
  intros Hne Ha. unfold orElse.
  destruct a as [[|ch s]|]; cbn [JS.truthy]; try (now apply first_in).
  exists (String ch s). split; [reflexivity | now apply Ha].
Qed.

(** C9: whenever the kit has at least one allowed colour, the colour
    suggested for an element is one of the kit's allowed colours, on every
    path: missing or unparseable fill, safe list, highest-contrast
    fallback, last resort, and nearest brand colour. *)
Theorem determineSuggestedColor_allowed (kit : BrandKit) (el : ScannedElement) :
  allowedColors kit <> [] ->
  exists c : string,
    determineSuggestedColor kit el = Some c /\ In c (allowedColors kit).
Proof.
  intros Hne. unfold determineSuggestedColor.
  destruct (toHex6 (fillColor el)) as [currentHex|]; [|now apply first_in].
  pose proof (orElse_in (findNearestBrandColor kit (Some currentHex)) _ Hne
                (findNearestBrandColor_in kit (Some currentHex))) as Hnearest.
  destruct (negb _ && _); [|exact Hnearest].
  destruct (toHex6 (containerFillColor el)) as [bgHex|]; [|exact Hnearest].
  destruct (reduce (closer currentHex) _) as [best|] eqn:Hsafe.
  { exists best. split; [reflexivity|].
    apply reduce_selects in Hsafe; [|apply closer_selects].
    unfold safeList in Hsafe. apply filter_In in Hsafe. tauto. }
  destruct (reduce (higherContrast el bgHex) _) as [best|] eqn:Hfall.
  { exists best. split; [reflexivity|].
    apply reduce_selects in Hfall; [|apply higherContrast_selects].
    unfold fallbackList in Hfall. apply filter_In in Hfall. tauto. }
  apply orElse_in; [exact Hne|].
  intros c Hc. apply find_some in Hc. tauto.
Qed.

Lemma determineSuggestedColor_allowed_witness :
  exists c : string,
    determineSuggestedColor sampleKit whiteOnWhiteText = Some c
    /\ In c (allowedColors sampleKit).
Proof.
  apply determineSuggestedColor_allowed. discriminate.
Defined.

(** ** Luminance and contrast ratio *)

Lemma band255_bounds (x : Z) : 0 <= JSNum.band x 255 <= 255.
Proof.
  unfold JSNum.band. change 255 with (Z.ones 8).
  rewrite Z.land_ones by lia.
  pose proof (Z.mod_pos_bound x (2 ^ 8) ltac:(lia)) as H.
  change (2 ^ 8) with 256 in *. change (Z.ones 8) with 255. lia.
Qed.

Lemma hexToRgb_bounds (hex : string) :
  0 <= r (hexToRgb hex) <= 255
  /\ 0 <= g (hexToRgb hex) <= 255
  /\ 0 <= b (hexToRgb hex) <= 255.
Proof. unfold hexToRgb; cbn [r g b]. repeat split; apply band255_bounds. Qed.

Lemma Rpower_one (y : R) : Rpower 1 y = 1%R.
Proof. unfold Rpower. rewrite ln_1, Rmult_0_r. apply exp_0. Qed.

(** For a base in (0, 1], a larger exponent gives a smaller power. *)
Lemma Rpower_antitone_exponent (x y z : R) :
  (0 < x <= 1)%R -> (y <= z)%R -> (Rpower x z <= Rpower x y)%R.
Proof.
  intros [Hx0 Hx1] Hyz. unfold Rpower.
  assert (Hln : (ln x <= 0)%R).
  { rewrite <- ln_1. destruct Hx1 as [Hlt | ->]; [left; now apply ln_increasing | right; reflexivity]. }
  destruct (Req_dec (z * ln x) (y * ln x)) as [-> | Hne]; [right; reflexivity|].
  left. apply exp_increasing. nra.
Qed.

Lemma toLinear_bounds (value : Z) :
  0 <= value <= 255 -> (0 <= toLinear value <= 1)%R.
Proof.
  intros [H0 H255]. apply IZR_le in H0, H255.
  unfold toLinear. destruct (Rleb _ _) eqn:E.
  - apply Rleb_true_iff in E. lra.
  - apply Rleb_false_iff in E.
    set (base := ((IZR value / 255 + 0.055) / 1.055)%R) in *.
    assert (Hb : (0 < base <= 1)%R) by (unfold base; lra).
    split.
    + left. unfold Rpower. apply exp_pos.
    + rewrite <- (Rpower_one 2.4). apply Rle_Rpower_l; lra.
Qed.

Lemma getLuminance_bounds (hex : string) :
  (0 <= getLuminance (hexToRgb hex) <= 1)%R.
Proof.
  destruct (hexToRgb_bounds hex) as (Hr & Hg & Hb).
  apply toLinear_bounds in Hr, Hg, Hb.
  unfold getLuminance. lra.
Qed.

(** The contrast ratio is the lighter luminance over the darker one, both
    offset by 0.05. *)
Lemma ratio_unfold (hex1 hex2 : string) (options : ContrastOptions) :
  ratio (calculateContrastRatio hex1 hex2 options) =
  ((Rmax (getLuminance (hexToRgb hex1)) (getLuminance (hexToRgb hex2)) + 0.05)
   / (Rmin (getLuminance (hexToRgb hex1)) (getLuminance (hexToRgb hex2)) + 0.05))%R.
Proof. unfold calculateContrastRatio. destruct (reportAAA options); reflexivity. Qed.

Lemma ratio_bounds (hex1 hex2 : string) (options : ContrastOptions) :
  (1 <= ratio (calculateContrastRatio hex1 hex2 options) <= 21)%R.
Proof.
  rewrite ratio_unfold.
  pose proof (getLuminance_bounds hex1) as H1.
  pose proof (getLuminance_bounds hex2) as H2.
  set (l1 := getLuminance (hexToRgb hex1)) in *.
  set (l2 := getLuminance (hexToRgb hex2)) in *.
  assert (Hmin : (0 <= Rmin l1 l2)%R) by (apply Rmin_glb; lra).
  assert (Hmax : (Rmax l1 l2 <= 1)%R) by (apply Rmax_lub; lra).
  assert (Hord : (Rmin l1 l2 <= Rmax l1 l2)%R)
    by (apply Rle_trans with l1; [apply Rmin_l | apply Rmax_l]).
  split.
  - apply Rmult_le_reg_r with (Rmin l1 l2 + 0.05)%R; [lra|].
    unfold Rdiv. rewrite Rmult_assoc, Rinv_l by lra. lra.
  - apply Rmult_le_reg_r with (Rmin l1 l2 + 0.05)%R; [lra|].
    unfold Rdiv. rewrite Rmult_assoc, Rinv_l by lra. lra.
Qed.

Lemma brandRatio_bounds (el : ScannedElement) (hex bgHex : string) :
  (1 <= brandRatio el hex bgHex <= 21)%R.
Proof. apply ratio_bounds. Qed.

(** Luminance of black, of white and of the light grey #EEEEEE. *)
Lemma toLinear_0 : toLinear 0 = 0%R.
Proof.
  unfold toLinear. destruct (Rleb _ _) eqn:E.
  - lra.
  - apply Rleb_false_iff in E. lra.
Qed.

Lemma toLinear_255 : toLinear 255 = 1%R.
Proof.
  unfold toLinear. destruct (Rleb _ _) eqn:E.
  - apply Rleb_true_iff in E. lra.
  - replace ((255 / 255 + 0.055) / 1.055)%R with 1%R by lra. apply Rpower_one.
Qed.

Lemma toLinear_238 : (0.8 <= toLinear 238 <= 1)%R.
Proof.
  split; [|apply toLinear_bounds; lia].
  unfold toLinear. destruct (Rleb _ _) eqn:E.
  - apply Rleb_true_iff in E. lra.
  - set (base := ((238 / 255 + 0.055) / 1.055)%R).
    assert (Hb : (0.93 <= base <= 1)%R) by (unfold base; lra).
    apply Rle_trans with (Rpower base 3).
    + replace 3%R with (INR 3) by (cbn; lra).
      rewrite Rpower_pow by lra. cbn [pow]. nra.
    + apply Rpower_antitone_exponent; lra.
Qed.

Lemma luminance_black : getRelativeLuminance "#000000" = 0%R.
Proof.
  unfold getRelativeLuminance.
  change (hexToRgb "#000000") with {| r := 0; g := 0; b := 0 |}.
  unfold getLuminance; cbn [r g b]. rewrite toLinear_0. lra.
Qed.

Lemma luminance_white : getRelativeLuminance "#FFFFFF" = 1%R.
Proof.
  unfold getRelativeLuminance.
  change (hexToRgb "#FFFFFF") with {| r := 255; g := 255; b := 255 |}.
  unfold getLuminance; cbn [r g b]. rewrite toLinear_255. lra.
Qed.

Lemma luminance_EEEEEE : (0.8 <= getRelativeLuminance "#EEEEEE" <= 1)%R.
Proof.
  unfold getRelativeLuminance.
  change (hexToRgb "#EEEEEE") with {| r := 238; g := 238; b := 238 |}.
  unfold getLuminance; cbn [r g b]. pose proof toLinear_238. lra.
Qed.

Lemma ratio_black_on_white (options : ContrastOptions) :
  ratio (calculateContrastRatio "#000000" "#FFFFFF" options) = 21%R.
Proof.
  rewrite ratio_unfold.
  fold (getRelativeLuminance "#000000"). fold (getRelativeLuminance "#FFFFFF").
  rewrite luminance_black, luminance_white.
  rewrite Rmax_right, Rmin_left by lra. lra.
Qed.

Lemma ratio_same (hex : string) (options : ContrastOptions) :
  ratio (calculateContrastRatio hex hex options) = 1%R.
Proof.
  rewrite ratio_unfold.
  pose proof (getLuminance_bounds hex) as H.
  rewrite Rmax_left, Rmin_left by lra.
  unfold Rdiv. rewrite Rinv_r; lra.
Qed.

Lemma ratio_red_on_black (options : ContrastOptions) :
  ratio (calculateContrastRatio "#FF0000" "#000000" options) = 5.252%R.
Proof.
  rewrite ratio_unfold.
  change (hexToRgb "#FF0000") with {| r := 255; g := 0; b := 0 |}.
  change (hexToRgb "#000000") with {| r := 0; g := 0; b := 0 |}.
  unfold getLuminance; cbn [r g b]. rewrite toLinear_0, toLinear_255.
  rewrite Rmax_left, Rmin_right by lra. lra.
Qed.

Lemma ratio_white_on_black (options : ContrastOptions) :
  ratio (calculateContrastRatio "#FFFFFF" "#000000" options) = 21%R.
Proof.
  rewrite ratio_unfold.
  fold (getRelativeLuminance "#000000"). fold (getRelativeLuminance "#FFFFFF").
  rewrite luminance_black, luminance_white.
  rewrite Rmax_left, Rmin_right by lra. lra.
Qed.

(** [hexToRgb] reads the shorthand [#000] as black. *)
Lemma ratio_short_black_on_white (options : ContrastOptions) :
  ratio (calculateContrastRatio "#000" "#FFFFFF" options) = 21%R.
Proof.
  rewrite ratio_unfold.
  change (hexToRgb "#000") with (hexToRgb "#000000").
  fold (getRelativeLuminance "#000000"). fold (getRelativeLuminance "#FFFFFF").
  rewrite luminance_black, luminance_white.
  rewrite Rmax_right, Rmin_left by lra. lra.
Qed.

Lemma ratio_EEEEEE_on_white (options : ContrastOptions) :
  (ratio (calculateContrastRatio "#EEEEEE" "#FFFFFF" options) < 1.3)%R.
Proof.
  rewrite ratio_unfold.
  fold (getRelativeLuminance "#EEEEEE"). fold (getRelativeLuminance "#FFFFFF").
  rewrite luminance_white. pose proof luminance_EEEEEE as H.
  rewrite Rmax_right, Rmin_left by lra.
  apply Rmult_lt_reg_r with (getRelativeLuminance "#EEEEEE" + 0.05)%R; [lra|].
  unfold Rdiv. rewrite Rmult_assoc, Rinv_l by lra. lra.
Qed.

(** ** Folding towards a best element *)

Section FoldBest.

Variable A : Type.
Variable P : A -> Prop.
(** [atLeast x y]: [y] is at least as good as [x]. *)
Variable atLeast : A -> A -> Prop.
Variable f : A -> A -> A.

Hypothesis atLeast_refl : forall x, atLeast x x.
Hypothesis atLeast_trans : forall x y z, atLeast x y -> atLeast y z -> atLeast x z.
Hypothesis f_keeps_best :
  forall x y, P x -> P y ->
    (f x y = x /\ atLeast y x) \/ (f x y = y /\ atLeast x y).

Lemma fold_left_best (l : list A) :
  forall x : A, P x -> Forall P l ->
    forall c : A, In c (x :: l) -> atLeast c (fold_left f l x).
Proof.
  induction l as [|y l IH]; intros x Px Pl c Hc; cbn [fold_left].
  - destruct Hc as [<- | []]. apply atLeast_refl.
  - inversion Pl as [|? ? Py Pl']; subst.
    destruct (f_keeps_best x y Px Py) as [[E Hxy] | [E Hxy]]; rewrite E.
    + destruct Hc as [<- | [<- | Hc]].
      * apply IH; trivial. now left.
      * apply atLeast_trans with x; [exact Hxy|]. apply IH; trivial. now left.
      * apply IH; trivial. now right.
    + destruct Hc as [<- | [<- | Hc]].
      * apply atLeast_trans with y; [exact Hxy|]. apply IH; trivial. now left.
      * apply IH; trivial. now left.
      * apply IH; trivial. now right.
Qed.

End FoldBest.

(** ** The suggested colour under a contrast violation *)

Lemma toHex6_some_truthy (o : option string) (x : string) :
  toHex6 o = Some x -> JS.truthy o = true.
Proof. destruct o as [[|c s]|]; cbn; congruence. Qed.

Lemma safeList_In (kit : BrandKit) (el : ScannedElement) (currentHex bgHex c : string) :
  In c (safeList kit el currentHex bgHex) <->
  In c (allowedColors kit)
  /\ exists normalizedColor,
       toHex6 (Some c) = Some normalizedColor
       /\ JS.toUpperCase normalizedColor <> JS.toUpperCase currentHex
       /\ (requiredContrast kit el <= brandRatio el normalizedColor bgHex)%R.
Proof.
  unfold safeList. rewrite filter_In. split.
  - intros [Hin Hf]. split; [exact Hin|].
    destruct (toHex6 (Some c)) as [n|]; [|discriminate].
    exists n. split; [reflexivity|].
    destruct (String.eqb_spec (JS.toUpperCase n) (JS.toUpperCase currentHex)); [discriminate|].
    split; [assumption | now apply Rleb_true_iff].
  - intros [Hin (n & Hn & Hne & Hr)]. split; [exact Hin|].
    rewrite Hn.
    destruct (String.eqb_spec (JS.toUpperCase n) (JS.toUpperCase currentHex)); [contradiction|].
    now apply Rleb_true_iff.
Qed.

Lemma fallbackList_In (kit : BrandKit) (currentHex c : string) :
  In c (fallbackList kit currentHex) <->
  In c (allowedColors kit)
  /\ exists normalizedColor,
       toHex6 (Some c) = Some normalizedColor
       /\ JS.toUpperCase normalizedColor <> JS.toUpperCase currentHex.
Proof.
  unfold fallbackList, differsFromCurrent. rewrite filter_In. split.
  - intros [Hin Hf]. split; [exact Hin|].
    destruct (toHex6 (Some c)) as [n|]; [|discriminate].
    exists n. split; [reflexivity|].
    destruct (String.eqb_spec (JS.toUpperCase n) (JS.toUpperCase currentHex));
      [discriminate | assumption].
  - intros [Hin (n & Hn & Hne)]. split; [exact Hin|].
    rewrite Hn.
    destruct (String.eqb_spec (JS.toUpperCase n) (JS.toUpperCase currentHex));
      [contradiction | reflexivity].
Qed.

Lemma reduce_closer_nearest (currentHex : string) (l : list string) (best : string) :
  reduce (closer currentHex) l = Some best ->
  In best l
  /\ forall c, In c l -> (colorDistance best currentHex <= colorDistance c currentHex)%R.
Proof.
  intros H. split; [eapply reduce_selects; [apply closer_selects | exact H]|].
  destruct l as [|x rest]; [discriminate|]. cbn [reduce] in H. injection H as <-.
  intros c Hc.
  apply (fold_left_best string (fun _ => True)
           (fun c d => (colorDistance d currentHex <= colorDistance c currentHex)%R)
           (closer currentHex)); trivial.
  - intros; lra.
  - intros; lra.
  - intros a b' _ _. unfold closer. destruct (Rltb _ _) eqn:E.
    + right. split; [reflexivity|]. apply Rltb_true_iff in E. lra.
    + left. split; [reflexivity|]. now apply Rltb_false_iff in E.
  - now apply Forall_forall.
Qed.

Lemma reduce_higherContrast_highest (el : ScannedElement) (bgHex : string)
      (l : list string) (best : string) :
  (forall c, In c l -> exists n, toHex6 (Some c) = Some n) ->
  reduce (higherContrast el bgHex) l = Some best ->
  In best l
  /\ forall c, In c l -> (allowedRatio el bgHex c <= allowedRatio el bgHex best)%R.
Proof.
  intros Hvalid H.
  split; [eapply reduce_selects; [apply higherContrast_selects | exact H]|].
  destruct l as [|x rest]; [discriminate|]. cbn [reduce] in H. injection H as <-.
  intros c Hc.
  apply (fold_left_best string (fun c => exists n, toHex6 (Some c) = Some n)
           (fun c d => (allowedRatio el bgHex c <= allowedRatio el bgHex d)%R)
           (higherContrast el bgHex)); trivial.
  - intros; lra.
  - intros; lra.
  - intros a b' [na Ha] [nb Hb]. unfold higherContrast, allowedRatio.
    rewrite Ha, Hb. destruct (Rltb _ _) eqn:E.
    + right. split; [reflexivity|]. apply Rltb_true_iff in E. lra.
    + left. split; [reflexivity|]. now apply Rltb_false_iff in E.
  - apply Hvalid. now left.
  - apply Forall_forall. intros y Hy. apply Hvalid. now right.
Qed.

Lemma isContrastCompliant_iff (kit : BrandKit) (el : ScannedElement)
      (currentHex bgHex : string) :
  isContrastCompliant kit el currentHex bgHex = true <->
  (checkedRatio kit el <= ratio (currentContrast kit el currentHex bgHex))%R.
Proof.
  unfold isContrastCompliant, currentContrast, checkedRatio, calculateContrastRatio.
  cbn [largeText nonText reportAAA].
  destruct (isAAA kit); cbn [passesAAA passesAA ratio notNot];
    rewrite ?orb_false_r; apply Rleb_true_iff.
Qed.

Lemma isContrastCompliant_false_iff (kit : BrandKit) (el : ScannedElement)
      (currentHex bgHex : string) :
  isContrastCompliant kit el currentHex bgHex = false <->
  (ratio (currentContrast kit el currentHex bgHex) < checkedRatio kit el)%R.
Proof.
  pose proof (isContrastCompliant_iff kit el currentHex bgHex) as H.
  destruct (isContrastCompliant kit el currentHex bgHex); split; intros H'.
  - discriminate.
  - assert (true = true) as E by reflexivity. apply H in E. lra.
  - apply Rnot_le_lt. intros Hle. apply H in Hle. discriminate.
  - reflexivity.
Qed.

(** Thresholds of a kit whose [minContrast] is 4.5: the AA ones. *)
Lemma isAAA_at_4_5 (kit : BrandKit) :
  minContrast kit = 4.5%R -> isAAA kit = false.
Proof. intros H. unfold isAAA. apply Rleb_false_iff. rewrite H. lra. Qed.

Lemma required_at_4_5 (kit : BrandKit) (el : ScannedElement) :
  minContrast kit = 4.5%R ->
  (3 <= requiredContrast kit el <= 4.5)%R /\ (3 <= checkedRatio kit el <= 4.5)%R.
Proof.
  intros H. unfold requiredContrast, checkedRatio. rewrite (isAAA_at_4_5 kit H), H.
  destruct (isTextElement el); lra.
Qed.

(** What [determineSuggestedColor] does once the fill and the background
    are parsed and the contrast check fails. *)
Lemma determineSuggestedColor_violation (kit : BrandKit) (el : ScannedElement)
      (currentHex bgHex : string) :
  toHex6 (fillColor el) = Some currentHex ->
  toHex6 (containerFillColor el) = Some bgHex ->
  isContrastCompliant kit el currentHex bgHex = false ->
  determineSuggestedColor kit el =
  match reduce (closer currentHex) (safeList kit el currentHex bgHex) with
  | Some best => Some best
  | None =>
      match reduce (higherContrast el bgHex) (fallbackList kit currentHex) with
      | Some best => Some best
      | None => orElse (find (differsFromCurrent currentHex) (allowedColors kit))
                       (first (allowedColors kit))
      end
  end.
Proof.
  intros Hfill Hbg Hfail. unfold determineSuggestedColor.
  rewrite Hfill, Hbg, (toHex6_some_truthy _ _ Hbg), Hfail. reflexivity.
Qed.

(** An element with a readable fill whose contrast check does not fail is
    suggested the nearest allowed colour. *)
Lemma determineSuggestedColor_passing
      (kit : BrandKit) (el : ScannedElement) (currentHex : string) :
  toHex6 (fillColor el) = Some currentHex ->
  (forall bgHex, toHex6 (containerFillColor el) = Some bgHex ->
                 isContrastCompliant kit el currentHex bgHex = true) ->
  determineSuggestedColor kit el
  = orElse (findNearestBrandColor kit (Some currentHex)) (first (allowedColors kit)).
Proof.
  intros Hfill Hcontrast.
  unfold determineSuggestedColor. rewrite Hfill.
  destruct (JS.truthy (containerFillColor el)); cbn [negb andb]; [|reflexivity].
  destruct (toHex6 (containerFillColor el)) as [bgHex|] eqn:Ebg.
  - rewrite (Hcontrast bgHex eq_refl). reflexivity.
  - reflexivity.
Qed.

Lemma safeList_incl_fallbackList (kit : BrandKit) (el : ScannedElement)
      (currentHex bgHex c : string) :
  In c (safeList kit el currentHex bgHex) -> In c (fallbackList kit currentHex).
Proof.
  intros H. apply safeList_In in H as [Hin (n & Hn & Hne & _)].
  apply fallbackList_In. split; [exact Hin|]. now exists n.
Qed.

Lemma filter_nil_find {A : Type} (f : A -> bool) (l : list A) :
  filter f l = [] -> find f l = None.
Proof.
  induction l as [|x l IH]; cbn; [reflexivity|].
  destruct (f x); [discriminate | exact IH].
Qed.

Lemma white_on_white_fails (kit : BrandKit) (el : ScannedElement) :
  minContrast kit = 4.5%R ->
  isContrastCompliant kit el "#FFFFFF" "#FFFFFF" = false.
Proof.
  intros H. apply isContrastCompliant_false_iff. unfold currentContrast.
  rewrite ratio_same. pose proof (required_at_4_5 kit el H). lra.
Qed.

Lemma grey_on_white_fails (kit : BrandKit) (el : ScannedElement) :
  minContrast kit = 4.5%R ->
  isContrastCompliant kit el "#EEEEEE" "#FFFFFF" = false.
Proof.
  intros H. apply isContrastCompliant_false_iff. unfold currentContrast.
  pose proof (ratio_EEEEEE_on_white
                {| largeText := isTextElement el; nonText := false;
                   reportAAA := isAAA kit |}).
  pose proof (required_at_4_5 kit el H). lra.
Qed.

Lemma paleKit_safeList_empty (el : ScannedElement) :
  safeList paleKit el "#FFFFFF" "#FFFFFF" = [].
Proof.
  destruct (safeList paleKit el "#FFFFFF" "#FFFFFF") as [|c l] eqn:E; [reflexivity|].
  assert (Hin : In c (safeList paleKit el "#FFFFFF" "#FFFFFF")) by (rewrite E; now left).
  apply safeList_In in Hin as [Hin (n & Hn & Hne & Hr)].
  pose proof (required_at_4_5 paleKit el eq_refl) as [Hreq _].
  destruct Hin as [<- | [<- | []]].
  - change (toHex6 (Some "#FFFFFF")) with (Some "#FFFFFF") in Hn.
    injection Hn as <-. now elim Hne.
  - change (toHex6 (Some "#EEEEEE")) with (Some "#EEEEEE") in Hn.
    injection Hn as <-. unfold brandRatio in Hr.
    pose proof (ratio_EEEEEE_on_white
                  {| largeText := isTextElement el; nonText := false;
                     reportAAA := false |}). lra.
Qed.

Lemma redWhiteKit_thresholds (el : ScannedElement) :
  isTextElement el = false ->
  checkedRatio redWhiteKit el = 4.5%R /\ requiredContrast redWhiteKit el = 6%R.
Proof.
  intros Ht. unfold checkedRatio, requiredContrast. rewrite Ht.
  assert (E : isAAA redWhiteKit = false)
    by (apply Rleb_false_iff; cbn; lra).
  rewrite E. split; reflexivity.
Qed.




(** ** Canonical colours *)

Ltac by_cases_on_char c :=
  destruct c as [[] [] [] [] [] [] [] []]; try reflexivity; try discriminate.

Lemma upperChar_idem (c : ascii) : JS.upperChar (JS.upperChar c) = JS.upperChar c.
Proof. by_cases_on_char c. Qed.

Lemma upperChar_hex (c : ascii) :
  JS.isHexDigit c = true -> JS.isHexDigit (JS.upperChar c) = true.
Proof. by_cases_on_char c. Qed.

Lemma upperChar_hex_inv (c : ascii) :
  JS.isHexDigit (JS.upperChar c) = true -> JS.isHexDigit c = true.
Proof. by_cases_on_char c. Qed.

Lemma upperChar_hash (c : ascii) : JS.upperChar c = "#"%char -> c = "#"%char.
Proof. by_cases_on_char c. Qed.

Lemma hex_not_whiteSpace (c : ascii) :
  JS.isHexDigit c = true -> JS.isWhiteSpace c = false.
Proof. by_cases_on_char c. Qed.

Lemma length_mapChars (f : ascii -> ascii) (s : string) :
  String.length (JS.mapChars f s) = String.length s.
Proof. induction s as [|c s IH]; cbn; [reflexivity | now rewrite IH]. Qed.

Lemma toUpperCase_idem (s : string) :
  JS.toUpperCase (JS.toUpperCase s) = JS.toUpperCase s.
Proof.
  unfold JS.toUpperCase. induction s as [|c s IH]; cbn; [reflexivity|].
  now rewrite upperChar_idem, IH.
Qed.

Lemma allChars_hex_upper (s : string) :
  JS.allChars JS.isHexDigit s = true ->
  JS.allChars JS.isHexDigit (JS.toUpperCase s) = true.
Proof.
  unfold JS.toUpperCase. induction s as [|c s IH]; cbn; [reflexivity|].
  intros H. apply andb_prop in H as [Hc Hs].
  now rewrite (upperChar_hex c Hc), IH.
Qed.

Lemma allChars_hex_upper_inv (s : string) :
  JS.allChars JS.isHexDigit (JS.toUpperCase s) = true ->
  JS.allChars JS.isHexDigit s = true.
Proof.
  unfold JS.toUpperCase. induction s as [|c s IH]; cbn; [reflexivity|].
  intros H. apply andb_prop in H as [Hc Hs].
  now rewrite (upperChar_hex_inv c Hc), IH.
Qed.

Lemma isHexString_allChars (s : string) :
  JS.isHexString s = true -> JS.allChars JS.isHexDigit s = true.
Proof. destruct s; [discriminate | trivial]. Qed.

Lemma trimEnd_hex (s : string) :
  JS.allChars JS.isHexDigit s = true -> JS.trimEnd s = s.
Proof.
  induction s as [|c s IH]; cbn; [reflexivity|].
  intros H. apply andb_prop in H as [Hc Hs].
  rewrite (IH Hs). destruct s; [|reflexivity].
  now rewrite (hex_not_whiteSpace c Hc).
Qed.

Lemma canonical_upper (d : string) :
  String.length d = 6%nat ->
  JS.allChars JS.isHexDigit d = true ->
  canonical ("#" ++ JS.toUpperCase d).
Proof.
  intros Hl Hh. exists (JS.toUpperCase d). split; [reflexivity|].
  split; [unfold JS.toUpperCase; now rewrite length_mapChars|].
  split; [now apply allChars_hex_upper | apply toUpperCase_idem].
Qed.

Lemma toHex6_canonical (o : option string) (h : string) :
  toHex6 o = Some h -> canonical h.
Proof.
  destruct o as [s|]; [|discriminate].
  rewrite toHex6_unfold.
  destruct (JS.isHexString _) eqn:Hhex; [|discriminate].
  apply isHexString_allChars in Hhex.
  set (clean := JS.stripLeadingHash (JS.trim s)) in *.
  unfold hex6Of.
  destruct (Nat.eqb_spec (String.length clean) 6) as [L6|_].
  - intros H. injection H as <-. now apply canonical_upper.
  - destruct (Nat.eqb_spec (String.length clean) 8) as [L8|_]; [|discriminate].
    do 8 (destruct clean as [|? clean]; [discriminate L8|]).
    destruct clean; [|discriminate L8].
    cbn [JS.allChars] in Hhex.
    repeat (apply andb_prop in Hhex as [? Hhex]).
    destruct (String.eqb _ _); intros Hres; injection Hres as <-;
      apply canonical_upper; cbn; trivial;
      repeat (apply andb_true_intro; split; trivial).
Qed.

Lemma canonical_toUpperCase (h : string) : canonical h -> JS.toUpperCase h = h.
Proof.
  intros (d & -> & _ & _ & Hup). unfold JS.toUpperCase in *. cbn. now rewrite Hup.
Qed.

Lemma canonical_slice7 (h : string) : canonical h -> JS.slice 0 7 h = h.
Proof.
  intros (d & -> & Hl & _ & _).
  do 6 (destruct d as [|? d]; [discriminate Hl|]).
  destruct d; [reflexivity | discriminate Hl].
Qed.

Lemma canonical_toHex6 (h : string) : canonical h -> toHex6 (Some h) = Some h.
Proof.
  intros (d & -> & Hl & Hh & Hup).
  rewrite toHex6_unfold.
  assert (Htrim : JS.trim (String "#" d) = String "#" d).
  { unfold JS.trim. cbn [JS.trimStart]. change (JS.isWhiteSpace "#") with false.
    cbv iota. cbn [JS.trimEnd]. rewrite (trimEnd_hex d Hh).
    destruct d; [discriminate Hl | reflexivity]. }
  rewrite Htrim. cbn [JS.stripLeadingHash].
  assert (Hs : JS.isHexString d = true) by (destruct d; [discriminate Hl | exact Hh]).
  rewrite Hs. unfold hex6Of. rewrite Hl, Hup. reflexivity.
Qed.

(** A string that equals a canonical colour up to case normalises to it. *)
Lemma toHex6_of_upper_eq (h x : string) :
  canonical h ->
  JS.toUpperCase x = JS.toUpperCase h ->
  toHex6 (Some x) = Some h.
Proof.
  intros Hc Hx. rewrite (canonical_toUpperCase h Hc) in Hx.
  destruct Hc as (d & -> & Hl & Hh & Hup).
  destruct x as [|c0 x']; [discriminate Hx|].
  unfold JS.toUpperCase in Hx. cbn [JS.mapChars] in Hx.
  injection Hx as Hc0 Hx'. apply upperChar_hash in Hc0. subst c0.
  assert (Hlen : String.length x' = 6%nat).
  { rewrite <- Hl, <- Hx'. symmetry. apply length_mapChars. }
  assert (Hhex : JS.allChars JS.isHexDigit x' = true).
  { apply allChars_hex_upper_inv. unfold JS.toUpperCase. now rewrite Hx'. }
  rewrite toHex6_unfold.
  assert (Htrim : JS.trim (String "#" x') = String "#" x').
  { unfold JS.trim. cbn [JS.trimStart]. change (JS.isWhiteSpace "#") with false.
    cbv iota. cbn [JS.trimEnd]. rewrite (trimEnd_hex x' Hhex).
    destruct x'; [discriminate Hlen | reflexivity]. }
  rewrite Htrim. cbn [JS.stripLeadingHash].
  assert (Hs : JS.isHexString x' = true) by (destruct x'; [discriminate Hlen | exact Hhex]).
  rewrite Hs. unfold hex6Of. rewrite Hlen. cbn [Nat.eqb].
  unfold JS.toUpperCase. now rewrite Hx'.
Qed.

Lemma isBrandCompliant_parseable (kit : BrandKit) (h : string) :
  canonical h ->
  isBrandCompliant kit h = true ->
  exists x, In x (allowedColors kit) /\ toHex6 (Some x) = Some h.
Proof.
  intros Hc H. unfold isBrandCompliant in H.
  apply existsb_exists in H as (x & Hin & Hx).
  apply String.eqb_eq in Hx.
  exists x. split; [exact Hin | now apply toHex6_of_upper_eq].
Qed.

(** ** Unfixable contrast findings *)

Lemma bestFold_spec (el : ScannedElement) (bgHex : string) (l : list string) :
  forall acc : R * option string,
    let res := fold_left (bestStep el bgHex) l acc in
    (fst acc <= fst res)%R
    /\ (forall x n, In x l -> toHex6 (Some x) = Some n ->
                    (brandRatio el n bgHex <= fst res)%R)
    /\ (res = acc
        \/ exists x n, In x l /\ toHex6 (Some x) = Some n
                       /\ res = (brandRatio el n bgHex, Some x)).
Proof.
  induction l as [|y l IH]; intros acc; cbn [fold_left].
  - split; [lra|]. split; [intros x n []|]. now left.
  - destruct (IH (bestStep el bgHex acc y)) as (Hmono & Hmax & Hres).
    assert (Hstep : (fst acc <= fst (bestStep el bgHex acc y))%R
                    /\ (forall n, toHex6 (Some y) = Some n ->
                          (brandRatio el n bgHex <= fst (bestStep el bgHex acc y))%R)
                    /\ (bestStep el bgHex acc y = acc
                        \/ exists n, toHex6 (Some y) = Some n
                             /\ bestStep el bgHex acc y = (brandRatio el n bgHex, Some y))).
    { unfold bestStep. destruct (toHex6 (Some y)) as [n|].
      - destruct (Rltb _ _) eqn:E.
        + apply Rltb_true_iff in E. cbn [fst]. split; [lra|].
          split; [intros n' Hn'; injection Hn' as <-; lra|].
          right. exists n. now split.
        + apply Rltb_false_iff in E. split; [lra|].
          split; [intros n' Hn'; injection Hn' as <-; exact E|]. now left.
      - split; [lra|]. split; [discriminate|]. now left. }
    destruct Hstep as (Hs1 & Hs2 & Hs3).
    split; [lra|]. split.
    + intros x n [<- | Hin] Hn.
      * specialize (Hs2 n Hn). lra.
      * exact (Hmax x n Hin Hn).
    + destruct Hres as [-> | (x & n & Hin & Hn & ->)].
      * destruct Hs3 as [-> | (n & Hn & ->)]; [now left|].
        right. exists y, n. repeat split; trivial. now left.
      * right. exists x, n. repeat split; trivial. now right.
Qed.

(** With at least one parseable allowed colour, the loop ends on an
    allowed colour of maximal contrast ratio against the background. *)
Lemma bestBrand_spec (kit : BrandKit) (el : ScannedElement) (bgHex : string) :
  (exists x n, In x (allowedColors kit) /\ toHex6 (Some x) = Some n) ->
  exists bestColor normalizedBest,
    bestBrand kit el bgHex = (brandRatio el normalizedBest bgHex, Some bestColor)
    /\ In bestColor (allowedColors kit)
    /\ toHex6 (Some bestColor) = Some normalizedBest
    /\ forall x n, In x (allowedColors kit) -> toHex6 (Some x) = Some n ->
         (brandRatio el n bgHex <= brandRatio el normalizedBest bgHex)%R.
Proof.
  intros (x0 & n0 & Hin0 & Hn0). unfold bestBrand.
  destruct (bestFold_spec el bgHex (allowedColors kit) (0%R, first (allowedColors kit)))
    as (_ & Hmax & Hres).
  destruct Hres as [Hsame | (x & n & Hin & Hn & Hres)].
  - exfalso. specialize (Hmax x0 n0 Hin0 Hn0). rewrite Hsame in Hmax. cbn [fst] in Hmax.
    pose proof (brandRatio_bounds el n0 bgHex). lra.
  - exists x, n. rewrite Hres in *. cbn [fst] in Hmax. repeat split; trivial.
Qed.

Lemma unfixableWarning_unfold (kit : BrandKit) (el : ScannedElement)
      (currentHex bgHex : string) :
  toHex6 (fillColor el) = Some currentHex ->
  toHex6 (containerFillColor el) = Some bgHex ->
  isBrandCompliant kit currentHex = true ->
  isContrastCompliant kit el currentHex bgHex = false ->
  unfixableWarning kit el =
  let '(bestRatio, bestColor) := bestBrand kit el bgHex in
  if Rltb bestRatio (requiredContrast kit el) then
    Some {| element := el;
            currentRatio := ratio (currentContrast kit el currentHex bgHex);
            bestPossibleRatio := bestRatio;
            bestBrandColor := bestColor;
            requiredRatio := requiredContrast kit el;
            wcagLevel := if isAAA kit then "AAA" else "AA";
            isCurrentBest :=
              match toHex6 bestColor with
              | Some bestColorNormalized =>
                  String.eqb (JS.toUpperCase bestColorNormalized)
                             (JS.toUpperCase currentHex)
              | None => false
              end |}
  else None.
Proof.
  intros Hfill Hbg Hbrand Hfail. unfold unfixableWarning.
  rewrite (toHex6_some_truthy _ _ Hfill), (toHex6_some_truthy _ _ Hbg), Hfill, Hbg.
  cbn [negb orb].
  rewrite (canonical_slice7 currentHex (toHex6_canonical _ _ Hfill)).
  rewrite Hbrand, Hfail. reflexivity.
Qed.

Lemma some_inj {A : Type} (x y : A) : Some x = Some y -> x = y.
Proof. congruence. Qed.

Lemma canonical_upper_eqb (n h : string) :
  canonical n -> canonical h ->
  String.eqb (JS.toUpperCase n) (JS.toUpperCase h) = true <-> n = h.
Proof.
  intros Hn Hh. rewrite (canonical_toUpperCase n Hn), (canonical_toUpperCase h Hh).
  apply String.eqb_eq.
Qed.

Lemma unfixableWarning_passing (kit : BrandKit) (el : ScannedElement)
      (currentHex bgHex : string) :
  toHex6 (fillColor el) = Some currentHex ->
  toHex6 (containerFillColor el) = Some bgHex ->
  isContrastCompliant kit el currentHex bgHex = true ->
  unfixableWarning kit el = None.
Proof.
  intros Hfill Hbg Hpass. unfold unfixableWarning.
  rewrite (toHex6_some_truthy _ _ Hfill), (toHex6_some_truthy _ _ Hbg), Hfill, Hbg.
  cbn [negb orb].
  rewrite (canonical_slice7 currentHex (toHex6_canonical _ _ Hfill)).
  rewrite Hpass. cbn [negb]. now rewrite andb_false_r.
Qed.

Lemma shortBlackKit_bestBrand :
  bestBrand shortBlackKit whiteOnWhiteText "#FFFFFF" = (1%R, Some "#FFFFFF").
Proof.
  change (bestBrand shortBlackKit whiteOnWhiteText "#FFFFFF")
    with (bestStep whiteOnWhiteText "#FFFFFF"
            (bestStep whiteOnWhiteText "#FFFFFF" (0%R, Some "#FFFFFF") "#FFFFFF")
            "#000").
  assert (H1 : bestStep whiteOnWhiteText "#FFFFFF" (0%R, Some "#FFFFFF") "#FFFFFF"
               = (1%R, Some "#FFFFFF")).
  { unfold bestStep. change (toHex6 (Some "#FFFFFF")) with (Some "#FFFFFF").
    cbv zeta. unfold brandRatio. rewrite ratio_same. cbn [fst].
    now rewrite (proj2 (Rltb_true_iff 0 1)) by lra. }
  rewrite H1. reflexivity.
Qed.

(** C2, counterexample.  Under a kit whose only colour is red and that
    asks for contrast 6, a red rectangle on black has an allowed fill and
    ratio 5.252, below the required ratio, which no allowed colour
    reaches; but the contrast check compares with 4.5 and passes, and no
    finding is recorded.  Under a kit of white and [#000], a white text on
    white gets a finding whose best ratio is 1 and whose best colour is
    the current fill, although the allowed colour [#000] reaches 21
    against the background: [toHex6] does not read it, so the loop skips
    it. *)
Lemma no_finding_below_required :
  (allowedColors redOnlyKit = ["#FF0000"]
   /\ isBrandCompliant redOnlyKit "#FF0000" = true
   /\ brandRatio redOnBlackShape "#FF0000" "#000000" = 5.252%R
   /\ requiredContrast redOnlyKit redOnBlackShape = 6%R
   /\ unfixableContrastWarnings redOnlyKit [redOnBlackShape] = [])
  /\ (isBrandCompliant shortBlackKit "#FFFFFF" = true
      /\ isContrastCompliant shortBlackKit whiteOnWhiteText "#FFFFFF" "#FFFFFF" = false
      /\ In "#000" (allowedColors shortBlackKit)
      /\ ratio (calculateContrastRatio "#000" "#FFFFFF"
                  {| largeText := true; nonText := false; reportAAA := false |})
         = 21%R
      /\ requiredContrast shortBlackKit whiteOnWhiteText = 3%R
      /\ option_map bestPossibleRatio (unfixableWarning shortBlackKit whiteOnWhiteText)
         = Some 1%R
      /\ option_map bestBrandColor (unfixableWarning shortBlackKit whiteOnWhiteText)
         = Some (Some "#FFFFFF")
      /\ option_map isCurrentBest (unfixableWarning shortBlackKit whiteOnWhiteText)
         = Some true).
Proof.
  split.
  - assert (E : isAAA redOnlyKit = false) by (apply Rleb_false_iff; cbn; lra).
    split; [reflexivity|]. split; [reflexivity|].
    split; [unfold brandRatio; apply ratio_red_on_black|].
    split; [unfold requiredContrast; reflexivity|].
    cbn [unfixableContrastWarnings].
    rewrite (unfixableWarning_passing redOnlyKit redOnBlackShape "#FF0000" "#000000");
      [reflexivity | reflexivity | reflexivity |].
    apply isContrastCompliant_iff. unfold currentContrast, checkedRatio.
    rewrite ratio_red_on_black, E. cbn. lra.
  - assert (Hfail : isContrastCompliant shortBlackKit whiteOnWhiteText "#FFFFFF" "#FFFFFF"
                    = false) by now apply white_on_white_fails.
    assert (E : isAAA shortBlackKit = false) by now apply isAAA_at_4_5.
    assert (Hreq : requiredContrast shortBlackKit whiteOnWhiteText = 3%R).
    { unfold requiredContrast. rewrite E. cbn. lra. }
    split; [reflexivity|]. split; [exact Hfail|]. split; [right; now left|].
    split; [apply ratio_short_black_on_white|]. split; [exact Hreq|].
    rewrite (unfixableWarning_unfold shortBlackKit whiteOnWhiteText "#FFFFFF" "#FFFFFF"
               eq_refl eq_refl eq_refl Hfail).
    rewrite shortBlackKit_bestBrand, Hreq.
    rewrite (proj2 (Rltb_true_iff 1 3)) by lra.
    repeat split.
Qed.

(** C2, amended: for an element whose fill is one of the allowed colours
    but fails the contrast check of the audit against its known
    background (a ratio below 3 for a text and 4.5 for any other element,
    4.5 and 7 when [minContrast] is 7 or more), a finding is recorded
    exactly when every allowed colour [toHex6] reads stays strictly below
    the required ratio against that background, that is, when the maximum
    they reach does.  The finding carries the element, its current ratio,
    the required ratio, the best ratio an allowed colour read by [toHex6]
    reaches, an allowed colour reaching it, and [isCurrentBest], true
    exactly when that colour is the current fill.  When the fill is the
    only allowed colour, fails the contrast check and does not reach the
    required ratio, the pass over that element records exactly one
    finding, with [isCurrentBest] true. *)
Theorem unfixable_finding :
  (forall (kit : BrandKit) (el : ScannedElement) (currentHex bgHex only : string),
      allowedColors kit = [only] ->
      toHex6 (fillColor el) = Some currentHex ->
      toHex6 (containerFillColor el) = Some bgHex ->
      isBrandCompliant kit currentHex = true ->
      isContrastCompliant kit el currentHex bgHex = false ->
      (brandRatio el currentHex bgHex < requiredContrast kit el)%R ->
      exists w, unfixableContrastWarnings kit [el] = [w]
                /\ element w = el /\ isCurrentBest w = true)
  /\ forall (kit : BrandKit) (el : ScannedElement) (currentHex bgHex : string),
       toHex6 (fillColor el) = Some currentHex ->
       toHex6 (containerFillColor el) = Some bgHex ->
       isBrandCompliant kit currentHex = true ->
       isContrastCompliant kit el currentHex bgHex = false ->
       ((exists w, unfixableWarning kit el = Some w) <->
        (forall x n, In x (allowedColors kit) -> toHex6 (Some x) = Some n ->
                     (brandRatio el n bgHex < requiredContrast kit el)%R))
       /\ forall w, unfixableWarning kit el = Some w ->
            element w = el
            /\ currentRatio w = ratio (currentContrast kit el currentHex bgHex)
            /\ (currentRatio w < (if isAAA kit
                                  then (if isTextElement el then 4.5 else 7)
                                  else (if isTextElement el then 3 else 4.5)))%R
            /\ requiredRatio w = requiredContrast kit el
            /\ (bestPossibleRatio w < requiredRatio w)%R
            /\ exists bestColor normalizedBest,
                 bestBrandColor w = Some bestColor
                 /\ In bestColor (allowedColors kit)
                 /\ toHex6 (Some bestColor) = Some normalizedBest
                 /\ bestPossibleRatio w = brandRatio el normalizedBest bgHex
                 /\ (forall x n, In x (allowedColors kit) -> toHex6 (Some x) = Some n ->
                                 (brandRatio el n bgHex <= bestPossibleRatio w)%R)
                 /\ (isCurrentBest w = true <-> normalizedBest = currentHex).
Proof.
  match goal with |- _ /\ ?G => assert (General : G) end.
  { intros kit el currentHex bgHex Hfill Hbg Hbrand Hfail.
    pose proof (toHex6_canonical _ _ Hfill) as Hcan.
    rewrite (unfixableWarning_unfold kit el _ _ Hfill Hbg Hbrand Hfail).
    destruct (bestBrand_spec kit el bgHex) as (bc & nb & Hbest & Hin & Hnb & Hmax).
    { destruct (isBrandCompliant_parseable kit currentHex Hcan Hbrand) as (x & Hx & Hn).
      now exists x, currentHex. }
    rewrite Hbest. split.
    - destruct (Rltb _ _) eqn:E.
      + apply Rltb_true_iff in E. split.
        * intros _ x n Hx Hn. specialize (Hmax x n Hx Hn). lra.
        * intros _. eexists. reflexivity.
      + apply Rltb_false_iff in E. split.
        * intros [w Hw]. discriminate.
        * intros Hall. specialize (Hall bc nb Hin Hnb). lra.
    - intros w Hw. destruct (Rltb _ _) eqn:E; [|discriminate].
      apply Rltb_true_iff in E. apply some_inj in Hw. subst w.
      cbn [element currentRatio requiredRatio bestPossibleRatio bestBrandColor isCurrentBest].
      do 2 (split; [trivial|]).
      split.
      { apply isContrastCompliant_false_iff in Hfail. unfold checkedRatio in Hfail.
        destruct (isAAA kit), (isTextElement el); lra. }
      do 2 (split; [trivial|]).
      exists bc, nb. do 5 (split; [trivial|]).
      rewrite Hnb. apply canonical_upper_eqb; [|exact Hcan].
      now apply toHex6_canonical in Hnb. }
  split; [|exact General].
  intros kit el currentHex bgHex only Honly Hfill Hbg Hbrand Hfail Hlow.
  destruct (General kit el currentHex bgHex Hfill Hbg Hbrand Hfail) as [Hiff Hcarry].
  pose proof (toHex6_canonical _ _ Hfill) as Hcan.
  destruct (isBrandCompliant_parseable kit currentHex Hcan Hbrand) as (x & Hx & Hn).
  rewrite Honly in Hx. destruct Hx as [<- | []].
  destruct (proj2 Hiff) as [w Hw].
  { intros x n Hx Hxn. rewrite Honly in Hx. destruct Hx as [<- | []].
    rewrite Hn in Hxn. injection Hxn as <-. exact Hlow. }
  exists w. cbn [unfixableContrastWarnings]. rewrite Hw.
  destruct (Hcarry w Hw) as (He & _ & _ & _ & _ & bc & nb & _ & Hin & Hnb & _ & _ & Hcur).
  split; [reflexivity|]. split; [exact He|].
  apply Hcur. rewrite Honly in Hin. destruct Hin as [<- | []].
  rewrite Hn in Hnb. now injection Hnb as <-.
Qed.

Lemma unfixable_finding_witness :
  (exists w, unfixableContrastWarnings whiteOnlyKit [whiteOnWhiteText] = [w]
             /\ element w = whiteOnWhiteText /\ isCurrentBest w = true)
  /\ ((exists w, unfixableWarning whiteOnlyKit whiteOnWhiteText = Some w) <->
      (forall x n, In x (allowedColors whiteOnlyKit) -> toHex6 (Some x) = Some n ->
         (brandRatio whiteOnWhiteText n "#FFFFFF"
          < requiredContrast whiteOnlyKit whiteOnWhiteText)%R)).
Proof.
  split.
  - apply (proj1 unfixable_finding whiteOnlyKit whiteOnWhiteText
             "#FFFFFF" "#FFFFFF" "#ffffff").
    + reflexivity.
    + reflexivity.
    + reflexivity.
    + reflexivity.
    + now apply white_on_white_fails.
    + unfold brandRatio. rewrite ratio_same.
      pose proof (required_at_4_5 whiteOnlyKit whiteOnWhiteText eq_refl). lra.
  - apply (proj2 unfixable_finding whiteOnlyKit whiteOnWhiteText "#FFFFFF" "#FFFFFF").
    + reflexivity.
    + reflexivity.
    + reflexivity.
    + now apply white_on_white_fails.
Defined.

(** ** Suppression of the contrast violation *)

Lemma colorChecks_compliant_fill (kit : BrandKit) (el : ScannedElement)
      (currentHex bgHex : string) :
  toHex6 (fillColor el) = Some currentHex ->
  toHex6 (containerFillColor el) = Some bgHex ->
  isBrandCompliant kit currentHex = true ->
  isContrastCompliant kit el currentHex bgHex = false ->
  colorChecks kit el = hasBetterBrandColor kit el currentHex bgHex.
Proof.
  intros Hfill Hbg Hbrand Hfail. unfold colorChecks.
  rewrite (toHex6_some_truthy _ _ Hfill), (toHex6_some_truthy _ _ Hbg), Hfill, Hbg.
  rewrite (canonical_slice7 currentHex (toHex6_canonical _ _ Hfill)).
  rewrite Hbrand, Hfail. cbn [negb].
  destruct (hasBetterBrandColor kit el currentHex bgHex); reflexivity.
Qed.

Lemma hasBetterBrandColor_iff (kit : BrandKit) (el : ScannedElement)
      (currentHex bgHex : string) :
  canonical currentHex ->
  hasBetterBrandColor kit el currentHex bgHex = true <->
  exists other normalizedOther,
    In other (allowedColors kit)
    /\ toHex6 (Some other) = Some normalizedOther
    /\ normalizedOther <> currentHex
    /\ ((requiredContrast kit el <= brandRatio el normalizedOther bgHex)%R
        \/ (ratio (currentContrast kit el currentHex bgHex) + 0.5
            < brandRatio el normalizedOther bgHex)%R).
Proof.
  intros Hcan. unfold hasBetterBrandColor. rewrite existsb_exists. split.
  - intros (x & Hin & Hx).
    destruct (toHex6 (Some x)) as [n|] eqn:Hn; [|discriminate].
    exists x, n. split; [exact Hin|]. split; [exact Hn|].
    destruct (String.eqb _ _) eqn:E; [discriminate|]. split.
    + intros ->. rewrite String.eqb_refl in E. discriminate.
    + apply orb_prop in Hx as [Hx | Hx].
      * left. now apply Rleb_true_iff.
      * right. now apply Rltb_true_iff.
  - intros (x & n & Hin & Hn & Hne & Hr).
    exists x. split; [exact Hin|]. rewrite Hn.
    destruct (String.eqb _ _) eqn:E.
    + apply canonical_upper_eqb in E; trivial; [contradiction|].
      now apply toHex6_canonical in Hn.
    + apply orb_true_intro. destruct Hr as [Hr | Hr].
      * left. now apply Rleb_true_iff.
      * right. now apply Rltb_true_iff.
Qed.

(** C4, counterexample.  A text whose fill is the kit's only colour and
    fails the contrast check, with no other allowed colour to improve on
    it, is flagged all the same when its font is not allowed.  And under a
    kit of white and [#000], a white text on white in an allowed font is
    not flagged, although the other allowed colour [#000] reaches 21
    against the background: [toHex6] does not read it. *)
Lemma suppressed_contrast_still_flagged :
  (toHex6 (fillColor whiteOnWhitePapyrus) = Some "#FFFFFF"
   /\ toHex6 (containerFillColor whiteOnWhitePapyrus) = Some "#FFFFFF"
   /\ isBrandCompliant whiteOnlyKit "#FFFFFF" = true
   /\ isContrastCompliant whiteOnlyKit whiteOnWhitePapyrus "#FFFFFF" "#FFFFFF" = false
   /\ hasBetterBrandColor whiteOnlyKit whiteOnWhitePapyrus "#FFFFFF" "#FFFFFF" = false
   /\ hasSomeViolation whiteOnlyKit whiteOnWhitePapyrus = true)
  /\ (isBrandCompliant shortBlackKit "#FFFFFF" = true
      /\ isContrastCompliant shortBlackKit whiteOnWhiteText "#FFFFFF" "#FFFFFF" = false
      /\ In "#000" (allowedColors shortBlackKit)
      /\ ratio (calculateContrastRatio "#000" "#FFFFFF"
                  {| largeText := true; nonText := false; reportAAA := false |})
         = 21%R
      /\ hasSomeViolation shortBlackKit whiteOnWhiteText = false).
Proof.
  split.
  - repeat split; try reflexivity.
    now apply white_on_white_fails.
  - assert (Hfail : isContrastCompliant shortBlackKit whiteOnWhiteText "#FFFFFF" "#FFFFFF"
                    = false) by now apply white_on_white_fails.
    split; [reflexivity|]. split; [exact Hfail|]. split; [right; now left|].
    split; [apply ratio_short_black_on_white|].
    unfold hasSomeViolation.
    rewrite (colorChecks_compliant_fill shortBlackKit whiteOnWhiteText
               "#FFFFFF" "#FFFFFF" eq_refl eq_refl eq_refl Hfail).
    reflexivity.
Qed.

(** C4, amended: for an element whose fill is an allowed colour but fails
    the contrast check against its known background, the colour and
    contrast checks flag it if and only if some other allowed colour that
    [toHex6] reads (six or eight hex digits), different from the current
    fill, reaches against the background either the required ratio or a
    ratio strictly greater than the current ratio plus 0.5; otherwise the
    contrast violation is suppressed, and the element is flagged only if
    its font is not allowed. *)
Theorem contrast_violation_suppression
        (kit : BrandKit) (el : ScannedElement) (currentHex bgHex : string) :
  toHex6 (fillColor el) = Some currentHex ->
  toHex6 (containerFillColor el) = Some bgHex ->
  isBrandCompliant kit currentHex = true ->
  isContrastCompliant kit el currentHex bgHex = false ->
  let better :=
    exists other normalizedOther,
      In other (allowedColors kit)
      /\ toHex6 (Some other) = Some normalizedOther
      /\ normalizedOther <> currentHex
      /\ ((requiredContrast kit el <= brandRatio el normalizedOther bgHex)%R
          \/ (ratio (currentContrast kit el currentHex bgHex) + 0.5
              < brandRatio el normalizedOther bgHex)%R) in
  (colorChecks kit el = true <-> better)
  /\ (hasSomeViolation kit el = true <->
      better
      \/ (JS.truthy (fontName el) = true
          /\ isFontAllowed (fontName el) (allowedFonts kit) = false)).
Proof.
  intros Hfill Hbg Hbrand Hfail better.
  pose proof (toHex6_canonical _ _ Hfill) as Hcan.
  pose proof (hasBetterBrandColor_iff kit el currentHex bgHex Hcan) as Hiff.
  fold better in Hiff.
  rewrite <- (colorChecks_compliant_fill kit el _ _ Hfill Hbg Hbrand Hfail) in Hiff.
  split; [exact Hiff|].
  unfold hasSomeViolation.
  destruct (JS.truthy (fontName el)); cbn [andb].
  - destruct (isFontAllowed (fontName el) (allowedFonts kit)); cbn [negb].
    + rewrite Hiff. split; [now left|]. intros [H | [_ H]]; [exact H | discriminate].
    + split; [intros _; right; now split | reflexivity].
  - rewrite Hiff. split; [now left|]. intros [H | [H _]]; [exact H | discriminate].
Qed.

Lemma contrast_violation_suppression_witness :
  hasSomeViolation (blackWhiteKit "Demo" ["Arial"]) lowerCaseWhiteOnWhite = true.
Proof.
  apply (contrast_violation_suppression
           (blackWhiteKit "Demo" ["Arial"]) lowerCaseWhiteOnWhite "#FFFFFF" "#FFFFFF").
  - reflexivity.
  - reflexivity.
  - reflexivity.
  - now apply white_on_white_fails.
  - left. exists "#000000", "#000000".
    split; [now left|]. split; [reflexivity|]. split; [discriminate|].
    left. unfold brandRatio. rewrite ratio_black_on_white.
    pose proof (required_at_4_5 (blackWhiteKit "Demo" ["Arial"]) lowerCaseWhiteOnWhite eq_refl).
    lra.
Defined.

(** ** Brand-kit validation *)

(** The colour callback always returns, appends to the errors it is given
    at most errors about [allowedColors[index]], and does not otherwise
    depend on them. *)
Lemma validateColor_returns (color : value) (index : nat)
      (errs : list ValidationError) (seen : list (string * nat)) :
  exists extra seen',
    (forall errs', validateColor color index (errs', seen)
                   = Returns ((errs' ++ extra)%list, seen'))
    /\ Forall (hasField (colorField index)) extra.
Proof.
  unfold validateColor.
  destruct color as [| |bv|x|s|l|props]; cbn [Val.typeof Val.trim String.eqb negb bind];
    try (eexists [_], _; split; [intros; reflexivity | repeat constructor]).
  cbn -[isValidHexColor normalizeHexColor JS.trim JS.isHexString JS.startsWith
         String.length Nat.eqb Nat.ltb append].
  repeat match goal with
         | |- context [if ?c then _ else _] => destruct c
         | |- context [match normalizeHexColor ?c with _ => _ end] =>
             destruct (normalizeHexColor c) as [[|? ?]|]
         | |- context [match OMap.get ?k ?m with _ => _ end] => destruct (OMap.get k m)
         end;
    try (eexists [_], _; split; [intros; reflexivity | repeat constructor]);
    try (exists [], seen; split; [intros; now rewrite app_nil_r | constructor]);
    (eexists [], _; split; [intros; now rewrite app_nil_r | constructor]).
Qed.

Lemma validateFont_returns (font : value) (index : nat)
      (errs : list ValidationError) (seen : list string) :
  exists extra seen',
    (forall errs', validateFont font index (errs', seen)
                   = Returns ((errs' ++ extra)%list, seen'))
    /\ Forall (hasField (fontField index)) extra.
Proof.
  unfold validateFont.
  destruct font as [| |bv|x|s|l|props]; cbn [Val.typeof Val.trim String.eqb negb bind];
    try (eexists [_], _; split; [intros; reflexivity | repeat constructor]).
  cbn -[normalizeFontNameForValidation KNOWN_AVAILABLE_FONTS JS.trim existsb
         String.length Nat.eqb append notAvailableMessage].
  repeat match goal with
         | |- context [if ?c then _ else _] => destruct c
         end;
    try (eexists [_], _; split; [intros; reflexivity | repeat constructor]);
    (eexists [], _; split; [intros; now rewrite app_nil_r | constructor]).
Qed.

Lemma forEach_validateColor (items : list value) :
  forall (index : nat) (seen : list (string * nat)),
  exists extra seen',
    (forall errs, forEach validateColor items index (errs, seen)
                  = Returns ((errs ++ extra)%list, seen'))
    /\ Forall colorError extra.
Proof.
  induction items as [|c items IH]; intros index seen; cbn [forEach].
  - exists [], seen. split; [intros; now rewrite app_nil_r | constructor].
  - destruct (validateColor_returns c index [] seen) as (e1 & seen1 & H1 & F1).
    destruct (IH (S index) seen1) as (e2 & seen2 & H2 & F2).
    exists (e1 ++ e2)%list, seen2. split.
    + intros errs. rewrite H1. cbn [bind]. rewrite H2. now rewrite app_assoc.
    + apply Forall_app. split; [|exact F2].
      eapply Forall_impl; [|exact F1]. intros e He. unfold colorError, hasField in *.
      rewrite He. reflexivity.
Qed.

Lemma forEach_validateFont (items : list value) :
  forall (index : nat) (seen : list string),
  exists extra seen',
    (forall errs, forEach validateFont items index (errs, seen)
                  = Returns ((errs ++ extra)%list, seen'))
    /\ Forall fontError extra.
Proof.
  induction items as [|c items IH]; intros index seen; cbn [forEach].
  - exists [], seen. split; [intros; now rewrite app_nil_r | constructor].
  - destruct (validateFont_returns c index [] seen) as (e1 & seen1 & H1 & F1).
    destruct (IH (S index) seen1) as (e2 & seen2 & H2 & F2).
    exists (e1 ++ e2)%list, seen2. split.
    + intros errs. rewrite H1. cbn [bind]. rewrite H2. now rewrite app_assoc.
    + apply Forall_app. split; [|exact F2].
      eapply Forall_impl; [|exact F1]. intros e He. unfold fontError, hasField in *.
      rewrite He. reflexivity.
Qed.

Lemma colorErrorsOf_fields (colors : value) : Forall colorError (colorErrorsOf colors).
Proof.
  destruct colors as [| |bv|x|s|[|c items]|props]; cbn [colorErrorsOf];
    try (repeat constructor).
  destruct (forEach_validateColor (c :: items) 0%nat []) as (extra & seen' & H & F).
  cbv beta iota. rewrite (H []). exact F.
Qed.

(** Every property the validator reads from a truthy object is there to
    be read. *)
Lemma get_object (kit : value) (key : string) :
  Val.truthy kit = true -> Val.typeof kit = "object" ->
  exists v, Val.get kit key = Returns v.
Proof.
  destruct kit; cbn; intros Ht Hty; try discriminate; eexists; reflexivity.
Qed.

(** On an object, validation returns the errors of the four fields in
    order: name, colours, fonts, accessibility. *)
Lemma validateBrandKit_object (kit : value) :
  Val.truthy kit = true -> Val.typeof kit = "object" ->
  exists colors nameE fontE accE,
    Val.get kit "allowedColors" = Returns colors
    /\ validateBrandKit kit
       = Returns {| valid := (List.length (((nameE ++ colorErrorsOf colors) ++ fontE) ++ accE)
                              =? 0)%nat;
                    errors := (((nameE ++ colorErrorsOf colors) ++ fontE) ++ accE)%list |}
    /\ Forall (hasField "name") nameE
    /\ Forall fontError fontE
    /\ Forall accessibilityError accE.
Proof.
  intros Ht Hty.
  destruct (get_object kit "name" Ht Hty) as [vn Hn].
  destruct (get_object kit "allowedColors" Ht Hty) as [vc Hc].
  destruct (get_object kit "allowedFonts" Ht Hty) as [vf Hf].
  destruct (get_object kit "accessibility" Ht Hty) as [va Ha].
  exists vc.
  unfold validateBrandKit. rewrite Ht, Hty, Hn, Hc, Hf, Ha.
  cbn [negb orb String.eqb Ascii.eqb Bool.eqb bind].
  (* name *)
  assert (Hname : exists b,
    (if negb (Val.truthy vn) then Returns true
     else if negb (Val.typeof vn =? "string")%string then Returns true
     else trimmed <- Val.trim vn ;; Returns (String.length trimmed =? 0)%nat)
    = Returns b).
  { destruct vn as [| |bv|x|s|l|props]; cbn; try (eexists; reflexivity).
    - destruct bv; eexists; reflexivity.
    - destruct (Req_dec_T x 0); eexists; reflexivity.
    - destruct s; eexists; reflexivity. }
  destruct Hname as [b ->]. cbn [bind].
  set (nameE := if b then ([] ++ [{| field := "name";
                                     message := "Brand kit must have a non-empty name" |}])%list
                else []).
  assert (HnameE : Forall (hasField "name") nameE).
  { unfold nameE. destruct b; repeat constructor. }
  exists nameE.
  (* colours *)
  assert (Hcolors :
    match vc with
    | VArr [] =>
        Returns (nameE ++ [{| field := "allowedColors";
                              message := "allowedColors must contain at least one color" |}])%list
    | VArr items =>
        st <- forEach validateColor items 0%nat (nameE, []) ;; Returns (fst st)
    | _ =>
        Returns (nameE ++ [{| field := "allowedColors";
                              message := "allowedColors must be an array" |}])%list
    end = Returns (nameE ++ colorErrorsOf vc)%list).
  { destruct vc as [| |bv|x|s|[|c items]|props]; try reflexivity.
    destruct (forEach_validateColor (c :: items) 0%nat []) as (extra & seen' & H & F).
    unfold colorErrorsOf. cbv beta iota. rewrite (H nameE), (H []). reflexivity. }
  rewrite Hcolors. cbn [bind].
  set (errs1 := (nameE ++ colorErrorsOf vc)%list).
  (* fonts *)
  assert (Hfonts : exists fontE,
    match vf with
    | VArr [] =>
        Returns (errs1 ++ [{| field := "allowedFonts";
                              message := "allowedFonts must contain at least one font" |}])%list
    | VArr items =>
        st <- forEach validateFont items 0%nat (errs1, []) ;; Returns (fst st)
    | _ =>
        Returns (errs1 ++ [{| field := "allowedFonts";
                              message := "allowedFonts must be an array" |}])%list
    end = Returns (errs1 ++ fontE)%list
    /\ Forall fontError fontE).
  { destruct vf as [| |bv|x|s|[|c items]|props];
      try (eexists; split; [reflexivity | repeat constructor]).
    destruct (forEach_validateFont (c :: items) 0%nat []) as (extra & seen' & H & F).
    exists extra. cbv beta iota. rewrite (H errs1). split; [reflexivity | exact F]. }
  destruct Hfonts as (fontE & -> & HfontE). cbn [bind].
  exists fontE.
  set (errs2 := (errs1 ++ fontE)%list).
  (* accessibility *)
  assert (Hacc : exists accE,
    (if negb (Val.truthy va) || negb (Val.typeof va =? "object")%string
     then Returns (errs2 ++ [{| field := "accessibility";
                                message := "accessibility must be an object" |}])%list
     else
       minC <- Val.get va "minContrast" ;;
       match minC with
       | VNum x =>
           if Rltb x 0 || Rltb 21 x
           then Returns (errs2 ++ [{| field := "accessibility.minContrast";
                                      message := "minContrast must be between 0 and 21" |}])%list
           else Returns errs2
       | _ =>
           Returns (errs2 ++ [{| field := "accessibility.minContrast";
                                 message := "minContrast must be a number" |}])%list
       end) = Returns (errs2 ++ accE)%list
    /\ Forall accessibilityError accE).
  { destruct (negb (Val.truthy va) || negb (Val.typeof va =? "object")%string) eqn:Eg.
    - eexists; split; [reflexivity | repeat constructor].
    - apply orb_false_elim in Eg as [Et Ety].
      apply negb_false_iff in Et, Ety. apply String.eqb_eq in Ety.
      destruct (get_object va "minContrast" Et Ety) as [vm ->]. cbn [bind].
      destruct vm as [| |bv|x|s|l|props];
        try (eexists; split; [reflexivity | repeat constructor]).
      destruct (Rltb x 0 || Rltb 21 x).
      + eexists; split; [reflexivity | repeat constructor].
      + exists []. split; [now rewrite app_nil_r | constructor]. }
  destruct Hacc as (accE & -> & HaccE). cbn [bind].
  exists accE. repeat split; trivial.
Qed.

Lemma prefix_cons (c : ascii) (p s : string) :
  String.prefix (String c p) s = true ->
  exists s', s = String c s' /\ String.prefix p s' = true.
Proof.
  destruct s as [|d s']; cbn; [discriminate|].
  destruct (Ascii.ascii_dec c d) as [<- | _]; [|discriminate].
  intros H. now exists s'.
Qed.

Lemma fontError_not_color (e : ValidationError) : fontError e -> isColorField e = false.
Proof.
  unfold fontError, isColorField, JS.startsWith. destruct e as [f m]; cbn [field].
  intros H. do 8 (apply prefix_cons in H as (? & -> & H)). reflexivity.
Qed.

Lemma accessibilityError_not_color (e : ValidationError) :
  accessibilityError e -> isColorField e = false.
Proof.
  unfold accessibilityError, isColorField, JS.startsWith. destruct e as [f m]; cbn [field].
  intros H. do 2 (apply prefix_cons in H as (? & -> & H)). reflexivity.
Qed.

Lemma nameError_not_color (e : ValidationError) : hasField "name" e -> isColorField e = false.
Proof. unfold hasField, isColorField. intros ->. reflexivity. Qed.

Lemma filter_none {A : Type} (f : A -> bool) (P : A -> Prop) (l : list A) :
  (forall x, P x -> f x = false) -> Forall P l -> filter f l = [].
Proof.
  intros HP HF. induction HF as [|x l Hx _ IH]; cbn; [reflexivity|].
  now rewrite (HP x Hx).
Qed.

(** C5, counterexample: the empty object is an object; validating it
    yields four field errors (name, colours, fonts, accessibility) and no
    root error. *)
Lemma validate_empty_object_has_no_root_error :
  validateBrandKit (VObj []) = Returns {| valid := false; errors := emptyObjectErrors |}
  /\ ~ In rootError emptyObjectErrors
  /\ List.length emptyObjectErrors = 4%nat.
Proof.
  split; [reflexivity|]. split; [|reflexivity].
  intros H. repeat (destruct H as [H | H]; [discriminate H|]). exact H.
Qed.

(** C5, amended: validation never throws, whatever the input.  For input
    that is not an object (a falsy value such as null or undefined, or a
    value whose [typeof] is not ["object"]) it returns [valid: false] with
    exactly one error, on [root].  The empty object is an object: it gets
    no root error but the four errors of its missing fields.  Validating a
    kit whose [allowedColors] is [["#ZZZZZZ"]] returns [valid: false] with
    exactly one error on a colour field, which cites invalid hex
    characters. *)
Theorem validateBrandKit_never_throws :
  (forall kit : value, exists res, validateBrandKit kit = Returns res)
  /\ (forall kit : value,
         Val.truthy kit = false \/ Val.typeof kit <> "object" ->
         validateBrandKit kit = Returns {| valid := false; errors := [rootError] |})
  /\ validateBrandKit (VObj []) = Returns {| valid := false; errors := emptyObjectErrors |}
  /\ (forall kit : value,
         Val.truthy kit = true -> Val.typeof kit = "object" ->
         Val.get kit "allowedColors" = Returns (VArr [VStr "#ZZZZZZ"]) ->
         exists res,
           validateBrandKit kit = Returns res
           /\ valid res = false
           /\ filter isColorField (errors res) = [invalidHexError]).
Proof.
  match goal with |- _ /\ (?G /\ _) => assert (NonObject : G) end.
  { intros kit H. unfold validateBrandKit.
    destruct H as [-> | H]; [reflexivity|].
    apply String.eqb_neq in H. rewrite H. now rewrite orb_true_r. }
  split; [|split; [exact NonObject | split; [reflexivity|]]].
  - intros kit.
    destruct (Val.truthy kit) eqn:Ht; [|eexists; apply NonObject; now left].
    destruct (String.eqb_spec (Val.typeof kit) "object") as [Hty | Hty];
      [|eexists; apply NonObject; now right].
    destruct (validateBrandKit_object kit Ht Hty) as (? & ? & ? & ? & _ & H & _).
    eexists. exact H.
  - intros kit Ht Hty Hcolors.
    destruct (validateBrandKit_object kit Ht Hty)
      as (colors & nameE & fontE & accE & Hc & H & HnameE & HfontE & HaccE).
    rewrite Hcolors in Hc. injection Hc as <-.
    change (colorErrorsOf (VArr [VStr "#ZZZZZZ"])) with [invalidHexError] in H.
    eexists. split; [exact H|]. cbn [valid errors]. split.
    + apply Nat.eqb_neq. rewrite !length_app. cbn [List.length]. lia.
    + rewrite !filter_app.
      rewrite (filter_none _ _ nameE nameError_not_color HnameE).
      rewrite (filter_none _ _ fontE fontError_not_color HfontE).
      rewrite (filter_none _ _ accE accessibilityError_not_color HaccE).
      reflexivity.
Qed.

Lemma validateBrandKit_never_throws_witness :
  validateBrandKit (VStr "not a kit")
  = Returns {| valid := false; errors := [rootError] |}
  /\ exists res,
       validateBrandKit zzKit = Returns res
       /\ valid res = false
       /\ filter isColorField (errors res) = [invalidHexError].
Proof.
  split.
  - apply (proj1 (proj2 validateBrandKit_never_throws)). right. discriminate.
  - apply (proj2 (proj2 (proj2 validateBrandKit_never_throws))); reflexivity.
Defined.

(** ** Ordered maps *)

Lemma OMap_get_set_same {V : Type} (k : string) (v : V) (m : OMap.t V) :
  OMap.get k (OMap.set k v m) = Some v.
Proof.
  induction m as [|[k' v'] m IH]; cbn.
  - now rewrite String.eqb_refl.
  - destruct (String.eqb_spec k' k) as [-> | N]; cbn.
    + now rewrite String.eqb_refl.
    + destruct (String.eqb_spec k' k); [contradiction | exact IH].
Qed.

Lemma OMap_get_set_other {V : Type} (k k' : string) (v : V) (m : OMap.t V) :
  k <> k' -> OMap.get k (OMap.set k' v m) = OMap.get k m.
Proof.
  intros N. induction m as [|[k0 v0] m IH]; cbn.
  - destruct (String.eqb_spec k' k); [congruence | reflexivity].
  - destruct (String.eqb_spec k0 k') as [-> | N0]; cbn.
    + destruct (String.eqb_spec k' k); [congruence | reflexivity].
    + destruct (String.eqb_spec k0 k); [reflexivity | exact IH].
Qed.

Lemma OMap_keys_set {V : Type} (k : string) (v : V) (m : OMap.t V) :
  OMap.keys (OMap.set k v m) = OMap.keys m
  \/ (~ In k (OMap.keys m) /\ OMap.keys (OMap.set k v m) = (OMap.keys m ++ [k])%list).
Proof.
  induction m as [|[k' v'] m IH]; cbn.
  - right. split; [tauto | reflexivity].
  - destruct (String.eqb_spec k' k) as [-> | N]; cbn; [now left|].
    destruct IH as [E | [Hn E]].
    + left. unfold OMap.keys in E. now rewrite E.
    + right. split; [intros [H | H]; [congruence | contradiction]|].
      unfold OMap.keys in E. now rewrite E.
Qed.

Lemma OMap_set_NoDup {V : Type} (k : string) (v : V) (m : OMap.t V) :
  NoDup (OMap.keys m) -> NoDup (OMap.keys (OMap.set k v m)).
Proof.
  intros H. destruct (OMap_keys_set k v m) as [-> | [Hn ->]]; [exact H|].
  apply NoDup_app; [exact H | repeat constructor; intros [] |].
  intros x Hx [<- | []]. contradiction.
Qed.

Lemma OMap_get_In {V : Type} (k : string) (v : V) (m : OMap.t V) :
  OMap.get k m = Some v -> In (k, v) m.
Proof.
  induction m as [|[k' v'] m IH]; cbn; [discriminate|].
  destruct (String.eqb_spec k' k) as [-> | N].
  - intros H. injection H as <-. now left.
  - intros H. right. now apply IH.
Qed.

Lemma OMap_In_get {V : Type} (k : string) (v : V) (m : OMap.t V) :
  NoDup (OMap.keys m) -> In (k, v) m -> OMap.get k m = Some v.
Proof.
  induction m as [|[k' v'] m IH]; cbn; [tauto|].
  intros Hnd [H | H].
  - injection H as -> ->. now rewrite String.eqb_refl.
  - inversion Hnd as [|? ? Hk Hnd']; subst.
    destruct (String.eqb_spec k' k) as [-> | N]; [|now apply IH].
    exfalso. apply Hk. change k with (fst (k, v)). now apply in_map.
Qed.

(** What a map built by setting [key x] to [val x] for each [x] of a
    list holds under a key: the value of some element with that key, or
    what it held before when no element has the key. *)
Lemma OMap_fold_set_get {A V : Type} (key : A -> string) (val : A -> V) (l : list A) :
  forall (m : OMap.t V) (k : string),
    (exists x, In x l /\ key x = k
               /\ OMap.get k (fold_left (fun m x => OMap.set (key x) (val x) m) l m)
                  = Some (val x))
    \/ ((forall x, In x l -> key x <> k)
        /\ OMap.get k (fold_left (fun m x => OMap.set (key x) (val x) m) l m)
           = OMap.get k m).
Proof.
  induction l as [|y l IH]; intros m k; cbn [fold_left].
  - right. split; [intros x [] | reflexivity].
  - destruct (IH (OMap.set (key y) (val y) m) k) as [(x & Hin & Hk & Hg) | [Hnone Hg]].
    + left. exists x. repeat split; trivial. now right.
    + destruct (String.eqb_spec (key y) k) as [E | N].
      * left. exists y. split; [now left|]. split; [exact E|].
        rewrite Hg, <- E. apply OMap_get_set_same.
      * right. split.
        -- intros x [<- | Hx]; [exact N | now apply Hnone].
        -- rewrite Hg. apply OMap_get_set_other. congruence.
Qed.

Lemma OMap_fold_set_NoDup {A V : Type} (key : A -> string) (val : A -> V) (l : list A) :
  forall m : OMap.t V,
    NoDup (OMap.keys m) ->
    NoDup (OMap.keys (fold_left (fun m x => OMap.set (key x) (val x) m) l m)).
Proof.
  induction l as [|y l IH]; intros m H; cbn [fold_left]; [exact H|].
  apply IH. now apply OMap_set_NoDup.
Qed.

(** ** Fix all and undo all *)

Section SnapshotProperties.

Variable Doc : Type.
Variable scanDocument : Doc -> list ScannedElement.
Variable fixColor : string -> string -> Doc -> Doc * bool.
Variable fixFont : string -> string -> Doc -> Doc * bool.
Variable restoreColor : string -> string -> Doc -> Doc * bool.
Variable restoreFont : string -> string -> Doc -> Doc * bool.
Variable brandKit : BrandKit.

Local Abbreviation audit := (handleAudit Doc scanDocument brandKit).
Local Abbreviation fixOne := (handleFix Doc scanDocument fixColor fixFont brandKit).
Local Abbreviation fixAll := (handleFixAll Doc scanDocument fixColor fixFont brandKit).
Local Abbreviation undoAll := (handleUndoAll Doc scanDocument restoreColor restoreFont brandKit).
Local Abbreviation restore := (restoreEntry Doc restoreColor restoreFont).
Local Abbreviation runFrom := (run Doc scanDocument fixColor fixFont restoreColor restoreFont brandKit).
Local Abbreviation step := (runStep Doc scanDocument fixColor fixFont restoreColor restoreFont brandKit).
Local Abbreviation quiet :=
  (onlySkippedBatches Doc scanDocument fixColor fixFont restoreColor restoreFont brandKit).

Lemma handleAudit_snapshot (w : World Doc) :
  fixAllSnapshot (fst (audit w)) = fixAllSnapshot (fst w).
Proof. destruct w as [st doc]. reflexivity. Qed.

Lemma handleFix_snapshot (el : ScannedElement) (w : World Doc) :
  fixAllSnapshot (fst (fixOne el w)) = fixAllSnapshot (fst w).
Proof.
  destruct w as [st doc]. unfold handleFix.
  destruct (negb (JS.truthy (Some (id el)))); [reflexivity|].
  destruct (JS.truthy (fontName el)
            && negb (isFontAllowed (fontName el) (allowedFonts brandKit)));
    [|reflexivity].
  destruct (first (allowedFonts brandKit)) as [[|c f]|]; try reflexivity.
  destruct (fixFont _ _ _) as [doc' ok].
  destruct (negb ok); reflexivity.
Qed.

Lemma fold_handleFix_snapshot (els : list ScannedElement) :
  forall w : World Doc,
    fixAllSnapshot (fst (fold_left (fun w' el => fixOne el w') els w))
    = fixAllSnapshot (fst w).
Proof.
  induction els as [|el els IH]; intros w; cbn [fold_left]; [reflexivity|].
  rewrite IH. apply handleFix_snapshot.
Qed.

(** A Fix All with at least one violation arms the snapshot captured from
    the fresh scan. *)
Lemma handleFixAll_arms (st : AppState) (doc : Doc) :
  violations st <> [] ->
  fixAllSnapshot (fst (fixAll (st, doc)))
  = Some (captureSnapshot (violations st) (scanDocument doc)).
Proof.
  intros Hne. unfold handleFixAll.
  destruct (violations st) as [|v vs] eqn:E; [contradiction|].
  cbn [List.length Nat.ltb Nat.leb].
  rewrite fold_handleFix_snapshot. reflexivity.
Qed.

(** A Fix All with nothing to fix changes nothing. *)
Lemma handleFixAll_noop (st : AppState) (doc : Doc) :
  violations st = [] -> fixAll (st, doc) = (st, doc).
Proof. intros E. unfold handleFixAll. rewrite E. reflexivity. Qed.

Lemma currentStateMap_get (results : list ScannedElement) (k : string) (cur : ScannedElement) :
  OMap.get k (currentStateMap results) = Some cur -> In cur results /\ id cur = k.
Proof.
  unfold currentStateMap.
  destruct (OMap_fold_set_get id (fun el => el) results [] k)
    as [(x & Hin & Hk & Hg) | [_ Hg]]; rewrite Hg.
  - intros H. injection H as <-. now split.
  - discriminate.
Qed.

Lemma captureSnapshot_fold (violationEls results : list ScannedElement) :
  captureSnapshot violationEls results
  = fold_left (fun m x => OMap.set (id x) (recordedState results x) m) violationEls [].
Proof.
  unfold captureSnapshot. generalize ([] : Snapshot).
  induction violationEls as [|y l IH]; intros m; cbn [fold_left]; [reflexivity|].
  rewrite IH. f_equal. unfold recordedState.
  destruct (OMap.get (id y) (currentStateMap results)); reflexivity.
Qed.

(** The snapshot records, for every violation, the colour and font the
    fresh scan shows for its id (or, for an id the scan does not show,
    those of a violation with that id). *)
Lemma captureSnapshot_records (violationEls results : list ScannedElement)
      (el : ScannedElement) :
  In el violationEls ->
  match OMap.get (id el) (currentStateMap results) with
  | Some currentEl =>
      OMap.get (id el) (captureSnapshot violationEls results)
      = Some (fillColor currentEl, fontName currentEl)
  | None =>
      exists v, In v violationEls /\ id v = id el
                /\ OMap.get (id el) (captureSnapshot violationEls results)
                   = Some (fillColor v, fontName v)
  end.
Proof.
  intros Hin. rewrite captureSnapshot_fold.
  destruct (OMap_fold_set_get id (recordedState results) violationEls [] (id el))
    as [(x & Hx & Hk & Hg) | [Hnone _]].
  - rewrite Hg. unfold recordedState. rewrite Hk.
    destruct (OMap.get (id el) (currentStateMap results)) as [cur|]; [reflexivity|].
    exists x. now repeat split.
  - exfalso. now apply (Hnone el Hin).
Qed.

Lemma captureSnapshot_NoDup (violationEls results : list ScannedElement) :
  NoDup (OMap.keys (captureSnapshot violationEls results)).
Proof.
  rewrite captureSnapshot_fold. apply OMap_fold_set_NoDup. constructor.
Qed.

(** Undo All with a snapshot runs the restore loop over its entries, in
    order, and disarms; without a snapshot it does nothing. *)
Lemma handleUndoAll_armed (st : AppState) (doc : Doc) (snapshot : Snapshot) :
  fixAllSnapshot st = Some snapshot ->
  fixAllSnapshot (fst (undoAll (st, doc))) = None
  /\ snd (undoAll (st, doc)) = fold_left restore snapshot doc.
Proof. intros H. unfold handleUndoAll. rewrite H. split; reflexivity. Qed.

Lemma handleUndoAll_idle (st : AppState) (doc : Doc) :
  fixAllSnapshot st = None -> undoAll (st, doc) = (st, doc).
Proof. intros H. unfold handleUndoAll. now rewrite H. Qed.

(** Steps that are neither an Undo All nor a Fix All with something to
    fix leave the snapshot as it is. *)
Lemma quiet_steps_keep_snapshot (steps : list (Step Doc)) :
  forall w : World Doc,
    quiet steps w ->
    fixAllSnapshot (fst (runFrom steps w)) = fixAllSnapshot (fst w).
Proof.
  induction steps as [|s steps IH]; intros w Hq; [reflexivity|].
  destruct Hq as [Hs Hq]. unfold run in *. cbn [fold_left].
  rewrite (IH _ Hq).
  destruct s as [| | |g]; cbn [runStep].
  - destruct w as [st doc]. cbn [fst] in Hs. now rewrite handleFixAll_noop.
  - contradiction.
  - apply handleAudit_snapshot.
  - reflexivity.
Qed.

(** *** What the restore calls are taken to do *)

(** [appliesColor i c] and [appliesFont i f] say for which nodes and values
    the provider's restore calls go through; a call changes nothing but the
    colour, or the font, of its node. *)
Variable nodeColor : Doc -> string -> option string.
Variable nodeFont : Doc -> string -> option string.
Variable appliesColor : string -> string -> Prop.
Variable appliesFont : string -> string -> Prop.

Hypothesis restoreColor_sets :
  forall i c d, appliesColor i c -> nodeColor (fst (restoreColor i c d)) i = Some c.
Hypothesis restoreColor_frame :
  forall i c d j, j <> i -> nodeColor (fst (restoreColor i c d)) j = nodeColor d j.
Hypothesis restoreColor_font :
  forall i c d j, nodeFont (fst (restoreColor i c d)) j = nodeFont d j.
Hypothesis restoreFont_sets :
  forall i f d, appliesFont i f -> nodeFont (fst (restoreFont i f d)) i = Some f.
Hypothesis restoreFont_frame :
  forall i f d j, j <> i -> nodeFont (fst (restoreFont i f d)) j = nodeFont d j.
Hypothesis restoreFont_color :
  forall i f d j, nodeColor (fst (restoreFont i f d)) j = nodeColor d j.

Lemma restoreEntry_other (d : Doc) (i : string) (cf : option string * option string)
      (j : string) :
  j <> i ->
  nodeColor (restore d (i, cf)) j = nodeColor d j
  /\ nodeFont (restore d (i, cf)) j = nodeFont d j.
Proof.
  intros N. destruct cf as [c f]. unfold restoreEntry.
  destruct c as [[|c0 c]|]; destruct f as [[|f0 f]|];
    rewrite ?restoreFont_color, ?restoreFont_frame, ?restoreColor_frame,
            ?restoreColor_font by exact N; split; reflexivity.
Qed.

Lemma restoreEntry_same (d : Doc) (i c f : string) (rc rf : option string) :
  (rc = Some c -> c <> "" -> appliesColor i c ->
   nodeColor (restore d (i, (rc, rf))) i = Some c)
  /\ (rf = Some f -> f <> "" -> appliesFont i f ->
      nodeFont (restore d (i, (rc, rf))) i = Some f).
Proof.
  unfold restoreEntry. split.
  - intros -> Hc Ha. destruct c as [|c0 c]; [contradiction|].
    destruct rf as [[|f0 f']|]; rewrite ?restoreFont_color;
      now apply restoreColor_sets.
  - intros -> Hf Ha. destruct f as [|f0 f]; [contradiction|].
    now apply restoreFont_sets.
Qed.

(** A pair with no colour and no font makes no call at all. *)
Lemma restoreEntry_null (d : Doc) (i : string) (rc rf : option string) :
  JS.truthy rc = false -> JS.truthy rf = false -> restore d (i, (rc, rf)) = d.
Proof.
  unfold restoreEntry.
  destruct rc as [[|c0 c]|]; destruct rf as [[|f0 f]|]; cbn [JS.truthy];
    intros H1 H2; try discriminate; reflexivity.
Qed.

Lemma restore_others (snapshot : Snapshot) :
  forall (d : Doc) (j : string),
    ~ In j (OMap.keys snapshot) ->
    nodeColor (fold_left restore snapshot d) j = nodeColor d j
    /\ nodeFont (fold_left restore snapshot d) j = nodeFont d j.
Proof.
  induction snapshot as [|[i cf] rest IH]; intros d j Hj; cbn [fold_left]; [now split|].
  cbn in Hj.
  destruct (IH (restore d (i, cf)) j) as [Hc Hf]; [tauto|].
  destruct (restoreEntry_other d i cf j) as [Hc' Hf']; [intros ->; tauto|].
  rewrite Hc, Hf, Hc', Hf'. now split.
Qed.

(** The restore loop puts back every colour and font of the snapshot
    that is not empty and that the provider applies. *)
Lemma restore_all (snapshot : Snapshot) :
  NoDup (OMap.keys snapshot) ->
  forall (d : Doc) (i c f : string) (rc rf : option string),
    In (i, (rc, rf)) snapshot ->
    (rc = Some c -> c <> "" -> appliesColor i c ->
     nodeColor (fold_left restore snapshot d) i = Some c)
    /\ (rf = Some f -> f <> "" -> appliesFont i f ->
        nodeFont (fold_left restore snapshot d) i = Some f).
Proof.
  induction snapshot as [|[k cf] rest IH]; intros Hnd d i c f rc rf Hin; [contradiction|].
  cbn [fold_left]. cbn in Hnd. inversion Hnd as [|? ? Hk Hnd']; subst.
  destruct Hin as [E | Hin].
  - injection E as -> ->.
    destruct (restore_others rest (restore d (i, (rc, rf))) i Hk) as [Hc Hf].
    rewrite Hc, Hf. apply restoreEntry_same.
  - now apply IH.
Qed.

End SnapshotProperties.



(** The ideal provider at work: an audit, a Fix All that repaints and
    re-fonts the first node, then a Fix All with nothing to fix, an audit
    and another no-op Fix All. *)
Lemma demo_fix_all_changes_node :
  let fixAll := handleFixAll Store storeScan storeSetColor storeSetFont sampleKit in
  let audit := handleAudit Store storeScan sampleKit in
  colorOf (snd (fixAll (audit demoWorld))) "n1" = Some "#000000"
  /\ fontOf (snd (fixAll (audit demoWorld))) "n1" = Some "Arial"
  /\ violations (fst (fixAll (audit demoWorld))) = [].
Proof. repeat split. Qed.

(* ================================================================== *)
(** * Further properties *)
(* ================================================================== *)

(** ** ui/utils/colors.ts *)

(** *** [toHex6] is a normal form *)

Lemma whiteSpace_upperChar (c : ascii) :
  JS.isWhiteSpace (JS.upperChar c) = JS.isWhiteSpace c.
Proof. by_cases_on_char c. Qed.

Lemma whiteSpace_lowerChar (c : ascii) :
  JS.isWhiteSpace (JS.lowerChar c) = JS.isWhiteSpace c.
Proof. by_cases_on_char c. Qed.

Lemma hexDigit_lowerChar (c : ascii) :
  JS.isHexDigit (JS.lowerChar c) = JS.isHexDigit c.
Proof. by_cases_on_char c. Qed.

Lemma hexDigit_upperChar (c : ascii) :
  JS.isHexDigit (JS.upperChar c) = JS.isHexDigit c.
Proof. by_cases_on_char c. Qed.

Lemma upper_lowerChar (c : ascii) : JS.upperChar (JS.lowerChar c) = JS.upperChar c.
Proof. by_cases_on_char c. Qed.

Lemma lower_upperChar (c : ascii) : JS.lowerChar (JS.upperChar c) = JS.lowerChar c.
Proof. by_cases_on_char c. Qed.

Lemma lowerChar_idem (c : ascii) : JS.lowerChar (JS.lowerChar c) = JS.lowerChar c.
Proof. by_cases_on_char c. Qed.

Lemma hash_lowerChar (c : ascii) :
  Ascii.eqb (JS.lowerChar c) "#" = Ascii.eqb c "#".
Proof. by_cases_on_char c. Qed.

Lemma hash_upperChar (c : ascii) :
  Ascii.eqb (JS.upperChar c) "#" = Ascii.eqb c "#".
Proof. by_cases_on_char c. Qed.

Section CaseMapping.

(** A character mapping that, like [toUpperCase] and [toLowerCase],
    leaves white space, ['#'] and the class of hex digits alone. *)
Variable f : ascii -> ascii.
Hypothesis f_whiteSpace : forall c, JS.isWhiteSpace (f c) = JS.isWhiteSpace c.
Hypothesis f_hash : forall c, Ascii.eqb (f c) "#" = Ascii.eqb c "#".
Hypothesis f_hex : forall c, JS.isHexDigit (f c) = JS.isHexDigit c.

Lemma trimStart_mapChars (s : string) :
  JS.trimStart (JS.mapChars f s) = JS.mapChars f (JS.trimStart s).
Proof.
  induction s as [|c s IH]; cbn; [reflexivity|].
  rewrite f_whiteSpace. destruct (JS.isWhiteSpace c); [exact IH | reflexivity].
Qed.

Lemma trimEnd_mapChars (s : string) :
  JS.trimEnd (JS.mapChars f s) = JS.mapChars f (JS.trimEnd s).
Proof.
  induction s as [|c s IH]; cbn; [reflexivity|].
  rewrite IH, f_whiteSpace.
  destruct (JS.trimEnd s); cbn; [destruct (JS.isWhiteSpace c)|]; reflexivity.
Qed.

Lemma trim_mapChars (s : string) :
  JS.trim (JS.mapChars f s) = JS.mapChars f (JS.trim s).
Proof. unfold JS.trim. now rewrite trimStart_mapChars, trimEnd_mapChars. Qed.

Lemma stripLeadingHash_mapChars (s : string) :
  JS.stripLeadingHash (JS.mapChars f s) = JS.mapChars f (JS.stripLeadingHash s).
Proof.
  destruct s as [|c s]; [reflexivity|]. cbn [JS.mapChars].
  pose proof (f_hash c) as H.
  destruct (Ascii.eqb_spec c "#") as [-> | Hc].
  - apply Ascii.eqb_eq in H. rewrite H. reflexivity.
  - apply Ascii.eqb_neq in H.
    assert (E1 : JS.stripLeadingHash (String (f c) (JS.mapChars f s))
                 = String (f c) (JS.mapChars f s)).
    { destruct (f c) as [[] [] [] [] [] [] [] []]; try reflexivity. now elim H. }
    assert (E2 : JS.stripLeadingHash (String c s) = String c s).
    { destruct c as [[] [] [] [] [] [] [] []]; try reflexivity. now elim Hc. }
    now rewrite E1, E2.
Qed.

Lemma allChars_hex_mapChars (s : string) :
  JS.allChars JS.isHexDigit (JS.mapChars f s) = JS.allChars JS.isHexDigit s.
Proof. induction s as [|c s IH]; cbn; [reflexivity|]. now rewrite f_hex, IH. Qed.

Lemma isHexString_mapChars (s : string) :
  JS.isHexString (JS.mapChars f s) = JS.isHexString s.
Proof.
  destruct s as [|c s]; [reflexivity|].
  apply (allChars_hex_mapChars (String c s)).
Qed.

End CaseMapping.

Lemma substring_mapChars (f : ascii -> ascii) (s : string) :
  forall n m, String.substring n m (JS.mapChars f s) = JS.mapChars f (String.substring n m s).
Proof.
  induction s as [|c s IH]; intros n m.
  - destruct n, m; reflexivity.
  - destruct n as [|n]; cbn.
    + destruct m as [|m]; cbn; [reflexivity|]. now rewrite IH.
    + apply IH.
Qed.

Lemma slice_mapChars (f : ascii -> ascii) (a b : nat) (s : string) :
  JS.slice a b (JS.mapChars f s) = JS.mapChars f (JS.slice a b s).
Proof. apply substring_mapChars. Qed.

Lemma toUpperCase_toLowerCase (s : string) :
  JS.toUpperCase (JS.toLowerCase s) = JS.toUpperCase s.
Proof.
  unfold JS.toUpperCase, JS.toLowerCase.
  induction s as [|c s IH]; cbn; [reflexivity|]. now rewrite upper_lowerChar, IH.
Qed.

Lemma toLowerCase_toUpperCase (s : string) :
  JS.toLowerCase (JS.toUpperCase s) = JS.toLowerCase s.
Proof.
  unfold JS.toUpperCase, JS.toLowerCase.
  induction s as [|c s IH]; cbn; [reflexivity|]. now rewrite lower_upperChar, IH.
Qed.

Lemma toLowerCase_idem (s : string) :
  JS.toLowerCase (JS.toLowerCase s) = JS.toLowerCase s.
Proof.
  unfold JS.toLowerCase.
  induction s as [|c s IH]; cbn; [reflexivity|]. now rewrite lowerChar_idem, IH.
Qed.

Lemma trimStart_idem (s : string) : JS.trimStart (JS.trimStart s) = JS.trimStart s.
Proof.
  induction s as [|c s IH]; cbn; [reflexivity|].
  destruct (JS.isWhiteSpace c) eqn:E; [exact IH|]. cbn. now rewrite E.
Qed.

Lemma trimEnd_idem (s : string) : JS.trimEnd (JS.trimEnd s) = JS.trimEnd s.
Proof.
  induction s as [|c s IH]; cbn; [reflexivity|].
  destruct (JS.trimEnd s) as [|d t] eqn:E.
  - destruct (JS.isWhiteSpace c) eqn:Ec; cbn; [reflexivity|]. now rewrite Ec.
  - cbn [JS.trimEnd]. cbn [JS.trimEnd] in IH. rewrite IH. reflexivity.
Qed.

(** What is left of a string after [trimEnd] starts with the same
    character, when anything is left. *)
Lemma trimEnd_head (c : ascii) (s : string) :
  JS.isWhiteSpace c = false ->
  exists t, JS.trimEnd (String c s) = String c t.
Proof.
  intros Hc. cbn. destruct (JS.trimEnd s); [rewrite Hc|]; eexists; reflexivity.
Qed.

Lemma trimStart_trimEnd (s : string) :
  JS.trimStart (JS.trimEnd (JS.trimStart s)) = JS.trimEnd (JS.trimStart s).
Proof.
  induction s as [|c s IH]; [reflexivity|].
  cbn [JS.trimStart]. destruct (JS.isWhiteSpace c) eqn:Ec; [exact IH|].
  destruct (trimEnd_head c s Ec) as [t ->]. cbn. now rewrite Ec.
Qed.

Lemma trim_idem (s : string) : JS.trim (JS.trim s) = JS.trim s.
Proof. unfold JS.trim. now rewrite trimStart_trimEnd, trimEnd_idem. Qed.

Lemma toHex6_mapChars (f : ascii -> ascii) (h : string) :
  (forall c, JS.isWhiteSpace (f c) = JS.isWhiteSpace c) ->
  (forall c, Ascii.eqb (f c) "#" = Ascii.eqb c "#") ->
  (forall c, JS.isHexDigit (f c) = JS.isHexDigit c) ->
  (forall s, JS.toUpperCase (JS.mapChars f s) = JS.toUpperCase s) ->
  toHex6 (Some (JS.mapChars f h)) = toHex6 (Some h).
Proof.
  intros Hws Hhash Hhex Hup.
  rewrite !toHex6_unfold.
  rewrite (trim_mapChars f Hws), (stripLeadingHash_mapChars f Hhash),
          (isHexString_mapChars f Hhex).
  destruct (JS.isHexString _); [|reflexivity].
  unfold hex6Of. rewrite length_mapChars, !slice_mapChars, !Hup. reflexivity.
Qed.

(** X1: [toHex6] yields a normal form.  Whatever it accepts comes back as
    ['#'] followed by six upper-case hex digits, applying it again changes
    nothing, and the answer does not depend on the letter case of the
    input nor on white space around it. *)
Theorem toHex6_normal_form (hex : option string) :
  toHex6 (toHex6 hex) = toHex6 hex
  /\ (forall n, toHex6 hex = Some n -> canonical n)
  /\ (forall h, hex = Some h ->
        toHex6 (Some (JS.toLowerCase h)) = toHex6 hex
        /\ toHex6 (Some (JS.toUpperCase h)) = toHex6 hex
        /\ toHex6 (Some (JS.trim h)) = toHex6 hex).
Proof.
  split; [|split].
  - destruct (toHex6 hex) as [n|] eqn:E; [|reflexivity].
    apply canonical_toHex6. now apply (toHex6_canonical hex).
  - intros n. apply toHex6_canonical.
  - intros h ->. split; [|split].
    + apply toHex6_mapChars.
      * exact whiteSpace_lowerChar.
      * exact hash_lowerChar.
      * exact hexDigit_lowerChar.
      * exact toUpperCase_toLowerCase.
    + apply toHex6_mapChars.
      * exact whiteSpace_upperChar.
      * exact hash_upperChar.
      * exact hexDigit_upperChar.
      * exact toUpperCase_idem.
    + rewrite !toHex6_unfold. now rewrite trim_idem.
Qed.

Lemma toHex6_normal_form_witness :
  canonical "#A1B2C3"
  /\ toHex6 (Some (JS.toLowerCase " #a1B2c3 ")) = toHex6 (Some " #a1B2c3 ").
Proof.
  pose proof (toHex6_normal_form (Some " #a1B2c3 ")) as (_ & Hc & Hi).
  split.
  - apply (Hc "#A1B2C3"). reflexivity.
  - apply (Hi " #a1B2c3 "). reflexivity.
Defined.
(** *** [hexToRgb] *)

Lemma byteHex_spec (n : Z) :
  0 <= n <= 255 ->
  Sandbox.byteHex n
  = String (hexUpperChar (n / 16)) (String (hexUpperChar (n mod 16)) "").
Proof.
  intros Hn.
  assert (H : forall k : nat, (k < 256)%nat ->
            Sandbox.byteHex (Z.of_nat k)
            = String (hexUpperChar (Z.of_nat k / 16))
                     (String (hexUpperChar (Z.of_nat k mod 16)) "")).
  { intros k Hk.
    do 256 (destruct k as [|k]; [vm_compute; reflexivity|]).
    lia. }
  specialize (H (Z.to_nat n) ltac:(lia)).
  now rewrite Z2Nat.id in H by lia.
Qed.

Lemma hexDigitValue_hexUpperChar (d : Z) :
  0 <= d < 16 -> JSNum.hexDigitValue (hexUpperChar d) = Some d.
Proof.
  intros Hd.
  assert (H : forall k : nat, (k < 16)%nat ->
            JSNum.hexDigitValue (hexUpperChar (Z.of_nat k)) = Some (Z.of_nat k)).
  { intros k Hk. do 16 (destruct k as [|k]; [reflexivity|]). lia. }
  specialize (H (Z.to_nat d) ltac:(lia)).
  now rewrite Z2Nat.id in H by lia.
Qed.

Lemma hexUpperChar_props (d : Z) :
  JS.isHexDigit (hexUpperChar d) = true
  /\ JS.upperChar (hexUpperChar d) = hexUpperChar d
  /\ JS.isWhiteSpace (hexUpperChar d) = false.
Proof.
  destruct d as [|p|p]; [repeat split; reflexivity| |repeat split; reflexivity].
  do 4 (destruct p as [p|p|]; try (repeat split; reflexivity)).
Qed.

Lemma hexDigitValue_range (c : ascii) (v : Z) :
  JSNum.hexDigitValue c = Some v -> 0 <= v < 16 /\ JS.isHexDigit c = true.
Proof.
  destruct c as [[] [] [] [] [] [] [] []]; cbn; intros H;
    try discriminate H; injection H as <-; split; (lia || reflexivity).
Qed.

Lemma isHexDigit_value (c : ascii) :
  JS.isHexDigit c = true -> exists v, JSNum.hexDigitValue c = Some v.
Proof.
  destruct c as [[] [] [] [] [] [] [] []]; cbn; intros H;
    try discriminate H; eexists; reflexivity.
Qed.

(** [parseInt(s, 16)] on a string that starts with two hex digits reads
    its longest prefix of hex digits: there is no white space, sign or
    [0x] to skip. *)
Lemma parseInt16_hex (c1 c2 : ascii) (s : string) :
  JS.isHexDigit c1 = true ->
  JS.isHexDigit c2 = true ->
  JSNum.parseInt16 (String c1 (String c2 s))
  = match JSNum.hexPrefix None (String c1 (String c2 s)) with
    | None => JSNum.NaN
    | Some v =>
        match JSNum.toDouble v with
        | None => JSNum.Inf false
        | Some d => JSNum.Int d
        end
    end.
Proof.
  intros H1 H2. unfold JSNum.parseInt16.
  cbn [JS.trimStart]. rewrite (hex_not_whiteSpace c1 H1).
  destruct c1 as [[] [] [] [] [] [] [] []]; try discriminate H1; try reflexivity.
  destruct c2 as [[] [] [] [] [] [] [] []]; try discriminate H2; reflexivity.
Qed.

Lemma toDouble_small (v : Z) : 0 <= v < 2 ^ 32 -> JSNum.toDouble v = Some v.
Proof.
  intros Hv. unfold JSNum.toDouble.
  destruct (Z.ltb_spec v (2 ^ 53)) as [_ | H]; [reflexivity|].
  change (2 ^ 53) with 9007199254740992 in H. change (2 ^ 32) with 4294967296 in Hv. lia.
Qed.

(** The value [parseInt(s, 16)] reads from two hex digits. *)
Lemma parseInt16_byte (c1 c2 : ascii) (v1 v2 : Z) :
  JSNum.hexDigitValue c1 = Some v1 ->
  JSNum.hexDigitValue c2 = Some v2 ->
  JSNum.parseInt16 (String c1 (String c2 "")) = JSNum.Int (16 * v1 + v2).
Proof.
  intros H1 H2.
  destruct (hexDigitValue_range c1 v1 H1) as [R1 D1].
  destruct (hexDigitValue_range c2 v2 H2) as [R2 D2].
  rewrite parseInt16_hex by assumption.
  cbn [JSNum.hexPrefix]. rewrite H1, H2.
  rewrite toDouble_small by (change (2 ^ 32) with 4294967296; lia).
  f_equal; lia.
Qed.

(** The channels [hexToRgb] reads from ['#'] and six hex digits. *)
Lemma hexToRgb_digits (c1 c2 c3 c4 c5 c6 : ascii) (v1 v2 v3 v4 v5 v6 : Z) :
  JSNum.hexDigitValue c1 = Some v1 -> JSNum.hexDigitValue c2 = Some v2 ->
  JSNum.hexDigitValue c3 = Some v3 -> JSNum.hexDigitValue c4 = Some v4 ->
  JSNum.hexDigitValue c5 = Some v5 -> JSNum.hexDigitValue c6 = Some v6 ->
  hexToRgb (String "#" (String c1 (String c2 (String c3 (String c4
              (String c5 (String c6 "")))))))
  = {| r := 16 * v1 + v2; g := 16 * v3 + v4; b := 16 * v5 + v6 |}.
Proof.
  intros H1 H2 H3 H4 H5 H6.
  destruct (hexDigitValue_range c1 v1 H1) as [R1 D1].
  destruct (hexDigitValue_range c2 v2 H2) as [R2 D2].
  destruct (hexDigitValue_range c3 v3 H3) as [R3 _].
  destruct (hexDigitValue_range c4 v4 H4) as [R4 _].
  destruct (hexDigitValue_range c5 v5 H5) as [R5 _].
  destruct (hexDigitValue_range c6 v6 H6) as [R6 _].
  unfold hexToRgb. cbn [JS.removeFirstHash Ascii.eqb Bool.eqb].
  rewrite parseInt16_hex by assumption.
  cbn [JSNum.hexPrefix]. rewrite H1, H2, H3, H4, H5, H6.
  set (v := 16 * (16 * (16 * (16 * (16 * (16 * 0 + v1) + v2) + v3) + v4) + v5) + v6).
  assert (Hv : v = 65536 * (16 * v1 + v2) + 256 * (16 * v3 + v4) + (16 * v5 + v6))
    by (unfold v; lia).
  assert (Hb : 0 <= v < 16777216) by lia.
  rewrite toDouble_small by (change (2 ^ 32) with 4294967296; lia).
  unfold JSNum.toInt32.
  change (2 ^ 32) with 4294967296. change (2 ^ 31) with 2147483648.
  rewrite Z.mod_small by lia.
  destruct (Z.leb_spec 2147483648 v) as [Hbig|_]; [lia|].
  unfold JSNum.sar, JSNum.band. change 255 with (Z.ones 8).
  rewrite !Z.land_ones, !Z.shiftr_div_pow2 by lia.
  change (2 ^ 16) with 65536. change (2 ^ 8) with 256.
  f_equal.
  - rewrite Hv. 
    replace (65536 * (16 * v1 + v2) + 256 * (16 * v3 + v4) + (16 * v5 + v6))
      with ((256 * (16 * v3 + v4) + (16 * v5 + v6)) + (16 * v1 + v2) * 65536) by lia.
    rewrite Z.div_add by lia. rewrite Z.div_small by lia.
    rewrite Z.mod_small; lia.
  - rewrite Hv.
    replace (65536 * (16 * v1 + v2) + 256 * (16 * v3 + v4) + (16 * v5 + v6))
      with ((16 * v5 + v6) + (256 * (16 * v1 + v2) + (16 * v3 + v4)) * 256) by lia.
    rewrite Z.div_add by lia. rewrite Z.div_small by lia.
    rewrite Z.add_0_l.
    replace (256 * (16 * v1 + v2) + (16 * v3 + v4))
      with ((16 * v3 + v4) + (16 * v1 + v2) * 256) by lia.
    rewrite Z.mod_add by lia. rewrite Z.mod_small; lia.
  - rewrite Hv.
    replace (65536 * (16 * v1 + v2) + 256 * (16 * v3 + v4) + (16 * v5 + v6))
      with ((16 * v5 + v6) + (256 * (16 * v1 + v2) + (16 * v3 + v4)) * 256) by lia.
    rewrite Z.mod_add by lia. rewrite Z.mod_small; lia.
Qed.

Lemma hexOfRgb_unfold (c : rgb) :
  0 <= r c <= 255 -> 0 <= g c <= 255 -> 0 <= b c <= 255 ->
  hexOfRgb c
  = String "#" (String (hexUpperChar (r c / 16)) (String (hexUpperChar (r c mod 16))
      (String (hexUpperChar (g c / 16)) (String (hexUpperChar (g c mod 16))
      (String (hexUpperChar (b c / 16)) (String (hexUpperChar (b c mod 16)) "")))))).
Proof.
  intros Hr Hg Hb. unfold hexOfRgb.
  rewrite !byteHex_spec by assumption. reflexivity.
Qed.

Lemma hexOfRgb_canonical (c : rgb) :
  0 <= r c <= 255 -> 0 <= g c <= 255 -> 0 <= b c <= 255 ->
  canonical (hexOfRgb c).
Proof.
  intros Hr Hg Hb. rewrite hexOfRgb_unfold by assumption.
  eexists. split; [reflexivity|]. split; [reflexivity|].
  unfold JS.toUpperCase. cbn [JS.allChars JS.mapChars].
  repeat match goal with
         | |- context [JS.isHexDigit (hexUpperChar ?d)] =>
             rewrite (proj1 (hexUpperChar_props d))
         | |- context [JS.upperChar (hexUpperChar ?d)] =>
             rewrite (proj1 (proj2 (hexUpperChar_props d)))
         end.
  split; reflexivity.
Qed.

(** X2: [hexToRgb] never answers a channel outside 0..255, whatever the
    string, and it decodes the colour [#RRGGBB] written from three channel
    values back to these values; that colour is one [toHex6] leaves as it
    is. *)
Theorem hexToRgb_decodes :
  (forall hex : string,
      0 <= r (hexToRgb hex) <= 255
      /\ 0 <= g (hexToRgb hex) <= 255
      /\ 0 <= b (hexToRgb hex) <= 255)
  /\ (forall c : rgb,
        0 <= r c <= 255 -> 0 <= g c <= 255 -> 0 <= b c <= 255 ->
        hexToRgb (hexOfRgb c) = c
        /\ toHex6 (Some (hexOfRgb c)) = Some (hexOfRgb c)).
Proof.
  split; [exact hexToRgb_bounds|].
  intros c Hr Hg Hb. split.
  - rewrite hexOfRgb_unfold by assumption.
    rewrite (hexToRgb_digits _ _ _ _ _ _
               (r c / 16) (r c mod 16) (g c / 16) (g c mod 16) (b c / 16) (b c mod 16));
      try (apply hexDigitValue_hexUpperChar;
           (apply Z.mod_pos_bound; lia)
           || (split; [apply Z.div_pos; lia | apply Z.div_lt_upper_bound; lia])).
    destruct c as [cr cg cb]. cbn [r g b] in *.
    f_equal; Z.div_mod_to_equations; lia.
  - apply canonical_toHex6. now apply hexOfRgb_canonical.
Qed.

Lemma hexToRgb_decodes_witness :
  hexToRgb (hexOfRgb {| r := 35; g := 45; b := 75 |}) = {| r := 35; g := 45; b := 75 |}
  /\ hexOfRgb {| r := 35; g := 45; b := 75 |} = "#232D4B".
Proof.
  split.
  - apply (proj2 hexToRgb_decodes {| r := 35; g := 45; b := 75 |}); cbn; lia.
  - reflexivity.
Defined.
(** *** [colorDistance] *)

Lemma colorDistance2_nonneg (x y : string) : 0 <= colorDistance2 x y.
Proof.
  unfold colorDistance2.
  pose proof (Z.square_nonneg (r (hexToRgb x) - r (hexToRgb y))).
  pose proof (Z.square_nonneg (g (hexToRgb x) - g (hexToRgb y))).
  pose proof (Z.square_nonneg (b (hexToRgb x) - b (hexToRgb y))).
  lia.
Qed.

Lemma colorDistance2_sym (x y : string) : colorDistance2 x y = colorDistance2 y x.
Proof. unfold colorDistance2. ring. Qed.

Lemma colorDistance2_zero (x y : string) :
  colorDistance2 x y = 0 <-> hexToRgb x = hexToRgb y.
Proof.
  unfold colorDistance2. split.
  - intros H.
    destruct (hexToRgb x) as [r1 g1 b1], (hexToRgb y) as [r2 g2 b2]. cbn [r g b] in H.
    pose proof (Z.square_nonneg (r1 - r2)) as Sr.
    pose proof (Z.square_nonneg (g1 - g2)) as Sg.
    pose proof (Z.square_nonneg (b1 - b2)) as Sb.
    assert (Hr : (r1 - r2) * (r1 - r2) = 0) by lia.
    assert (Hg : (g1 - g2) * (g1 - g2) = 0) by lia.
    assert (Hb : (b1 - b2) * (b1 - b2) = 0) by lia.
    apply Z.mul_eq_0 in Hr, Hg, Hb.
    f_equal; lia.
  - intros ->. ring.
Qed.

(** X3: [colorDistance] is symmetric, lies between 0 and 442, and is 0
    exactly for two strings read as the same colour; two pairs of colours
    are as far apart exactly when their sums of squared channel
    differences are equal, and one pair is closer than another exactly
    when its sum is the smaller one. *)
Theorem colorDistance_separates (x y z w : string) :
  colorDistance x y = colorDistance y x
  /\ (0 <= colorDistance x y <= 442)%R
  /\ (colorDistance x y = 0%R <-> hexToRgb x = hexToRgb y)
  /\ (colorDistance x y = colorDistance z w
      <-> colorDistance2 x y = colorDistance2 z w)
  /\ ((colorDistance x y < colorDistance z w)%R
      <-> colorDistance2 x y < colorDistance2 z w).
Proof.
  pose proof (colorDistance2_nonneg x y) as Hxy.
  pose proof (colorDistance2_nonneg z w) as Hzw.
  split; [|split; [|split; [|split]]].
  - unfold colorDistance. now rewrite colorDistance2_sym.
  - split; [apply sqrt_pos|].
    unfold colorDistance.
    replace 442%R with (sqrt (IZR (442 * 442))).
    + apply sqrt_le_1_alt. apply IZR_le.
      unfold colorDistance2.
      destruct (hexToRgb_bounds x) as (? & ? & ?).
      destruct (hexToRgb_bounds y) as (? & ? & ?).
      nia.
    + rewrite mult_IZR, sqrt_square by lra. reflexivity.
  - rewrite <- colorDistance2_zero. unfold colorDistance. split.
    + intros H. apply sqrt_eq_0 in H; [|now apply IZR_le].
      now apply eq_IZR.
    + intros ->. apply sqrt_0.
  - unfold colorDistance. split.
    + intros H. apply sqrt_inj in H; [|now apply IZR_le..].
      now apply eq_IZR.
    + now intros ->.
  - unfold colorDistance. split.
    + intros H. apply lt_IZR. apply sqrt_lt_0_alt. exact H.
    + intros H. apply sqrt_lt_1; [now apply IZR_le..|]. now apply IZR_lt.
Qed.

(** *** [calculateContrastRatio] *)

(** X4: the contrast ratio does not depend on which of the two colours is
    the foreground, and lies between 1 and 21; it is 1, and fails every
    threshold, for two strings read as the same colour. *)
Theorem contrast_ratio_symmetric (hex1 hex2 : string) (options : ContrastOptions) :
  calculateContrastRatio hex1 hex2 options = calculateContrastRatio hex2 hex1 options
  /\ (1 <= ratio (calculateContrastRatio hex1 hex2 options) <= 21)%R
  /\ (hexToRgb hex1 = hexToRgb hex2 ->
      ratio (calculateContrastRatio hex1 hex2 options) = 1%R
      /\ passesAA (calculateContrastRatio hex1 hex2 options) = false
      /\ passesAAA (calculateContrastRatio hex1 hex2 options)
         = if reportAAA options then Some false else None).
Proof.
  split; [|split].
  - unfold calculateContrastRatio.
    rewrite (Rmax_comm (getLuminance (hexToRgb hex1))),
            (Rmin_comm (getLuminance (hexToRgb hex1))).
    reflexivity.
  - apply ratio_bounds.
  - intros E.
    assert (Hr : ratio (calculateContrastRatio hex1 hex2 options) = 1%R).
    { rewrite ratio_unfold, E.
      unfold Rmax, Rmin. destruct (Rle_dec _ _); [|elim n; apply Rle_refl].
      pose proof (getLuminance_bounds hex2). field. lra. }
    split; [exact Hr|].
    revert Hr. unfold calculateContrastRatio.
    destruct (reportAAA options); cbn [ratio passesAA passesAAA]; intros ->;
      (split; [|f_equal]);
      apply Rleb_false_iff;
      destruct (largeText options), (nonText options); cbn [orb]; lra.
Qed.

Lemma contrast_ratio_symmetric_witness :
  ratio (calculateContrastRatio "#FFFFFF" "#ffffff"
           {| largeText := false; nonText := false; reportAAA := true |}) = 1%R.
Proof.
  apply (proj2 (proj2 (contrast_ratio_symmetric "#FFFFFF" "#ffffff"
           {| largeText := false; nonText := false; reportAAA := true |}))).
  reflexivity.
Defined.

(** X5: AAA is stricter than AA.  Whenever AAA is reported, the AAA
    threshold is at least the AA threshold, so a pair of colours that
    passes AAA passes AA; and a pair that passes AA at the normal-text
    threshold passes it for large text and for non-text elements too. *)
Theorem contrast_AAA_implies_AA (hex1 hex2 : string) (options : ContrastOptions) :
  (forall required : R,
      requiredAAA (calculateContrastRatio hex1 hex2 options) = Some required ->
      (requiredAA (calculateContrastRatio hex1 hex2 options) <= required)%R)
  /\ (passesAAA (calculateContrastRatio hex1 hex2 options) = Some true ->
      passesAA (calculateContrastRatio hex1 hex2 options) = true)
  /\ (passesAA (calculateContrastRatio hex1 hex2
                  {| largeText := false; nonText := false;
                     reportAAA := reportAAA options |}) = true ->
      passesAA (calculateContrastRatio hex1 hex2 options) = true).
Proof.
  split; [|split].
  - intros required. unfold calculateContrastRatio.
    destruct (reportAAA options); cbn [requiredAAA requiredAA]; [|discriminate].
    intros H. injection H as <-.
    destruct (largeText options), (nonText options); cbn [orb]; lra.
  - unfold calculateContrastRatio.
    destruct (reportAAA options); cbn [passesAAA passesAA]; [|discriminate].
    intros H. injection H as H. apply Rleb_true_iff in H. apply Rleb_true_iff.
    destruct (largeText options), (nonText options); cbn [orb] in *; lra.
  - unfold calculateContrastRatio.
    destruct (reportAAA options); cbn [passesAA largeText nonText orb];
      intros H; apply Rleb_true_iff in H; apply Rleb_true_iff;
      destruct (largeText options), (nonText options); cbn [orb]; lra.
Qed.

Lemma contrast_AAA_implies_AA_witness :
  passesAA (calculateContrastRatio "#000000" "#FFFFFF"
              {| largeText := false; nonText := false; reportAAA := true |}) = true.
Proof.
  apply (proj1 (proj2 (contrast_AAA_implies_AA "#000000" "#FFFFFF"
           {| largeText := false; nonText := false; reportAAA := true |}))).
  unfold calculateContrastRatio. cbn [reportAAA largeText passesAAA].
  f_equal. apply Rleb_true_iff.
  change (7.0 <= ratio (calculateContrastRatio "#000000" "#FFFFFF"
                          {| largeText := false; nonText := false; reportAAA := false |}))%R.
  rewrite ratio_black_on_white. lra.
Defined.
(** *** Relative luminance *)

(** The linear branch of [toLinear] is taken exactly up to channel value
    10. *)
Lemma toLinear_branch (value : Z) :
  Rleb (IZR value / 255) 0.03928 = true <-> value <= 10.
Proof.
  rewrite Rleb_true_iff. split.
  - intros H. destruct (Z_le_gt_dec value 10) as [Hle | Hgt]; [exact Hle|].
    assert (H11 : 11 <= value) by lia. apply IZR_le in H11. lra.
  - intros H. apply IZR_le in H. lra.
Qed.

(** At the first channel value of the power branch the power already
    exceeds the last value of the linear branch. *)
Lemma toLinear_10_11 : (toLinear 10 <= toLinear 11)%R.
Proof.
  unfold toLinear.
  destruct (Rleb (IZR 10 / 255) 0.03928) eqn:E10;
    [|apply Rleb_false_iff in E10; lra].
  destruct (Rleb (IZR 11 / 255) 0.03928) eqn:E11;
    [apply Rleb_true_iff in E11; lra|].
  set (x := ((IZR 11 / 255 + 0.055) / 1.055)%R).
  set (c := (IZR 10 / 255 / 12.92)%R).
  assert (Hx : (0 < x)%R) by (unfold x; lra).
  assert (Hc : (0 < c)%R) by (unfold c; lra).
  destruct (Rle_dec c (Rpower x 2.4)) as [Hok | Hno]; [exact Hok|].
  exfalso. apply Rnot_le_lt in Hno.
  assert (Hp : (0 < Rpower x 2.4)%R) by (unfold Rpower; apply exp_pos).
  assert (H5 : (Rpower x 2.4 ^ 5 <= c ^ 5)%R).
  { apply pow_incr. lra. }
  assert (E : (Rpower x 2.4 ^ 5 = x ^ 12)%R).
  { rewrite <- (Rpower_pow 5 (Rpower x 2.4)) by exact Hp.
    rewrite Rpower_mult.
    replace (2.4 * INR 5)%R with (INR 12) by (cbn; lra).
    apply Rpower_pow. exact Hx. }
  rewrite E in H5. unfold x, c in H5.
  lra.
Qed.

Lemma toLinear_monotone (v w : Z) : v <= w -> (toLinear v <= toLinear w)%R.
Proof.
  intros Hvw.
  assert (Hlin : forall a b : Z, a <= b -> b <= 10 -> (toLinear a <= toLinear b)%R).
  { intros a b Hab Hb. unfold toLinear.
    rewrite (proj2 (toLinear_branch a)) by lia.
    rewrite (proj2 (toLinear_branch b)) by lia.
    apply IZR_le in Hab. lra. }
  assert (Hpow : forall a b : Z, 11 <= a -> a <= b -> (toLinear a <= toLinear b)%R).
  { intros a b Ha Hab. unfold toLinear.
    destruct (Rleb (IZR a / 255) 0.03928) eqn:Ea;
      [apply toLinear_branch in Ea; lia|].
    destruct (Rleb (IZR b / 255) 0.03928) eqn:Eb;
      [apply toLinear_branch in Eb; lia|].
    apply IZR_le in Ha, Hab.
    apply Rle_Rpower_l; [lra|]. split; lra. }
  destruct (Z_le_gt_dec w 10) as [Hw | Hw]; [now apply Hlin|].
  destruct (Z_le_gt_dec v 10) as [Hv | Hv]; [|apply Hpow; lia].
  apply Rle_trans with (toLinear 10); [apply Hlin; lia|].
  apply Rle_trans with (toLinear 11); [exact toLinear_10_11 | apply Hpow; lia].
Qed.

(** X6: the relative luminance lies between 0 and 1 and grows with every
    channel: a colour that is at least as light as another in red, green
    and blue has at least its luminance, across the switch from the linear
    to the power branch of the transfer function. *)
Theorem getRelativeLuminance_monotone (hex1 hex2 : string) :
  (0 <= getRelativeLuminance hex1 <= 1)%R
  /\ (r (hexToRgb hex1) <= r (hexToRgb hex2) ->
      g (hexToRgb hex1) <= g (hexToRgb hex2) ->
      b (hexToRgb hex1) <= b (hexToRgb hex2) ->
      (getRelativeLuminance hex1 <= getRelativeLuminance hex2)%R).
Proof.
  split; [apply getLuminance_bounds|].
  intros Hr Hg Hb. unfold getRelativeLuminance, getLuminance.
  apply toLinear_monotone in Hr, Hg, Hb. lra.
Qed.

Lemma getRelativeLuminance_monotone_witness :
  (getRelativeLuminance "#0A0A0A" <= getRelativeLuminance "#0B0B0B")%R.
Proof.
  apply (proj2 (getRelativeLuminance_monotone "#0A0A0A" "#0B0B0B"));
    vm_compute; discriminate.
Defined.
(** ** brandConfig.ts *)

(** *** [isFontAllowed] *)

Lemma fontMatches_false_iff (normalized : string) (fonts : list string) :
  fontMatches normalized fonts = false <->
  forall allowed, In allowed fonts ->
    JS.toLowerCase (JS.trim allowed) <> "" ->
    familyMatches normalized (JS.toLowerCase (JS.trim allowed)) = false.
Proof.
  induction fonts as [|a rest IH]; cbn [fontMatches].
  - split; [intros _ allowed [] | reflexivity].
  - assert (Hn : normalizeFontName (Some a)
                 = if JS.truthy (Some a) then Some (JS.toLowerCase (JS.trim a)) else None)
      by reflexivity.
    rewrite Hn. clear Hn.
    destruct a as [|c a'].
    + cbn [JS.truthy]. rewrite IH. split.
      * intros H allowed [<- | Hin] Hnb; [now elim Hnb | now apply H].
      * intros H allowed Hin. apply H. now right.
    + cbn [JS.truthy].
      destruct (JS.toLowerCase (JS.trim (String c a'))) as [|d an] eqn:Ean.
      * rewrite IH. split.
        -- intros H allowed [<- | Hin] Hnb; [rewrite Ean in Hnb; now elim Hnb | now apply H].
        -- intros H allowed Hin. apply H. now right.
      * split.
        -- intros H allowed [<- | Hin] Hnb.
           ++ rewrite Ean. unfold familyMatches.
              destruct (String.eqb normalized (String d an)); [discriminate H|].
              destruct (_ || _ || _); [discriminate H | reflexivity].
           ++ destruct (String.eqb normalized (String d an)); [discriminate H|].
              destruct (_ || _ || _); [discriminate H|].
              now apply (proj1 IH H).
        -- intros H.
           pose proof (H (String c a') (or_introl eq_refl)) as H0.
           rewrite Ean in H0. specialize (H0 ltac:(discriminate)).
           unfold familyMatches in H0.
           destruct (String.eqb normalized (String d an)); [discriminate H0|].
           cbn [orb] in H0. rewrite H0.
           apply IH. intros allowed Hin. apply H. now right.
Qed.

(** X7: [isFontAllowed] rejects a font name exactly when the name is not
    blank and no non-blank allowed font, both trimmed and compared without
    case, equals it or is followed in it by [' '], ['-'] or ['_'].  In
    particular an empty list of allowed fonts rejects every font name that
    is not blank. *)
Theorem isFontAllowed_rejects_iff (fontName : option string) (fonts : list string) :
  (isFontAllowed fontName fonts = false <->
   exists f : string,
     fontName = Some f
     /\ JS.toLowerCase (JS.trim f) <> ""
     /\ forall allowed, In allowed fonts ->
          JS.toLowerCase (JS.trim allowed) <> "" ->
          familyMatches (JS.toLowerCase (JS.trim f)) (JS.toLowerCase (JS.trim allowed))
          = false)
  /\ (forall f, JS.toLowerCase (JS.trim f) <> "" -> isFontAllowed (Some f) [] = false).
Proof.
  assert (Main : forall l,
    isFontAllowed fontName l = false <->
    exists f : string,
      fontName = Some f
      /\ JS.toLowerCase (JS.trim f) <> ""
      /\ forall allowed, In allowed l ->
           JS.toLowerCase (JS.trim allowed) <> "" ->
           familyMatches (JS.toLowerCase (JS.trim f)) (JS.toLowerCase (JS.trim allowed))
           = false).
  { intros l. unfold isFontAllowed.
    destruct fontName as [[|c f']|]; cbn [JS.truthy negb normalizeFontName].
    - split; [discriminate | intros (f & E & Hnb & _); injection E as <-; now elim Hnb].
    - destruct (JS.toLowerCase (JS.trim (String c f'))) as [|d n] eqn:En.
      + split; [discriminate|].
        intros (f & E & Hnb & _). injection E as <-. rewrite En in Hnb. now elim Hnb.
      + rewrite fontMatches_false_iff. split.
        * intros H. exists (String c f'). rewrite En.
          split; [reflexivity|]. split; [discriminate | exact H].
        * intros (f & E & _ & H). injection E as <-. rewrite En in H. exact H.
    - split; [discriminate | intros (f & E & _); discriminate E]. }
  split; [apply Main|].
  intros f Hnb.
  unfold isFontAllowed.
  destruct f as [|c f']; [now elim Hnb|].
  cbn [JS.truthy negb normalizeFontName].
  destruct (JS.toLowerCase (JS.trim (String c f'))); [now elim Hnb | reflexivity].
Qed.

Lemma isFontAllowed_rejects_iff_witness :
  isFontAllowed (Some "Papyrus") [] = false.
Proof.
  apply (proj2 (isFontAllowed_rejects_iff None [])). discriminate.
Defined.

Lemma toLowerCase_trim_upper (s : string) :
  JS.toLowerCase (JS.trim (JS.toUpperCase s)) = JS.toLowerCase (JS.trim s).
Proof.
  unfold JS.toUpperCase.
  rewrite (trim_mapChars JS.upperChar whiteSpace_upperChar).
  apply toLowerCase_toUpperCase.
Qed.

Lemma toLowerCase_trim_lower (s : string) :
  JS.toLowerCase (JS.trim (JS.toLowerCase s)) = JS.toLowerCase (JS.trim s).
Proof.
  unfold JS.toLowerCase.
  rewrite (trim_mapChars JS.lowerChar whiteSpace_lowerChar).
  apply toLowerCase_idem.
Qed.

(** What [isFontAllowed] answers, in terms of the normalised name. *)
Lemma isFontAllowed_unfold (f : string) (fonts : list string) :
  isFontAllowed (Some f) fonts
  = match JS.toLowerCase (JS.trim f) with
    | EmptyString => true
    | normalized => fontMatches normalized fonts
    end.
Proof.
  unfold isFontAllowed. destruct f as [|c f']; [reflexivity|].
  cbn [JS.truthy negb normalizeFontName].
  destruct (JS.toLowerCase (JS.trim (String c f'))); reflexivity.
Qed.

Lemma fontMatches_normalised (g : string -> string) (normalized : string)
      (fonts : list string) :
  (forall a, JS.toLowerCase (JS.trim (g a)) = JS.toLowerCase (JS.trim a)) ->
  fontMatches normalized (map g fonts) = fontMatches normalized fonts.
Proof.
  intros Hg. induction fonts as [|a rest IH]; [reflexivity|].
  cbn [map fontMatches].
  assert (E : normalizeFontName (Some (g a)) = normalizeFontName (Some a)
              \/ (normalizeFontName (Some (g a)) = None \/
                  normalizeFontName (Some (g a)) = Some "")
                 /\ (normalizeFontName (Some a) = None \/
                     normalizeFontName (Some a) = Some "")).
  { pose proof (Hg a) as Ha. unfold normalizeFontName.
    destruct a as [|c2 s2]; destruct (g _) as [|c1 s1]; cbn [JS.truthy].
    - now left.
    - right. split; [|now left]. right. now rewrite Ha.
    - right. split; [now left|]. right. now rewrite <- Ha.
    - left. now rewrite Ha. }
  destruct E as [-> | [[-> | ->] [-> | ->]]]; rewrite IH; reflexivity.
Qed.

(** X8: [isFontAllowed] sees font names only through their normal form:
    changing the letter case of the font name or of the allowed fonts, or
    the white space around them, never changes the answer. *)
Theorem isFontAllowed_normalised (f : string) (fonts : list string) :
  isFontAllowed (Some (JS.toUpperCase f)) fonts = isFontAllowed (Some f) fonts
  /\ isFontAllowed (Some (JS.toLowerCase f)) fonts = isFontAllowed (Some f) fonts
  /\ isFontAllowed (Some (JS.trim f)) fonts = isFontAllowed (Some f) fonts
  /\ isFontAllowed (Some f) (map JS.toUpperCase fonts) = isFontAllowed (Some f) fonts
  /\ isFontAllowed (Some f) (map JS.toLowerCase fonts) = isFontAllowed (Some f) fonts
  /\ isFontAllowed (Some f) (map JS.trim fonts) = isFontAllowed (Some f) fonts.
Proof.
  rewrite !isFontAllowed_unfold.
  rewrite toLowerCase_trim_upper, toLowerCase_trim_lower, trim_idem.
  repeat split; destruct (JS.toLowerCase (JS.trim f)); try reflexivity;
    apply fontMatches_normalised; intros x;
    auto using toLowerCase_trim_upper, toLowerCase_trim_lower.
  now rewrite trim_idem.
Qed.
(** *** [findNearestBrandColor] *)

Lemma canonical_digits (h : string) :
  canonical h ->
  exists c1 c2 c3 c4 c5 c6 v1 v2 v3 v4 v5 v6,
    h = String "#" (String c1 (String c2 (String c3 (String c4
          (String c5 (String c6 ""))))))
    /\ JSNum.hexDigitValue c1 = Some v1 /\ JSNum.hexDigitValue c2 = Some v2
    /\ JSNum.hexDigitValue c3 = Some v3 /\ JSNum.hexDigitValue c4 = Some v4
    /\ JSNum.hexDigitValue c5 = Some v5 /\ JSNum.hexDigitValue c6 = Some v6
    /\ JS.upperChar c1 = c1 /\ JS.upperChar c2 = c2 /\ JS.upperChar c3 = c3
    /\ JS.upperChar c4 = c4 /\ JS.upperChar c5 = c5 /\ JS.upperChar c6 = c6.
Proof.
  intros (d & -> & Hl & Hh & Hup).
  do 6 (destruct d as [|? d]; [discriminate Hl|]).
  destruct d; [|discriminate Hl].
  cbn [JS.allChars] in Hh.
  repeat (apply andb_prop in Hh as [? Hh]).
  unfold JS.toUpperCase in Hup. cbn [JS.mapChars] in Hup.
  injection Hup as U1 U2 U3 U4 U5 U6.
  repeat match goal with
         | H : JS.isHexDigit ?c = true |- _ =>
             apply isHexDigit_value in H; destruct H as [? H]
         end.
  do 12 eexists. split; [reflexivity|].
  repeat (split; [eassumption|]). assumption.
Qed.

Lemma trim_canonical (h : string) : canonical h -> JS.trim h = h.
Proof.
  intros (d & -> & Hl & Hh & _).
  unfold JS.trim. cbn [JS.trimStart]. change (JS.isWhiteSpace "#") with false.
  cbv iota. cbn [JS.trimEnd]. rewrite (trimEnd_hex d Hh).
  destruct d; [discriminate Hl | reflexivity].
Qed.

(** On a canonical colour the reader of [findNearestBrandColor] and
    [hexToRgb] of colors.ts see the same channels. *)
Lemma nearest_hexToRgb_canonical (h : string) :
  canonical h ->
  Nearest.hexToRgb (Some h)
  = Some (JSNum.Int (r (hexToRgb h)), JSNum.Int (g (hexToRgb h)),
          JSNum.Int (b (hexToRgb h))).
Proof.
  intros Hc. pose proof (trim_canonical h Hc) as Htrim.
  destruct (canonical_digits h Hc)
    as (c1 & c2 & c3 & c4 & c5 & c6 & v1 & v2 & v3 & v4 & v5 & v6 & E
        & H1 & H2 & H3 & H4 & H5 & H6 & U1 & U2 & U3 & U4 & U5 & U6).
  subst h. rewrite (hexToRgb_digits c1 c2 c3 c4 c5 c6 v1 v2 v3 v4 v5 v6) by assumption.
  unfold Nearest.hexToRgb, Nearest.normalize. rewrite Htrim.
  cbn [JS.stripLeadingHash String.length Nat.eqb orb JS.slice Nat.sub
       String.substring JS.toUpperCase JS.mapChars].
  rewrite U1, U2, U3, U4, U5, U6.
  cbn [String.substring].
  rewrite (parseInt16_byte c1 c2 v1 v2), (parseInt16_byte c3 c4 v3 v4),
          (parseInt16_byte c5 c6 v5 v6) by assumption.
  reflexivity.
Qed.

(** One turn of the scan on a canonical candidate: the squared distance
    it compares is [colorDistance2]. *)
Lemma scan_cons_canonical (h x : string) (rest : list string)
      (best : option string) (bestDist : JSNum.num) :
  canonical h -> canonical x ->
  Nearest.scan (JSNum.Int (r (hexToRgb h)), JSNum.Int (g (hexToRgb h)),
                JSNum.Int (b (hexToRgb h))) (x :: rest) best bestDist
  = if Nearest.lt (JSNum.Int (colorDistance2 x h)) bestDist
    then Nearest.scan (JSNum.Int (r (hexToRgb h)), JSNum.Int (g (hexToRgb h)),
                       JSNum.Int (b (hexToRgb h))) rest (Some x)
                      (JSNum.Int (colorDistance2 x h))
    else Nearest.scan (JSNum.Int (r (hexToRgb h)), JSNum.Int (g (hexToRgb h)),
                       JSNum.Int (b (hexToRgb h))) rest best bestDist.
Proof.
  intros Hh Hx. cbn [Nearest.scan].
  rewrite (nearest_hexToRgb_canonical x Hx).
  cbn [Nearest.sub Nearest.neg Nearest.add Nearest.mul].
  unfold colorDistance2.
  replace (r (hexToRgb x) + - r (hexToRgb h)) with (r (hexToRgb x) - r (hexToRgb h)) by lia.
  replace (g (hexToRgb x) + - g (hexToRgb h)) with (g (hexToRgb x) - g (hexToRgb h)) by lia.
  replace (b (hexToRgb x) + - b (hexToRgb h)) with (b (hexToRgb x) - b (hexToRgb h)) by lia.
  reflexivity.
Qed.

(** The scan keeps the first candidate of least squared distance. *)
Lemma scan_spec (h : string) (l : list string) :
  canonical h -> Forall canonical l ->
  forall b0 : string,
  exists best,
    Nearest.scan (JSNum.Int (r (hexToRgb h)), JSNum.Int (g (hexToRgb h)),
                  JSNum.Int (b (hexToRgb h))) l (Some b0)
                 (JSNum.Int (colorDistance2 b0 h)) = Some best
    /\ ((best = b0 /\ forall c, In c l -> colorDistance2 b0 h <= colorDistance2 c h)
        \/ exists pre post,
             l = (pre ++ best :: post)%list
             /\ colorDistance2 best h < colorDistance2 b0 h
             /\ (forall c, In c pre -> colorDistance2 best h < colorDistance2 c h)
             /\ (forall c, In c post -> colorDistance2 best h <= colorDistance2 c h)).
Proof.
  intros Hh Hl. induction Hl as [|x rest Hx Hrest IH]; intros b0.
  - exists b0. split; [reflexivity|]. left. split; [reflexivity | intros c []].
  - rewrite scan_cons_canonical by assumption.
    cbn [Nearest.lt].
    destruct (Z.ltb_spec (colorDistance2 x h) (colorDistance2 b0 h)) as [Hlt | Hge].
    + destruct (IH x) as (best & Hscan & [[-> Hmin] | (pre & post & -> & Hb & Hpre & Hpost)]).
      * exists x. split; [exact Hscan|]. right. exists [], rest.
        split; [reflexivity|]. split; [exact Hlt|]. split; [intros c []|exact Hmin].
      * exists best. split; [exact Hscan|]. right. exists (x :: pre), post.
        split; [reflexivity|]. split; [lia|]. split; [|exact Hpost].
        intros c [<- | Hc]; [exact Hb | now apply Hpre].
    + destruct (IH b0) as (best & Hscan & [[-> Hmin] | (pre & post & -> & Hb & Hpre & Hpost)]).
      * exists b0. split; [exact Hscan|]. left. split; [reflexivity|].
        intros c [<- | Hc]; [exact Hge | now apply Hmin].
      * exists best. split; [exact Hscan|]. right. exists (x :: pre), post.
        split; [reflexivity|]. split; [exact Hb|]. split; [|exact Hpost].
        intros c [<- | Hc]; [lia | now apply Hpre].
Qed.

Lemma findNearestBrandColor_spec (kit : BrandKit) (h : string) :
  canonical h ->
  allowedColors kit <> [] ->
  Forall canonical (allowedColors kit) ->
  exists best pre post,
    findNearestBrandColor kit (Some h) = Some best
    /\ allowedColors kit = (pre ++ best :: post)%list
    /\ (forall c, In c pre -> colorDistance2 best h < colorDistance2 c h)
    /\ (forall c, In c post -> colorDistance2 best h <= colorDistance2 c h).
Proof.
  intros Hh Hne Hl. unfold findNearestBrandColor.
  assert (Ht : JS.truthy (Some h) = true) by (destruct Hh as (d & -> & _); reflexivity).
  rewrite Ht. cbn [negb orb].
  destruct (allowedColors kit) as [|x rest] eqn:El; [now elim Hne|].
  cbn [List.length Nat.eqb].
  rewrite (nearest_hexToRgb_canonical h Hh).
  inversion Hl as [|? ? Hx Hrest]; subst.
  rewrite scan_cons_canonical by assumption. cbn [Nearest.lt negb].
  destruct (scan_spec h rest Hh Hrest x)
    as (best & Hscan & [[-> Hmin] | (pre & post & -> & Hb & Hpre & Hpost)]).
  - exists x, [], rest. split; [exact Hscan|]. split; [reflexivity|].
    split; [intros c [] | exact Hmin].
  - exists best, (x :: pre), post. split; [exact Hscan|]. split; [reflexivity|].
    split; [|exact Hpost].
    intros c [<- | Hc]; [exact Hb | now apply Hpre].
Qed.

Lemma colorDistance_le (x y h : string) :
  colorDistance2 x h <= colorDistance2 y h ->
  (colorDistance x h <= colorDistance y h)%R.
Proof.
  intros H. unfold colorDistance. apply sqrt_le_1_alt. now apply IZR_le.
Qed.

Lemma colorDistance_lt (x y h : string) :
  colorDistance2 x h < colorDistance2 y h ->
  (colorDistance x h < colorDistance y h)%R.
Proof.
  intros H. unfold colorDistance.
  apply sqrt_lt_1_alt. split; [apply IZR_le, colorDistance2_nonneg | now apply IZR_lt].
Qed.

(** X9: [findNearestBrandColor] answers [null] for a null or empty input,
    for an empty palette and for an input whose length, once trimmed and
    without its leading ['#'], is not 3, 6 or 8.  For a canonical input
    and a non-empty palette of canonical colours it answers the first
    colour of the palette at the least [colorDistance] from the input:
    every colour before it is strictly farther, every colour after it
    is at least as far. *)
Theorem findNearestBrandColor_nearest (kit : BrandKit) :
  (forall inputHex : option string,
      JS.truthy inputHex = false \/ allowedColors kit = [] ->
      findNearestBrandColor kit inputHex = None)
  /\ (forall h : string,
        let s := JS.stripLeadingHash (JS.trim h) in
        String.length s <> 3%nat -> String.length s <> 6%nat ->
        String.length s <> 8%nat ->
        findNearestBrandColor kit (Some h) = None)
  /\ (forall h : string,
        canonical h ->
        allowedColors kit <> [] ->
        Forall canonical (allowedColors kit) ->
        exists best pre post,
          findNearestBrandColor kit (Some h) = Some best
          /\ allowedColors kit = (pre ++ best :: post)%list
          /\ (forall c, In c pre -> (colorDistance best h < colorDistance c h)%R)
          /\ (forall c, In c post -> (colorDistance best h <= colorDistance c h)%R)).
Proof.
  split; [|split].
  - intros inputHex [H | H]; unfold findNearestBrandColor.
    + now rewrite H.
    + rewrite H. cbn [List.length Nat.eqb]. now rewrite orb_true_r.
  - intros h s H3 H6 H8. unfold findNearestBrandColor.
    destruct (_ || _); [reflexivity|].
    unfold Nearest.hexToRgb, Nearest.normalize.
    destruct h as [|c h']; [reflexivity|].
    fold s.
    destruct (Nat.eqb_spec (String.length s) 3) as [E|_]; [now elim H3|].
    destruct (Nat.eqb_spec (String.length s) 6) as [E|_]; [now elim H6|].
    destruct (Nat.eqb_spec (String.length s) 8) as [E|_]; [now elim H8|].
    reflexivity.
  - intros h Hh Hne Hl.
    destruct (findNearestBrandColor_spec kit h Hh Hne Hl)
      as (best & pre & post & Hres & Hsplit & Hpre & Hpost).
    exists best, pre, post. repeat split; try assumption.
    + intros c Hc. apply colorDistance_lt. now apply Hpre.
    + intros c Hc. apply colorDistance_le. now apply Hpost.
Qed.

Lemma findNearestBrandColor_nearest_witness :
  findNearestBrandColor sampleKit None = None
  /\ findNearestBrandColor sampleKit (Some "#12") = None
  /\ exists best pre post,
       findNearestBrandColor sampleKit (Some "#EEEEEE") = Some best
       /\ allowedColors sampleKit = (pre ++ best :: post)%list
       /\ (forall c, In c pre -> (colorDistance best "#EEEEEE" < colorDistance c "#EEEEEE")%R)
       /\ (forall c, In c post -> (colorDistance best "#EEEEEE" <= colorDistance c "#EEEEEE")%R).
Proof.
  destruct (findNearestBrandColor_nearest sampleKit) as (Hnull & Hlen & Hnear).
  split; [|split].
  - apply Hnull. left. reflexivity.
  - apply Hlen; vm_compute; discriminate.
  - apply Hnear.
    + exists "EEEEEE". repeat split; reflexivity.
    + discriminate.
    + repeat constructor; eexists; repeat split; reflexivity.
Defined.
(** ** ui/components/App.tsx : audit and suggestion *)

(** X10: the health score is a whole number between 0 and 100.  It is 100
    exactly when at most one scanned element in 200 is flagged, so a full
    score does not mean that nothing was flagged; it is 0 only when
    something was scanned and fewer than one element in 200 passes.  The
    scan holds fewer than [2^32] elements, as every array does. *)
Theorem healthScore_range (kit : BrandKit) (results : list ScannedElement) :
  Z.of_nat (List.length results) < 2 ^ 32 ->
  0 <= healthScore kit results <= 100
  /\ (healthScore kit results = 100 <->
      (200 * List.length (badElements kit results) <= List.length results)%nat)
  /\ (healthScore kit results = 0 <->
      (0 < List.length results
       /\ 200 * (List.length results - List.length (badElements kit results))
          < List.length results)%nat).
Proof.
  intros Hlen.
  pose proof (badElements_length kit results) as Hle.
  rewrite healthScore_percentage.
  set (t := List.length results) in *.
  set (v := List.length (badElements kit results)) in *.
  destruct (Z.ltb_spec 0 (Z.of_nat t)) as [Ht | Ht].
  - destruct (percentage_range (Z.of_nat t - Z.of_nat v) (Z.of_nat t))
      as (Hr & H100 & H0); [lia | lia |].
    split; [exact Hr|]. split.
    + rewrite H100. lia.
    + rewrite H0. lia.
  - assert (t = 0%nat) by lia. assert (v = 0%nat) by lia.
    repeat split; intros; lia.
Qed.

Lemma healthScore_range_witness :
  List.length (badElements sampleKit twoHundredElements) = 1%nat
  /\ healthScore sampleKit twoHundredElements = 100.
Proof.
  split; [reflexivity|].
  apply (proj2 (proj1 (proj2 (healthScore_range sampleKit twoHundredElements
                                ltac:(vm_compute; reflexivity))))).
  vm_compute. lia.
Defined.

Lemma hexUpperChar_of_value (c : ascii) (v : Z) :
  JSNum.hexDigitValue c = Some v -> JS.upperChar c = c -> hexUpperChar v = c.
Proof.
  destruct c as [[] [] [] [] [] [] [] []]; cbn; intros H U;
    try discriminate H; try discriminate U; injection H as <-; reflexivity.
Qed.

(** A canonical colour is the one written from the channels [hexToRgb]
    reads in it. *)
Lemma hexOfRgb_hexToRgb (h : string) : canonical h -> hexOfRgb (hexToRgb h) = h.
Proof.
  intros Hc.
  destruct (canonical_digits h Hc)
    as (c1 & c2 & c3 & c4 & c5 & c6 & v1 & v2 & v3 & v4 & v5 & v6 & E
        & H1 & H2 & H3 & H4 & H5 & H6 & U1 & U2 & U3 & U4 & U5 & U6).
  subst h. rewrite (hexToRgb_digits c1 c2 c3 c4 c5 c6 v1 v2 v3 v4 v5 v6) by assumption.
  destruct (hexDigitValue_range c1 v1 H1) as [R1 _].
  destruct (hexDigitValue_range c2 v2 H2) as [R2 _].
  destruct (hexDigitValue_range c3 v3 H3) as [R3 _].
  destruct (hexDigitValue_range c4 v4 H4) as [R4 _].
  destruct (hexDigitValue_range c5 v5 H5) as [R5 _].
  destruct (hexDigitValue_range c6 v6 H6) as [R6 _].
  rewrite hexOfRgb_unfold by (cbn [r g b]; lia). cbn [r g b].
  replace ((16 * v1 + v2) / 16) with v1 by (Z.div_mod_to_equations; lia).
  replace ((16 * v1 + v2) mod 16) with v2 by (Z.div_mod_to_equations; lia).
  replace ((16 * v3 + v4) / 16) with v3 by (Z.div_mod_to_equations; lia).
  replace ((16 * v3 + v4) mod 16) with v4 by (Z.div_mod_to_equations; lia).
  replace ((16 * v5 + v6) / 16) with v5 by (Z.div_mod_to_equations; lia).
  replace ((16 * v5 + v6) mod 16) with v6 by (Z.div_mod_to_equations; lia).
  now rewrite (hexUpperChar_of_value c1 v1), (hexUpperChar_of_value c2 v2),
              (hexUpperChar_of_value c3 v3), (hexUpperChar_of_value c4 v4),
              (hexUpperChar_of_value c5 v5), (hexUpperChar_of_value c6 v6).
Qed.

Lemma hexToRgb_injective (x y : string) :
  canonical x -> canonical y -> hexToRgb x = hexToRgb y -> x = y.
Proof.
  intros Hx Hy E.
  rewrite <- (hexOfRgb_hexToRgb x Hx), <- (hexOfRgb_hexToRgb y Hy). now rewrite E.
Qed.

Lemma isBrandCompliant_In (kit : BrandKit) (h : string) :
  canonical h ->
  Forall canonical (allowedColors kit) ->
  (isBrandCompliant kit h = true <-> In h (allowedColors kit)).
Proof.
  intros Hh Hl. unfold isBrandCompliant. rewrite existsb_exists. split.
  - intros (x & Hin & Hx).
    rewrite Forall_forall in Hl.
    apply (canonical_upper_eqb x h (Hl x Hin) Hh) in Hx. now subst x.
  - intros Hin. exists h. split; [exact Hin | apply String.eqb_refl].
Qed.

(** The nearest allowed colour of an allowed colour is that colour. *)
Lemma nearest_of_allowed (kit : BrandKit) (currentHex : string) :
  Forall canonical (allowedColors kit) ->
  canonical currentHex ->
  In currentHex (allowedColors kit) ->
  orElse (findNearestBrandColor kit (Some currentHex)) (first (allowedColors kit))
  = Some currentHex.
Proof.
  intros Hl Hc Hin.
  assert (Hne : allowedColors kit <> []) by (intros E; rewrite E in Hin; contradiction).
  destruct (findNearestBrandColor_spec kit currentHex Hc Hne Hl)
    as (best & pre & post & Hres & Hsplit & Hpre & Hpost).
  assert (Hbest : best = currentHex).
  { assert (Hb : In best (allowedColors kit))
      by (rewrite Hsplit; apply in_or_app; right; now left).
    assert (Hd : colorDistance2 best currentHex <= colorDistance2 currentHex currentHex).
    { rewrite Hsplit in Hin. apply in_app_or in Hin as [Hin | [<- | Hin]].
      - apply Hpre in Hin. lia.
      - lia.
      - now apply Hpost. }
    assert (H0 : colorDistance2 currentHex currentHex = 0)
      by (now apply colorDistance2_zero).
    pose proof (colorDistance2_nonneg best currentHex) as Hn.
    apply hexToRgb_injective; [|exact Hc|].
    - rewrite Forall_forall in Hl. now apply Hl.
    - apply colorDistance2_zero. lia. }
  subst best.
  rewrite Hres. unfold orElse.
  destruct Hc as (d & -> & _). reflexivity.
Qed.



(** X12: an allowed colour is only ever matched in the form ['#'] and six
    hex digits.  The palette test compares the entries as they are
    written, so an entry [toHex6] does not read (the three-digit
    shorthand [#RGB], which the validator accepts) matches no fill at
    all: with a palette of such entries every element with a readable
    fill is flagged. *)
Theorem shorthand_never_matches (kit : BrandKit) :
  (forall (currentHex : string),
      canonical currentHex ->
      isBrandCompliant kit currentHex = true ->
      exists c, In c (allowedColors kit)
                /\ String.length c = 7%nat
                /\ toHex6 (Some c) = Some currentHex)
  /\ (forall (el : ScannedElement) (currentHex : string),
        (forall c, In c (allowedColors kit) -> toHex6 (Some c) = None) ->
        toHex6 (fillColor el) = Some currentHex ->
        hasSomeViolation kit el = true).
Proof.
  assert (First : forall currentHex : string,
      canonical currentHex ->
      isBrandCompliant kit currentHex = true ->
      exists c, In c (allowedColors kit)
                /\ String.length c = 7%nat
                /\ toHex6 (Some c) = Some currentHex).
  { intros currentHex Hc H. unfold isBrandCompliant in H.
    apply existsb_exists in H as (c & Hin & Hc').
    apply String.eqb_eq in Hc'.
    exists c. split; [exact Hin|]. split; [|now apply toHex6_of_upper_eq].
    assert (L : String.length (JS.toUpperCase c) = String.length (JS.toUpperCase currentHex))
      by now rewrite Hc'.
    unfold JS.toUpperCase in L. rewrite !length_mapChars in L. rewrite L.
    destruct Hc as (d & -> & Hl & _). cbn. now rewrite Hl. }
  split; [exact First|].
  intros el currentHex Hnone Hfill.
  pose proof (toHex6_canonical _ _ Hfill) as Hc.
  assert (Hnot : isBrandCompliant kit currentHex = false).
  { destruct (isBrandCompliant kit currentHex) eqn:E; [|reflexivity].
    destruct (First currentHex Hc E) as (c & Hin & _ & Hparse).
    rewrite (Hnone c Hin) in Hparse. discriminate Hparse. }
  unfold hasSomeViolation.
  assert (Hcc : colorChecks kit el = true).
  { unfold colorChecks.
    rewrite (toHex6_some_truthy _ _ Hfill), Hfill, (canonical_slice7 currentHex Hc), Hnot.
    cbn [negb].
    destruct (JS.truthy (containerFillColor el)); [|reflexivity].
    destruct (toHex6 (containerFillColor el)); [|reflexivity].
    destruct (isContrastCompliant kit el currentHex _); reflexivity. }
  rewrite Hcc. destruct (_ && _); reflexivity.
Qed.

Lemma shorthand_never_matches_witness :
  hasSomeViolation shorthandKit
    {| id := "s2"; type := "Rectangle"; fillColor := Some "#FFFFFF";
       containerFillColor := None; fontName := None; textContent := None |} = true.
Proof.
  apply (proj2 (shorthand_never_matches shorthandKit) _ "#FFFFFF").
  - intros c [<- | []]. reflexivity.
  - reflexivity.
Defined.

Lemma checkedRatio_le_required (kit : BrandKit) (el : ScannedElement) :
  isTextElement el = true \/ (4.5 <= minContrast kit)%R ->
  (checkedRatio kit el <= requiredContrast kit el)%R.
Proof.
  intros H. unfold checkedRatio, requiredContrast.
  assert (HA : isAAA kit = true -> (7 <= minContrast kit)%R).
  { unfold isAAA. intros EA. apply Rleb_true_iff in EA. lra. }
  destruct (isAAA kit); destruct (isTextElement el); try lra;
    destruct H as [H | H]; try discriminate H; try exact H;
    specialize (HA eq_refl); lra.
Qed.

(** ** hooks/useBrandKit.ts : validation *)

Lemma app_eq_nil_l {A : Type} (l1 l2 : list A) : (l1 ++ l2)%list = [] -> l1 = [] /\ l2 = [].
Proof. destruct l1; cbn; [auto | discriminate]. Qed.

(** The validator on an object, stage by stage. *)
Lemma validateBrandKit_parts (kit : value) :
  Val.truthy kit = true -> Val.typeof kit = "object" ->
  exists vn vc vf va,
    Val.get kit "name" = Returns vn
    /\ Val.get kit "allowedColors" = Returns vc
    /\ Val.get kit "allowedFonts" = Returns vf
    /\ Val.get kit "accessibility" = Returns va
    /\ validateBrandKit kit
       = Returns {| valid := (List.length (((nameErrorsOf vn ++ colorErrorsOf vc)
                                             ++ fontErrorsOf vf)
                                            ++ accessibilityErrorsOf va) =? 0)%nat;
                    errors := (((nameErrorsOf vn ++ colorErrorsOf vc) ++ fontErrorsOf vf)
                               ++ accessibilityErrorsOf va)%list |}.
Proof.
  intros Ht Hty.
  destruct (get_object kit "name" Ht Hty) as [vn Hn].
  destruct (get_object kit "allowedColors" Ht Hty) as [vc Hc].
  destruct (get_object kit "allowedFonts" Ht Hty) as [vf Hf].
  destruct (get_object kit "accessibility" Ht Hty) as [va Ha].
  exists vn, vc, vf, va. repeat (split; [assumption|]).
  unfold validateBrandKit. rewrite Ht, Hty, Hn, Hc, Hf, Ha.
  cbn [negb orb String.eqb Ascii.eqb Bool.eqb bind].
  (* name *)
  assert (Hname : exists b,
    (if negb (Val.truthy vn) then Returns true
     else if negb (Val.typeof vn =? "string")%string then Returns true
     else trimmed <- Val.trim vn ;; Returns (String.length trimmed =? 0)%nat)
    = Returns b
    /\ (if b then ([] ++ [{| field := "name";
                             message := "Brand kit must have a non-empty name" |}])%list
        else []) = nameErrorsOf vn).
  { destruct vn as [| |bv|x|s|l|props]; cbn; try (eexists; split; reflexivity).
    - destruct bv; eexists; split; reflexivity.
    - destruct (Req_dec_T x 0); eexists; split; reflexivity.
    - destruct s as [|c s']; [eexists; split; reflexivity|].
      cbn [Val.truthy negb]. eexists. split; [reflexivity|].
      destruct (String.length (JS.trim (String c s')) =? 0)%nat; reflexivity. }
  destruct Hname as (b & -> & HnameE). cbn [bind]. rewrite HnameE.
  set (nameE := nameErrorsOf vn).
  (* colours *)
  assert (Hcolors :
    match vc with
    | VArr [] =>
        Returns (nameE ++ [{| field := "allowedColors";
                              message := "allowedColors must contain at least one color" |}])%list
    | VArr items =>
        st <- forEach validateColor items 0%nat (nameE, []) ;; Returns (fst st)
    | _ =>
        Returns (nameE ++ [{| field := "allowedColors";
                              message := "allowedColors must be an array" |}])%list
    end = Returns (nameE ++ colorErrorsOf vc)%list).
  { destruct vc as [| |bv|x|s|[|c items]|props]; try reflexivity.
    destruct (forEach_validateColor (c :: items) 0%nat []) as (extra & seen' & H & F).
    unfold colorErrorsOf. cbv beta iota. rewrite (H nameE), (H []). reflexivity. }
  rewrite Hcolors. cbn [bind].
  set (errs1 := (nameE ++ colorErrorsOf vc)%list).
  (* fonts *)
  assert (Hfonts :
    match vf with
    | VArr [] =>
        Returns (errs1 ++ [{| field := "allowedFonts";
                              message := "allowedFonts must contain at least one font" |}])%list
    | VArr items =>
        st <- forEach validateFont items 0%nat (errs1, []) ;; Returns (fst st)
    | _ =>
        Returns (errs1 ++ [{| field := "allowedFonts";
                              message := "allowedFonts must be an array" |}])%list
    end = Returns (errs1 ++ fontErrorsOf vf)%list).
  { destruct vf as [| |bv|x|s|[|c items]|props]; try reflexivity.
    destruct (forEach_validateFont (c :: items) 0%nat []) as (extra & seen' & H & F).
    unfold fontErrorsOf. cbv beta iota. rewrite (H errs1), (H []). reflexivity. }
  rewrite Hfonts. cbn [bind].
  set (errs2 := (errs1 ++ fontErrorsOf vf)%list).
  (* accessibility *)
  assert (Hacc :
    (if negb (Val.truthy va) || negb (Val.typeof va =? "object")%string
     then Returns (errs2 ++ [{| field := "accessibility";
                                message := "accessibility must be an object" |}])%list
     else
       minC <- Val.get va "minContrast" ;;
       match minC with
       | VNum x =>
           if Rltb x 0 || Rltb 21 x
           then Returns (errs2 ++ [{| field := "accessibility.minContrast";
                                      message := "minContrast must be between 0 and 21" |}])%list
           else Returns errs2
       | _ =>
           Returns (errs2 ++ [{| field := "accessibility.minContrast";
                                 message := "minContrast must be a number" |}])%list
       end) = Returns (errs2 ++ accessibilityErrorsOf va)%list).
  { destruct va as [| |bv|x|s|l|props]; cbn; try reflexivity.
    - destruct bv; reflexivity.
    - destruct (Req_dec_T x 0); reflexivity.
    - destruct s; reflexivity.
    - destruct (Val.lookup "minContrast" props); try reflexivity.
      destruct (Rltb _ 0 || Rltb 21 _); [reflexivity | now rewrite app_nil_r]. }
  rewrite Hacc. reflexivity.
Qed.

(** A valid colour normalises to a non-empty string. *)
Lemma normalizeHexColor_valid (c : string) :
  isValidHexColor c = true ->
  exists ch k, normalizeHexColor c = Some (String ch k).
Proof.
  intros Hv. unfold normalizeHexColor. rewrite Hv. cbn [negb].
  unfold isValidHexColor in Hv.
  destruct (JS.startsWith (JS.trim c) "#") eqn:Hs; [|discriminate Hv].
  destruct (JS.trim c) as [|c0 t] eqn:Et; [discriminate Hs|].
  unfold JS.toUpperCase. cbn [JS.mapChars JS.substring1].
  destruct (String.length (JS.mapChars JS.upperChar t) =? 3)%nat; eexists _, _; reflexivity.
Qed.

(** The colour callback adds no error exactly on a valid colour that was
    not seen before, which it then records. *)
Lemma validateColor_clean (color : value) (index : nat) (seen seen' : list (string * nat)) :
  validateColor color index ([], seen) = Returns ([], seen') <->
  exists s, color = VStr s
            /\ isValidHexColor (JS.trim s) = true
            /\ OMap.get (colorKey s) seen = None
            /\ seen' = OMap.set (colorKey s) index seen.
Proof.
  split.
  - unfold validateColor.
    destruct color as [| |bv|x|s|l|props]; cbn [Val.typeof Val.trim String.eqb negb bind];
      try discriminate.
    cbn -[isValidHexColor normalizeHexColor JS.trim JS.isHexString JS.startsWith
           String.length Nat.eqb Nat.ltb append].
    destruct (String.length (JS.trim s) =? 0)%nat; [discriminate|].
    destruct (isValidHexColor (JS.trim s)) eqn:Hv.
    + cbn [negb]. unfold colorKey.
      destruct (normalizeHexColor_valid _ Hv) as (ch & k & E). rewrite E.
      destruct (OMap.get (String ch k) seen) eqn:Hg; [discriminate|].
      intros H. injection H as <-. exists s. rewrite E. auto.
    + cbn [negb].
      repeat match goal with
             | |- context [if ?c then _ else _] => destruct c
             end; discriminate.
  - intros (s & -> & Hv & Hg & ->). unfold validateColor.
    cbn -[isValidHexColor normalizeHexColor JS.trim JS.isHexString JS.startsWith
           String.length Nat.eqb Nat.ltb append].
    assert (Hlen : (String.length (JS.trim s) =? 0)%nat = false).
    { destruct (JS.trim s); [discriminate Hv | reflexivity]. }
    rewrite Hlen, Hv. cbn [negb]. unfold colorKey in *.
    destruct (normalizeHexColor_valid _ Hv) as (ch & k & E). rewrite E in *.
    now rewrite Hg.
Qed.

Lemma forEach_color_clean (items : list value) :
  forall (index : nat) (seen : list (string * nat)),
    (exists seen', forEach validateColor items index ([], seen) = Returns ([], seen')) <->
    exists strs : list string,
      items = map VStr strs
      /\ Forall (fun s => isValidHexColor (JS.trim s) = true) strs
      /\ NoDup (map colorKey strs)
      /\ forall s, In s strs -> OMap.get (colorKey s) seen = None.
Proof.
  induction items as [|c items IH]; intros index seen; cbn [forEach].
  - split.
    + intros _. exists []. repeat split; [constructor | constructor | intros s []].
    + intros _. now exists seen.
  - destruct (validateColor_returns c index [] seen) as (e1 & seen1 & H1 & _).
    destruct (forEach_validateColor items (S index) seen1) as (e2 & seen2 & H2 & _).
    rewrite (H1 []). cbn [bind app]. rewrite (H2 e1).
    split.
    + intros (seen' & H). injection H as Hnil Hs.
      apply app_eq_nil_l in Hnil as [-> ->].
      assert (Hc : validateColor c index ([], seen) = Returns ([], seen1))
        by (now rewrite (H1 [])).
      apply validateColor_clean in Hc as (s & -> & Hv & Hg & ->).
      assert (Hrest : exists seen', forEach validateColor items (S index)
                        ([], OMap.set (colorKey s) index seen) = Returns ([], seen')).
      { exists seen2. exact (H2 []). }
      apply IH in Hrest as (strs & -> & Hvs & Hnd & Hfresh).
      exists (s :: strs). split; [reflexivity|].
      split; [now constructor|]. split.
      * cbn [map]. constructor; [|exact Hnd].
        intros Hin. apply in_map_iff in Hin as (s' & Hk & Hin).
        specialize (Hfresh s' Hin). rewrite Hk in Hfresh.
        now rewrite OMap_get_set_same in Hfresh.
      * intros s' [<- | Hin]; [exact Hg|].
        specialize (Hfresh s' Hin).
        destruct (String.eqb_spec (colorKey s) (colorKey s')) as [E | N].
        -- rewrite <- E in Hfresh. now rewrite OMap_get_set_same in Hfresh.
        -- now rewrite OMap_get_set_other in Hfresh by (intros E; apply N; now symmetry).
    + intros (strs & Hmap & Hvs & Hnd & Hfresh).
      destruct strs as [|s strs]; [discriminate Hmap|].
      cbn [map] in Hmap. injection Hmap as -> ->.
      inversion Hvs as [|? ? Hv Hvs']; subst.
      cbn [map] in Hnd. inversion Hnd as [|? ? Hnotin Hnd']; subst.
      assert (Hc : validateColor (VStr s) index ([], seen)
                   = Returns ([], OMap.set (colorKey s) index seen)).
      { apply validateColor_clean. exists s. repeat split; trivial.
        apply Hfresh. now left. }
      rewrite (H1 []) in Hc. injection Hc as -> ->.
      assert (Hrest : exists seen', forEach validateColor (map VStr strs) (S index)
                        ([], OMap.set (colorKey s) index seen) = Returns ([], seen')).
      { apply IH. exists strs. repeat split; trivial.
        intros s' Hin.
        rewrite OMap_get_set_other.
        - apply Hfresh. now right.
        - intros E. apply Hnotin. rewrite <- E. now apply in_map. }
      destruct Hrest as (seen' & Hrest).
      assert (E2 : Returns (e2, seen2) = Returns (@nil ValidationError, seen'))
        by (etransitivity; [symmetry; exact (H2 []) | exact Hrest]).
      injection E2 as -> _. now exists seen2.
Qed.

Lemma colorErrorsOf_nil_iff (colors : value) :
  colorErrorsOf colors = [] <-> exists items, colors = VArr items /\ goodColors items.
Proof.
  split.
  - destruct colors as [| |bv|x|s|[|c items]|props]; cbn [colorErrorsOf]; try discriminate.
    destruct (forEach_validateColor (c :: items) 0%nat []) as (extra & seen' & H & _).
    intros Hnil. cbv beta iota in Hnil. rewrite (H []) in Hnil. cbn [fst app] in Hnil. subst extra.
    assert (Hclean : exists seen', forEach validateColor (c :: items) 0%nat ([], [])
                       = Returns ([], seen')) by (exists seen'; apply (H [])).
    apply forEach_color_clean in Hclean as (strs & Hmap & Hvs & Hnd & _).
    exists (c :: items). split; [reflexivity|].
    exists strs. repeat split; trivial.
    intros ->. discriminate Hmap.
  - intros (items & -> & strs & -> & Hne & Hvs & Hnd).
    destruct strs as [|s strs]; [now elim Hne|].
    assert (Hclean : exists seen', forEach validateColor (map VStr (s :: strs)) 0%nat ([], [])
                       = Returns ([], seen')).
    { apply forEach_color_clean. exists (s :: strs). repeat split; trivial. }
    destruct Hclean as (seen' & Hclean).
    cbn [map] in *. unfold colorErrorsOf. cbv beta iota. now rewrite Hclean.
Qed.

(** The font callback adds no error exactly on an available font that was
    not seen before, which it then records. *)
Lemma validateFont_clean (font : value) (index : nat) (seen seen' : list string) :
  validateFont font index ([], seen) = Returns ([], seen') <->
  exists s, font = VStr s
            /\ In (fontKey s) KNOWN_AVAILABLE_FONTS
            /\ ~ In (fontKey s) seen
            /\ seen' = (seen ++ [fontKey s])%list.
Proof.
  assert (Hex : forall (k : string) (l : list string),
             existsb (String.eqb k) l = true <-> In k l).
  { intros k l. rewrite existsb_exists. split.
    - intros (y & Hin & E). apply String.eqb_eq in E. now subst.
    - intros Hin. exists k. split; [exact Hin | apply String.eqb_refl]. }
  assert (Hblank : forall s, JS.trim s = "" -> ~ In (fontKey s) KNOWN_AVAILABLE_FONTS).
  { intros s E. unfold fontKey, normalizeFontNameForValidation. rewrite E.
    cbv. intros H. repeat (destruct H as [H | H]; [discriminate H|]). exact H. }
  split.
  - unfold validateFont.
    destruct font as [| |bv|x|s|l|props]; cbn [Val.typeof Val.trim String.eqb negb bind];
      try discriminate.
    cbn -[normalizeFontNameForValidation KNOWN_AVAILABLE_FONTS JS.trim existsb
           String.length Nat.eqb append notAvailableMessage].
    destruct (String.length (JS.trim s) =? 0)%nat; [discriminate|].
    fold (fontKey s).
    destruct (existsb (String.eqb (fontKey s)) seen) eqn:Eseen; [discriminate|].
    destruct (existsb (String.eqb (fontKey s)) KNOWN_AVAILABLE_FONTS) eqn:Ek;
      cbn [negb]; [|discriminate].
    intros H. injection H as <-. exists s. split; [reflexivity|].
    split; [now apply Hex|]. split; [|reflexivity].
    intros Hin. apply Hex in Hin. congruence.
  - intros (s & -> & Hk & Hns & ->). unfold validateFont.
    cbn -[normalizeFontNameForValidation KNOWN_AVAILABLE_FONTS JS.trim existsb
           String.length Nat.eqb append notAvailableMessage].
    assert (Hlen : (String.length (JS.trim s) =? 0)%nat = false).
    { destruct (JS.trim s) eqn:E; [|reflexivity]. now elim (Hblank s E). }
    rewrite Hlen. fold (fontKey s).
    assert (Eseen : existsb (String.eqb (fontKey s)) seen = false).
    { destruct (existsb _ seen) eqn:E; [|reflexivity]. apply Hex in E. contradiction. }
    rewrite Eseen. rewrite (proj2 (Hex _ _) Hk). reflexivity.
Qed.

Lemma forEach_font_clean (items : list value) :
  forall (index : nat) (seen : list string),
    (exists seen', forEach validateFont items index ([], seen) = Returns ([], seen')) <->
    exists strs : list string,
      items = map VStr strs
      /\ Forall (fun s => In (fontKey s) KNOWN_AVAILABLE_FONTS) strs
      /\ NoDup (map fontKey strs)
      /\ forall s, In s strs -> ~ In (fontKey s) seen.
Proof.
  induction items as [|c items IH]; intros index seen; cbn [forEach].
  - split.
    + intros _. exists []. repeat split; [constructor | constructor | intros s []].
    + intros _. now exists seen.
  - destruct (validateFont_returns c index [] seen) as (e1 & seen1 & H1 & _).
    destruct (forEach_validateFont items (S index) seen1) as (e2 & seen2 & H2 & _).
    rewrite (H1 []). cbn [bind app]. rewrite (H2 e1).
    split.
    + intros (seen' & H). injection H as Hnil Hs.
      apply app_eq_nil_l in Hnil as [-> ->].
      assert (Hc : validateFont c index ([], seen) = Returns ([], seen1))
        by (now rewrite (H1 [])).
      apply validateFont_clean in Hc as (s & -> & Hk & Hns & ->).
      assert (Hrest : exists seen', forEach validateFont items (S index)
                        ([], (seen ++ [fontKey s])%list) = Returns ([], seen')).
      { exists seen2. exact (H2 []). }
      apply IH in Hrest as (strs & -> & Hvs & Hnd & Hfresh).
      exists (s :: strs). split; [reflexivity|].
      split; [now constructor|]. split.
      * cbn [map]. constructor; [|exact Hnd].
        intros Hin. apply in_map_iff in Hin as (s' & Hk' & Hin).
        apply (Hfresh s' Hin). rewrite Hk'. apply in_or_app. right. now left.
      * intros s' [<- | Hin]; [exact Hns|].
        intros Hs'. apply (Hfresh s' Hin). apply in_or_app. now left.
    + intros (strs & Hmap & Hvs & Hnd & Hfresh).
      destruct strs as [|s strs]; [discriminate Hmap|].
      cbn [map] in Hmap. injection Hmap as -> ->.
      inversion Hvs as [|? ? Hv Hvs']; subst.
      cbn [map] in Hnd. inversion Hnd as [|? ? Hnotin Hnd']; subst.
      assert (Hc : validateFont (VStr s) index ([], seen)
                   = Returns ([], (seen ++ [fontKey s])%list)).
      { apply validateFont_clean. exists s. repeat split; trivial.
        apply Hfresh. now left. }
      rewrite (H1 []) in Hc. injection Hc as -> ->.
      assert (Hrest : exists seen', forEach validateFont (map VStr strs) (S index)
                        ([], (seen ++ [fontKey s])%list) = Returns ([], seen')).
      { apply IH. exists strs. repeat split; trivial.
        intros s' Hin Hs'. apply in_app_or in Hs' as [Hs' | [E | []]].
        - apply (Hfresh s' (or_intror Hin) Hs').
        - apply Hnotin. rewrite E. now apply in_map. }
      destruct Hrest as (seen' & Hrest).
      assert (E2 : Returns (e2, seen2) = Returns (@nil ValidationError, seen'))
        by (etransitivity; [symmetry; exact (H2 []) | exact Hrest]).
      injection E2 as -> _. now exists seen2.
Qed.

Lemma fontErrorsOf_nil_iff (fonts : value) :
  fontErrorsOf fonts = [] <-> exists items, fonts = VArr items /\ goodFonts items.
Proof.
  split.
  - destruct fonts as [| |bv|x|s|[|c items]|props]; cbn [fontErrorsOf]; try discriminate.
    destruct (forEach_validateFont (c :: items) 0%nat []) as (extra & seen' & H & _).
    intros Hnil. cbv beta iota in Hnil. rewrite (H []) in Hnil. cbn [fst app] in Hnil. subst extra.
    assert (Hclean : exists seen', forEach validateFont (c :: items) 0%nat ([], [])
                       = Returns ([], seen')) by (exists seen'; apply (H [])).
    apply forEach_font_clean in Hclean as (strs & Hmap & Hvs & Hnd & _).
    exists (c :: items). split; [reflexivity|].
    exists strs. repeat split; trivial.
    intros ->. discriminate Hmap.
  - intros (items & -> & strs & -> & Hne & Hvs & Hnd).
    destruct strs as [|s strs]; [now elim Hne|].
    assert (Hclean : exists seen', forEach validateFont (map VStr (s :: strs)) 0%nat ([], [])
                       = Returns ([], seen')).
    { apply forEach_font_clean. exists (s :: strs). repeat split; trivial.
      intros s' _ []. }
    destruct Hclean as (seen' & Hclean).
    cbn [map] in *. unfold fontErrorsOf. cbv beta iota. now rewrite Hclean.
Qed.

Lemma nameErrorsOf_nil_iff (kitName : value) :
  nameErrorsOf kitName = [] <-> exists s, kitName = VStr s /\ JS.trim s <> "".
Proof.
  split.
  - destruct kitName as [| |bv|x|s|l|props]; cbn [nameErrorsOf]; try discriminate.
    destruct (JS.trim s) eqn:E; [discriminate|]. intros _. exists s. rewrite E.
    split; [reflexivity | discriminate].
  - intros (s & -> & H). cbn [nameErrorsOf].
    destruct (JS.trim s); [now elim H | reflexivity].
Qed.

Lemma accessibilityErrorsOf_nil_iff (accessibility : value) :
  accessibilityErrorsOf accessibility = [] <->
  exists accProps x,
    accessibility = VObj accProps
    /\ Val.lookup "minContrast" accProps = VNum x
    /\ (0 <= x <= 21)%R.
Proof.
  split.
  - destruct accessibility as [| |bv|x|s|l|props]; cbn [accessibilityErrorsOf];
      try discriminate.
    destruct (Val.lookup "minContrast" props) as [| |bv|x|s|l|props'] eqn:E; try discriminate.
    destruct (Rltb x 0) eqn:E0; [discriminate|].
    destruct (Rltb 21 x) eqn:E21; [discriminate|].
    intros _. exists props, x. apply Rltb_false_iff in E0, E21. repeat split; trivial.
  - intros (accProps & x & -> & E & H0 & H21). cbn [accessibilityErrorsOf]. rewrite E.
    rewrite (proj2 (Rltb_false_iff x 0)), (proj2 (Rltb_false_iff 21 x)) by lra.
    reflexivity.
Qed.

(** The verdict of the validator: it always returns, [valid] says that no
    error is reported, and that the kit is well formed. *)
Lemma validateBrandKit_verdict (kit : value) :
  exists res,
    validateBrandKit kit = Returns res
    /\ (valid res = true <-> errors res = [])
    /\ (valid res = true <-> wellFormedKit kit).
Proof.
  destruct (Val.truthy kit) eqn:Ht;
    [destruct (String.eqb_spec (Val.typeof kit) "object") as [Hty | Hty]|].
  - destruct (validateBrandKit_parts kit Ht Hty)
      as (vn & vc & vf & va & Hn & Hc & Hf & Ha & Hres).
    eexists. split; [exact Hres|]. cbn [valid errors].
    assert (Hlen : forall l : list ValidationError, (List.length l =? 0)%nat = true <-> l = []).
    { intros [|e l]; cbn; split; congruence. }
    split; [apply Hlen|]. rewrite Hlen. split.
    + intros H.
      apply app_eq_nil_l in H as [H Hacc]. apply app_eq_nil_l in H as [H Hfont].
      apply app_eq_nil_l in H as [Hname Hcol].
      apply nameErrorsOf_nil_iff in Hname as (kitName & -> & Hnb).
      apply colorErrorsOf_nil_iff in Hcol as (colors & -> & Hgc).
      apply fontErrorsOf_nil_iff in Hfont as (fonts & -> & Hgf).
      apply accessibilityErrorsOf_nil_iff in Hacc as (accProps & x & -> & Hm & Hx).
      destruct kit as [| |bv|y|s|l|props]; try discriminate Hty; try discriminate Ht;
        cbn [Val.get] in *; try discriminate Hn.
      injection Hn as Hn. injection Hc as Hc. injection Hf as Hf. injection Ha as Ha.
      exists props, kitName, colors, fonts, accProps, x. repeat split; trivial; apply Hx.
    + intros (props & kitName & colors & fonts & accProps & x & -> & Hn' & Hnb & Hc' & Hgc
              & Hf' & Hgf & Ha' & Hm & Hx).
      cbn [Val.get] in *.
      injection Hn as <-. injection Hc as <-. injection Hf as <-. injection Ha as <-.
      rewrite Hn', Hc', Hf', Ha'.
      rewrite (proj2 (nameErrorsOf_nil_iff _)) by (exists kitName; auto).
      rewrite (proj2 (colorErrorsOf_nil_iff _)) by (exists colors; auto).
      rewrite (proj2 (fontErrorsOf_nil_iff _)) by (exists fonts; auto).
      rewrite (proj2 (accessibilityErrorsOf_nil_iff _)) by (exists accProps, x; auto).
      reflexivity.
  - exists {| valid := false; errors := [rootError] |}.
    split; [|split].
    + unfold validateBrandKit. rewrite Ht.
      apply String.eqb_neq in Hty. rewrite Hty. reflexivity.
    + cbn. split; discriminate.
    + cbn [valid]. split; [discriminate|].
      intros (props & ? & ? & ? & ? & ? & -> & _). now elim Hty.
  - exists {| valid := false; errors := [rootError] |}.
    split; [|split].
    + unfold validateBrandKit. now rewrite Ht.
    + cbn. split; discriminate.
    + cbn [valid]. split; [discriminate|].
      intros (props & ? & ? & ? & ? & ? & -> & _). discriminate Ht.
Qed.

(** X14: the validator accepts exactly the well-formed kits.  The result
    is [valid] if and only if the input is an object whose [name] is a
    string that is not blank, whose [allowedColors] is a non-empty array of
    strings, each a ['#'] followed by 3 or 6 hex digits once trimmed, no
    two equal once normalised, whose [allowedFonts] is a non-empty array
    of strings, each one of the available fonts once trimmed and compared
    without case, no two equal, and whose [accessibility] is an object
    with a numeric [minContrast] between 0 and 21; and [valid] holds
    exactly when no error is reported. *)
Theorem validateBrandKit_valid_iff (kit : value) :
  exists res,
    validateBrandKit kit = Returns res
    /\ (valid res = true <-> errors res = [])
    /\ (valid res = true <-> wellFormedKit kit).
Proof.
  destruct (validateBrandKit_verdict kit) as (res & Hres & Herr & Hwf).
  exists res. split; [exact Hres|]. split.
  - exact Herr.
  - exact Hwf.
Qed.

Lemma acmeKit_wellFormed : wellFormedKit acmeKit.
Proof.
  eexists _, _, _, _, _, _. split; [reflexivity|].
  split; [reflexivity|]. split; [discriminate|].
  split; [reflexivity|]. split.
  - exists ["#fff"; " #232d4b"]. split; [reflexivity|]. split; [discriminate|].
    split; [repeat constructor|].
    cbv. repeat constructor; intros H; repeat (destruct H as [H | H]; [discriminate H|]);
      exact H.
  - split; [reflexivity|]. split.
    + exists ["Georgia "; "arial"]. split; [reflexivity|]. split; [discriminate|].
      split.
      * repeat constructor; cbv; tauto.
      * cbv. repeat constructor; intros H;
          repeat (destruct H as [H | H]; [discriminate H|]); exact H.
    + split; [reflexivity|]. split; [reflexivity | lra].
Qed.

Lemma validateBrandKit_valid_iff_witness :
  exists res, validateBrandKit acmeKit = Returns res /\ valid res = true.
Proof.
  destruct (validateBrandKit_valid_iff acmeKit) as (res & H & _ & Hiff).
  exists res. split; [exact H | apply Hiff, acmeKit_wellFormed].
Defined.
(** ** hooks/useBrandKit.ts : upload and registry *)

Lemma substring1_mapChars (f : ascii -> ascii) (s : string) :
  JS.substring1 (JS.mapChars f s) = JS.mapChars f (JS.substring1 s).
Proof. destruct s; reflexivity. Qed.

Lemma startsWith_hash (c : ascii) (s : string) :
  JS.startsWith (String c s) "#" = Ascii.eqb c "#".
Proof.
  unfold JS.startsWith. cbn [String.prefix].
  destruct (Ascii.ascii_dec "#" c) as [<- | N].
  - destruct s; reflexivity.
  - symmetry. apply Ascii.eqb_neq. intros E. apply N. now symmetry.
Qed.

Lemma startsWith_hash_mapChars (f : ascii -> ascii) (s : string) :
  (forall c, Ascii.eqb (f c) "#" = Ascii.eqb c "#") ->
  JS.startsWith (JS.mapChars f s) "#" = JS.startsWith s "#".
Proof.
  intros Hf. destruct s as [|c s]; [reflexivity|].
  cbn [JS.mapChars]. rewrite !startsWith_hash. apply Hf.
Qed.

Lemma isValidHexColor_upper (c : string) :
  isValidHexColor (JS.toUpperCase c) = isValidHexColor c.
Proof.
  unfold isValidHexColor, JS.toUpperCase.
  rewrite (trim_mapChars JS.upperChar whiteSpace_upperChar).
  rewrite (startsWith_hash_mapChars JS.upperChar _ hash_upperChar).
  rewrite substring1_mapChars, length_mapChars.
  now rewrite (isHexString_mapChars JS.upperChar hexDigit_upperChar).
Qed.

Lemma isValidHexColor_trim (c : string) :
  isValidHexColor (JS.trim c) = isValidHexColor c.
Proof. unfold isValidHexColor. now rewrite trim_idem. Qed.

Lemma normalizeHexColor_upper (c : string) :
  normalizeHexColor (JS.toUpperCase c) = normalizeHexColor c.
Proof.
  unfold normalizeHexColor. rewrite isValidHexColor_upper.
  destruct (isValidHexColor c); [|reflexivity]. cbn [negb].
  unfold JS.toUpperCase at 2 4 6.
  rewrite (trim_mapChars JS.upperChar whiteSpace_upperChar).
  fold (JS.toUpperCase (JS.trim c)). now rewrite toUpperCase_idem.
Qed.

Lemma normalizeHexColor_trim (c : string) :
  normalizeHexColor (JS.trim c) = normalizeHexColor c.
Proof. unfold normalizeHexColor. now rewrite isValidHexColor_trim, trim_idem. Qed.

Lemma colorKey_normalised (s : string) :
  colorKey (JS.toUpperCase (JS.trim s)) = colorKey s.
Proof.
  unfold colorKey.
  now rewrite normalizeHexColor_trim, normalizeHexColor_upper.
Qed.

Lemma fontKey_trim (s : string) : fontKey (JS.trim s) = fontKey s.
Proof. unfold fontKey. now rewrite trim_idem. Qed.

Lemma mapStrings_strings (f : string -> string) (strs : list string) :
  BrandKitManager.mapStrings f (map VStr strs) = Returns (map VStr (map f strs)).
Proof.
  induction strs as [|s strs IH]; [reflexivity|].
  cbn [map BrandKitManager.mapStrings BrandKitManager.asString bind]. now rewrite IH.
Qed.

Lemma map_VStr_inj (l l' : list string) : map VStr l = map VStr l' -> l = l'.
Proof.
  revert l'. induction l as [|s l IH]; intros [|s' l'] H; try discriminate H; [reflexivity|].
  cbn in H. injection H as -> H. f_equal. now apply IH.
Qed.

Lemma goodColors_normalised (strs : list string) :
  goodColors (map VStr strs) ->
  goodColors (map VStr (map (fun c => JS.toUpperCase (JS.trim c)) strs)).
Proof.
  intros (strs' & Hmap & Hne & Hv & Hnd).
  apply map_VStr_inj in Hmap. subst strs'.
  exists (map (fun c => JS.toUpperCase (JS.trim c)) strs).
  split; [reflexivity|]. split; [destruct strs; [now elim Hne | discriminate]|].
  split.
  - apply Forall_map. eapply Forall_impl; [|exact Hv]. intros s Hs. cbv beta.
    now rewrite isValidHexColor_trim, isValidHexColor_upper.
  - rewrite map_map.
    erewrite map_ext; [exact Hnd|]. intros s. apply colorKey_normalised.
Qed.

Lemma goodFonts_normalised (strs : list string) :
  goodFonts (map VStr strs) -> goodFonts (map VStr (map JS.trim strs)).
Proof.
  intros (strs' & Hmap & Hne & Hv & Hnd).
  apply map_VStr_inj in Hmap. subst strs'.
  exists (map JS.trim strs).
  split; [reflexivity|]. split; [destruct strs; [now elim Hne | discriminate]|].
  split.
  - apply Forall_map. eapply Forall_impl; [|exact Hv]. intros s Hs. cbv beta.
    now rewrite fontKey_trim.
  - rewrite map_map.
    erewrite map_ext; [exact Hnd|]. intros s. apply fontKey_trim.
Qed.

Lemma goodColors_strings (items : list value) :
  goodColors items -> exists strs, items = map VStr strs.
Proof. intros (strs & -> & _). now exists strs. Qed.

Lemma goodFonts_strings (items : list value) :
  goodFonts items -> exists strs, items = map VStr strs.
Proof. intros (strs & -> & _). now exists strs. Qed.

(** The kit [uploadBrandKit] stores for a well-formed kit. *)
Lemma normalizedKit_wellFormed (kit : value) :
  wellFormedKit kit ->
  exists (props : list (string * value)) (kitName : string) (colors fonts : list string)
         (x : R) (extended : list (string * value)),
    kit = VObj props
    /\ Val.lookup "name" props = VStr kitName
    /\ Val.lookup "allowedColors" props = VArr (map VStr colors)
    /\ Val.lookup "allowedFonts" props = VArr (map VStr fonts)
    /\ BrandKitManager.normalizedKit kit
       = Returns (VObj ([ ("name", VStr (JS.trim kitName));
                          ("allowedColors",
                           VArr (map VStr (map (fun c => JS.toUpperCase (JS.trim c)) colors)));
                          ("allowedFonts", VArr (map VStr (map JS.trim fonts)));
                          ("accessibility", VObj [("minContrast", VNum x)]) ]
                        ++ extended)%list)
    /\ wellFormedKit (VObj ([ ("name", VStr (JS.trim kitName));
                              ("allowedColors",
                               VArr (map VStr (map (fun c => JS.toUpperCase (JS.trim c)) colors)));
                              ("allowedFonts", VArr (map VStr (map JS.trim fonts)));
                              ("accessibility", VObj [("minContrast", VNum x)]) ]
                            ++ extended)%list).
Proof.
  intros (props & kitName & colors & fonts & accProps & x & -> & Hn & Hnb & Hc & Hgc
          & Hf & Hgf & Ha & Hm & Hx).
  destruct (goodColors_strings colors Hgc) as [cs ->].
  destruct (goodFonts_strings fonts Hgf) as [fs ->].
  unfold BrandKitManager.normalizedKit, BrandKitManager.preserved.
  cbn [Val.get bind]. rewrite Hn, Hc, Hf, Ha.
  cbn [BrandKitManager.asString BrandKitManager.asArray bind Val.get].
  rewrite !mapStrings_strings, Hm. cbn [bind].
  eexists props, kitName, cs, fs, x, _.
  split; [reflexivity|]. do 3 (split; [assumption|]).
  split; [reflexivity|].
  eexists _, (JS.trim kitName), _, _, [("minContrast", VNum x)], x.
  split; [reflexivity|].
  split; [reflexivity|]. split; [now rewrite trim_idem|].
  split; [reflexivity|]. split; [now apply goodColors_normalised|].
  split; [reflexivity|]. split; [now apply goodFonts_normalised|].
  split; [reflexivity|]. split; [reflexivity | exact Hx].
Qed.

Lemma passes_iff (kit : value) :
  BrandKitManager.passes kit = true <-> wellFormedKit kit.
Proof.
  destruct (validateBrandKit_verdict kit) as (res & Hres & _ & Hiff).
  unfold BrandKitManager.passes. rewrite Hres. exact Hiff.
Qed.

Lemma toUpperCase_trim_fixed (s : string) :
  JS.trim (JS.toUpperCase (JS.trim s)) = JS.toUpperCase (JS.trim s).
Proof.
  unfold JS.toUpperCase.
  rewrite (trim_mapChars JS.upperChar whiteSpace_upperChar). now rewrite trim_idem.
Qed.

(** X15: what [uploadBrandKit] stores for a kit that passes validation
    passes validation again, so the loaders will accept it: the name and
    the fonts trimmed, the colours trimmed and in upper case (each still
    a valid hex colour), [minContrast] as it was. *)
Theorem normalizedKit_revalidates (kit : value) :
  wellFormedKit kit ->
  exists (normalized : value) (colors : list string),
    BrandKitManager.normalizedKit kit = Returns normalized
    /\ wellFormedKit normalized
    /\ BrandKitManager.passes normalized = true
    /\ Val.get normalized "allowedColors" = Returns (VArr (map VStr colors))
    /\ Forall (fun c => isValidHexColor c = true
                        /\ JS.toUpperCase c = c
                        /\ JS.trim c = c) colors.
Proof.
  intros Hwf.
  destruct (normalizedKit_wellFormed kit Hwf)
    as (props & kitName & colors & fonts & x & extended & -> & Hn & Hc & Hf & Hnk & Hwf').
  destruct Hwf as (props' & ? & colors' & ? & ? & ? & E & _ & _ & Hc' & Hgc & _).
  injection E as <-. rewrite Hc in Hc'. injection Hc' as <-.
  eexists _, _. split; [exact Hnk|]. split; [exact Hwf'|].
  split; [now apply passes_iff|].
  split; [reflexivity|].
  destruct Hgc as (strs & Hmap & _ & Hv & _).
  apply map_VStr_inj in Hmap. subst strs.
  apply Forall_map. eapply Forall_impl; [|exact Hv]. intros s Hs. cbv beta.
  split; [|split].
  - rewrite isValidHexColor_upper. exact Hs.
  - apply toUpperCase_idem.
  - apply toUpperCase_trim_fixed.
Qed.

Lemma normalizedKit_revalidates_witness :
  exists (normalized : value) (colors : list string),
    BrandKitManager.normalizedKit acmeKit = Returns normalized
    /\ wellFormedKit normalized
    /\ BrandKitManager.passes normalized = true
    /\ Val.get normalized "allowedColors" = Returns (VArr (map VStr colors))
    /\ Forall (fun c => isValidHexColor c = true
                        /\ JS.toUpperCase c = c
                        /\ JS.trim c = c) colors.
Proof. apply normalizedKit_revalidates. exact acmeKit_wellFormed. Defined.

Lemma kitIdAt_truthy (now : N) :
  exists c s, BrandKitManager.kitIdAt now = String c s.
Proof. unfold BrandKitManager.kitIdAt. eexists _, _. reflexivity. Qed.

Lemma getActiveKitId_set (kitId : string) (m : BrandKitManager.Manager) :
  kitId <> "" ->
  BrandKitManager.getActiveKitId (BrandKitManager.setItemActive kitId m) = kitId.
Proof.
  intros H. unfold BrandKitManager.getActiveKitId, BrandKitManager.setItemActive.
  cbn. destruct kitId; [now elim H | reflexivity].
Qed.

Lemma NoDup_snoc {A : Type} (l : list A) (x : A) :
  NoDup (l ++ [x]) <-> NoDup l /\ ~ In x l.
Proof.
  induction l as [|a l IH]; cbn [app].
  - split.
    + intros _. split; [constructor | intros []].
    + intros _. constructor; [intros [] | constructor].
  - split.
    + intros H. inversion H as [|? ? Hn Hd]; subst.
      apply IH in Hd as (Hl & Hx). split.
      * constructor; [|exact Hl]. intros Hin. apply Hn, in_or_app. now left.
      * intros [-> | Hin]; [|now apply Hx].
        apply Hn, in_or_app. right. now left.
    + intros (H & Hx). inversion H as [|? ? Hn Hd]; subst.
      constructor.
      * intros Hin. apply in_app_or in Hin as [Hin | [<- | []]]; [now apply Hn|].
        apply Hx. now left.
      * apply IH. split; [exact Hd|]. intros Hin. apply Hx. now right.
Qed.

(** What [uploadBrandKit] answers and leaves behind, case by case. *)
Lemma uploadBrandKit_cases (kit : value) (now now' : N)
      (writes : BrandKitManager.Writes) (m : BrandKitManager.Manager) :
  exists validation : ValidationResult,
    validateBrandKit kit = Returns validation
    /\ (valid validation = true <-> wellFormedKit kit)
    /\ (valid validation = false -> errors validation <> [])
    /\ (valid validation = false ->
        BrandKitManager.uploadBrandKit kit now now' writes m = Returns (validation, m))
    /\ (valid validation = true ->
        exists (normalized kitName : value),
          BrandKitManager.normalizedKit kit = Returns normalized
          /\ wellFormedKit normalized
          /\ Val.get normalized "name" = Returns kitName
          /\ BrandKitManager.uploadBrandKit kit now now' writes m
             = Returns
                 (let kitId := BrandKitManager.kitIdAt now in
                  let m1 :=
                    if BrandKitManager.registryStored writes
                    then BrandKitManager.saveRegistry
                           (BrandKitManager.getRegistry m
                            ++ [{| BrandKitManager.entryId := kitId;
                                   BrandKitManager.entryName := kitName;
                                   BrandKitManager.createdAt := now';
                                   BrandKitManager.isDefault := false |}])%list m
                    else m in
                  if negb (BrandKitManager.kitStored writes)
                  then (BrandKitManager.storageError, m1)
                  else if negb (BrandKitManager.activeStored writes)
                  then (BrandKitManager.storageError,
                        BrandKitManager.setKit kitId normalized m1)
                  else (validation,
                        BrandKitManager.setCache normalized
                          (BrandKitManager.setItemActive kitId
                             (BrandKitManager.setKit kitId normalized m1))))).
Proof.
  destruct (validateBrandKit_verdict kit) as (validation & Hres & Herr & Hiff).
  exists validation. split; [exact Hres|]. split; [exact Hiff|].
  split; [intros Ev E; apply Herr in E; congruence|].
  unfold BrandKitManager.uploadBrandKit. rewrite Hres. cbn [bind].
  split; intros Ev; rewrite Ev; [reflexivity|].
  pose proof (proj1 Hiff Ev) as Hwf.
  destruct (normalizedKit_wellFormed kit Hwf)
    as (props & kitName & colors & fonts & x & extended & -> & Hn & Hc & Hf & Hnk & Hwf').
  rewrite Hnk. cbn [bind].
  eexists _, _. split; [reflexivity|]. split; [exact Hwf'|]. split; [reflexivity|].
  unfold BrandKitManager.addBrandKit.
  cbn [Val.get Val.lookup String.eqb Ascii.eqb Bool.eqb].
  destruct (BrandKitManager.kitStored writes), (BrandKitManager.activeStored writes);
    reflexivity.
Qed.

Lemma getRegistry_saved (r : list BrandKitManager.BrandKitRegistryEntry)
      (m : BrandKitManager.Manager) :
  BrandKitManager.getRegistry (BrandKitManager.saveRegistry r m) = r.
Proof. reflexivity. Qed.

(** X16: [uploadBrandKit] answers the verdict of the validator and leaves
    the manager as it was for a kit that fails validation.  For a kit that
    passes, the registry gets an entry with the id [kit_<clock reading>]
    after all the others, unless that write fails, which goes unnoticed.
    The id is new only if no entry has it yet: when the clock reading
    repeats, the registry holds the id twice.  The normalised kit is then
    stored under that id, in the place of whatever was stored under it,
    and is what [loadKitById] loads for it; the kits of the other ids and
    the legacy kit stay as they were.  When the kit and the active id are
    both written, the kit becomes the active and the cached kit and the
    answer is the verdict.  When the write of the kit or the write of the
    active id fails, the answer is the single error on [storage], the
    active id and the cached kit are as before, and what was written by
    then stays: the registry entry, and the kit itself when only the
    active id failed. *)
Theorem uploadBrandKit_effect (kit : value) (now now' : N)
        (writes : BrandKitManager.Writes) (m : BrandKitManager.Manager) :
  exists (validation result : ValidationResult) (m' : BrandKitManager.Manager),
    validateBrandKit kit = Returns validation
    /\ BrandKitManager.uploadBrandKit kit now now' writes m = Returns (result, m')
    /\ (valid validation = false -> result = validation /\ m' = m)
    /\ (valid validation = true ->
        exists (normalized kitName : value),
          BrandKitManager.normalizedKit kit = Returns normalized
          /\ Val.get normalized "name" = Returns kitName
          /\ BrandKitManager.getRegistry m'
             = (if BrandKitManager.registryStored writes
                then (BrandKitManager.getRegistry m
                      ++ [{| BrandKitManager.entryId := BrandKitManager.kitIdAt now;
                             BrandKitManager.entryName := kitName;
                             BrandKitManager.createdAt := now';
                             BrandKitManager.isDefault := false |}])%list
                else BrandKitManager.getRegistry m)
          /\ (BrandKitManager.registryStored writes = true ->
              (NoDup (map BrandKitManager.entryId (BrandKitManager.getRegistry m'))
               <-> NoDup (map BrandKitManager.entryId (BrandKitManager.getRegistry m))
                   /\ ~ In (BrandKitManager.kitIdAt now)
                          (map BrandKitManager.entryId (BrandKitManager.getRegistry m))))
          /\ BrandKitManager.legacyKit (BrandKitManager.storage m')
             = BrandKitManager.legacyKit (BrandKitManager.storage m)
          /\ (forall other : string,
                other <> BrandKitManager.kitIdAt now ->
                OMap.get other (BrandKitManager.kits (BrandKitManager.storage m'))
                = OMap.get other (BrandKitManager.kits (BrandKitManager.storage m)))
          /\ (BrandKitManager.kitStored writes = true ->
              BrandKitManager.loadKitById (BrandKitManager.kitIdAt now) m' = Some normalized)
          /\ (BrandKitManager.kitStored writes = false ->
              BrandKitManager.kits (BrandKitManager.storage m')
              = BrandKitManager.kits (BrandKitManager.storage m))
          /\ (BrandKitManager.kitStored writes = true ->
              BrandKitManager.activeStored writes = true ->
              result = validation
              /\ BrandKitManager.getActiveKitId m' = BrandKitManager.kitIdAt now
              /\ BrandKitManager.brandKit m' = normalized)
          /\ (BrandKitManager.kitStored writes = false
              \/ BrandKitManager.activeStored writes = false ->
              result = BrandKitManager.storageError
              /\ BrandKitManager.activeKitId (BrandKitManager.storage m')
                 = BrandKitManager.activeKitId (BrandKitManager.storage m)
              /\ BrandKitManager.brandKit m' = BrandKitManager.brandKit m)).
Proof.
  destruct (uploadBrandKit_cases kit now now' writes m)
    as (validation & Hres & _ & _ & Hrej & Hacc).
  destruct (valid validation) eqn:Ev.
  - destruct (Hacc eq_refl) as (normalized & kitName & Hnk & Hwf & Hname & Hu).
    clear Hrej Hacc.
    destruct writes as [rs ks acs].
    cbn [BrandKitManager.registryStored BrandKitManager.kitStored
         BrandKitManager.activeStored] in *.
    eexists validation, _, _. split; [exact Hres|].
    split; [rewrite Hu; cbv zeta; apply f_equal; apply surjective_pairing|].
    split; [intros E; congruence|]. intros _.
    exists normalized, kitName. split; [exact Hnk|]. split; [exact Hname|].
    assert (Hload : forall m0,
      OMap.get (BrandKitManager.kitIdAt now)
        (BrandKitManager.kits (BrandKitManager.storage m0)) = Some normalized ->
      BrandKitManager.loadKitById (BrandKitManager.kitIdAt now) m0 = Some normalized).
    { intros m0 E. unfold BrandKitManager.loadKitById. rewrite E.
      now rewrite (proj2 (passes_iff _) Hwf). }
    assert (Hact : forall m0,
      BrandKitManager.activeKitId (BrandKitManager.storage m0)
      = Some (BrandKitManager.kitIdAt now) ->
      BrandKitManager.getActiveKitId m0 = BrandKitManager.kitIdAt now).
    { intros m0 E. unfold BrandKitManager.getActiveKitId. rewrite E.
      now destruct (kitIdAt_truthy now) as (c & s & ->). }
    assert (Hsnoc : forall (r : list BrandKitManager.BrandKitRegistryEntry) e,
      NoDup (map BrandKitManager.entryId (r ++ [e]))
      <-> NoDup (map BrandKitManager.entryId r)
          /\ ~ In (BrandKitManager.entryId e) (map BrandKitManager.entryId r)).
    { intros r e. rewrite map_app. apply NoDup_snoc. }
    destruct rs, ks, acs;
      cbn [negb fst snd BrandKitManager.setCache BrandKitManager.setItemActive
           BrandKitManager.setKit BrandKitManager.saveRegistry
           BrandKitManager.storage BrandKitManager.kits BrandKitManager.brandKit
           BrandKitManager.activeKitId BrandKitManager.legacyKit];
      (split; [reflexivity|]);
      (split; [intros E; try discriminate E; apply Hsnoc|]);
      (split; [reflexivity|]);
      (split; [intros other N; first [reflexivity | now apply OMap_get_set_other]|]);
      (split; [intros E; try discriminate E; apply Hload, OMap_get_set_same|]);
      (split; [intros E; try discriminate E; reflexivity|]);
      (split; [intros E1 E2;
               first [discriminate E1 | discriminate E2
                     | split; [reflexivity | split; [now apply Hact | reflexivity]]]|]);
      (intros [E | E]; try discriminate E; repeat split; reflexivity).
  - exists validation, validation, m. split; [exact Hres|].
    split; [now apply Hrej|]. split; [now split | intros E; congruence].
Qed.

Lemma uploadBrandKit_effect_witness :
  exists (result : ValidationResult) (m' : BrandKitManager.Manager),
    BrandKitManager.uploadBrandKit acmeKit 1%N 2%N BrandKitManager.allStored sampleManager
    = Returns (result, m')
    /\ valid result = true
    /\ BrandKitManager.getActiveKitId m' = "kit_1"
    /\ ~ NoDup (map BrandKitManager.entryId (BrandKitManager.getRegistry m')).
Proof.
  destruct (uploadBrandKit_effect acmeKit 1%N 2%N BrandKitManager.allStored sampleManager)
    as (v & r & m' & Hv & Hu & _ & Hacc).
  destruct (validateBrandKit_verdict acmeKit) as (v' & Hv' & _ & Hiff).
  rewrite Hv in Hv'. injection Hv' as <-.
  pose proof (proj2 Hiff acmeKit_wellFormed) as Ev.
  destruct (Hacc Ev) as (n & k & _ & _ & _ & Hdup & _ & _ & _ & _ & Hok & _).
  destruct (Hok eq_refl eq_refl) as (-> & Hact & _).
  exists v, m'. split; [exact Hu|]. split; [exact Ev|]. split; [exact Hact|].
  intros Hnd. apply (Hdup eq_refl) in Hnd as (_ & Hfresh).
  apply Hfresh. right. left. reflexivity.
Defined.

Lemma removeKit_get (kitId k : string) (kits : OMap.t value) :
  OMap.get k (BrandKitManager.removeKit kitId kits)
  = if String.eqb k kitId then None else OMap.get k kits.
Proof.
  unfold BrandKitManager.removeKit.
  induction kits as [|[k0 v0] kits IH]; cbn [filter OMap.get fst].
  - now destruct (String.eqb k kitId).
  - destruct (String.eqb_spec k0 kitId) as [-> | N0]; cbn [negb].
    + rewrite IH. destruct (String.eqb_spec k kitId) as [-> | N]; [reflexivity|].
      destruct (String.eqb_spec kitId k); [congruence | reflexivity].
    + cbn [OMap.get]. rewrite IH.
      destruct (String.eqb_spec k0 k) as [-> | N]; [|reflexivity].
      destruct (String.eqb_spec k kitId); [contradiction | reflexivity].
Qed.



Lemma enterprisePro_wellFormed : wellFormedKit BrandKitManager.enterprisePro.
Proof.
  eexists _, _, _, _, _, _. split; [reflexivity|].
  split; [reflexivity|]. split; [discriminate|].
  split; [reflexivity|]. split.
  - exists ["#232D4B"; "#E57200"; "#FFFFFF"; "#DADADA"; "#EF3F6B"; "#62BB46"].
    split; [reflexivity|]. split; [discriminate|].
    split; [repeat constructor|].
    cbv. repeat constructor; intros H; repeat (destruct H as [H | H]; [discriminate H|]);
      exact H.
  - split; [reflexivity|]. split.
    + exists ["Arial"; "Georgia"]. split; [reflexivity|]. split; [discriminate|].
      split.
      * repeat constructor; cbv; tauto.
      * cbv. repeat constructor; intros H;
          repeat (destruct H as [H | H]; [discriminate H|]); exact H.
    + split; [reflexivity|]. split; [reflexivity | lra].
Qed.

Lemma loadKitById_wellFormed (kitId : string) (m : BrandKitManager.Manager) (kit : value) :
  BrandKitManager.loadKitById kitId m = Some kit -> wellFormedKit kit.
Proof.
  unfold BrandKitManager.loadKitById.
  destruct (OMap.get kitId _) as [parsed|]; [|discriminate].
  destruct (BrandKitManager.passes parsed) eqn:E; [|discriminate].
  intros H. injection H as <-. now apply passes_iff.
Qed.



(** ** ui/utils/brandKitUpload.ts *)

(** X19: an upload is accepted exactly when the file is declared as JSON
    or named [*.json], its text is not empty and parses, the parsed value
    is a well-formed kit, and the storage takes the kit and the active id.
    An upload that is not accepted reports at least one error; it leaves
    the manager as it was, except when a well-formed kit could not be
    stored, where the answer is the single error on [storage].  An
    accepted upload makes the new kit the active one. *)
Theorem handleBrandKitUpload_accepts
        (JSON_parse : string -> outcome value)
        (fileType fileName : string) (read : ReadResult) (now now' : N)
        (writes : BrandKitManager.Writes) (m : BrandKitManager.Manager) :
  let result :=
    fst (handleBrandKitUpload JSON_parse fileType fileName read now now' writes m) in
  let m' :=
    snd (handleBrandKitUpload JSON_parse fileType fileName read now now' writes m) in
  (valid result = true <->
   (fileType = "application/json" \/ JSString.endsWith fileName ".json" = true)
   /\ (exists text kit,
         read = Loaded (Some text)
         /\ text <> ""
         /\ JSON_parse text = Returns kit
         /\ wellFormedKit kit)
   /\ BrandKitManager.kitStored writes = true
   /\ BrandKitManager.activeStored writes = true)
  /\ (valid result = false ->
      errors result <> []
      /\ (m' = m
          \/ (result = BrandKitManager.storageError
              /\ (BrandKitManager.kitStored writes = false
                  \/ BrandKitManager.activeStored writes = false)
              /\ exists text kit,
                   read = Loaded (Some text)
                   /\ JSON_parse text = Returns kit
                   /\ wellFormedKit kit)))
  /\ (valid result = true ->
      BrandKitManager.getActiveKitId m' = BrandKitManager.kitIdAt now).
Proof.
  intros result m'.
  set (accepted :=
    (fileType = "application/json" \/ JSString.endsWith fileName ".json" = true)
    /\ (exists text kit,
          read = Loaded (Some text)
          /\ text <> ""
          /\ JSON_parse text = Returns kit
          /\ wellFormedKit kit)
    /\ BrandKitManager.kitStored writes = true
    /\ BrandKitManager.activeStored writes = true).
  set (unstored :=
    result = BrandKitManager.storageError
    /\ (BrandKitManager.kitStored writes = false
        \/ BrandKitManager.activeStored writes = false)
    /\ exists text kit,
         read = Loaded (Some text)
         /\ JSON_parse text = Returns kit
         /\ wellFormedKit kit).
  assert (Rejected : forall msg,
    handleBrandKitUpload JSON_parse fileType fileName read now now' writes m
    = (fileError msg, m) ->
    ~ ((fileType = "application/json" \/ JSString.endsWith fileName ".json" = true)
       /\ exists text kit,
            read = Loaded (Some text)
            /\ text <> ""
            /\ JSON_parse text = Returns kit
            /\ wellFormedKit kit) ->
    (valid result = true <-> accepted)
    /\ (valid result = false -> errors result <> [] /\ (m' = m \/ unstored))
    /\ (valid result = true ->
        BrandKitManager.getActiveKitId m' = BrandKitManager.kitIdAt now)).
  { intros msg E Hno. subst accepted unstored. unfold result, m'. rewrite E.
    cbn [fst snd fileError valid errors].
    split; [|split].
    - split; [discriminate | intros (H1 & H2 & _); elim Hno; now split].
    - intros _. split; [discriminate | now left].
    - discriminate. }
  unfold handleBrandKitUpload in *.
  destruct (negb (fileType =? "application/json")%string
            && negb (JSString.endsWith fileName ".json")) eqn:Efile.
  { apply (Rejected _ eq_refl). intros [[-> | E] _].
    - discriminate Efile.
    - rewrite E in Efile. now rewrite andb_false_r in Efile. }
  assert (Hok : fileType = "application/json" \/ JSString.endsWith fileName ".json" = true).
  { apply andb_false_iff in Efile as [E | E]; apply negb_false_iff in E.
    - left. now apply String.eqb_eq.
    - now right. }
  destruct read as [ | [ [ | c text' ] | ] ].
  - apply (Rejected _ eq_refl). intros [_ (t & k & E & _)]. discriminate E.
  - apply (Rejected _ eq_refl). intros [_ (t & k & E & Hne & _)].
    injection E as <-. now elim Hne.
  - destruct (JSON_parse (String c text')) as [kit | e] eqn:Ep.
    + clear Rejected.
      destruct (uploadBrandKit_cases kit now now' writes m)
        as (validation & Hv & Hiff & Herr & Hrej & Hacc).
      destruct (valid validation) eqn:Ev.
      * destruct (Hacc eq_refl) as (normalized & kitName & _ & _ & _ & Hu).
        pose proof (proj1 Hiff eq_refl) as Hwf.
        assert (Hread : exists text k,
                  Loaded (Some (String c text')) = Loaded (Some text)
                  /\ text <> ""
                  /\ JSON_parse text = Returns k
                  /\ wellFormedKit k).
        { exists (String c text'), kit. repeat split; trivial. discriminate. }
        assert (Hread' : exists text k,
                  Loaded (Some (String c text')) = Loaded (Some text)
                  /\ JSON_parse text = Returns k
                  /\ wellFormedKit k).
        { exists (String c text'), kit. repeat split; trivial. }
        subst accepted unstored. unfold result, m'. rewrite Hu. cbv zeta.
        destruct (BrandKitManager.kitStored writes),
                 (BrandKitManager.activeStored writes);
          cbn [negb fst snd BrandKitManager.storageError valid errors].
        -- rewrite Ev. split; [|split].
           ++ split; [intros _; repeat split; trivial | reflexivity].
           ++ discriminate.
           ++ intros _. unfold BrandKitManager.getActiveKitId.
              cbn [BrandKitManager.setCache BrandKitManager.setItemActive
                   BrandKitManager.storage BrandKitManager.activeKitId].
              now destruct (kitIdAt_truthy now) as (c0 & s0 & ->).
        -- split; [|split].
           ++ split; [discriminate | intros (_ & _ & _ & E); discriminate E].
           ++ intros _. split; [discriminate|]. right.
              split; [reflexivity|]. split; [now right | exact Hread'].
           ++ discriminate.
        -- split; [|split].
           ++ split; [discriminate | intros (_ & _ & E & _); discriminate E].
           ++ intros _. split; [discriminate|]. right.
              split; [reflexivity|]. split; [now left | exact Hread'].
           ++ discriminate.
        -- split; [|split].
           ++ split; [discriminate | intros (_ & _ & E & _); discriminate E].
           ++ intros _. split; [discriminate|]. right.
              split; [reflexivity|]. split; [now left | exact Hread'].
           ++ discriminate.
      * subst accepted unstored. unfold result, m'. rewrite (Hrej eq_refl).
        cbn [fst snd]. rewrite Ev. split; [|split].
        -- split; [discriminate|].
           intros (_ & (t & k & E & _ & Hp & Hwf) & _). injection E as <-.
           rewrite Ep in Hp. injection Hp as <-.
           apply Hiff in Hwf. discriminate Hwf.
        -- intros _. split; [now apply Herr | now left].
        -- discriminate.
    + apply (Rejected _ eq_refl). intros [_ (t & k & E & _ & Hp & _)].
      injection E as <-. rewrite Ep in Hp. discriminate Hp.
  - apply (Rejected _ eq_refl). intros [_ (t & k & E & _)]. discriminate E.
Qed.

Lemma handleBrandKitUpload_accepts_witness :
  valid (fst (handleBrandKitUpload (fun _ => Returns acmeKit) "application/json"
                "acme.json" (Loaded (Some "{}")) 7%N 8%N
                BrandKitManager.allStored sampleManager)) = true
  /\ BrandKitManager.getActiveKitId
       (snd (handleBrandKitUpload (fun _ => Returns acmeKit) "application/json"
               "acme.json" (Loaded (Some "{}")) 7%N 8%N
               BrandKitManager.allStored sampleManager))
     = "kit_7".
Proof.
  destruct (handleBrandKitUpload_accepts (fun _ => Returns acmeKit) "application/json"
              "acme.json" (Loaded (Some "{}")) 7%N 8%N
              BrandKitManager.allStored sampleManager) as (Hiff & _ & Hact).
  assert (Hvalid : valid (fst (handleBrandKitUpload (fun _ => Returns acmeKit)
                                 "application/json" "acme.json" (Loaded (Some "{}"))
                                 7%N 8%N BrandKitManager.allStored sampleManager))
                   = true).
  { apply Hiff. split; [now left|]. split; [|now split].
    exists "{}", acmeKit. repeat split; [discriminate | exact acmeKit_wellFormed]. }
  split; [exact Hvalid | exact (Hact Hvalid)].
Defined.
(** ** sandbox/code.ts *)

(** *** Colours written by the scan *)

Lemma Math_round_unit (x : R) :
  (0 <= x <= 1)%R -> 0 <= Math_round (x * 255) <= 255.
Proof.
  intros Hx. unfold Math_round.
  pose proof (Zfloor_bound (x * 255 + / 2)) as [Hlo Hhi].
  split.
  - apply Zfloor_lub. lra.
  - assert (H : (IZR (Zfloor (x * 255 + / 2)) < IZR 256)%R) by lra.
    apply lt_IZR in H. lia.
Qed.

Lemma Math_round_byte (n : Z) : Math_round (IZR n / 255 * 255) = n.
Proof.
  unfold Math_round. apply Zfloor_eq.
  replace (IZR n / 255 * 255)%R with (IZR n) by (field; lra). lra.
Qed.

Lemma trim_hash_hex (d : string) :
  JS.allChars JS.isHexDigit d = true -> d <> "" ->
  JS.trim (String "#" d) = String "#" d.
Proof.
  intros Hh Hne. unfold JS.trim. cbn [JS.trimStart]. change (JS.isWhiteSpace "#") with false.
  cbv iota. cbn [JS.trimEnd]. rewrite (trimEnd_hex d Hh).
  destruct d; [now elim Hne | reflexivity].
Qed.

Lemma hexUpperChar_zero (d : Z) : 0 <= d < 16 -> hexUpperChar d = "0"%char -> d = 0.
Proof.
  intros Hd H.
  destruct d as [|p|p]; [reflexivity| |lia].
  do 4 (destruct p as [p|p|]; try discriminate H; try lia).
Qed.

(** What [toHex6] makes of a colour written by [colorToHex]. *)
Lemma toHex6_bytes (rr gg bb aa : Z) :
  0 <= rr <= 255 -> 0 <= gg <= 255 -> 0 <= bb <= 255 -> 0 <= aa <= 255 ->
  toHex6 (Some ("#" ++ Sandbox.byteHex rr ++ Sandbox.byteHex gg
                    ++ Sandbox.byteHex bb ++ Sandbox.byteHex aa))
  = Some (if (rr =? 0) && (gg =? 0) && (bb =? 0)
          then hexOfRgb {| r := gg; g := bb; b := aa |}
          else hexOfRgb {| r := rr; g := gg; b := bb |}).
Proof.
  intros Hr Hg Hb Ha.
  rewrite !hexOfRgb_unfold by (cbn [r g b]; lia || assumption). cbn [r g b].
  rewrite !byteHex_spec by assumption.
  cbn [append].
  rewrite toHex6_unfold.
  rewrite trim_hash_hex; [|cbn [JS.allChars];
    rewrite !(proj1 (hexUpperChar_props _)); reflexivity | discriminate].
  cbn [JS.stripLeadingHash JS.isHexString JS.allChars].
  rewrite !(proj1 (hexUpperChar_props _)). cbn [andb].
  unfold hex6Of. cbn [String.length Nat.eqb JS.slice Nat.sub String.substring
                      JS.toUpperCase JS.mapChars].
  rewrite !(proj1 (proj2 (hexUpperChar_props _))).
  destruct ((rr =? 0) && (gg =? 0) && (bb =? 0)) eqn:E.
  - apply andb_prop in E as [E Eb]. apply andb_prop in E as [Er Eg].
    apply Z.eqb_eq in Er, Eg, Eb. subst rr gg bb. reflexivity.
  - match goal with
    | |- context [String.eqb ?x "000000"] =>
        destruct (String.eqb_spec x "000000") as [Ez | _]; [|reflexivity]
    end.
    exfalso. injection Ez as Z1 Z2 Z3 Z4 Z5 Z6.
    apply hexUpperChar_zero in Z1, Z2, Z3, Z4, Z5, Z6;
      try (apply Z.mod_pos_bound; lia);
      try (split; [apply Z.div_pos; lia | apply Z.div_lt_upper_bound; lia]).
    assert (rr = 0) by (Z.div_mod_to_equations; lia).
    assert (gg = 0) by (Z.div_mod_to_equations; lia).
    assert (bb = 0) by (Z.div_mod_to_equations; lia).
    subst. discriminate E.
Qed.

(** X20: a colour the scan writes is one [toHex6] reads.  For an SDK
    colour whose channels lie between 0 and 1 (a missing channel counts as
    0, a missing alpha as 1), [colorToHex] writes ['#'] and the four
    channels, each rounded to 0..255, as two upper-case hex digits, and
    [toHex6] reads it back as the colour of the red, green and blue
    channels, except for black: with red, green and blue all rounded to
    0 the string starts with [000000], which [toHex6] takes for an
    alpha-first colour, so black of alpha [a] is read as the colour
    (0, 0, a), and opaque black as [#0000FF]. *)
Theorem colorToHex_read_by_toHex6 (color : Sandbox.Color) :
  let channel (c : option R) (missing : R) : R :=
    match c with Some v => v | None => missing end in
  let rr := Math_round (channel (Sandbox.red color) 0 * 255)%R in
  let gg := Math_round (channel (Sandbox.green color) 0 * 255)%R in
  let bb := Math_round (channel (Sandbox.blue color) 0 * 255)%R in
  let aa := Math_round (channel (Sandbox.alpha color) 1 * 255)%R in
  (0 <= channel (Sandbox.red color) 0 <= 1)%R ->
  (0 <= channel (Sandbox.green color) 0 <= 1)%R ->
  (0 <= channel (Sandbox.blue color) 0 <= 1)%R ->
  (0 <= channel (Sandbox.alpha color) 1 <= 1)%R ->
  Sandbox.colorToHex (Some color)
  = Some ("#" ++ Sandbox.byteHex rr ++ Sandbox.byteHex gg
              ++ Sandbox.byteHex bb ++ Sandbox.byteHex aa)
  /\ toHex6 (Sandbox.colorToHex (Some color))
     = Some (if (rr =? 0) && (gg =? 0) && (bb =? 0)
             then hexOfRgb {| r := 0; g := 0; b := aa |}
             else hexOfRgb {| r := rr; g := gg; b := bb |}).
Proof.
  intros channel rr gg bb aa Hr Hg Hb Ha.
  assert (E : Sandbox.colorToHex (Some color)
              = Some ("#" ++ Sandbox.byteHex rr ++ Sandbox.byteHex gg
                          ++ Sandbox.byteHex bb ++ Sandbox.byteHex aa)) by reflexivity.
  split; [exact E|]. rewrite E.
  rewrite toHex6_bytes by (apply Math_round_unit; assumption).
  destruct ((rr =? 0) && (gg =? 0) && (bb =? 0)) eqn:Ez; [|reflexivity].
  apply andb_prop in Ez as [Ez Eb]. apply andb_prop in Ez as [_ Eg].
  apply Z.eqb_eq in Eg, Eb. now rewrite Eg, Eb.
Qed.

Lemma colorToHex_read_by_toHex6_witness :
  toHex6 (Sandbox.colorToHex
            (Some {| Sandbox.red := Some 0%R; Sandbox.green := Some 0%R;
                     Sandbox.blue := Some 0%R; Sandbox.alpha := Some 1%R |}))
  = Some "#0000FF".
Proof.
  assert (E0 : Math_round (0 * 255)%R = 0) by (apply Zfloor_eq; lra).
  assert (E1 : Math_round (1 * 255)%R = 255) by (apply Zfloor_eq; lra).
  rewrite (proj2 (colorToHex_read_by_toHex6
                    {| Sandbox.red := Some 0%R; Sandbox.green := Some 0%R;
                       Sandbox.blue := Some 0%R; Sandbox.alpha := Some 1%R |}
                    ltac:(cbn; lra) ltac:(cbn; lra) ltac:(cbn; lra) ltac:(cbn; lra))).
  cbn [Sandbox.red Sandbox.green Sandbox.blue Sandbox.alpha].
  rewrite E0, E1. reflexivity.
Defined.

(** *** Colours applied by a fix *)

Lemma hexUpperChar_upper (c : ascii) (v : Z) :
  JSNum.hexDigitValue c = Some v -> hexUpperChar v = JS.upperChar c.
Proof.
  destruct c as [[] [] [] [] [] [] [] []]; cbn; intros H;
    try discriminate H; injection H as <-; reflexivity.
Qed.

(** Two hex digits are read as a channel that is written back as the
    same digits in upper case. *)
Lemma channel_round_trip (c1 c2 : ascii) :
  JS.isHexDigit c1 = true -> JS.isHexDigit c2 = true ->
  exists x, Sandbox.channelOf (String c1 (String c2 "")) = Some x
            /\ Sandbox.channelHex x
               = String (JS.upperChar c1) (String (JS.upperChar c2) "").
Proof.
  intros H1 H2.
  destruct (isHexDigit_value c1 H1) as [v1 V1].
  destruct (isHexDigit_value c2 H2) as [v2 V2].
  destruct (hexDigitValue_range c1 v1 V1) as [R1 _].
  destruct (hexDigitValue_range c2 v2 V2) as [R2 _].
  exists (IZR (16 * v1 + v2) / 255)%R. split.
  - unfold Sandbox.channelOf. now rewrite (parseInt16_byte c1 c2 v1 v2 V1 V2).
  - unfold Sandbox.channelHex. rewrite Math_round_byte.
    rewrite byteHex_spec by lia.
    replace ((16 * v1 + v2) / 16) with v1 by (Z.div_mod_to_equations; lia).
    replace ((16 * v1 + v2) mod 16) with v2 by (Z.div_mod_to_equations; lia).
    now rewrite (hexUpperChar_upper c1 v1 V1), (hexUpperChar_upper c2 v2 V2).
Qed.

Lemma channelHex_one : Sandbox.channelHex 1 = "FF".
Proof.
  unfold Sandbox.channelHex.
  replace (Math_round (1 * 255)) with 255 by (symmetry; apply Zfloor_eq; lra).
  reflexivity.
Qed.

(** [toHex6] on ['#'] and hex digits. *)
Lemma toHex6_hash_digits (d : string) :
  JS.allChars JS.isHexDigit d = true -> d <> "" ->
  toHex6 (Some (String "#" d)) = hex6Of d.
Proof.
  intros H Hne.
  rewrite toHex6_unfold, trim_hash_hex by assumption.
  cbn [JS.stripLeadingHash]. unfold JS.isHexString.
  destruct d; [now elim Hne|]. now rewrite H.
Qed.

(** What the next scan writes for the colour a fix builds from a hex
    string: its digits in upper case, with [FF] for the alpha channel
    when the string has none. *)
Lemma parse_then_write (h : string) :
  let s := JS.stripLeadingHash (JS.trim h) in
  JS.isHexString s = true ->
  String.length s = 6%nat \/ String.length s = 8%nat ->
  exists color,
    Sandbox.parseHexColor (Some h) = Some color
    /\ Sandbox.colorToHex (Some color)
       = Some (String "#" (JS.toUpperCase s
                           ++ (if (String.length s =? 6)%nat then "FF" else ""))).
Proof.
  intros s Hs Hl.
  unfold Sandbox.parseHexColor. cbv zeta.
  replace (match Some h with
           | Some (String _ _ as h0) => h0
           | _ => EmptyString
           end) with h by (destruct h; reflexivity).
  fold s. clearbody s. rewrite Hs. cbn [negb].
  destruct s as [|c1 [|c2 [|c3 [|c4 [|c5 [|c6 [|c7 [|c8 [|c9 s']]]]]]]]];
    cbn [String.length] in Hl; try (exfalso; lia).
  - (* six digits *)
    cbn [JS.isHexString JS.allChars] in Hs.
    repeat (apply andb_prop in Hs as [? Hs]).
    destruct (channel_round_trip c1 c2) as [x1 [P1 W1]]; try assumption.
    destruct (channel_round_trip c3 c4) as [x2 [P2 W2]]; try assumption.
    destruct (channel_round_trip c5 c6) as [x3 [P3 W3]]; try assumption.
    cbn [String.length Nat.eqb orb negb JS.slice Nat.sub String.substring].
    rewrite P1, P2, P3. eexists. split; [reflexivity|].
    unfold Sandbox.colorToHex.
    cbn [Sandbox.red Sandbox.green Sandbox.blue Sandbox.alpha].
    rewrite W1, W2, W3, channelHex_one. reflexivity.
  - (* eight digits *)
    cbn [JS.isHexString JS.allChars] in Hs.
    repeat (apply andb_prop in Hs as [? Hs]).
    destruct (channel_round_trip c1 c2) as [x1 [P1 W1]]; try assumption.
    destruct (channel_round_trip c3 c4) as [x2 [P2 W2]]; try assumption.
    destruct (channel_round_trip c5 c6) as [x3 [P3 W3]]; try assumption.
    destruct (channel_round_trip c7 c8) as [x4 [P4 W4]]; try assumption.
    cbn [String.length Nat.eqb orb negb JS.slice Nat.sub String.substring].
    rewrite P1, P2, P3, P4. eexists. split; [reflexivity|].
    unfold Sandbox.colorToHex.
    cbn [Sandbox.red Sandbox.green Sandbox.blue Sandbox.alpha].
    rewrite W1, W2, W3, W4. reflexivity.
Qed.

(** A string [toHex6] accepts has six or eight hex digits. *)
Lemma toHex6_accepts_digits (h c : string) :
  toHex6 (Some h) = Some c ->
  JS.isHexString (JS.stripLeadingHash (JS.trim h)) = true
  /\ (String.length (JS.stripLeadingHash (JS.trim h)) = 6%nat
      \/ String.length (JS.stripLeadingHash (JS.trim h)) = 8%nat).
Proof.
  rewrite toHex6_unfold. unfold hex6Of.
  destruct (JS.isHexString _); [|discriminate].
  destruct (Nat.eqb_spec (String.length (JS.stripLeadingHash (JS.trim h))) 6);
    [now auto|].
  destruct (Nat.eqb_spec (String.length (JS.stripLeadingHash (JS.trim h))) 8);
    [now auto | discriminate].
Qed.

(** X21: a colour applied by a fix is read back by the next scan.  Every
    colour string [toHex6] accepts is accepted by the parsing block of
    [fixColor], [restoreColor] and [updateNodeFillById]; the SDK colour it
    builds is written by [colorToHex] of the scan as a string that [toHex6]
    reads as the same colour, with one exception: six-digit black, which
    is written as [#000000FF] and read back as [#0000FF]. *)
Theorem fixed_colour_read_back (h c : string) :
  toHex6 (Some h) = Some c ->
  exists color,
    Sandbox.parseHexColor (Some h) = Some color /\
    toHex6 (Sandbox.colorToHex (Some color))
    = Some (if String.eqb c "#000000"
               && (String.length (JS.stripLeadingHash (JS.trim h)) =? 6)%nat
            then "#0000FF" else c).
Proof.
  intros H.
  destruct (toHex6_accepts_digits h c H) as [Hs Hl].
  destruct (parse_then_write h Hs Hl) as [color [P W]].
  exists color. split; [exact P|]. rewrite W. clear P W.
  rewrite toHex6_unfold, Hs in H. unfold hex6Of in H.
  remember (JS.stripLeadingHash (JS.trim h)) as s eqn:Es. clear Es.
  apply isHexString_allChars in Hs.
  assert (Hup : JS.allChars JS.isHexDigit (JS.toUpperCase s) = true)
    by now apply allChars_hex_upper.
  destruct s as [|c1 [|c2 [|c3 [|c4 [|c5 [|c6 [|c7 [|c8 [|c9 s']]]]]]]]];
    cbn [String.length] in Hl; try (exfalso; lia);
    cbn [String.length Nat.eqb] in H |- *;
    cbn [JS.toUpperCase JS.mapChars append] in Hup |- *;
    (rewrite toHex6_hash_digits; [|exact Hup | discriminate]).
  - unfold hex6Of.
    cbn [String.length Nat.eqb JS.slice Nat.sub String.substring
         JS.toUpperCase JS.mapChars append].
    cbn [JS.toUpperCase JS.mapChars append] in H.
    rewrite !upperChar_idem. change (JS.upperChar "F") with "F"%char.
    injection H as <-. rewrite andb_true_r.
    change (String.eqb (String "#" ?x) "#000000") with (String.eqb x "000000").
    match goal with
    | |- context [String.eqb ?x "000000"] =>
        destruct (String.eqb_spec x "000000") as [E | _]; [|reflexivity]
    end.
    injection E as _ _ E3 E4 E5 E6. now rewrite E3, E4, E5, E6.
  - unfold hex6Of.
    cbn [String.length Nat.eqb JS.slice Nat.sub String.substring
         JS.toUpperCase JS.mapChars append] in H |- *.
    rewrite !upperChar_idem. rewrite andb_false_r. exact H.
Qed.

Lemma fixed_colour_read_back_witness :
  exists color,
    Sandbox.parseHexColor (Some " #1a2b3c ") = Some color /\
    toHex6 (Sandbox.colorToHex (Some color)) = Some "#1A2B3C".
Proof.
  exact (fixed_colour_read_back " #1a2b3c " "#1A2B3C" eq_refl).
Defined.

(** *** The node tree: scan and search *)

Section Tree.

Variable Content : Type.
Variable extractFillColor extractContainerFillColor : Sandbox.Node Content -> option string.
Variable extractFontName extractTextContent : Sandbox.Node Content -> option string.
Variable kitFonts : list string.

Local Abbreviation Node := (Sandbox.Node Content).
Local Abbreviation elementOf :=
  (Sandbox.elementOf Content extractFillColor extractContainerFillColor
                     extractFontName extractTextContent).
Local Abbreviation traverse :=
  (Sandbox.traverse Content extractFillColor extractContainerFillColor
                    extractFontName extractTextContent kitFonts).
Local Abbreviation scanArtboards :=
  (Sandbox.scanArtboards Content extractFillColor extractContainerFillColor
                         extractFontName extractTextContent kitFonts).
Local Abbreviation findById := (Sandbox.findById Content).
Local Abbreviation findInArtboards := (Sandbox.findInArtboards Content).
Local Abbreviation childrenOf := (Sandbox.childrenOf Content).
Local Abbreviation nodeId := (Sandbox.nodeId Content).

(** Induction on a node with the property known of all its children. *)
Lemma Node_children_ind (P : Node -> Prop) :
  (forall node, Forall P (childrenOf node) -> P node) ->
  forall node, P node.
Proof.
  intros step. fix IH 1. intros node. apply step.
  destruct node as [i t allChildren children c]. cbn [Sandbox.childrenOf].
  destruct allChildren as [|a allChildren'].
  - induction children as [|x rest IHl]; constructor; [apply IH | exact IHl].
  - generalize (a :: allChildren').
    intros l. induction l as [|x rest IHl]; constructor; [apply IH | exact IHl].
Qed.

Local Abbreviation violationsOf := (violationsOf kitFonts).

Lemma traverse_unfold (node : Node) :
  traverse node
  = (elementOf node :: fst (scanArtboards (childrenOf node)),
     (violationsOf (elementOf node) ++ snd (scanArtboards (childrenOf node)))%list).
Proof. destruct node. reflexivity. Qed.

Lemma findById_unfold (node : Node) (targetId : string) :
  findById node targetId
  = if String.eqb (nodeId node) targetId then Some node
    else findInArtboards (childrenOf node) targetId.
Proof.
  destruct node as [i t allChildren children c].
  cbn [Sandbox.findById Sandbox.nodeId Sandbox.childrenOf].
  destruct (String.eqb i targetId); [reflexivity|].
  generalize (match allChildren with [] => children | _ :: _ => allChildren end).
  intros l. induction l as [|x rest IHl]; [reflexivity|].
  cbn [Sandbox.findInArtboards]. rewrite <- IHl. reflexivity.
Qed.

Lemma scanArtboards_cons (artboard : Node) (rest : list Node) :
  scanArtboards (artboard :: rest)
  = ((fst (traverse artboard) ++ fst (scanArtboards rest))%list,
     (snd (traverse artboard) ++ snd (scanArtboards rest))%list).
Proof.
  cbn [Sandbox.scanArtboards].
  destruct (traverse artboard), (scanArtboards rest). reflexivity.
Qed.

Lemma find_app {A : Type} (f : A -> bool) (l1 l2 : list A) :
  find f (l1 ++ l2)
  = match find f l1 with Some x => Some x | None => find f l2 end.
Proof.
  induction l1 as [|x l1 IH]; cbn; [reflexivity|]. now destruct (f x).
Qed.

Lemma traverse_find (targetId : string) (node : Node) :
  find (fun e => String.eqb (id e) targetId) (fst (traverse node))
  = option_map elementOf (findById node targetId).
Proof.
  induction node as [node IH] using Node_children_ind.
  rewrite traverse_unfold, findById_unfold. cbn [fst find].
  change (id (elementOf node)) with (nodeId node).
  destruct (String.eqb (nodeId node) targetId); [reflexivity|].
  induction IH as [|x rest Hx _ IHl]; [reflexivity|].
  rewrite scanArtboards_cons. cbn [fst Sandbox.findInArtboards].
  rewrite find_app, Hx, IHl. now destruct (findById x targetId).
Qed.

Lemma findById_id (targetId : string) (node found : Node) :
  findById node targetId = Some found -> nodeId found = targetId.
Proof.
  intros F. pose proof (traverse_find targetId node) as T.
  rewrite F in T. cbn [option_map] in T.
  apply find_some in T as [_ T]. now apply String.eqb_eq in T.
Qed.

Lemma scanArtboards_violations (l : list Node) :
  snd (scanArtboards l) = flat_map violationsOf (fst (scanArtboards l)).
Proof.
  revert l.
  assert (N : forall node,
             snd (traverse node) = flat_map violationsOf (fst (traverse node))).
  { induction node as [node IH] using Node_children_ind.
    rewrite traverse_unfold. cbn [fst snd flat_map]. f_equal.
    induction IH as [|x rest Hx _ IHl]; [reflexivity|].
    rewrite scanArtboards_cons. cbn [fst snd].
    now rewrite flat_map_app, Hx, IHl. }
  induction l as [|x rest IHl]; [reflexivity|].
  rewrite scanArtboards_cons. cbn [fst snd].
  now rewrite flat_map_app, N, IHl.
Qed.

Lemma scanArtboards_found (e : ScannedElement) (l : list Node) :
  In e (fst (scanArtboards l)) ->
  exists target, findInArtboards l (id e) = Some target /\ nodeId target = id e.
Proof.
  induction l as [|x rest IHl]; [contradiction|].
  rewrite scanArtboards_cons. cbn [fst Sandbox.findInArtboards].
  intros Hin.
  destruct (findById x (id e)) as [found|] eqn:F.
  - exists found. split; [reflexivity | now apply findById_id with x].
  - apply in_app_or in Hin as [Hin | Hin]; [|now apply IHl].
    pose proof (traverse_find (id e) x) as T. rewrite F in T. cbn [option_map] in T.
    pose proof (find_none _ _ T e Hin) as N. cbn beta in N.
    now rewrite String.eqb_refl in N.
Qed.

End Tree.

(** X22: the search of the fixes agrees with the scan.  For every id,
    the node [findById] reaches through the artboards is the node of the
    first element of the scan results with that id, and the search fails
    exactly when no scanned element has the id. *)
Theorem scan_and_search_agree
  (Content : Type)
  (extractFillColor extractContainerFillColor
   extractFontName extractTextContent : Sandbox.Node Content -> option string)
  (kitFonts : list string)
  (Doc : Type) (artboards : Doc -> list (Sandbox.Node Content))
  (doc : Doc) (targetId : string) :
  find (fun e => String.eqb (id e) targetId)
       (fst (Sandbox.scanDocument Content extractFillColor extractContainerFillColor
               extractFontName extractTextContent kitFonts Doc artboards doc))
  = option_map (Sandbox.elementOf Content extractFillColor extractContainerFillColor
                  extractFontName extractTextContent)
               (Sandbox.findInArtboards Content (artboards doc) targetId).
Proof.
  unfold Sandbox.scanDocument.
  induction (artboards doc) as [|artboard rest IH]; [reflexivity|].
  rewrite scanArtboards_cons. cbn [fst Sandbox.findInArtboards].
  rewrite find_app, traverse_find, IH.
  now destruct (Sandbox.findById Content artboard targetId).
Qed.

(** X23: the font violations of a scan are those of its results.  The
    [violations] array holds, in scan order, one entry for every scanned
    element whose font name is not empty and is rejected by
    [isFontAllowed], with the id of that element, and nothing else. *)
Theorem scan_violations_follow_results
  (Content : Type)
  (extractFillColor extractContainerFillColor
   extractFontName extractTextContent : Sandbox.Node Content -> option string)
  (kitFonts : list string)
  (Doc : Type) (artboards : Doc -> list (Sandbox.Node Content)) (doc : Doc) :
  let scan := Sandbox.scanDocument Content extractFillColor extractContainerFillColor
                extractFontName extractTextContent kitFonts Doc artboards doc in
  snd scan = flat_map (violationsOf kitFonts) (fst scan)
  /\ map Sandbox.violationId (snd scan)
     = map id (filter (fun e => JS.truthy (fontName e)
                                && negb (isFontAllowed (fontName e) kitFonts))
                      (fst scan)).
Proof.
  intros scan.
  assert (E : snd scan = flat_map (violationsOf kitFonts) (fst scan))
    by apply scanArtboards_violations.
  split; [exact E|]. rewrite E. clear E.
  induction (fst scan) as [|e l IH]; [reflexivity|].
  cbn [flat_map filter]. rewrite map_app, IH. clear IH.
  unfold violationsOf at 1, Sandbox.checkFontViolation.
  destruct (fontName e) as [[|ch f]|]; cbn [JS.truthy andb]; try reflexivity.
  destruct (isFontAllowed (Some (String ch f)) kitFonts); reflexivity.
Qed.

(** X24: every scanned element can be reached by a colour fix.  For an
    element of the scan results and a colour string [toHex6] accepts,
    [fixColor] and [restoreColor] find a node with the id of the element,
    build an SDK colour and get to the SDK call that applies it: neither
    gives up with "node not found" or with a rejected colour. *)
Theorem fixColor_reaches_scanned
  (Content : Type)
  (extractFillColor extractContainerFillColor
   extractFontName extractTextContent : Sandbox.Node Content -> option string)
  (kitFonts : list string)
  (Doc : Type) (artboards : Doc -> list (Sandbox.Node Content))
  (applyColor : Sandbox.Node Content -> Sandbox.Color -> Doc -> Doc * bool)
  (doc : Doc) (e : ScannedElement) (h c : string) :
  In e (fst (Sandbox.scanDocument Content extractFillColor extractContainerFillColor
               extractFontName extractTextContent kitFonts Doc artboards doc)) ->
  toHex6 (Some h) = Some c ->
  exists target color,
    Sandbox.nodeId Content target = id e
    /\ Sandbox.parseHexColor (Some h) = Some color
    /\ Sandbox.fixColor Content Doc artboards applyColor (id e) h doc
       = applyColor target color doc
    /\ Sandbox.restoreColor Content Doc artboards applyColor (id e) h doc
       = applyColor target color doc.
Proof.
  intros Hin Hh.
  destruct (scanArtboards_found _ _ _ _ _ _ e _ Hin) as [target [F I]].
  destruct (toHex6_accepts_digits h c Hh) as [Hs Hl].
  destruct (parse_then_write h Hs Hl) as [color [P _]].
  exists target, color. unfold Sandbox.fixColor, Sandbox.restoreColor.
  rewrite F, P. repeat split; assumption || reflexivity.
Qed.

Lemma fixColor_reaches_scanned_witness :
  exists target color,
    Sandbox.nodeId unit target = "title"
    /\ Sandbox.parseHexColor (Some "#ff0000") = Some color
    /\ Sandbox.fixColor unit (list (Sandbox.Node unit)) (fun d => d)
         (fun _ _ d => (d, true)) "title" "#ff0000" sampleDocument
       = (sampleDocument, true)
    /\ Sandbox.restoreColor unit (list (Sandbox.Node unit)) (fun d => d)
         (fun _ _ d => (d, true)) "title" "#ff0000" sampleDocument
       = (sampleDocument, true).
Proof.
  exact (fixColor_reaches_scanned unit
           (fun _ => None) (fun _ => None) (fun _ => None) (fun _ => None) []
           (list (Sandbox.Node unit)) (fun d => d) (fun _ _ d => (d, true))
           sampleDocument
           {| id := "title"; type := "Text"; fillColor := None;
              containerFillColor := None; fontName := None; textContent := None |}
           "#ff0000" "#FF0000"
           (or_intror (or_introl eq_refl)) eq_refl).
Defined.

Lemma fixFont_unsupported_family
  (Content Doc : Type) (artboards : Doc -> list (Sandbox.Node Content))
  (Font : Type) (fromPostscriptName : string -> option Font)
  (applyFont : Sandbox.Node Content -> Font -> Doc -> Doc * bool)
  (nodeId fontFamily : string) (doc : Doc) :
  ~ In (normalizeFontName (Some fontFamily))
       [Some "arial"; Some "courier"; Some "georgia"] ->
  Sandbox.fixFont Content Doc artboards Font fromPostscriptName applyFont
                  nodeId fontFamily doc = (doc, false).
Proof.
  intros H. unfold Sandbox.fixFont.
  destruct (Sandbox.findInArtboards Content (artboards doc) nodeId)
    as [target|]; [|reflexivity].
  destruct (negb (String.eqb (Sandbox.nodeType Content target) "Text"));
    [reflexivity|].
  destruct (normalizeFontName (Some fontFamily)) as [[|ch f]|] eqn:N;
    try reflexivity.
  unfold Sandbox.fontPostScriptMap.
  destruct (String.eqb_spec (String ch f) "arial") as [A|_];
    [exfalso; apply H; rewrite A; cbn; tauto|].
  destruct (String.eqb_spec (String ch f) "courier") as [A|_];
    [exfalso; apply H; rewrite A; cbn; tauto|].
  destruct (String.eqb_spec (String ch f) "georgia") as [A|_];
    [exfalso; apply H; rewrite A; cbn; tauto|].
  reflexivity.
Qed.

(** X25: a font fix only goes through for a text node and one of three
    families.  When the node found is not a ["Text"] node, or the
    requested family, trimmed and in lower case, is none of [arial],
    [courier] and [georgia], [fixFont] and [restoreFont] answer [false]
    and never get to the SDK call that changes the document. *)
Theorem fixFont_supported_only
  (Content Doc : Type) (artboards : Doc -> list (Sandbox.Node Content))
  (Font : Type) (fromPostscriptName : string -> option Font)
  (applyFont : Sandbox.Node Content -> Font -> Doc -> Doc * bool)
  (nodeId fontFamily : string) (doc : Doc) :
  (forall target,
      Sandbox.findInArtboards Content (artboards doc) nodeId = Some target ->
      String.eqb (Sandbox.nodeType Content target) "Text" = false)
  \/ ~ In (normalizeFontName (Some fontFamily))
          [Some "arial"; Some "courier"; Some "georgia"] ->
  Sandbox.fixFont Content Doc artboards Font fromPostscriptName applyFont
                  nodeId fontFamily doc = (doc, false)
  /\ Sandbox.restoreFont Content Doc artboards Font fromPostscriptName applyFont
                         nodeId fontFamily doc = (doc, false).
Proof.
  intros H.
  assert (E : Sandbox.restoreFont Content Doc artboards Font fromPostscriptName
                applyFont nodeId fontFamily doc
              = Sandbox.fixFont Content Doc artboards Font fromPostscriptName
                  applyFont nodeId fontFamily doc) by reflexivity.
  rewrite E. clear E.
  assert (G : Sandbox.fixFont Content Doc artboards Font fromPostscriptName
                applyFont nodeId fontFamily doc = (doc, false));
    [|split; exact G].
  destruct H as [H | H]; [|now apply fixFont_unsupported_family].
  unfold Sandbox.fixFont.
  destruct (Sandbox.findInArtboards Content (artboards doc) nodeId)
    as [target|] eqn:F; [|reflexivity].
  now rewrite (H target eq_refl).
Qed.

Lemma fixFont_supported_only_witness :
  Sandbox.fixFont unit (list (Sandbox.Node unit)) (fun d => d) string
    (fun postscriptName => Some postscriptName) (fun _ _ d => (d, true))
    "title" "Roboto" sampleDocument = (sampleDocument, false)
  /\ Sandbox.restoreFont unit (list (Sandbox.Node unit)) (fun d => d) string
       (fun postscriptName => Some postscriptName) (fun _ _ d => (d, true))
       "title" "Roboto" sampleDocument = (sampleDocument, false).
Proof.
  apply (fixFont_supported_only unit (list (Sandbox.Node unit)) (fun d => d) string
           (fun postscriptName => Some postscriptName) (fun _ _ d => (d, true))
           "title" "Roboto" sampleDocument).
  right. intros [H | [H | [H | []]]]; discriminate H.
Defined.
(** ** The violation cards *)

Lemma card_contrastResult (kit : BrandKit) (el : ScannedElement)
      (result : ContrastResult) :
  ViolationCards.contrastResult kit el = Some result ->
  exists hex bgHex,
    toHex6 (fillColor el) = Some hex
    /\ toHex6 (containerFillColor el) = Some bgHex
    /\ result = currentContrast kit el hex bgHex.
Proof.
  unfold ViolationCards.contrastResult, ViolationCards.hex.
  destruct (JS.truthy (containerFillColor el) && JS.truthy (toHex6 (fillColor el)));
    [|discriminate].
  destruct (toHex6 (fillColor el)) as [hex|]; [|discriminate].
  destruct (toHex6 (containerFillColor el)) as [[|c bg]|]; try discriminate.
  intros H. injection H as <-. now exists hex, (String c bg).
Qed.

Lemma card_contrastResult_intro (kit : BrandKit) (el : ScannedElement)
      (hex bgHex : string) :
  toHex6 (fillColor el) = Some hex ->
  toHex6 (containerFillColor el) = Some bgHex ->
  ViolationCards.contrastResult kit el = Some (currentContrast kit el hex bgHex).
Proof.
  intros H1 H2. unfold ViolationCards.contrastResult, ViolationCards.hex.
  rewrite (toHex6_some_truthy _ _ H2), H1, H2.
  destruct (toHex6_canonical _ _ H1) as (d1 & -> & _).
  destruct (toHex6_canonical _ _ H2) as (d2 & -> & _).
  reflexivity.
Qed.

Lemma card_hasContrastViolation (kit : BrandKit) (el : ScannedElement) :
  ViolationCards.hasContrastViolation kit el = true <->
  exists result, ViolationCards.contrastResult kit el = Some result
                 /\ (ratio result < checkedRatio kit el)%R.
Proof.
  unfold ViolationCards.hasContrastViolation.
  destruct (ViolationCards.contrastResult kit el) as [result|] eqn:E.
  - destruct (card_contrastResult kit el result E) as (hex & bgHex & _ & _ & ->).
    fold (isContrastCompliant kit el hex bgHex). cbv zeta.
    rewrite negb_true_iff, isContrastCompliant_false_iff. split.
    + intros H. eexists. split; [reflexivity | exact H].
    + intros (r & Er & H). injection Er as <-. exact H.
  - split; [discriminate | intros (r & Er & _); discriminate Er].
Qed.

Lemma card_low_contrast_listed (kit : BrandKit) (el : ScannedElement) :
  In "Low Contrast" (ViolationCards.reasons kit el)
  <-> ViolationCards.hasContrastViolation kit el = true.
Proof.
  unfold ViolationCards.reasons.
  destruct (ViolationCards.hasColorViolation kit el),
           (ViolationCards.hasContrastViolation kit el),
           (ViolationCards.hasFontViolation kit el); cbn; split; intros H;
    try reflexivity; try discriminate H; try tauto;
    repeat (destruct H as [H | H]; try discriminate H); try contradiction.
Qed.

Lemma card_actualContrast (kit : BrandKit) (el : ScannedElement)
      (result : ContrastResult) (current : string) (suggested : option string) :
  ViolationCards.contrastResult kit el = Some result ->
  ViolationCards.actualContrast (ViolationCards.contrastRatio kit el) current suggested
  = ratio result
  /\ (1 <= ratio result)%R.
Proof.
  intros E. unfold ViolationCards.contrastRatio. rewrite E.
  destruct (card_contrastResult kit el result E) as (hex & bgHex & _ & _ & ->).
  pose proof (ratio_bounds hex bgHex
                {| largeText := isTextElement el; nonText := false;
                   reportAAA := isAAA kit |}) as B.
  fold (currentContrast kit el hex bgHex) in B.
  split; [|apply B].
  unfold ViolationCards.actualContrast. cbv zeta.
  destruct (Req_dec_T _ 0) as [Z | _]; [lra | reflexivity].
Qed.

Lemma getContrastBadge_label (a : R) :
  (0 < a)%R ->
  ViolationCards.getContrastBadge a
  = Some (if Rleb 4.5 a then "Pass" else if Rleb 3 a then "Borderline" else "Fail").
Proof.
  intros Ha. unfold ViolationCards.getContrastBadge.
  destruct (Req_dec_T a 0) as [Z | _]; [lra|].
  cbv zeta. destruct (Rleb 4.5 a); reflexivity.
Qed.

(** The badge of a card, when there is one. *)
Lemma badge_label (kit : BrandKit) (el : ScannedElement) (label : string) :
  ViolationCards.badge kit el = Some label ->
  let a := ViolationCards.actualContrast (ViolationCards.contrastRatio kit el)
             (ViolationCards.currentColor el) (ViolationCards.suggestedColor kit el) in
  label = (if Rleb 4.5 a then "Pass" else if Rleb 3 a then "Borderline" else "Fail").
Proof.
  unfold ViolationCards.badge. cbv zeta.
  destruct (_ && _ && _); [discriminate|].
  destruct (Rltb 0 _) eqn:P; [|discriminate].
  apply Rltb_true_iff in P. rewrite (getContrastBadge_label _ P).
  intros H. now injection H as <-.
Qed.

(** X26: every element the audit flags gets a reason on its card.  An
    element [handleAudit] keeps in [violations] is listed by
    [violationCards] with at least one of the reasons "Brand Violation",
    "Low Contrast" and "Font Violation": the label never falls back to
    "(Violation)" for it. *)
Theorem flagged_card_has_reason (kit : BrandKit) (el : ScannedElement) :
  hasSomeViolation kit el = true ->
  exists reason, In reason (ViolationCards.reasons kit el)
                 /\ ViolationCards.violationReason kit el <> "(Violation)".
Proof.
  intros H.
  assert (R : exists reason, In reason (ViolationCards.reasons kit el)).
  { unfold hasSomeViolation in H. unfold ViolationCards.reasons.
    fold (ViolationCards.hasFontViolation kit el) in H.
    destruct (ViolationCards.hasFontViolation kit el).
    { exists "Font Violation". apply in_or_app. right. apply in_or_app. right. now left. }
    unfold colorChecks in H.
    destruct (JS.truthy (fillColor el)); [|discriminate H].
    destruct (toHex6 (fillColor el)) as [hexColor|] eqn:E1; [|discriminate H].
    pose proof (toHex6_canonical _ _ E1) as C1.
    rewrite (canonical_slice7 _ C1) in H.
    assert (EC : ViolationCards.isBrandCompliant kit el = isBrandCompliant kit hexColor).
    { unfold ViolationCards.isBrandCompliant, ViolationCards.hex. rewrite E1.
      destruct C1 as (d & -> & _). reflexivity. }
    unfold ViolationCards.hasColorViolation. rewrite EC.
    destruct (isBrandCompliant kit hexColor); cbn [negb] in H |- *.
    2:{ exists "Brand Violation". now left. }
    destruct (JS.truthy (containerFillColor el)); [|discriminate H].
    destruct (toHex6 (containerFillColor el)) as [bgHex|] eqn:E2; [|discriminate H].
    destruct (isContrastCompliant kit el hexColor bgHex) eqn:IC;
      cbn [negb] in H; [discriminate H|].
    assert (V : ViolationCards.hasContrastViolation kit el = true).
    { apply card_hasContrastViolation. eexists. split.
      - apply (card_contrastResult_intro kit el hexColor bgHex E1 E2).
      - now apply isContrastCompliant_false_iff. }
    rewrite V. exists "Low Contrast". now left. }
  destruct R as [reason R]. exists reason. split; [exact R|].
  clear H. revert R. unfold ViolationCards.violationReason, ViolationCards.reasons.
  destruct (ViolationCards.hasColorViolation kit el),
           (ViolationCards.hasContrastViolation kit el),
           (ViolationCards.hasFontViolation kit el); cbn; intros R;
    (contradiction || discriminate).
Qed.

Lemma flagged_card_has_reason_witness :
  exists reason,
    In reason (ViolationCards.reasons sampleKit (textWithFont "n1" "Papyrus"))
    /\ ViolationCards.violationReason sampleKit (textWithFont "n1" "Papyrus")
       <> "(Violation)".
Proof.
  apply (flagged_card_has_reason sampleKit (textWithFont "n1" "Papyrus")).
  reflexivity.
Defined.

(** X27: when a card lists "Low Contrast" and its badge says "Pass".
    The badge compares the ratio with 4.5 and 3 whatever the kit and the
    element, the reason with the threshold of the audit.  So a card that
    lists "Low Contrast" carries a "Pass" badge only for an element that is
    not text under a kit whose [minContrast] is 7 or more, with a ratio
    from 4.5 up to 7; under any other kit, or for a text element, its badge
    is "Borderline" or "Fail". *)
Theorem low_contrast_pass_badge (kit : BrandKit) (el : ScannedElement) :
  In "Low Contrast" (ViolationCards.reasons kit el) ->
  ViolationCards.badge kit el = Some "Pass" ->
  isAAA kit = true /\ isTextElement el = false
  /\ (4.5 <= ViolationCards.contrastRatio kit el < 7)%R.
Proof.
  intros HL HB.
  apply card_low_contrast_listed, card_hasContrastViolation in HL
    as (result & E & Hlow).
  apply badge_label in HB. cbv zeta in HB.
  destruct (card_actualContrast kit el result (ViolationCards.currentColor el)
              (ViolationCards.suggestedColor kit el) E) as [A _].
  rewrite A in HB.
  assert (P : (4.5 <= ratio result)%R).
  { destruct (Rleb 4.5 (ratio result)) eqn:P; [now apply Rleb_true_iff in P|].
    destruct (Rleb 3 (ratio result)); discriminate HB. }
  unfold ViolationCards.contrastRatio. rewrite E.
  unfold checkedRatio in Hlow.
  destruct (isAAA kit), (isTextElement el); repeat split; lra.
Qed.

Lemma strictKit_isAAA : isAAA strictKit = true.
Proof. apply Rleb_true_iff. cbn. lra. Qed.

Lemma redOnBlack_contrastResult :
  ViolationCards.contrastResult strictKit redOnBlackShape
  = Some (currentContrast strictKit redOnBlackShape "#FF0000" "#000000").
Proof. now apply card_contrastResult_intro. Qed.

Lemma low_contrast_pass_badge_witness :
  isAAA strictKit = true /\ isTextElement redOnBlackShape = false
  /\ (4.5 <= ViolationCards.contrastRatio strictKit redOnBlackShape < 7)%R.
Proof.
  assert (V : ViolationCards.hasContrastViolation strictKit redOnBlackShape = true).
  { apply card_hasContrastViolation. eexists. split.
    - apply redOnBlack_contrastResult.
    - unfold currentContrast, checkedRatio. rewrite ratio_red_on_black, strictKit_isAAA.
      cbn. lra. }
  apply (low_contrast_pass_badge strictKit redOnBlackShape).
  - now apply card_low_contrast_listed.
  - unfold ViolationCards.badge. cbv zeta.
    unfold ViolationCards.primaryViolationType. rewrite V.
    cbn [String.eqb Ascii.eqb Bool.eqb andb].
    destruct (card_actualContrast strictKit redOnBlackShape _
                (ViolationCards.currentColor redOnBlackShape)
                (ViolationCards.suggestedColor strictKit redOnBlackShape)
                redOnBlack_contrastResult) as [A _].
    rewrite A. unfold currentContrast. rewrite ratio_red_on_black.
    replace (Rltb 0 5.252) with true by (symmetry; apply Rltb_true_iff; lra).
    rewrite getContrastBadge_label by lra.
    replace (Rleb 4.5 5.252) with true by (symmetry; apply Rleb_true_iff; lra).
    reflexivity.
Defined.

(** X28: a "Fail" badge comes with the reason.  When the card has a
    contrast against the background of the element (fill and container
    colours both readable), a badge "Fail", that is a ratio under 3, is
    only shown on a card that lists "Low Contrast". *)
Theorem fail_badge_lists_low_contrast (kit : BrandKit) (el : ScannedElement)
        (result : ContrastResult) :
  ViolationCards.contrastResult kit el = Some result ->
  ViolationCards.badge kit el = Some "Fail" ->
  In "Low Contrast" (ViolationCards.reasons kit el).
Proof.
  intros E HB.
  apply card_low_contrast_listed, card_hasContrastViolation.
  exists result. split; [exact E|].
  apply badge_label in HB. cbv zeta in HB.
  destruct (card_actualContrast kit el result (ViolationCards.currentColor el)
              (ViolationCards.suggestedColor kit el) E) as [A _].
  rewrite A in HB.
  assert (P : (ratio result < 3)%R).
  { destruct (Rleb 4.5 (ratio result)); [discriminate HB|].
    destruct (Rleb 3 (ratio result)) eqn:P; [discriminate HB|].
    now apply Rleb_false_iff in P. }
  unfold checkedRatio. destruct (isAAA kit), (isTextElement el); lra.
Qed.

Lemma whiteOnWhite_contrastResult :
  ViolationCards.contrastResult sampleKit whiteOnWhiteText
  = Some (currentContrast sampleKit whiteOnWhiteText "#FFFFFF" "#FFFFFF").
Proof. now apply card_contrastResult_intro. Qed.

Lemma fail_badge_lists_low_contrast_witness :
  In "Low Contrast" (ViolationCards.reasons sampleKit whiteOnWhiteText).
Proof.
  assert (V : ViolationCards.hasContrastViolation sampleKit whiteOnWhiteText = true).
  { apply card_hasContrastViolation. eexists. split.
    - apply whiteOnWhite_contrastResult.
    - unfold currentContrast, checkedRatio. rewrite ratio_same.
      destruct (isAAA sampleKit), (isTextElement whiteOnWhiteText); lra. }
  apply (fail_badge_lists_low_contrast sampleKit whiteOnWhiteText _
           whiteOnWhite_contrastResult).
  unfold ViolationCards.badge. cbv zeta.
  unfold ViolationCards.primaryViolationType. rewrite V.
  cbn [String.eqb Ascii.eqb Bool.eqb andb].
  destruct (card_actualContrast sampleKit whiteOnWhiteText _
              (ViolationCards.currentColor whiteOnWhiteText)
              (ViolationCards.suggestedColor sampleKit whiteOnWhiteText)
              whiteOnWhite_contrastResult) as [A _].
  rewrite A. unfold currentContrast. rewrite ratio_same.
  replace (Rltb 0 1) with true by (symmetry; apply Rltb_true_iff; lra).
  rewrite getContrastBadge_label by lra.
  replace (Rleb 4.5 1) with false by (symmetry; apply Rleb_false_iff; lra).
  replace (Rleb 3 1) with false by (symmetry; apply Rleb_false_iff; lra).
  reflexivity.
Defined.
(** ** Fix, through the document sandbox *)

(** X29: Fix on a font violation when the brand font is not one the
    sandbox can apply.  [handleFix] asks [fixFont] for the first allowed
    font of the kit.  When that font, trimmed and in lower case, is none of
    [arial], [courier] and [georgia], [fixFont] answers [false], [handleFix]
    throws and catches, and the audit is not run again: the colour fix, if
    there was one, stays applied, the font of the node is not changed and
    the list of violations is left as it was. *)
Theorem handleFix_unsupported_font
  (Content Doc : Type) (artboards : Doc -> list (Sandbox.Node Content))
  (Font : Type) (fromPostscriptName : string -> option Font)
  (applyFont : Sandbox.Node Content -> Font -> Doc -> Doc * bool)
  (scanDocument : Doc -> list ScannedElement)
  (fixColor : string -> string -> Doc -> Doc * bool)
  (kit : BrandKit) (el : ScannedElement) (st : AppState) (doc : Doc)
  (c : ascii) (f : string) :
  JS.truthy (Some (id el)) = true ->
  JS.truthy (fontName el)
  && negb (isFontAllowed (fontName el) (allowedFonts kit)) = true ->
  first (allowedFonts kit) = Some (String c f) ->
  ~ In (normalizeFontName (Some (String c f)))
       [Some "arial"; Some "courier"; Some "georgia"] ->
  handleFix Doc scanDocument fixColor
    (Sandbox.fixFont Content Doc artboards Font fromPostscriptName applyFont)
    kit el (st, doc)
  = (st, match determineSuggestedColor kit el with
         | Some (String _ _ as suggestedColor) =>
             fst (fixColor (id el) suggestedColor doc)
         | _ => doc
         end).
Proof.
  intros Hid Hfont Hfirst Hfam.
  unfold handleFix. rewrite Hid, Hfont, Hfirst. cbn [negb].
  set (doc' := match determineSuggestedColor kit el with
               | Some (String _ _ as suggestedColor) =>
                   fst (fixColor (id el) suggestedColor doc)
               | _ => doc
               end).
  rewrite (fixFont_unsupported_family Content Doc artboards Font fromPostscriptName
             applyFont (id el) (String c f) doc' Hfam).
  reflexivity.
Qed.

Lemma handleFix_unsupported_font_witness :
  handleFix (list (Sandbox.Node unit)) (fun _ => []) (fun _ _ d => (d, true))
    (Sandbox.fixFont unit (list (Sandbox.Node unit)) (fun d => d) string
       (fun postscriptName => Some postscriptName) (fun _ _ d => (d, true)))
    robotoKit (textWithFont "title" "Papyrus")
    ({| violations := [textWithFont "title" "Papyrus"]; fixAllSnapshot := None |},
     sampleDocument)
  = ({| violations := [textWithFont "title" "Papyrus"]; fixAllSnapshot := None |},
     sampleDocument).
Proof.
  apply (handleFix_unsupported_font unit (list (Sandbox.Node unit)) (fun d => d) string
           (fun postscriptName => Some postscriptName) (fun _ _ d => (d, true))
           (fun _ => []) (fun _ _ d => (d, true))
           robotoKit (textWithFont "title" "Papyrus")
           {| violations := [textWithFont "title" "Papyrus"]; fixAllSnapshot := None |}
           sampleDocument "R"%char "oboto").
  - reflexivity.
  - reflexivity.
  - reflexivity.
  - intros [H | [H | [H | []]]]; discriminate H.
Defined.

(** ** After a colour fix *)

(** What the next scan writes and reads for a canonical colour a fix has
    applied. *)
Lemma canonical_scanned_back (best : string) :
  canonical best ->
  exists written,
    (forall el, fillColor (afterFixColor el best) = Some written)
    /\ JS.truthy (Some written) = true
    /\ toHex6 (Some written)
       = Some (if String.eqb best "#000000" then "#0000FF" else best).
Proof.
  intros (d & -> & Hl & Hh & Hup).
  assert (Hne : d <> "") by (intros ->; discriminate Hl).
  assert (Hs : JS.stripLeadingHash (JS.trim (String "#" d)) = d)
    by (now rewrite trim_hash_hex).
  assert (Hhex : JS.isHexString d = true).
  { unfold JS.isHexString. destruct d; [now elim Hne | exact Hh]. }
  destruct (parse_then_write (String "#" d)) as (color & P & W).
  - rewrite Hs. exact Hhex.
  - rewrite Hs. now left.
  - rewrite Hs, Hup, Hl in W. cbn [Nat.eqb] in W.
    eexists. split; [intros el; cbn [afterFixColor fillColor]; rewrite P; exact W|].
    split; [reflexivity|].
    do 6 (destruct d as [|? d]; [discriminate Hl|]).
    destruct d; [|discriminate Hl].
    cbn [append]. rewrite toHex6_hash_digits; [|cbn [JS.allChars] in Hh |- *|discriminate].
    + unfold hex6Of.
      cbn [String.length Nat.eqb JS.slice Nat.sub String.substring
           JS.toUpperCase JS.mapChars append] in Hup |- *.
      injection Hup as U1 U2 U3 U4 U5 U6.
      rewrite U1, U2, U3, U4, U5, U6.
      change (String.eqb (String "#" ?x) "#000000") with (String.eqb x "000000").
      match goal with
      | |- context [String.eqb ?x "000000"] =>
          destruct (String.eqb_spec x "000000") as [E | _]; [|reflexivity]
      end.
      injection E as _ _ E3 E4 E5 E6. now rewrite E3, E4, E5, E6.
    + repeat (apply andb_prop in Hh as [? Hh]).
      repeat (apply andb_true_intro; split; trivial).
Qed.

(** X13: a suggestion taken from the safe list settles the element, black
    apart.  For a kit of canonical colours whose [minContrast] is at least
    4.5 (or for a text element), when the contrast check fails and some
    other allowed colour reaches the required ratio, the suggested colour
    differs from the current fill.  Once the fix has applied it, the next
    scan writes the fill with eight digits, which [toHex6] reads as the
    suggested colour, except for black, written [#000000FF] and read as
    [#0000FF].  For a suggestion other than black, the element as scanned
    after the fix passes both the palette check and the contrast check
    and is suggested the same colour again. *)
Theorem safe_suggestion_settles
        (kit : BrandKit) (el : ScannedElement) (currentHex bgHex : string) :
  Forall canonical (allowedColors kit) ->
  toHex6 (fillColor el) = Some currentHex ->
  toHex6 (containerFillColor el) = Some bgHex ->
  isContrastCompliant kit el currentHex bgHex = false ->
  safeList kit el currentHex bgHex <> [] ->
  isTextElement el = true \/ (4.5 <= minContrast kit)%R ->
  exists best,
    determineSuggestedColor kit el = Some best
    /\ In best (allowedColors kit)
    /\ best <> currentHex
    /\ toHex6 (fillColor (afterFixColor el best))
       = Some (if String.eqb best "#000000" then "#0000FF" else best)
    /\ (best <> "#000000" ->
        colorChecks kit (afterFixColor el best) = false
        /\ determineSuggestedColor kit (afterFixColor el best) = Some best).
Proof.
  intros Hl Hfill Hbg Hfail Hsafe Hmin.
  rewrite (determineSuggestedColor_violation kit el currentHex bgHex Hfill Hbg Hfail).
  destruct (reduce (closer currentHex) (safeList kit el currentHex bgHex)) as [best|] eqn:Ered;
    [|apply reduce_none in Ered; contradiction].
  exists best. split; [reflexivity|].
  apply reduce_closer_nearest in Ered as [Hin _].
  apply safeList_In in Hin as (Hin & n & Hn & Hne & Hratio).
  assert (Hcb : canonical best) by (rewrite Forall_forall in Hl; now apply Hl).
  rewrite (canonical_toHex6 best Hcb) in Hn. injection Hn as <-.
  split; [exact Hin|].
  split; [intros ->; now elim Hne|].
  destruct (canonical_scanned_back best Hcb) as (written & Hw & Htruthy & Hread).
  rewrite (Hw el). split; [exact Hread|].
  intros Hblack.
  destruct (String.eqb_spec best "#000000") as [E | _]; [contradiction|].
  assert (Hbrand : isBrandCompliant kit best = true)
    by (now apply isBrandCompliant_In).
  assert (Hpass : isContrastCompliant kit (afterFixColor el best) best bgHex = true).
  { apply isContrastCompliant_iff.
    change (checkedRatio kit (afterFixColor el best)) with (checkedRatio kit el).
    change (currentContrast kit (afterFixColor el best) best bgHex)
      with (currentContrast kit el best bgHex).
    apply Rle_trans with (requiredContrast kit el);
      [now apply checkedRatio_le_required|].
    unfold brandRatio in Hratio. unfold currentContrast.
    rewrite ratio_unfold in *. exact Hratio. }
  assert (Hbg' : containerFillColor (afterFixColor el best) = containerFillColor el)
    by reflexivity.
  split.
  - unfold colorChecks. rewrite (Hw el), Htruthy, Hread, Hbg'.
    rewrite (canonical_slice7 best Hcb), Hbrand,
            (toHex6_some_truthy _ _ Hbg), Hbg, Hpass.
    reflexivity.
  - rewrite (determineSuggestedColor_passing kit (afterFixColor el best) best).
    + now apply nearest_of_allowed.
    + rewrite (Hw el). exact Hread.
    + rewrite Hbg'. intros bg Hbg2.
      rewrite Hbg in Hbg2. injection Hbg2 as <-. exact Hpass.
Qed.

Lemma ratio_blue_on_white (options : ContrastOptions) :
  (8 <= ratio (calculateContrastRatio "#0000FF" "#FFFFFF" options))%R.
Proof.
  rewrite ratio_unfold.
  change (hexToRgb "#0000FF") with {| r := 0; g := 0; b := 255 |}.
  change (hexToRgb "#FFFFFF") with {| r := 255; g := 255; b := 255 |}.
  unfold getLuminance; cbn [r g b]. rewrite toLinear_0, toLinear_255.
  rewrite Rmax_right, Rmin_left by lra. lra.
Qed.

Lemma safe_suggestion_settles_witness :
  exists best,
    determineSuggestedColor blueKit greyOnWhiteShape = Some best
    /\ In best (allowedColors blueKit)
    /\ best <> "#EEEEEE"
    /\ toHex6 (fillColor (afterFixColor greyOnWhiteShape best))
       = Some (if String.eqb best "#000000" then "#0000FF" else best)
    /\ (best <> "#000000" ->
        colorChecks blueKit (afterFixColor greyOnWhiteShape best) = false
        /\ determineSuggestedColor blueKit (afterFixColor greyOnWhiteShape best)
           = Some best).
Proof.
  apply (safe_suggestion_settles blueKit greyOnWhiteShape "#EEEEEE" "#FFFFFF").
  - repeat constructor; eexists; repeat split; reflexivity.
  - reflexivity.
  - reflexivity.
  - apply (grey_on_white_fails blueKit greyOnWhiteShape). reflexivity.
  - intros E.
    assert (Hin : In "#0000FF" (safeList blueKit greyOnWhiteShape "#EEEEEE" "#FFFFFF")).
    { apply safeList_In. split; [right; now left|].
      exists "#0000FF". split; [reflexivity|]. split; [discriminate|].
      pose proof (required_at_4_5 blueKit greyOnWhiteShape eq_refl) as [H _].
      unfold brandRatio.
      pose proof (ratio_blue_on_white
                    {| largeText := isTextElement greyOnWhiteShape; nonText := false;
                       reportAAA := false |}) as Hb.
      lra. }
    rewrite E in Hin. contradiction.
  - right. cbn. lra.
Defined.
